(** * Darkroom print simulator: density compositor, masks, histogram, .ddr format

    Shallow embedding of the print-compositing code of the darkroom
    simulator (script.js: the scalar loop; the darkroom module: the
    shader pipeline, the histogram sampler and the binary project format),
    with the properties of its specification stated and proved over it.

    Numbers.  A JavaScript Number is modelled by [num]: an exact real for
    every finite value, plus the three special values of IEEE-754 that the
    code can produce ([Infinity], [-Infinity], [NaN]).  Arithmetic on
    finite values is exact (no rounding, no overflow, no signed zero);
    the special values follow IEEE-754.  [Math.log], [Math.exp] and
    [Math.pow] are the real functions.  Reading [undefined] as a number
    gives [NaN], as [ToNumber] does. *)

From Stdlib Require Import Reals Lra Lia ZArith List Bool Permutation String.
From Stdlib.Strings Require Import Byte.
Import ListNotations.

Local Open Scope R_scope.

(* ================================================================== *)
(** ** JavaScript numbers *)
(* ================================================================== *)

Inductive num : Type :=
| Fin (r : R)
| PInf
| NInf
| NaN.

Definition Rltb (a b : R) : bool := if Rlt_dec a b then true else false.
Definition Rleb (a b : R) : bool := if Rle_dec a b then true else false.
Definition Reqb (a b : R) : bool := if Req_dec_T a b then true else false.

(** [a < b], [a <= b], [a > b], [a >= b], [a === b] on numbers: every
    comparison with [NaN] is false. *)
Definition nlt (a b : num) : bool :=
  match a, b with
  | NaN, _ | _, NaN => false
  | Fin x, Fin y => Rltb x y
  | NInf, NInf => false
  | NInf, _ => true
  | PInf, _ => false
  | Fin _, PInf => true
  | Fin _, NInf => false
  end.

Definition nle (a b : num) : bool :=
  match a, b with
  | NaN, _ | _, NaN => false
  | Fin x, Fin y => Rleb x y
  | NInf, _ => true
  | PInf, PInf => true
  | PInf, _ => false
  | Fin _, PInf => true
  | Fin _, NInf => false
  end.

Definition ngt (a b : num) : bool := nlt b a.
Definition nge (a b : num) : bool := nle b a.

Definition neq (a b : num) : bool :=
  match a, b with
  | Fin x, Fin y => Reqb x y
  | PInf, PInf => true
  | NInf, NInf => true
  | _, _ => false
  end.

Definition nneg (a : num) : num :=
  match a with
  | Fin x => Fin (- x)
  | PInf => NInf
  | NInf => PInf
  | NaN => NaN
  end.

Definition nadd (a b : num) : num :=
  match a, b with
  | NaN, _ | _, NaN => NaN
  | Fin x, Fin y => Fin (x + y)
  | PInf, NInf | NInf, PInf => NaN
  | PInf, _ | _, PInf => PInf
  | NInf, _ | _, NInf => NInf
  end.

Definition nsub (a b : num) : num := nadd a (nneg b).

(** The infinity whose sign is the sign of [x]; [NaN] for [x = 0]
    (infinity times zero). *)
Definition inf_signed (x : R) (pos : bool) : num :=
  if Rltb 0 x then (if pos then PInf else NInf)
  else if Rltb x 0 then (if pos then NInf else PInf)
  else NaN.

Definition nmul (a b : num) : num :=
  match a, b with
  | NaN, _ | _, NaN => NaN
  | Fin x, Fin y => Fin (x * y)
  | Fin x, PInf | PInf, Fin x => inf_signed x true
  | Fin x, NInf | NInf, Fin x => inf_signed x false
  | PInf, PInf | NInf, NInf => PInf
  | PInf, NInf | NInf, PInf => NInf
  end.

Definition ndiv (a b : num) : num :=
  match a, b with
  | NaN, _ | _, NaN => NaN
  | Fin x, Fin y =>
      if Reqb y 0 then inf_signed x true else Fin (x / y)
  | Fin _, PInf | Fin _, NInf => Fin 0
  | PInf, Fin y => if Rltb y 0 then NInf else PInf
  | NInf, Fin y => if Rltb y 0 then PInf else NInf
  | _, _ => NaN
  end.

(** [Math.max] and [Math.min]: [NaN] as soon as one argument is. *)
Definition Math_max (a b : num) : num :=
  match a, b with
  | NaN, _ | _, NaN => NaN
  | _, _ => if nlt a b then b else a
  end.

Definition Math_min (a b : num) : num :=
  match a, b with
  | NaN, _ | _, NaN => NaN
  | _, _ => if nlt b a then b else a
  end.

Definition Math_exp (a : num) : num :=
  match a with
  | Fin x => Fin (exp x)
  | PInf => PInf
  | NInf => Fin 0
  | NaN => NaN
  end.

Definition Math_log (a : num) : num :=
  match a with
  | Fin x => if Rltb 0 x then Fin (ln x)
             else if Reqb x 0 then NInf else NaN
  | PInf => PInf
  | NInf => NaN
  | NaN => NaN
  end.

(** [Math.LN10], [Math.LN2], [Math.LOG10E]; the shader's literal
    2.302585092994046 is the same binary64 value as [Math.LN10]. *)
Definition LN10 : R := ln 10.
Definition LN2 : R := ln 2.
Definition LOG10E : R := / ln 10.

Definition Math_log10 (a : num) : num := ndiv (Math_log a) (Fin LN10).

(** [Math.pow(2, e)]. *)
Definition Math_pow2 (e : num) : num :=
  match e with
  | Fin s => Fin (exp (s * ln 2))
  | PInf => PInf
  | NInf => Fin 0
  | NaN => NaN
  end.

(** Truncation toward zero, [Math.round] (half up) and [ToInt32]
    (the [x | 0] idiom). *)
Definition Rtrunc (r : R) : Z :=
  if Rleb 0 r then Int_part r else (- Int_part (- r))%Z.

Definition Rround (r : R) : Z := Int_part (r + / 2).

Definition wrap32 (z : Z) : Z := ((z + 2 ^ 31) mod 2 ^ 32 - 2 ^ 31)%Z.

Definition ToInt32 (a : num) : Z :=
  match a with
  | Fin r => wrap32 (Rtrunc r)
  | _ => 0%Z
  end.

Definition Math_round (a : num) : num :=
  match a with
  | Fin r => Fin (IZR (Rround r))
  | _ => a
  end.

Declare Scope num_scope.
Delimit Scope num_scope with num.
Bind Scope num_scope with num.
Infix "+" := nadd : num_scope.
Infix "-" := nsub : num_scope.
Infix "*" := nmul : num_scope.
Infix "/" := ndiv : num_scope.
Notation "- x" := (nneg x) : num_scope.

(* ================================================================== *)
(** ** D-logE helpers (identical in script.js and the darkroom module) *)
(* ================================================================== *)

(** [function log10(x) { return Math.log(x) / Math.LN10; }] *)
Definition log10 (x : num) : num := (Math_log x / Fin LN10)%num.

(** [densityFromLogE(logE, Dmin, Dmax, k, E0)]:
    D = Dmin + span / (1 + exp(-k (logE - E0))), clamped to [Dmin, Dmax]. *)
Definition densityFromLogE (logE Dmin Dmax k E0 : num) : num :=
  let span := (Dmax - Dmin)%num in
  let D := (Dmin + span / (Fin 1 + Math_exp (- k * (logE - E0))))%num in
  Math_max Dmin (Math_min D Dmax).

(* ================================================================== *)
(** ** Paper model (the [papers] registry, the same in both files) *)
(* ================================================================== *)

Record GradeParam : Type := mkGrade {
  gp_k : R;                 (* k: contrast slope *)
  gp_speedShiftStops : R    (* speedShiftStops *)
}.

Record Tone : Type := mkTone { tone_r : R; tone_g : R; tone_b : R }.

Record ColorTone : Type := mkColorTone {
  highlights : Tone;
  midtones : Tone;
  shadows : Tone
}.

Record Paper : Type := mkPaper {
  baseExposure : R;
  Dmin : R;
  Dmax : R;
  gradeParams : list GradeParam;
  colorTone : ColorTone
}.

Definition ilford_multigrade : Paper :=
  mkPaper 16 0.06 2.05
    [ mkGrade 2.2 0.0; mkGrade 2.5 0.0; mkGrade 2.9 0.0; mkGrade 3.3 0.0;
      mkGrade 3.7 0.0; mkGrade 4.2 0.0; mkGrade 4.8 0.0; mkGrade 5.5 0.0;
      mkGrade 6.3 0.2; mkGrade 7.3 0.4; mkGrade 8.5 0.6; mkGrade 10.0 0.8 ]
    (mkColorTone (mkTone 0.97 0.99 1.00) (mkTone 0.96 0.98 1.00)
                 (mkTone 0.94 0.97 1.00)).

Definition kodak_polymax : Paper :=
  mkPaper 16 0.06 2.10
    [ mkGrade 2.3 0.0; mkGrade 2.6 0.0; mkGrade 3.0 0.0; mkGrade 3.4 0.0;
      mkGrade 3.9 0.0; mkGrade 4.5 0.0; mkGrade 5.2 0.0; mkGrade 6.0 0.2;
      mkGrade 7.0 0.4; mkGrade 8.2 0.6; mkGrade 9.6 0.8; mkGrade 11.0 1.0 ]
    (mkColorTone (mkTone 1.00 0.98 0.92) (mkTone 1.00 0.96 0.88)
                 (mkTone 1.00 0.94 0.82)).

Definition foma_variant : Paper :=
  mkPaper 16 0.06 1.95
    [ mkGrade 2.0 0.0; mkGrade 2.3 0.0; mkGrade 2.7 0.0; mkGrade 3.1 0.0;
      mkGrade 3.6 0.0; mkGrade 4.1 0.0; mkGrade 4.7 0.0; mkGrade 5.4 0.2;
      mkGrade 6.2 0.4; mkGrade 7.1 0.6; mkGrade 8.2 0.8; mkGrade 9.4 1.0 ]
    (mkColorTone (mkTone 1.00 0.97 0.94) (mkTone 1.00 0.95 0.90)
                 (mkTone 1.00 0.92 0.85)).

Definition oriental_seagull : Paper :=
  mkPaper 16 0.06 2.20
    [ mkGrade 2.4 0.0; mkGrade 2.8 0.0; mkGrade 3.2 0.0; mkGrade 3.7 0.0;
      mkGrade 4.2 0.0; mkGrade 4.8 0.0; mkGrade 5.5 0.0; mkGrade 6.3 0.2;
      mkGrade 7.2 0.4; mkGrade 8.3 0.6; mkGrade 9.6 0.8; mkGrade 11.0 1.0 ]
    (mkColorTone (mkTone 0.96 0.98 1.00) (mkTone 0.94 0.97 1.00)
                 (mkTone 0.90 0.95 1.00)).

(** [this.papers[paperType]]: [None] is [undefined]. *)
Definition papers (paperType : string) : option Paper :=
  if String.eqb paperType "ilford-multigrade" then Some ilford_multigrade
  else if String.eqb paperType "kodak-polymax" then Some kodak_polymax
  else if String.eqb paperType "foma-variant" then Some foma_variant
  else if String.eqb paperType "oriental-seagull" then Some oriental_seagull
  else None.

(** [paper.gradeParams[grade]] for an integer grade; [None] is
    [undefined] (every use then reads a property of it and throws). *)
Definition gradeParam (paper : Paper) (grade : Z) : option GradeParam :=
  if (grade <? 0)%Z then None
  else nth_error (gradeParams paper) (Z.to_nat grade).

(** The documented invariants of a paper: Dmax > Dmin >= 0, positive base
    exposure, positive slopes. *)
Definition valid_paper (paper : Paper) : Prop :=
  0 <= Dmin paper /\ Dmin paper < Dmax paper /\ 0 < baseExposure paper
  /\ Forall (fun p => 0 < gp_k p) (gradeParams paper).

(** The sigmoid look-up table [{ lut, lo, hi, step }]. *)
Record SigmoidLUT : Type := mkLUT {
  lut : list R;
  lut_lo : R;
  lut_hi : R;
  lut_step : R
}.

(** The table both files build: N samples of 1/(1+exp(-x)) at
    x = lo + i*step over [-12, 12], step = (hi - lo)/(N - 1).
    script.js builds it in [init] with N = 2048, the darkroom module in
    [makeSigmoidLUT] with N = 4096. *)
Definition buildSigmoidLUT (N : nat) : SigmoidLUT :=
  let lo := -12 in
  let hi := 12 in
  let step := (hi - lo) / (INR N - 1) in
  mkLUT (map (fun i => 1 / (1 + exp (- (lo + INR i * step)))) (seq 0 N))
        lo hi step.

(** A typed-array read [a[i]] used as a number: out of range is
    [undefined], which is [NaN] as a number. *)
Definition array_get (a : list R) (i : Z) : num :=
  if (i <? 0)%Z then NaN
  else match nth_error a (Z.to_nat i) with
       | Some v => Fin v
       | None => NaN
       end.

(** A store into a [Uint8ClampedArray] of an integer value. *)
Definition clamp_byte (z : Z) : Z := Z.max 0 (Z.min 255 z).


(** [midtoneLogEForGrade(paper, grade)]: the log exposure of the midtone,
    the base exposure shifted by the grade's stops.  [None]: reading
    [p.speedShiftStops] of an [undefined] grade throws. *)
Definition midtoneLogEForGrade (paper : Paper) (grade : Z) : option num :=
  match gradeParam paper grade with
  | None => None
  | Some p =>
      let baseE := Fin (baseExposure paper) in
      let Eshift := Math_pow2 (Fin (gp_speedShiftStops p)) in
      let Emidtone := (baseE * Eshift)%num in
      Some (log10 Emidtone)
  end.

(** [densityFromOneExposure(paper, timeSec, grade, trans, localMask)]:
    the density one exposure gives on its own. *)
Definition densityFromOneExposure (paper : Paper) (timeSec : num) (grade : Z)
  (trans localMask : num) : option num :=
  match gradeParam paper grade with
  | None => None
  | Some p =>
      let maskMul := if ngt localMask (Fin 0)
                     then (Fin 1 - localMask)%num else Fin 1 in
      let E := Math_max (Fin 1e-6) (timeSec * trans * maskMul)%num in
      let logE := log10 E in
      match midtoneLogEForGrade paper grade with
      | None => None
      | Some E0 =>
          Some (densityFromLogE logE (Fin (Dmin paper)) (Fin (Dmax paper))
                  (Fin (gp_k p)) E0)
      end
  end.
(* ================================================================== *)
(** ** Arrays of counters and strided loops *)
(* ================================================================== *)

(** The values [0, 4, 8, ...] below [n]: what [for (i = 0; i < n; i += 4)]
    runs through. *)
Definition steps4 (n : nat) : list nat :=
  map (fun i => (4 * i)%nat) (seq 0 ((n + 3) / 4)).

(** [h[i] = f(h[i])] on the bins of a histogram; an index outside the
    bins leaves them as they are. *)
Fixpoint update_at {A : Type} (f : A -> A) (h : list A) (i : nat) : list A :=
  match h, i with
  | [], _ => []
  | x :: t, O => f x :: t
  | x :: t, S i' => x :: update_at f t i'
  end.

(** [h[v]++] where [v] is read from a byte array: [None] is [undefined]
    (the read was out of range); the increment of [h[undefined]] or of
    an index outside the bins does not touch the bins. *)
Definition bump_at (incr : Z -> Z) (h : list Z) (v : option Z) : list Z :=
  match v with
  | Some v => if (0 <=? v)%Z then update_at incr h (Z.to_nat v) else h
  | None => h
  end.

(** The increment of a JavaScript number and of a [Uint32Array] cell. *)
Definition incr_number (c : Z) : Z := (c + 1)%Z.
Definition incr_uint32 (c : Z) : Z := ((c + 1) mod 2 ^ 32)%Z.

(** The three channels of a histogram. *)
Record Hist (A : Type) : Type := mkHist {
  hist_r : list A;
  hist_g : list A;
  hist_b : list A
}.
Arguments mkHist {A} _ _ _.
Arguments hist_r {A} _.
Arguments hist_g {A} _.
Arguments hist_b {A} _.

(** [new Array(256).fill(0)] and [new Uint32Array(256)]. *)
Definition zeros256 : list Z := repeat 0%Z 256.

(** A read [data[o]] of a byte array at an integer offset: [None] is
    [undefined]. *)
Definition byte_at (data : list Z) (o : Z) : option Z :=
  if (o <? 0)%Z then None else nth_error data (Z.to_nat o).

(** One step of a counting loop: the pixel whose red byte is at offset
    [o] of [data] is counted in the three channels. *)
Definition count_pixel (incr : Z -> Z) (data : list Z) (h : Hist Z) (o : Z)
  : Hist Z :=
  mkHist (bump_at incr (hist_r h) (byte_at data o))
         (bump_at incr (hist_g h) (byte_at data (o + 1)))
         (bump_at incr (hist_b h) (byte_at data (o + 2))).

(** The channel number [c] of a histogram (0 red, 1 green, 2 blue). *)
Definition channel {A : Type} (c : nat) (h : Hist A) : list A :=
  match c with
  | O => hist_r h
  | S O => hist_g h
  | _ => hist_b h
  end.

(** How many of the bytes read are the value [v]. *)
Definition occurrences (v : Z) (l : list (option Z)) : nat :=
  List.length (filter (fun o => match o with
                                | Some w => (w =? v)%Z
                                | None => false
                                end) l).

(** [Math.max] over the bins of the three channels, from 0. *)
Definition max_bin (h : Hist Z) : Z :=
  fold_left Z.max (hist_r h ++ hist_g h ++ hist_b h) 0%Z.


(** The array with the elements [i] and [i + 1] exchanged (left as it is
    when there are no two such elements), and the array after
    [splice(i, 1)]. *)
Fixpoint swap_at {A : Type} (i : nat) (l : list A) : list A :=
  match i, l with
  | O, a :: b :: rest => b :: a :: rest
  | S i', a :: rest => a :: swap_at i' rest
  | _, _ => l
  end.

Fixpoint remove_at {A : Type} (i : nat) (l : list A) : list A :=
  match i, l with
  | _, [] => []
  | O, _ :: rest => rest
  | S i', a :: rest => a :: remove_at i' rest
  end.

(** A store of a finite number into a [Uint8ClampedArray]: the number is
    clamped to 0..255 and rounded to the nearest integer, a tie to the
    even one. *)
Definition ToUint8Clamp (r : R) : Z :=
  if Rleb r 0 then 0%Z
  else if Rleb 255 r then 255%Z
  else
    let f := Int_part r in
    if Rltb (IZR f + 0.5) r then (f + 1)%Z
    else if Rltb r (IZR f + 0.5) then f
    else if Z.even f then f else (f + 1)%Z.
(* ================================================================== *)
(** ** script.js: the scalar compositing loop *)
(* ================================================================== *)

Module Script.

(** An exposure of script.js: the mask is a [Float32Array] of dodge
    values, one per pixel, or absent. *)
Record Exposure : Type := mkExposure {
  id : string;
  time : num;
  grade : Z;
  mask : option (list R)
}.

(** The per-exposure constants [pre[i]] of [processImage]. *)
Record PreExposure : Type := mkPre {
  pre_k : R;
  pre_E0 : num;
  pre_logTime : num;
  pre_mask : option (list R)
}.

(** One entry of [pre]: [None] when [paper.gradeParams[ex.grade]] is
    [undefined] and reading [p.k] throws. *)
Definition precompute1 (paper : Paper) (ex : Exposure) : option PreExposure :=
  let log10BaseE := (Math_log (Fin (baseExposure paper)) * Fin LOG10E)%num in
  let log10Two := LOG10E * LN2 in
  match gradeParam paper (grade ex) with
  | None => None
  | Some p =>
      Some (mkPre (gp_k p)
                  (log10BaseE + Fin (gp_speedShiftStops p * log10Two))%num
                  (Math_log (time ex) * Fin LOG10E)%num
                  (mask ex))
  end.

Fixpoint precompute (paper : Paper) (exposures : list Exposure)
  : option (list PreExposure) :=
  match exposures with
  | [] => Some []
  | ex :: rest =>
      match precompute1 paper ex with
      | None => None
      | Some p =>
          match precompute paper rest with
          | None => None
          | Some ps => Some (p :: ps)
          end
      end
  end.

(** The local [sigmoid] of [processImage]: 0 below the table, 1 above,
    else the sample at the truncated index. *)
Definition sigmoid (L : SigmoidLUT) (x : num) : num :=
  if nle x (Fin (lut_lo L)) then Fin 0
  else if nge x (Fin (lut_hi L)) then Fin 1
  else array_get (lut L) (ToInt32 ((x - Fin (lut_lo L)) / Fin (lut_step L))%num).

(** The excess density [Dexcess] one exposure gives at pixel [j]. *)
Definition Dexcess_of (Dmin spanD : num) (L : SigmoidLUT) (logT : num)
  (j : nat) (ex : PreExposure) : num :=
  let m := match pre_mask ex with
           | Some mk => array_get mk (Z.of_nat j)
           | None => Fin 0
           end in
  let safeMaskMul := if ngt m (Fin 0)
                     then Math_max (Fin 1e-6) (Fin 1 - m)%num
                     else Fin 1 in
  let logMask := if neq safeMaskMul (Fin 1) then Fin 0
                 else (Math_log safeMaskMul * Fin LOG10E)%num in
  let logE := (pre_logTime ex + logT + logMask)%num in
  let x := (Fin (pre_k ex) * (logE - pre_E0 ex))%num in
  let sig := sigmoid L x in
  let Dpix := (Dmin + spanD * sig)%num in
  (Dpix - Dmin)%num.

(** The inner loop over [pre], from a running sum [Dsum]: the excess is
    added when positive, and the loop breaks with [Dsum = spanD] as soon
    as the sum reaches [spanD]. *)
Fixpoint exposure_loop (Dmin spanD : num) (L : SigmoidLUT) (logT : num)
  (j : nat) (pre : list PreExposure) (Dsum : num) : num :=
  match pre with
  | [] => Dsum
  | ex :: rest =>
      let Dexcess := Dexcess_of Dmin spanD L logT j ex in
      if ngt Dexcess (Fin 0) then
        let Dsum' := (Dsum + Dexcess)%num in
        if nge Dsum' spanD then spanD
        else exposure_loop Dmin spanD L logT j rest Dsum'
      else exposure_loop Dmin spanD L logT j rest Dsum
  end.

(** The number of loop bodies run before the loop ends (by exhaustion or
    by the [break]). *)
Fixpoint exposure_loop_steps (Dmin spanD : num) (L : SigmoidLUT) (logT : num)
  (j : nat) (pre : list PreExposure) (Dsum : num) : nat :=
  match pre with
  | [] => O
  | ex :: rest =>
      let Dexcess := Dexcess_of Dmin spanD L logT j ex in
      if ngt Dexcess (Fin 0) then
        let Dsum' := (Dsum + Dexcess)%num in
        if nge Dsum' spanD then 1%nat
        else S (exposure_loop_steps Dmin spanD L logT j rest Dsum')
      else S (exposure_loop_steps Dmin spanD L logT j rest Dsum)
  end.

(** The amount the loop adds for one exposure, as a real: the excess
    when it is a positive number, else nothing. *)
Definition excess_R (Dmin spanD : num) (L : SigmoidLUT) (logT : num)
  (j : nat) (ex : PreExposure) : R :=
  match Dexcess_of Dmin spanD L logT j ex with
  | Fin e => Rmax 0 e
  | _ => 0
  end.

(** The unclamped sum of the excess densities of a list of exposures. *)
Definition excess_sum (Dmin spanD : num) (L : SigmoidLUT) (logT : num)
  (j : nat) (pre : list PreExposure) : R :=
  fold_right (fun ex acc => excess_R Dmin spanD L logT j ex + acc) 0 pre.

(** [Dfinal] of pixel [j]. *)
Definition Dfinal (paper : Paper) (L : SigmoidLUT) (logT : num) (j : nat)
  (pre : list PreExposure) : num :=
  let spanD := (Fin (Dmax paper) - Fin (Dmin paper))%num in
  let Dsum := exposure_loop (Fin (Dmin paper)) spanD L logT j pre (Fin 0) in
  if nge Dsum spanD then Fin (Dmax paper)
  else (Fin (Dmin paper) + Dsum)%num.

(** The stepped tone value 0..255 of a final density. *)
Definition value_of (paper : Paper) (Dfinal : num) : num :=
  let spanD := (Fin (Dmax paper) - Fin (Dmin paper))%num in
  let frac := Math_max (Fin 0)
                (Math_min (Fin 1) ((Dfinal - Fin (Dmin paper)) / spanD)%num) in
  let valueUnclamped := Math_round (Fin 255 * (Fin 1 - frac))%num in
  Math_max (Fin 0) (Math_min (Fin 255) valueUnclamped).

(** The four bytes written at [data[i..i+3]]. *)
Definition color_of (paper : Paper) (value : num) : Z * Z * Z * Z :=
  let tone := if ngt value (Fin 192) then highlights (colorTone paper)
              else if ngt value (Fin 64) then midtones (colorTone paper)
              else shadows (colorTone paper) in
  (clamp_byte (ToInt32 (value * Fin (tone_r tone))%num),
   clamp_byte (ToInt32 (value * Fin (tone_g tone))%num),
   clamp_byte (ToInt32 (value * Fin (tone_b tone))%num),
   255%Z).

(** The body of the main loop for pixel [j]. *)
Definition processPixel (paper : Paper) (L : SigmoidLUT) (logTrans : list R)
  (pre : list PreExposure) (j : nat) : Z * Z * Z * Z :=
  let logT := array_get logTrans (Z.of_nat j) in
  color_of paper (value_of paper (Dfinal paper L logT j pre)).

(** The final density of pixel [j] for a list of exposures; [None] when
    the pre-computation throws. *)
Definition pixel_density (paper : Paper) (L : SigmoidLUT) (logTrans : list R)
  (exposures : list Exposure) (j : nat) : option num :=
  match precompute paper exposures with
  | Some pre => Some (Dfinal paper L (array_get logTrans (Z.of_nat j)) j pre)
  | None => None
  end.

(** What one exposure adds at pixel [j], as a real. *)
Definition exposure_excess_R (paper : Paper) (L : SigmoidLUT) (logT : num)
  (j : nat) (ex : Exposure) : R :=
  match precompute1 paper ex with
  | Some p => excess_R (Fin (Dmin paper)) (Fin (Dmax paper - Dmin paper))
                L logT j p
  | None => 0
  end.

Definition exposures_excess_sum (paper : Paper) (L : SigmoidLUT) (logT : num)
  (j : nat) (exposures : list Exposure) : R :=
  fold_right (fun ex acc => exposure_excess_R paper L logT j ex + acc)
             0 exposures.

(** The transmittance pass of the image loader: the grey value of the
    negative, [t = inverted / 255], and [log10] of it with the EPS guard. *)
Definition logTrans_of (inverted : R) : R :=
  let t := inverted * (1 / 255) in
  let safeT := if Rltb 1e-6 t then t else 1e-6 in
  ln safeT * LOG10E.

(** The part of the simulator state that [processImage] reads. *)
Record Simulator : Type := mkSim {
  negativeImage : option (nat * nat);   (* naturalWidth, naturalHeight *)
  paperType : string;
  exposures : list Exposure;
  logTrans : list R;
  sigmoidLUT : SigmoidLUT
}.

Inductive outcome : Type :=
| NoRender                                 (* early [return] *)
| Thrown                                   (* a TypeError escapes *)
| Rendered (data : list (Z * Z * Z * Z)).  (* the pixels written *)

(** [processImage]: no render without a negative, without exposures or
    with an empty image; otherwise every pixel goes through the loop.
    The simulator state is returned as it was. *)
Definition processImage (s : Simulator) : Simulator * outcome :=
  match negativeImage s with
  | None => (s, NoRender)
  | Some (W, H) =>
      if (List.length (exposures s) =? 0)%nat then (s, NoRender)
      else match papers (paperType s) with
           | None => (s, Thrown)
           | Some paper =>
               if ((W =? 0) || (H =? 0))%nat then (s, NoRender)
               else match precompute paper (exposures s) with
                    | None => (s, Thrown)
                    | Some pre =>
                        (s, Rendered
                              (map (processPixel paper (sigmoidLUT s)
                                      (logTrans s) pre)
                                   (seq 0 (W * H))))
                    end
           end
  end.

(** [generateHistogram(imageData)], on the RGBA bytes of the rendered
    picture: the pixels are counted into 256 bins per channel, then every
    bin is divided by the largest count.  The result is what is stored
    in [this.histogramData]. *)
Definition histogram_counts (imageData : list Z) : Hist Z :=
  fold_left (count_pixel incr_number imageData)
            (map Z.of_nat (steps4 (List.length imageData)))
            (mkHist zeros256 zeros256 zeros256).

Definition normalize (maxCount : Z) (h : list Z) : list num :=
  map (fun c => (Fin (IZR c) / Fin (IZR maxCount))%num) h.

Definition generateHistogram (imageData : list Z) : Hist num :=
  let histData := histogram_counts imageData in
  let maxCount := max_bin histData in
  mkHist (normalize maxCount (hist_r histData))
         (normalize maxCount (hist_g histData))
         (normalize maxCount (hist_b histData)).

(** *** The mask brush *)

(** The mask canvas: its width and the alpha byte of every pixel, row
    after row.  A 2D canvas keeps one byte per channel and pixel, which
    is what [getImageData] reads back; the simulator reads the alpha
    only. *)
Record MaskCanvas : Type := mkCanvas {
  mc_width : nat;
  mc_alpha : list Z
}.

Inductive Tool : Type := Dodge | Erase.

(** The brush settings [_stamp] reads from the simulator. *)
Record Brush : Type := mkBrush {
  activeTool : Tool;
  brushFeather : R;    (* percentage of the brush size *)
  brushFlow : R        (* alpha of one dodge stamp *)
}.

(** [tInner] and [tMid] of [_stamp]: where the falloff begins and its
    middle stop. *)
Definition tInner (brush : Brush) : R :=
  Rmax 0 (Rmin 1 (1 - brushFeather brush / 100)).

Definition tMid (brush : Brush) : R :=
  Rmax (tInner brush) (Rmin 1 (1 - (brushFeather brush * 0.5) / 100)).

(** [globalAlpha] during a stamp: 1 for the eraser, the flow for the
    dodge tool; the canvas ignores an assignment outside [0, 1], which
    leaves the 1 the previous stamp reset it to. *)
Definition globalAlpha (brush : Brush) : R :=
  match activeTool brush with
  | Erase => 1
  | Dodge =>
      if Rleb 0 (brushFlow brush) && Rleb (brushFlow brush) 1
      then brushFlow brush else 1
  end.

(** The alpha of the radial gradient at the fraction [t] of the radius,
    for the colour stops (0, 1), (tInner, 1), (tMid, 0.6), (1, 0), the
    same for both tools: linear between two stops. *)
Definition gradient_alpha (brush : Brush) (t : R) : R :=
  if Rleb t (tInner brush) then 1
  else if Rltb t (tMid brush)
       then 1 + (0.6 - 1) * ((t - tInner brush) / (tMid brush - tInner brush))
  else if Rltb t 1
       then 0.6 + (0 - 0.6) * ((t - tMid brush) / (1 - tMid brush))
  else 0.

(** The alpha the filled arc of radius [radius] centred at (x, y) has at the
    point (px, py): nothing outside the arc, and nothing at all for a
    radius that is not positive. *)
Definition stamp_alpha (brush : Brush) (x y radius px py : R) : R :=
  let d := sqrt ((px - x) * (px - x) + (py - y) * (py - y)) in
  if Rleb radius 0 then 0
  else if Rleb d radius
       then globalAlpha brush * gradient_alpha brush (d / radius)
  else 0.

(** The two composite operations [_stamp] selects, on alpha:
    'source-over' for the dodge tool, 'destination-out' for the eraser. *)
Definition composite (tool : Tool) (a_src a_dst : R) : R :=
  match tool with
  | Dodge => a_src + a_dst * (1 - a_src)
  | Erase => a_dst * (1 - a_src)
  end.

(** The centre of pixel [j] of a canvas [w] pixels wide. *)
Definition pixel_centre (w j : nat) : R * R :=
  (INR (j mod w) + 0.5, INR (j / w) + 0.5).

(** The stamps of the [mousemove] handler between the last point and
    (x, y): one every quarter of the radius along the segment, the first
    at the last point.  [None]: with a step that is not positive the
    loop [for (t = 0; t <= dist; t += step)] does not end. *)
Definition segment_points (lastX lastY x y radius : R) : option (list (R * R)) :=
  let dx := x - lastX in
  let dy := y - lastY in
  let dist := sqrt (dx * dx + dy * dy) in
  let step := radius * 0.25 in
  if Rleb step 0 then None
  else Some (map (fun i =>
                    let t := INR i * step in
                    let f := if Reqb dist 0 then 0 else t / dist in
                    (lastX + dx * f, lastY + dy * f))
                 (seq 0 (S (Z.to_nat (Int_part (dist / step)))))).

(** [clearRect] over the whole mask canvas, as [clearMask] does. *)
Definition clearCanvas (canvas : MaskCanvas) : MaskCanvas :=
  mkCanvas (mc_width canvas) (map (fun _ => 0%Z) (mc_alpha canvas)).

(** The byte nearest to 255 times an alpha: what a canvas that rounds
    to the nearest byte stores. *)
Definition alpha_byte (a : R) : Z := clamp_byte (Rround (255 * a)).

(** [updateMaskData]: the mask of the selected exposure is the alpha of
    the canvas, [exp.mask[j] = data[4 j + 3] / 255]. *)
Definition updateMaskData (canvas : MaskCanvas) : list R :=
  map (fun b => IZR b / 255) (mc_alpha canvas).

(** What happens to the mask canvas, one operation at a time. *)
Inductive MaskOp : Type :=
| OpStamp (brush : Brush) (x y radius : R)
| OpSegment (brush : Brush) (lastX lastY x y radius : R)
| OpClear.

Section Canvas.

(** How the canvas turns the alpha it has composited into the byte it
    keeps.  The program does not say; it is a parameter here. *)
Variable store : R -> Z.

(** [_stamp(x, y, R)], with [radius] for [R]: the gradient disc is
    composited onto every pixel of the mask canvas, and the canvas
    keeps the byte of the result. *)
Definition _stamp (brush : Brush) (canvas : MaskCanvas) (x y radius : R)
  : MaskCanvas :=
  mkCanvas (mc_width canvas)
    (map (fun jb =>
            let c := pixel_centre (mc_width canvas) (fst jb) in
            store (composite (activeTool brush)
                     (stamp_alpha brush x y radius (fst c) (snd c))
                     (IZR (snd jb) / 255)))
         (combine (seq 0 (List.length (mc_alpha canvas))) (mc_alpha canvas))).

(** The stamps of a stroke segment, one after the other. *)
Definition stroke_segment (brush : Brush) (canvas : MaskCanvas)
  (lastX lastY x y radius : R) : option MaskCanvas :=
  match segment_points lastX lastY x y radius with
  | None => None
  | Some pts =>
      Some (fold_left (fun c p => _stamp brush c (fst p) (snd p) radius) pts canvas)
  end.

(** An operation that does not end leaves no canvas. *)
Definition apply_op (canvas : MaskCanvas) (op : MaskOp) : option MaskCanvas :=
  match op with
  | OpStamp brush x y radius => Some (_stamp brush canvas x y radius)
  | OpSegment brush lastX lastY x y radius =>
      stroke_segment brush canvas lastX lastY x y radius
  | OpClear => Some (clearCanvas canvas)
  end.

Fixpoint apply_ops (canvas : MaskCanvas) (ops : list MaskOp)
  : option MaskCanvas :=
  match ops with
  | [] => Some canvas
  | op :: rest =>
      match apply_op canvas op with
      | Some canvas' => apply_ops canvas' rest
      | None => None
      end
  end.

End Canvas.

(** *** The transmittance pass of the image loader *)

(** [gray = 0.299 r + 0.587 g + 0.114 b] and [inverted = 255 - gray],
    for the bytes of a pixel of the picture. *)
Definition gray_of (r g b : Z) : R :=
  0.299 * IZR r + 0.587 * IZR g + 0.114 * IZR b.

Definition inverted_of (r g b : Z) : R := 255 - gray_of r g b.

(** The first loop of [convertToNegative] over the RGBA bytes of the
    picture: [logTrans[j]] of every pixel, the logarithm of the
    unrounded inverted grey. *)
Fixpoint convertToNegative_logTrans (data : list Z) : list R :=
  match data with
  | r :: g :: b :: _ :: rest =>
      logTrans_of (inverted_of r g b) :: convertToNegative_logTrans rest
  | _ => []
  end.

(** *** The wheel over the mask canvas *)

(** [Math.sign] of a finite number. *)
Definition Math_sign (d : R) : R :=
  if Rltb 0 d then 1 else if Rltb d 0 then -1 else 0.

(** The brush size and the feather after a wheel event of [deltaY]
    (the feather with the Shift key down). *)
Definition wheel_brushSize (brushSize deltaY : R) : R :=
  Rmax 1 (Rmin 100 (brushSize - Math_sign deltaY * 5)).

Definition wheel_brushFeather (brushFeather deltaY : R) : R :=
  Rmax 0 (Rmin 100 (brushFeather - Math_sign deltaY * 5)).

(** The radius [R] of the brush on a mask canvas of [w] by [h] pixels:
    the brush size is a percentage of the smaller dimension. *)
Definition brush_radius (brushSize : R) (w h : nat) : R :=
  (brushSize / 100) * Rmin (INR w) (INR h).

(** *** The order of the exposures *)

(** [this.exposures.findIndex(exp => exp.id === exposureId)]; [None] is
    -1. *)
Fixpoint findIndex (exposureId : string) (exposures : list Exposure)
  : option nat :=
  match exposures with
  | [] => None
  | ex :: rest =>
      if String.eqb (id ex) exposureId then Some O
      else option_map S (findIndex exposureId rest)
  end.

(** What [selectExposure(exposureId)] does to the list: the first
    exposure of that id gets an all-zero mask of the size of the
    negative when it has none. *)
Fixpoint init_mask (negativeImage : option (nat * nat)) (exposureId : string)
  (exposures : list Exposure) : list Exposure :=
  match exposures with
  | [] => []
  | ex :: rest =>
      if String.eqb (id ex) exposureId then
        match mask ex, negativeImage with
        | None, Some (W, H) =>
            mkExposure (id ex) (time ex) (grade ex) (Some (repeat 0 (W * H)))
            :: rest
        | _, _ => ex :: rest
        end
      else ex :: init_mask negativeImage exposureId rest
  end.

(** [moveExposureUp(exposureId)] and [moveExposureDown(exposureId)]: the
    list and the selection afterwards. *)
Definition moveExposureUp (negativeImage : option (nat * nat))
  (exposures : list Exposure) (selected : option string)
  (exposureId : string) : list Exposure * option string :=
  match findIndex exposureId exposures with
  | None | Some O => (exposures, selected)
  | Some (S i) =>
      (init_mask negativeImage exposureId (swap_at i exposures),
       Some exposureId)
  end.

Definition moveExposureDown (negativeImage : option (nat * nat))
  (exposures : list Exposure) (selected : option string)
  (exposureId : string) : list Exposure * option string :=
  match findIndex exposureId exposures with
  | None => (exposures, selected)
  | Some index =>
      if (List.length exposures - 1 <=? index)%nat then (exposures, selected)
      else (init_mask negativeImage exposureId (swap_at index exposures),
            Some exposureId)
  end.

(** *** The picture that [convertToNegative] keeps *)

(** The first loop on a pixel of bytes [r g b]: the byte stored into
    the three colour channels ([data[i] = data[i + 1] = data[i + 2] =
    inverted]), and the transmittance [t] kept for printing. *)
Definition stored_inverted (r g b : Z) : Z := ToUint8Clamp (inverted_of r g b).

Definition trans_of (r g b : Z) : R := inverted_of r g b * (1 / 255).

(** The second loop on the same pixel: it reads the three bytes the
    first loop has stored and stores their inverted grey; this is the
    byte of the picture that is put on the canvas and shown. *)
Definition shown_byte (r g b : Z) : Z :=
  let n := stored_inverted r g b in
  ToUint8Clamp (inverted_of n n n).

(** *** Deleting an exposure *)

(** [deleteExposure(exposureId)]: the list and the selection afterwards.
    The ids are clock readings ([Date.now()]), which are truthy. *)
Definition deleteExposure (negativeImage : option (nat * nat))
  (exposures : list Exposure) (selected : option string)
  (exposureId : string) : list Exposure * option string :=
  match findIndex exposureId exposures with
  | None => (exposures, selected)
  | Some index =>
      let nextSelectedId :=
        match selected with
        | Some sel =>
            if String.eqb sel exposureId then
              if (index <? List.length exposures - 1)%nat
              then option_map id (nth_error exposures (index + 1))
              else if (0 <? index)%nat
              then option_map id (nth_error exposures (index - 1))
              else None
            else None
        | None => None
        end in
      let exposures := remove_at index exposures in
      match nextSelectedId with
      | Some i => (init_mask negativeImage i exposures, Some i)
      | None =>
          match exposures with
          | ex :: _ =>
              (init_mask negativeImage (id ex) exposures, Some (id ex))
          | [] => (exposures, None)
          end
      end
  end.
End Script.

(* ================================================================== *)
(** ** The darkroom module: GPU engine *)
(* ================================================================== *)

Module Darkroom.

(** An [ImageData]: RGBA bytes, four per pixel. *)
Record ImageData : Type := mkImageData {
  width : Z;
  height : Z;
  data : list Z
}.

(** An exposure of the darkroom module: the mask is the RGBA image of
    the mask canvas (its alpha channel is the dodge value), or [null]. *)
Record Exposure : Type := mkExposure {
  id : string;
  time : num;
  grade : Z;
  maskData : option ImageData
}.

(** [makeSigmoidLUT()]: N = 4096 samples over [-12, 12]. *)
Definition makeSigmoidLUT : SigmoidLUT := buildSigmoidLUT 4096.

(** [this.maxExposures = 12] and the shader's [MAX_EXPOSURES]. *)
Definition maxExposures : nat := 12.

(** The uniforms [render] uploads. *)
Record Uniforms : Type := mkUniforms {
  uDmin : num;
  uDmax : num;
  uHi : Tone;
  uMid : Tone;
  uSh : Tone;
  uLUTLo : num;
  uLUTStep : num;
  uLUTLenMinus1 : num;
  uExposureCount : nat;
  uLogT : list num;
  uK : list num;
  uE0 : list num;
  uHasMask : list Z
}.

(** The constants [render] computes for one exposure:
    (logT, k, E0, hasMask); [None] when [paper.gradeParams[grade]] is
    [undefined] and reading [p.k] throws. *)
Definition exposure_constants (paper : Paper) (ex : Exposure)
  : option (num * num * num * Z) :=
  match gradeParam paper (grade ex) with
  | None => None
  | Some p =>
      Some (Math_log10 (Math_max (Fin 1e-6) (time ex)),
            Fin (gp_k p),
            Math_log10 (Fin (baseExposure paper)
                        * Math_pow2 (Fin (gp_speedShiftStops p)))%num,
            match maskData ex with Some _ => 1%Z | None => 0%Z end)
  end.

Fixpoint all_constants (paper : Paper) (exposures : list Exposure)
  : option (list (num * num * num * Z)) :=
  match exposures with
  | [] => Some []
  | ex :: rest =>
      match exposure_constants paper ex with
      | None => None
      | Some c =>
          match all_constants paper rest with
          | None => None
          | Some cs => Some (c :: cs)
          end
      end
  end.

(** A typed array of [maxExposures] slots, zero beyond the values set. *)
Definition pad12 {A : Type} (zero : A) (l : list A) : list A :=
  l ++ repeat zero (maxExposures - List.length l).

(** [uploadLUT]: the table as bytes, [bytes[i] = Math.round(lut[i] * 255)]
    (a [Uint8Array] store keeps the value modulo 256). *)
Definition lut_bytes (L : SigmoidLUT) : list Z :=
  map (fun v => (Rround (v * 255) mod 256)%Z) (lut L).

(** [render(paper, exposures, sigmoidLUT)]: only the first
    [n = min(exposures.length, maxExposures)] exposures are read. *)
Definition render (paper : Paper) (exposures : list Exposure)
  (L : SigmoidLUT) : option Uniforms :=
  let n := Nat.min (List.length exposures) maxExposures in
  match all_constants paper (firstn n exposures) with
  | None => None
  | Some cs =>
      Some (mkUniforms
              (Fin (Dmin paper)) (Fin (Dmax paper))
              (highlights (colorTone paper)) (midtones (colorTone paper))
              (shadows (colorTone paper))
              (Fin (lut_lo L)) (Fin (lut_step L))
              (Fin (INR (List.length (lut L)) - 1))
              n
              (pad12 (Fin 0) (map (fun c => fst (fst (fst c))) cs))
              (pad12 (Fin 0) (map (fun c => snd (fst (fst c))) cs))
              (pad12 (Fin 0) (map (fun c => snd (fst c)) cs))
              (pad12 0%Z (map (fun c => snd c) cs)))
  end.

(** *** The fragment shader *)

(** GLSL [max], [min] and [clamp], by their defining comparisons. *)
Definition glsl_max (x y : num) : num := if nlt x y then y else x.
Definition glsl_min (x y : num) : num := if nlt y x then y else x.
Definition glsl_clamp (x lo hi : num) : num := glsl_min (glsl_max x lo) hi.

(** [float log10_(float x){ return log(x) / 2.302585092994046; }] *)
Definition log10_ (x : num) : num := (Math_log x / Fin LN10)%num.

(** A read of a normalised byte texel: [b / 255]; the coordinate is
    clamped to the edge. *)
Definition texel (bytes : list Z) (i : Z) : R :=
  let N := Z.of_nat (List.length bytes) in
  IZR (nth (Z.to_nat (Z.max 0 (Z.min (N - 1) i))) bytes 0%Z) / 255.

(** [texture(uSigmoidLUT, vec2(u, 0.5)).r] for the N x 1 table texture
    with LINEAR filtering and CLAMP_TO_EDGE: the two texels around
    [u*N - 1/2], blended by the fractional part.  A non-finite
    coordinate has no defined result; it is given [NaN]. *)
Definition texture_lut (bytes : list Z) (u : num) : num :=
  match u with
  | Fin u =>
      let c := u * INR (List.length bytes) - / 2 in
      let i0 := Int_part c in
      let w := c - IZR i0 in
      Fin ((1 - w) * texel bytes i0 + w * texel bytes (i0 + 1))
  | _ => NaN
  end.

(** [fetchSigmoid], with the table uniforms it reads as parameters. *)
Definition fetchSigmoid (uLUTLo uLUTStep uLUTLenMinus1 : num)
  (lutTex : list Z) (x : num) : num :=
  let idx := ((x - uLUTLo) / uLUTStep)%num in
  let idx := glsl_clamp idx (Fin 0) uLUTLenMinus1 in
  let u := ((idx + Fin 0.5) / (uLUTLenMinus1 + Fin 1))%num in
  texture_lut lutTex u.

(** The body of the exposure loop up to [extra], for the values the
    uniform arrays hold at the slot: [hasMask], [logT], [k], [E0], and
    the alpha [a] its mask texture gives at this fragment. *)
Definition slot_extra (uDmin uDmax : num) (fetch : num -> num)
  (logTrans : num) (hasMask : Z) (logT k E0 : num) (a : num) : num :=
  let span := (uDmax - uDmin)%num in
  let maskMul := if (hasMask =? 1)%Z then (Fin 1 - a)%num else Fin 1 in
  let logE := (logT + logTrans)%num in
  let logE := if nlt maskMul (Fin 1)
              then (logE + log10_ (glsl_max (Fin 1e-6) maskMul))%num
              else logE in
  let x := (k * (logE - E0))%num in
  let s := fetch x in
  let density := (uDmin + span * s)%num in
  (density - uDmin)%num.

(** The body of the exposure loop for slot [e]: the uniform arrays are
    read at [e]; the sampler chain gives the mask alpha of the slots
    0..11 ([maskA e] is the alpha of the mask texture of slot [e] at
    this fragment) and leaves 0 otherwise. *)
Definition shader_extra (U : Uniforms) (lutTex : list Z) (logTrans : num)
  (maskA : nat -> num) (e : nat) : num :=
  slot_extra (uDmin U) (uDmax U)
    (fetchSigmoid (uLUTLo U) (uLUTStep U) (uLUTLenMinus1 U) lutTex)
    logTrans
    (nth e (uHasMask U) 0%Z) (nth e (uLogT U) (Fin 0))
    (nth e (uK U) (Fin 0)) (nth e (uE0 U) (Fin 0))
    (if (e <? 12)%nat then maskA e else Fin 0).

(** [totalDensity += max(0.0, extra)]. *)
Definition shader_step (U : Uniforms) (lutTex : list Z) (logTrans : num)
  (maskA : nat -> num) (totalDensity : num) (e : nat) : num :=
  (totalDensity + glsl_max (Fin 0) (shader_extra U lutTex logTrans maskA e))%num.

(** What slot [e] adds, as a real. *)
Definition extra_R (U : Uniforms) (lutTex : list Z) (logTrans : num)
  (maskA : nat -> num) (e : nat) : R :=
  match shader_extra U lutTex logTrans maskA e with
  | Fin x => Rmax 0 x
  | _ => 0
  end.

(** The unclamped sum over the slots [es]. *)
Definition extra_sum (U : Uniforms) (lutTex : list Z) (logTrans : num)
  (maskA : nat -> num) (es : list nat) : R :=
  fold_right (fun e acc => extra_R U lutTex logTrans maskA e + acc) 0 es.

(** [totalDensity] after the loop and the final [min]: every one of the
    [uExposureCount] slots is processed, there is no early exit. *)
Definition shader_density (U : Uniforms) (lutTex : list Z) (trans : num)
  (maskA : nat -> num) : num :=
  let logTrans := log10_ (glsl_max (Fin 1e-6) trans) in
  let totalDensity :=
    fold_left (shader_step U lutTex logTrans maskA)
              (seq 0 (uExposureCount U)) (uDmin U) in
  glsl_min totalDensity (uDmax U).

(** One channel of the tone blend, for the tone multipliers [sh], [mid],
    [hi] of that channel. *)
Definition shader_channel (sh mid hi : R) (reflectance : num) : num :=
  if nlt reflectance (Fin 0.5) then
    let t := (reflectance * Fin 2)%num in
    ((Fin sh * (Fin 1 - t) + Fin mid * t) * reflectance)%num
  else
    let t := ((reflectance - Fin 0.5) * Fin 2)%num in
    ((Fin mid * (Fin 1 - t) + Fin hi * t) * reflectance)%num.

(** [outColor.rgb] from the total density: reflectance = 10^(-D). *)
Definition shader_color (U : Uniforms) (totalDensity : num)
  : num * num * num :=
  let reflectance := Math_exp (- totalDensity * Fin LN10)%num in
  (shader_channel (tone_r (uSh U)) (tone_r (uMid U)) (tone_r (uHi U)) reflectance,
   shader_channel (tone_g (uSh U)) (tone_g (uMid U)) (tone_g (uHi U)) reflectance,
   shader_channel (tone_b (uSh U)) (tone_b (uMid U)) (tone_b (uHi U)) reflectance).

(** [main()]. *)
Definition shader_main (U : Uniforms) (lutTex : list Z) (trans : num)
  (maskA : nat -> num) : num * num * num :=
  shader_color U (shader_density U lutTex trans maskA).

(** The alpha of an exposure's mask texture at pixel [j] after
    [uploadMasks]: the alpha byte of its mask image, or zero when the
    exposure has no usable mask (the texture is cleared).  The mask image
    has the size of the picture. *)
Definition exposure_alpha (ex : Exposure) (j : nat) : num :=
  match maskData ex with
  | Some md =>
      if ((width md =? 0) || (height md =? 0))%Z then Fin 0
      else Fin (IZR (nth (4 * j + 3) (data md) 0%Z) / 255)
  | None => Fin 0
  end.

(** The alpha the mask texture of slot [e] holds at pixel [j]. *)
Definition mask_alpha (exposures : list Exposure) (j : nat) (e : nat) : num :=
  match nth_error exposures e with
  | Some ex => exposure_alpha ex j
  | None => Fin 0
  end.

(** The transmittance texel of pixel [j]: the red byte of the negative,
    normalised. *)
Definition trans_texel (r8 : list Z) (j : nat) : num :=
  Fin (IZR (nth j r8 0%Z) / 255).

(** The fragment of pixel [j] for a project. *)
Definition render_pixel (paper : Paper) (exposures : list Exposure)
  (L : SigmoidLUT) (r8 : list Z) (j : nat) : option (num * num * num) :=
  match render paper exposures L with
  | None => None
  | Some U =>
      Some (shader_main U (lut_bytes L) (trans_texel r8 j)
              (mask_alpha exposures j))
  end.

(** The final density of pixel [j] for a project. *)
Definition render_density (paper : Paper) (exposures : list Exposure)
  (L : SigmoidLUT) (r8 : list Z) (j : nat) : option num :=
  match render paper exposures L with
  | None => None
  | Some U =>
      Some (shader_density U (lut_bytes L) (trans_texel r8 j)
              (mask_alpha exposures j))
  end.

(** What one exposure adds to the total density of pixel [j], as a real:
    the slot body on the constants [render] computes for it. *)
Definition exposure_extra_R (paper : Paper) (L : SigmoidLUT) (logTrans : num)
  (j : nat) (ex : Exposure) : R :=
  match exposure_constants paper ex with
  | Some (logT, k, E0, hasMask) =>
      match slot_extra (Fin (Dmin paper)) (Fin (Dmax paper))
              (fetchSigmoid (Fin (lut_lo L)) (Fin (lut_step L))
                 (Fin (INR (List.length (lut L)) - 1)) (lut_bytes L))
              logTrans hasMask logT k E0 (exposure_alpha ex j) with
      | Fin x => Rmax 0 x
      | _ => 0
      end
  | None => 0
  end.

(** The unclamped sum over a list of exposures. *)
Definition exposures_extra_sum (paper : Paper) (L : SigmoidLUT)
  (logTrans : num) (j : nat) (exposures : list Exposure) : R :=
  fold_right (fun ex acc => exposure_extra_R paper L logTrans j ex + acc)
             0 exposures.

(** The part of the simulator state that [processImage] reads. *)
Record Simulator : Type := mkSim {
  negativeImage : option (nat * nat);
  paperType : string;
  exposures : list Exposure;
  sigmoidLUT : SigmoidLUT;
  gpu_trans : list Z       (* the R8 transmittance texture *)
}.

Inductive outcome : Type :=
| NoRender
| Thrown
| Rendered (frame : list (num * num * num)).

(** [processImage]: the project's exposure list is handed to [render]
    and left as it is. *)
Definition processImage (s : Simulator) : Simulator * outcome :=
  match negativeImage s with
  | None => (s, NoRender)
  | Some (W, H) =>
      if (List.length (exposures s) =? 0)%nat then (s, NoRender)
      else match papers (paperType s) with
           | None => (s, NoRender)
           | Some paper =>
               match render paper (exposures s) (sigmoidLUT s) with
               | None => (s, Thrown)
               | Some U =>
                   (s, Rendered
                         (map (fun j =>
                                 shader_main U (lut_bytes (sigmoidLUT s))
                                   (trans_texel (gpu_trans s) j)
                                   (mask_alpha (exposures s) j))
                              (seq 0 (W * H))))
               end
           end
  end.

(** *** Histogram *)

(** The offsets [o = row + (x << 2)] visited by [_buildHistogramSampled]:
    every fourth row, every fourth pixel of the row.  [x << 2] is
    computed on 32-bit integers. *)
Definition sample_offsets (width height : nat) : list Z :=
  flat_map (fun y =>
              map (fun x => (Z.of_nat (y * width * 4)
                             + wrap32 (Z.of_nat x * 4))%Z)
                  (steps4 width))
           (steps4 height).

(** [_buildHistogramSampled(imageData)]: three [Uint32Array(256)]. *)
Definition _buildHistogramSampled (imageData : ImageData) : Hist Z :=
  fold_left (count_pixel incr_uint32 (data imageData))
            (sample_offsets (Z.to_nat (width imageData))
                            (Z.to_nat (height imageData)))
            (mkHist zeros256 zeros256 zeros256).

(** The [computeFull] fallback of [updateHistogram]: every pixel. *)
Definition computeFull (imageData : ImageData) : Hist Z :=
  fold_left (count_pixel incr_uint32 (data imageData))
            (map Z.of_nat (steps4 (List.length (data imageData))))
            (mkHist zeros256 zeros256 zeros256).

(** The scaling value [maxValue] of [updateHistogram]. *)
Definition maxValue (histogramData : Hist Z) : Z := max_bin histogramData.

(** *** The binary project format (.ddr) *)

(** Little-endian integers: the [k] low bytes of [n], and the value of a
    sequence of bytes.  A negative [n] is written in two's complement. *)
Fixpoint le_bytes (k : nat) (n : Z) : list Z :=
  match k with
  | O => []
  | S k' => (n mod 256)%Z :: le_bytes k' (n / 256)%Z
  end.

Fixpoint le_value (l : list Z) : Z :=
  match l with
  | [] => 0%Z
  | b :: t => (b + 256 * le_value t)%Z
  end.

(** What the parser of a buffer can end with: a value, the explicit
    [return null], an exception (every read past the end of the buffer
    throws a RangeError), or the exhaustion of the recursion bound of the
    model. *)
Inductive res (A : Type) : Type :=
| Ok (a : A)
| ReturnNull
| RangeError
| OutOfFuel.
Arguments Ok {A} _.
Arguments ReturnNull {A}.
Arguments RangeError {A}.
Arguments OutOfFuel {A}.

Definition bind {A B : Type} (r : res A) (f : A -> res B) : res B :=
  match r with
  | Ok a => f a
  | ReturnNull => ReturnNull
  | RangeError => RangeError
  | OutOfFuel => OutOfFuel
  end.

Notation "x <- r ;; k" := (bind r (fun x => k))
  (at level 61, r at next level, right associativity).

(** [new Uint8Array(buffer, offset, length)]: the bytes
    [offset .. offset + length - 1], a RangeError when they are not all
    inside the buffer. *)
Definition slice (buffer : list Z) (offset length : Z) : res (list Z) :=
  if ((0 <=? offset) && (0 <=? length)
      && (offset + length <=? Z.of_nat (List.length buffer)))%Z
  then Ok (firstn (Z.to_nat length) (skipn (Z.to_nat offset) buffer))
  else RangeError.

(** The reads of a [DataView], little-endian. *)
Definition getUint8 (buffer : list Z) (offset : Z) : res Z :=
  l <- slice buffer offset 1 ;; Ok (le_value l).

Definition getUint32 (buffer : list Z) (offset : Z) : res Z :=
  l <- slice buffer offset 4 ;; Ok (le_value l).

Definition getInt32 (buffer : list Z) (offset : Z) : res Z :=
  l <- slice buffer offset 4 ;; Ok (wrap32 (le_value l)).

(** A project as it is saved and loaded. *)
Record ProjectData : Type := mkProjectData {
  pd_paperType : string;
  pd_exposures : list Exposure
}.

Section Persistence.

(** The platform's codecs: [TextEncoder.encode], [TextDecoder.decode],
    and the IEEE-754 binary64 pattern of a number with its inverse (what
    [setFloat64] writes and [getFloat64] reads). *)
Variable TextEncoder_encode : string -> list Z.
Variable TextDecoder_decode : list Z -> string.
Variable float64_bits : num -> Z.
Variable float64_of_bits : Z -> num.

Definition getFloat64 (buffer : list Z) (offset : Z) : res num :=
  l <- slice buffer offset 8 ;; Ok (float64_of_bits (le_value l)).

(** The body of the exposure loop of [parseBinaryProjectData]: one
    exposure read at [offset], with the offset after it. *)
Definition read_exposure (buffer : list Z) (offset : Z) : res (Exposure * Z) :=
  idLength <- getUint32 buffer offset ;;
  let offset := (offset + 4)%Z in
  idBytes <- slice buffer offset idLength ;;
  let offset := (offset + idLength)%Z in
  let id := TextDecoder_decode idBytes in
  time <- getFloat64 buffer offset ;;
  let offset := (offset + 8)%Z in
  grade <- getInt32 buffer offset ;;
  let offset := (offset + 4)%Z in
  flag <- getUint8 buffer offset ;;
  let offset := (offset + 1)%Z in
  if (flag =? 1)%Z then
    width <- getUint32 buffer offset ;;
    let offset := (offset + 4)%Z in
    height <- getUint32 buffer offset ;;
    let offset := (offset + 4)%Z in
    maskDataArray <- slice buffer offset (width * height * 4) ;;
    let offset := (offset + width * height * 4)%Z in
    Ok (mkExposure id time grade (Some (mkImageData width height maskDataArray)),
        offset)
  else
    Ok (mkExposure id time grade None, offset).

(** The loop [for (i = 0; i < exposureCount; i++)], with the exposures
    read so far in reverse order.  Every turn reads at least 17 bytes, so
    a bound of one more than the length of the buffer is never reached. *)
Fixpoint read_exposures (fuel : nat) (buffer : list Z) (count : Z)
  (offset : Z) (acc : list Exposure) : res (list Exposure) :=
  if (count <=? 0)%Z then Ok (rev acc)
  else match fuel with
       | O => OutOfFuel
       | S fuel' =>
           eo <- read_exposure buffer offset ;;
           read_exposures fuel' buffer (count - 1) (snd eo) (fst eo :: acc)
       end.

(** The [try] block of [parseBinaryProjectData]. *)
Definition parse_body (fuel : nat) (buffer : list Z) : res ProjectData :=
  b0 <- getUint8 buffer 0 ;;
  if negb (b0 =? 68)%Z then ReturnNull else
  b1 <- getUint8 buffer 1 ;;
  if negb (b1 =? 68)%Z then ReturnNull else
  b2 <- getUint8 buffer 2 ;;
  if negb (b2 =? 82)%Z then ReturnNull else
  b3 <- getUint8 buffer 3 ;;
  if negb (b3 =? 77)%Z then ReturnNull else
  version <- getUint32 buffer 4 ;;
  if negb (version =? 1)%Z then ReturnNull else
  paperTypeLength <- getUint32 buffer 8 ;;
  paperTypeBytes <- slice buffer 12 paperTypeLength ;;
  let offset := (12 + paperTypeLength)%Z in
  let paperType := TextDecoder_decode paperTypeBytes in
  exposureCount <- getUint32 buffer offset ;;
  let offset := (offset + 4)%Z in
  exposures <- read_exposures fuel buffer exposureCount offset [] ;;
  Ok (mkProjectData paperType exposures).

(** [parseBinaryProjectData(buffer)]: the project, or [None] for [null]
    (returned, or after a caught exception).  The simulator is handed
    back as it was: the function reads nothing of it and writes nothing
    to it. *)
Definition parseBinaryProjectData (s : Simulator) (buffer : list Z)
  : Simulator * option ProjectData :=
  match parse_body (S (List.length buffer)) buffer with
  | Ok projectData => (s, Some projectData)
  | _ => (s, None)
  end.

(** What [saveProjectData] writes for one exposure. *)
Definition write_exposure (exp : Exposure) : list Z :=
  let idBytes := TextEncoder_encode (id exp) in
  le_bytes 4 (Z.of_nat (List.length idBytes))
  ++ map (fun b => (b mod 256)%Z) idBytes
  ++ le_bytes 8 (float64_bits (time exp))
  ++ le_bytes 4 (grade exp)
  ++ match maskData exp with
     | Some md =>
         [1%Z] ++ le_bytes 4 (width md) ++ le_bytes 4 (height md)
         ++ map (fun b => (b mod 256)%Z) (data md)
     | None => [0%Z]
     end.

(** The buffer [saveProjectData] builds from [this.paperType] and
    [this.exposures]: its size is the sum of the sizes of the parts, and
    the parts are written one after the other. *)
Definition project_buffer (paperType : string) (exposures : list Exposure)
  : list Z :=
  let paperTypeBytes := TextEncoder_encode paperType in
  [68; 68; 82; 77]%Z
  ++ le_bytes 4 1
  ++ le_bytes 4 (Z.of_nat (List.length paperTypeBytes))
  ++ map (fun b => (b mod 256)%Z) paperTypeBytes
  ++ le_bytes 4 (Z.of_nat (List.length exposures))
  ++ flat_map write_exposure exposures.

(** [saveProjectData()]: nothing is written without a file handle and a
    directory handle; otherwise the buffer goes to the file named after
    the picture, with the extension .ddr. *)
Definition saveProjectData (hasFileHandle hasDirectoryHandle : bool)
  (s : Simulator) : option (list Z) :=
  if negb hasFileHandle then None
  else if negb hasDirectoryHandle then None
  else Some (project_buffer (paperType s) (exposures s)).

(** A project the format can hold: lengths and sizes fit 32 bits, the
    grade is a 32-bit integer, a mask is an image (four bytes per pixel),
    and the platform's codecs give back the strings and the times. *)
Definition storable_exposure (exp : Exposure) : Prop :=
  (Z.of_nat (List.length (TextEncoder_encode (id exp))) < 2 ^ 32)%Z
  /\ TextDecoder_decode
       (map (fun b => (b mod 256)%Z) (TextEncoder_encode (id exp))) = id exp
  /\ (0 <= float64_bits (time exp) < 2 ^ 64)%Z
  /\ float64_of_bits (float64_bits (time exp)) = time exp
  /\ (- 2 ^ 31 <= grade exp < 2 ^ 31)%Z
  /\ match maskData exp with
     | Some md =>
         (0 <= width md < 2 ^ 32)%Z /\ (0 <= height md < 2 ^ 32)%Z
         /\ Z.of_nat (List.length (data md)) = (width md * height md * 4)%Z
         /\ Forall (fun b => (0 <= b <= 255)%Z) (data md)
     | None => True
     end.

Definition storable_project (paperType : string) (exposures : list Exposure)
  : Prop :=
  (Z.of_nat (List.length (TextEncoder_encode paperType)) < 2 ^ 32)%Z
  /\ TextDecoder_decode
       (map (fun b => (b mod 256)%Z) (TextEncoder_encode paperType)) = paperType
  /\ (Z.of_nat (List.length exposures) < 2 ^ 32)%Z
  /\ Forall storable_exposure exposures.

End Persistence.

(** *** Mask images *)

(** The loop of [invertDodgeMask]: [data[i] = 255 - data[i]] for
    i = 3, 7, 11, ...; the other bytes are kept. *)
Definition invert_alpha (data : list Z) : list Z :=
  map (fun ib => if (fst ib mod 4 =? 3)%nat
                 then clamp_byte (255 - snd ib)
                 else snd ib)
      (combine (seq 0 (List.length data)) data).

(** [invertDodgeMask(exposureId)] on the exposure found: nothing without
    a mask image. *)
Definition invertDodgeMask (ex : Exposure) : Exposure :=
  match maskData ex with
  | None => ex
  | Some md =>
      mkExposure (id ex) (time ex) (grade ex)
        (Some (mkImageData (width md) (height md) (invert_alpha (data md))))
  end.


(** *** The exposure list and its history *)

(** A saved state of the history: deep copies of the exposures, the
    paper and the selection. *)
Record Snapshot : Type := mkSnapshot {
  snap_exposures : list Exposure;
  snap_paperType : string;
  snap_selectedExposureId : option string
}.

(** The part of the simulator that the list operations and the history
    work on.  The two stacks are arrays: the newest state is the last.
    The document holds one item per exposure of the list, found by the
    exposure's id. *)
Record Editor : Type := mkEditor {
  ed_negativeImage : option (Z * Z);      (* width, height *)
  ed_paperType : string;
  ed_exposures : list Exposure;
  selectedExposureId : option string;     (* [None] is [null] *)
  loadingProjectData : bool;
  history : list Snapshot;
  redoStack : list Snapshot
}.

Definition maxHistoryLength : nat := 20.

Definition snapshot (s : Editor) : Snapshot :=
  mkSnapshot (ed_exposures s) (ed_paperType s) (selectedExposureId s).

Definition with_project (s : Editor) (paperType : string)
  (exposures : list Exposure) (selected : option string) : Editor :=
  mkEditor (ed_negativeImage s) paperType exposures selected
    (loadingProjectData s) (history s) (redoStack s).

Definition with_exposures (s : Editor) (exposures : list Exposure) : Editor :=
  with_project s (ed_paperType s) exposures (selectedExposureId s).

Definition with_selected (s : Editor) (selected : option string) : Editor :=
  with_project s (ed_paperType s) (ed_exposures s) selected.

Definition with_stacks (s : Editor) (h r : list Snapshot) : Editor :=
  mkEditor (ed_negativeImage s) (ed_paperType s) (ed_exposures s)
    (selectedExposureId s) (loadingProjectData s) h r.

(** [saveState()]: the current state is pushed, the oldest state is
    dropped when more than [maxHistoryLength] are held, and the redo
    stack is emptied. *)
Definition saveState (s : Editor) : Editor :=
  let h := history s ++ [snapshot s] in
  let h := if (maxHistoryLength <? List.length h)%nat then tl h else h in
  with_stacks s h [].

(** [this.exposures.findIndex(exp => exp.id === exposureId)]; [None] is
    -1. *)
Fixpoint findIndex (exposureId : string) (exposures : list Exposure)
  : option nat :=
  match exposures with
  | [] => None
  | ex :: rest =>
      if String.eqb (id ex) exposureId then Some O
      else option_map S (findIndex exposureId rest)
  end.

(** [selectExposure(exposureId)]: the selection changes when the
    document has an item for the id. *)
Definition selectExposure (s : Editor) (exposureId : string) : Editor :=
  match findIndex exposureId (ed_exposures s) with
  | Some _ => with_selected s (Some exposureId)
  | None => s
  end.

(** Whether a saved selection is truthy: neither [null] nor the empty
    string. *)
Definition truthy_id (selected : option string) : option string :=
  match selected with
  | Some i => if String.eqb i "" then None else Some i
  | None => None
  end.

(** What [undo] and [redo] do with the state they take from a stack:
    paper and exposures are restored from it, then its selection is
    selected, or the first exposure when it has none. *)
Definition restore (s : Editor) (st : Snapshot) (h r : list Snapshot)
  : Editor :=
  let s1 := with_stacks
              (with_project s (snap_paperType st) (snap_exposures st)
                 (selectedExposureId s)) h r in
  match truthy_id (snap_selectedExposureId st) with
  | Some i => selectExposure s1 i
  | None =>
      match snap_exposures st with
      | ex :: _ => selectExposure s1 (id ex)
      | [] => s1
      end
  end.

Definition undo (s : Editor) : Editor :=
  match history s with
  | [] => s
  | _ :: _ =>
      restore s (last (history s) (snapshot s))
        (removelast (history s)) (redoStack s ++ [snapshot s])
  end.

Definition redo (s : Editor) : Editor :=
  match redoStack s with
  | [] => s
  | _ :: _ =>
      restore s (last (redoStack s) (snapshot s))
        (history s ++ [snapshot s]) (removelast (redoStack s))
  end.

(** [moveExposure(exposureId, direction)]. *)
Definition moveExposure (s : Editor) (exposureId direction : string)
  : Editor :=
  let s := saveState s in
  match findIndex exposureId (ed_exposures s) with
  | None => s
  | Some index =>
      if (String.eqb direction "up" && (0 <? index)%nat)%bool
      then with_exposures s (swap_at (index - 1) (ed_exposures s))
      else if (String.eqb direction "down"
               && (index <? List.length (ed_exposures s) - 1)%nat)%bool
      then with_exposures s (swap_at index (ed_exposures s))
      else s
  end.

(** [ctx.createImageData(w, h)]: a transparent image. *)
Definition createImageData (w h : Z) : ImageData :=
  mkImageData w h (repeat 0%Z (Z.to_nat (w * h * 4))).

(** [addExposure()], with the string [now] that [Date.now().toString()]
    gives: an exposure of 16 s at grade 2 is appended and selected. *)
Definition addExposure (now : string) (s : Editor) : Editor :=
  let initialMaskData :=
    match ed_negativeImage s with
    | Some (w, h) => Some (createImageData w h)
    | None => None
    end in
  let exposure := mkExposure now (Fin 16) 5 initialMaskData in
  selectExposure (with_exposures s (ed_exposures s ++ [exposure])) now.

(** [deleteExposure(exposureId)]. *)
Definition deleteExposure (now : string) (s : Editor) (exposureId : string)
  : Editor :=
  let s := saveState s in
  match findIndex exposureId (ed_exposures s) with
  | None => s
  | Some index =>
      let s := with_exposures s (remove_at index (ed_exposures s)) in
      let s :=
        match selectedExposureId s with
        | Some sel =>
            if String.eqb sel exposureId then
              match ed_exposures s with
              | ex :: _ => selectExposure s (id ex)
              | [] => with_selected s None
              end
            else s
        | None => s
        end in
      if ((List.length (ed_exposures s) =? 0)%nat
          && negb (loadingProjectData s))%bool
      then addExposure now s
      else s
  end.

(** [cloneExposure(exposureId)]: a copy of the first exposure with the
    id is appended under the id [now] and selected. *)
Definition cloneExposure (now : string) (s : Editor) (exposureId : string)
  : Editor :=
  let s := saveState s in
  match find (fun ex => String.eqb (id ex) exposureId) (ed_exposures s) with
  | None => s
  | Some sourceExposure =>
      let clonedExposure :=
        mkExposure now (time sourceExposure) (grade sourceExposure)
          (match maskData sourceExposure with
           | Some md =>
               Some (mkImageData (width md) (height md)
                       (map clamp_byte
                          (firstn (List.length (data (createImageData
                                                        (width md) (height md))))
                                  (data md)
                           ++ repeat 0%Z
                                (List.length (data (createImageData
                                                      (width md) (height md)))
                                 - List.length (data md)))))
           | None => None
           end) in
      selectExposure
        (with_exposures s (ed_exposures s ++ [clonedExposure])) now
  end.

(** What the user can do to the list, one step at a time.  [OpEdit]
    stands for every change of the project that leaves the two stacks
    alone (a new time or grade, another paper, a painted mask, a loaded
    project). *)
Inductive EditorOp : Type :=
| OpSaveState
| OpUndo
| OpRedo
| OpMove (exposureId direction : string)
| OpDelete (now exposureId : string)
| OpClone (now exposureId : string)
| OpAdd (now : string)
| OpEdit (paperType : string) (exposures : list Exposure)
         (selected : option string).

Definition run_op (s : Editor) (op : EditorOp) : Editor :=
  match op with
  | OpSaveState => saveState s
  | OpUndo => undo s
  | OpRedo => redo s
  | OpMove i d => moveExposure s i d
  | OpDelete now i => deleteExposure now s i
  | OpClone now i => cloneExposure now s i
  | OpAdd now => addExposure now (saveState s)
  | OpEdit p l sel => with_project s p l sel
  end.

Definition run_ops (s : Editor) (ops : list EditorOp) : Editor :=
  fold_left run_op ops s.

(** *** The strokes of the mask brush *)

(** The diameter of the brush in canvas pixels,
    [Math.max(2, maskCanvas.width * (brushSize / 100))]. *)
Definition brushSizePx (canvasWidth brushSize : R) : R :=
  Rmax 2 (canvasWidth * (brushSize / 100)).

(** The loop of [drawMaskLine]: [n] points handed to [drawMaskPoint],
    the running point moved by [(ix, iy)] after each. *)
Fixpoint drawMaskLine_loop (n : nat) (x y ix iy : R) : list (R * R) :=
  match n with
  | O => []
  | S n' => (x, y) :: drawMaskLine_loop n' (x + ix) (y + iy) ix iy
  end.

(** [drawMaskLine(x1, y1, x2, y2)]: the points handed to
    [drawMaskPoint], in order ([i] runs from 0 to [steps] included). *)
Definition drawMaskLine (canvasWidth brushSize x1 y1 x2 y2 : R)
  : list (R * R) :=
  let dx := x2 - x1 in
  let dy := y2 - y1 in
  let dist := sqrt (dx * dx + dy * dy) in
  if Rltb dist 1 then [(x2, y2)]
  else
    let step := brushSizePx canvasWidth brushSize / 2 in
    let steps := Z.max 1 (ToInt32 (Fin (dist / step))) in
    let ix := dx / IZR steps in
    let iy := dy / IZR steps in
    drawMaskLine_loop (S (Z.to_nat steps)) x1 y1 ix iy.

(** *** Loading a project into the editor *)

(** Whether a number is truthy: neither 0 nor NaN. *)
Definition truthy (x : num) : bool :=
  match x with
  | Fin r => negb (Reqb r 0)
  | NaN => false
  | _ => true
  end.

(** The mask [addExposure] gives a new exposure. *)
Definition initialMaskData (s : Editor) : option ImageData :=
  match ed_negativeImage s with
  | Some (w, h) => Some (createImageData w h)
  | None => None
  end.

(** [this.exposures.find(e => e.id === exposureId)] and the writes to
    the exposure found: the first exposure with the id becomes [f] of
    itself. *)
Fixpoint update_found (exposureId : string) (f : Exposure -> Exposure)
  (exposures : list Exposure) : list Exposure :=
  match exposures with
  | [] => []
  | ex :: rest =>
      if String.eqb (id ex) exposureId then f ex :: rest
      else ex :: update_found exposureId f rest
  end.

(** The writes of [applyProjectData] to the exposure found, for a saved
    exposure [exp] as [parseBinaryProjectData] reads it (a number, an
    Int32 and a mask or [null]): the time when it is truthy, the grade,
    the mask when there is one. *)
Definition load_values (exp exposure : Exposure) : Exposure :=
  mkExposure (id exposure)
    (if truthy (time exp) then time exp else time exposure)
    (grade exp)
    (match maskData exp with
     | Some md => Some md
     | None => maskData exposure
     end).

(** One turn of the [forEach] of [applyProjectData], [now] being what
    [Date.now().toString()] gives inside [addExposure]. *)
Definition load_exposure (now : string) (s : Editor) (exp : Exposure)
  : Editor :=
  let s := addExposure now s in
  with_exposures s (update_found now (load_values exp) (ed_exposures s)).

(** The [forEach]; [now k] is the clock reading of the [k]-th call of
    [addExposure]. *)
Fixpoint load_exposures (now : nat -> string) (k : nat) (s : Editor)
  (exps : list Exposure) : Editor :=
  match exps with
  | [] => s
  | exp :: rest =>
      load_exposures now (S k) (load_exposure (now k) s exp) rest
  end.

(** [applyProjectData(projectData)]; [None] is [null]. *)
Definition applyProjectData (now : nat -> string) (s : Editor)
  (projectData : option ProjectData) : Editor :=
  match projectData with
  | None => s
  | Some pd =>
      let s :=
        if String.eqb (pd_paperType pd) "" then s
        else with_project s (pd_paperType pd) (ed_exposures s)
               (selectedExposureId s) in
      match pd_exposures pd with
      | [] => s
      | _ :: _ => load_exposures now 0 (with_exposures s []) (pd_exposures pd)
      end
  end.

(** *** The negative *)

(** The loop of [createNegativeImage] on a pixel of bytes [r g b]: the
    byte stored into the three colour channels. *)
Definition createNegativeImage_byte (r g b : Z) : Z :=
  let gray := 0.299 * IZR r + 0.587 * IZR g + 0.114 * IZR b in
  let inverted := 255 - gray in
  ToUint8Clamp inverted.

(** The loop of [createNegativeImage] over the RGBA bytes of the
    picture: the three colour channels of every pixel get the byte, the
    alpha stays. *)
Fixpoint createNegativeImage (data : list Z) : list Z :=
  match data with
  | r :: g :: b :: a :: rest =>
      let n := createNegativeImage_byte r g b in
      n :: n :: n :: a :: createNegativeImage rest
  | _ => []
  end.

(** [uploadTransmittanceFromImageData]: the red channel of every pixel,
    [r8[j] = data[4 j]]. *)
Fixpoint uploadTransmittanceFromImageData (data : list Z) : list Z :=
  match data with
  | r :: _ :: _ :: _ :: rest => r :: uploadTransmittanceFromImageData rest
  | _ => []
  end.
End Darkroom.

(* ================================================================== *)
(** ** Well-formedness of the inputs *)
(* ================================================================== *)

(** A usable look-up table: a non-empty domain, a positive step, enough
    samples to cover the domain, samples in [0, 1]. *)
Definition valid_lut (L : SigmoidLUT) : Prop :=
  lut_lo L < lut_hi L
  /\ 0 < lut_step L
  /\ (lut_hi L - lut_lo L) / lut_step L <= INR (List.length (lut L))
  /\ (Z.of_nat (List.length (lut L)) < 2 ^ 31)%Z
  /\ Forall (fun v => 0 <= v <= 1) (lut L).

(** A mask value, or a canvas alpha: a number of [0, 1]. *)
Definition unit_interval (a : R) : Prop := 0 <= a <= 1.

(** A byte. *)
Definition is_byte (b : Z) : Prop := (0 <= b <= 255)%Z.

(** A way of storing an alpha of [0, 1] into the byte of a canvas
    pixel: the result is a byte, and it is less than one step away from
    255 times the alpha (rounding to the nearest byte, down or up all
    qualify). *)
Definition byte_store (store : R -> Z) : Prop :=
  forall a, 0 <= a <= 1 ->
            is_byte (store a) /\ Rabs (IZR (store a) - 255 * a) < 1.


(** One exposure as the two programs hold it, seen from pixel [j]: the
    same time and grade, and the same dodge value at the pixel (the mask
    of script.js holds the alpha of the mask image as a fraction). *)
Definition same_exposure (j : nat) (es : Script.Exposure)
  (ed : Darkroom.Exposure) : Prop :=
  Script.time es = Darkroom.time ed
  /\ Script.grade es = Darkroom.grade ed
  /\ match Script.mask es, Darkroom.maskData ed with
     | None, None => True
     | Some mk, Some _ =>
         array_get mk (Z.of_nat j) = Darkroom.exposure_alpha ed j
     | _, _ => False
     end.

(** An exposure time at or over the shader's guard of 1e-6 seconds. *)
Definition usable_time (t : num) : Prop := exists r, t = Fin r /\ 1e-6 <= r.

(** The negative at a pixel of bytes [r g b], as the two programs read
    it when they print: the distance between the log-transmittance of
    script.js (the logarithm of the unrounded inverted grey) and the one
    of the shader (the logarithm of the byte of the transmittance
    texture, with the same guard of 1e-6). *)
Definition logTrans_gap (r g b : Z) : R :=
  Rabs (Script.logTrans_of (Script.inverted_of r g b)
        - Script.logTrans_of (IZR (Darkroom.createNegativeImage_byte r g b))).

(** A selection that names an exposure of the list. *)
Definition selection_ok (exposures : list Darkroom.Exposure)
  (selected : option string) : Prop :=
  exists i, selected = Some i /\ i <> ""%string
            /\ Darkroom.findIndex i exposures <> None.

(** The dodge value the scalar loop reads for an exposure at pixel [j]:
    [mask[j]], and 0 for an exposure without mask. *)
Definition dodge_at (ex : Script.Exposure) (j : nat) : num :=
  match Script.mask ex with
  | Some mk => array_get mk (Z.of_nat j)
  | None => Fin 0
  end.
(* ================================================================== *)
(** ** Concrete inputs used by the examples *)
(* ================================================================== *)

(** A one-sample table whose sample is 1.5/1.99, so that one exposure on
    the Ilford paper gives an excess density of exactly 1.5. *)
Definition lut_150 : SigmoidLUT := mkLUT [1.5 / 1.99] (-12) 12 24.

(** A pre-computed exposure at the midtone (x = 0), without mask. *)
Definition pre_midtone : Script.PreExposure :=
  Script.mkPre 4.2 (Fin 0) (Fin 0) None.

(** A one-pixel picture on the Ilford paper: the negative is white at
    that pixel (inverted grey 255, transmittance 1). *)
Definition script_sim (exposures : list Script.Exposure) : Script.Simulator :=
  Script.mkSim (Some (1, 1)%nat) "ilford-multigrade" exposures
    [Script.logTrans_of 255] (buildSigmoidLUT 2048).

(** Grade 2 exposures (index 5, k = 4.2): 0.016 s is three decades under
    the base exposure of 16 s, 16000 s three decades over it. *)
Definition script_low (name : string) : Script.Exposure :=
  Script.mkExposure name (Fin 0.016) 5 None.

Definition script_high (name : string) : Script.Exposure :=
  Script.mkExposure name (Fin 16000) 5 None.

Definition script_lows12 : list Script.Exposure :=
  [ script_low "e01"; script_low "e02"; script_low "e03"; script_low "e04";
    script_low "e05"; script_low "e06"; script_low "e07"; script_low "e08";
    script_low "e09"; script_low "e10"; script_low "e11"; script_low "e12" ].

(** Thirteen exposures: twelve weak ones, then a saturating one. *)
Definition script_exposures13 : list Script.Exposure :=
  script_lows12 ++ [script_high "e13"].

(** The constants [processImage] pre-computes on the Ilford paper for a
    grade 2 exposure of [t] seconds without mask. *)
Definition ilford_pre (t : R) : Script.PreExposure :=
  Script.mkPre 4.2 (Fin (ln 16 * LOG10E + 0.0 * (LOG10E * LN2)))
    (Fin (ln t * LOG10E)) None.

(** A picture of two pixels, as the RGBA bytes of its image data: a
    black pixel, and a white pixel with a little less blue. *)
Definition picture_2px : list Z := [0; 0; 0; 255; 255; 255; 251; 255]%Z.

(** The same exposures in the darkroom module, without mask image. *)
Definition gpu_low (name : string) : Darkroom.Exposure :=
  Darkroom.mkExposure name (Fin 0.016) 5 None.

Definition gpu_high (name : string) : Darkroom.Exposure :=
  Darkroom.mkExposure name (Fin 16000) 5 None.

Definition gpu_lows12 : list Darkroom.Exposure :=
  [ gpu_low "e01"; gpu_low "e02"; gpu_low "e03"; gpu_low "e04";
    gpu_low "e05"; gpu_low "e06"; gpu_low "e07"; gpu_low "e08";
    gpu_low "e09"; gpu_low "e10"; gpu_low "e11"; gpu_low "e12" ].

(** Thirteen exposures, the saturating one last, and the same thirteen
    with the saturating one first. *)
Definition gpu_exposures13 : list Darkroom.Exposure :=
  gpu_lows12 ++ [gpu_high "e13"].

Definition gpu_exposures13_rev : list Darkroom.Exposure :=
  gpu_high "e13" :: gpu_lows12.

(** The transmittance texture of a one-pixel picture whose negative is
    white. *)
Definition r8_white : list Z := [255%Z].

(** Exposures of zero and of negative time, grade 2, without mask. *)
Definition script_zero_time : Script.Exposure :=
  Script.mkExposure "z" (Fin 0) 5 None.

Definition script_negative_time : Script.Exposure :=
  Script.mkExposure "n" (Fin (-1)) 5 None.

Definition gpu_zero_time : Darkroom.Exposure :=
  Darkroom.mkExposure "z" (Fin 0) 5 None.

Definition gpu_negative_time : Darkroom.Exposure :=
  Darkroom.mkExposure "n" (Fin (-1)) 5 None.

(** Two pixels of the same colour, as RGBA bytes. *)
Definition two_equal_pixels : list Z :=
  [10; 20; 30; 255; 10; 20; 30; 255]%Z.

(** A 5 x 5 picture whose pixels all have the colour (10, 20, 30). *)
Definition image_5x5 : Darkroom.ImageData :=
  Darkroom.mkImageData 5 5
    (List.concat (repeat [10; 20; 30; 255]%Z 25)).

(** Stand-ins for the platform's codecs, enough for the examples: a
    string is taken byte by byte, and the binary64 patterns of the times
    16 and 0 are known. *)
Definition byte_of_Z (z : Z) : Byte.byte :=
  match Byte.of_N (Z.to_N (z mod 256)) with
  | Some b => b
  | None => Byte.x00
  end.

Definition bytewise_encode (s : string) : list Z :=
  map (fun b => Z.of_N (Byte.to_N b)) (list_byte_of_string s).

Definition bytewise_decode (l : list Z) : string :=
  string_of_list_byte (map byte_of_Z l).

Definition example_float64_bits (t : num) : Z :=
  match t with
  | Fin r => if Reqb r 16 then 0x4030000000000000%Z else 0%Z
  | _ => 0x7FF8000000000000%Z
  end.

Definition example_float64_of_bits (z : Z) : num :=
  if (z =? 0x4030000000000000)%Z then Fin 16
  else if (z =? 0)%Z then Fin 0
  else NaN.

(** A project of two exposures, the second with a 1 x 2 mask image. *)
Definition example_exposures : list Darkroom.Exposure :=
  [ Darkroom.mkExposure "1730500000000" (Fin 16) 5 None;
    Darkroom.mkExposure "1730500000001" (Fin 16) 8
      (Some (Darkroom.mkImageData 1 2 [255; 0; 0; 128; 255; 0; 0; 0]%Z)) ].

Definition example_simulator : Darkroom.Simulator :=
  Darkroom.mkSim (Some (1, 2)%nat) "ilford-multigrade" example_exposures
    Darkroom.makeSigmoidLUT [255; 255]%Z.


(** The dodge brush with the settings script.js starts with (feather
    10, flow 0.03), an eraser, and blank mask canvases of one pixel and
    of two by two pixels. *)
Definition dodge_brush : Script.Brush := Script.mkBrush Script.Dodge 10 0.03.

Definition erase_brush : Script.Brush := Script.mkBrush Script.Erase 10 0.03.

Definition canvas_1x1 : Script.MaskCanvas := Script.mkCanvas 1 [0%Z].

Definition canvas_2x2 : Script.MaskCanvas :=
  Script.mkCanvas 2 [0; 0; 0; 0]%Z.

Definition canvas_2x2_ops : list Script.MaskOp :=
  [Script.OpStamp dodge_brush 1 1 2; Script.OpStamp erase_brush 1 1 1;
   Script.OpClear; Script.OpStamp dodge_brush 0 0 1].

(** An exposure whose mask image is one pixel of alpha 64. *)
Definition masked_exposure : Darkroom.Exposure :=
  Darkroom.mkExposure "1" (Fin 16) 5
    (Some (Darkroom.mkImageData 1 1 [0; 0; 0; 64]%Z)).

(** The one-pixel picture of [script_sim] in the darkroom module. *)
Definition gpu_sim (exposures : list Darkroom.Exposure) : Darkroom.Simulator :=
  Darkroom.mkSim (Some (1, 1)%nat) "ilford-multigrade" exposures
    Darkroom.makeSigmoidLUT r8_white.

(** A project of three exposures as each program holds it: a weak one, a
    saturating one, and one of 16 s at grade 3 dodged by 128/255 at the
    pixel. *)
Definition script_project : list Script.Exposure :=
  [ script_low "e01"; script_high "e02";
    Script.mkExposure "e03" (Fin 16) 8 (Some [128 / 255]) ].

Definition gpu_project : list Darkroom.Exposure :=
  [ gpu_low "e01"; gpu_high "e02";
    Darkroom.mkExposure "e03" (Fin 16) 8
      (Some (Darkroom.mkImageData 1 1 [0; 0; 0; 128]%Z)) ].

(** The project of [example_simulator] in the editor, its first exposure
    selected and nothing in the history; and a session on it. *)
Definition example_editor : Darkroom.Editor :=
  Darkroom.mkEditor (Some (1, 2)%Z) "ilford-multigrade" example_exposures
    (Some "1730500000000"%string) false [] [].

Definition example_session : list Darkroom.EditorOp :=
  [ Darkroom.OpMove "1730500000001" "up";
    Darkroom.OpUndo;
    Darkroom.OpRedo;
    Darkroom.OpClone "1730500000002" "1730500000000";
    Darkroom.OpDelete "1730500000003" "1730500000001";
    Darkroom.OpEdit "kodak-polymax" [] None;
    Darkroom.OpAdd "1730500000004";
    Darkroom.OpSaveState ].

(** A saved project of two exposures, and two clocks for loading it: one
    that ticks between the calls of [addExposure] and one that stays
    inside the same millisecond. *)
Definition saved_project : Darkroom.ProjectData :=
  Darkroom.mkProjectData "kodak-polymax"
    [ Darkroom.mkExposure "1730400000000" (Fin 8) 3 None;
      Darkroom.mkExposure "1730400000500" (Fin 32) 9
        (Some (Darkroom.mkImageData 1 2 [0; 0; 0; 64; 0; 0; 0; 255]%Z)) ].

Definition ticking_clock (k : nat) : string :=
  match k with
  | O => "1730500000100"
  | S O => "1730500000101"
  | _ => "1730500000102"
  end.

Definition stuck_clock (k : nat) : string := "1730500000100".

(** An editor that holds one exposure, selected. *)
Definition single_editor : Darkroom.Editor :=
  Darkroom.mkEditor (Some (1, 2)%Z) "ilford-multigrade"
    [Darkroom.mkExposure "1730500000000" (Fin 16) 5 None]
    (Some "1730500000000"%string) false [] [].
(* ================================================================== *)
(** ** Facts on numbers *)
(* ================================================================== *)

Lemma Rltb_true a b : Rltb a b = true <-> a < b.
Proof. unfold Rltb; destruct (Rlt_dec a b); split; intros; try easy; lra. Qed.

Lemma Rltb_false a b : Rltb a b = false <-> b <= a.
Proof. unfold Rltb; destruct (Rlt_dec a b); split; intros; try easy; lra. Qed.

Lemma Rleb_true a b : Rleb a b = true <-> a <= b.
Proof. unfold Rleb; destruct (Rle_dec a b); split; intros; try easy; lra. Qed.

Lemma Rleb_false a b : Rleb a b = false <-> b < a.
Proof. unfold Rleb; destruct (Rle_dec a b); split; intros; try easy; lra. Qed.

Lemma Reqb_true a b : Reqb a b = true <-> a = b.
Proof. unfold Reqb; destruct (Req_dec_T a b); split; intros; easy. Qed.

Lemma Reqb_false a b : Reqb a b = false <-> a <> b.
Proof. unfold Reqb; destruct (Req_dec_T a b); split; intros; easy. Qed.

Lemma nle_Fin a b : nle (Fin a) (Fin b) = true <-> a <= b.
Proof. apply Rleb_true. Qed.

Lemma nlt_Fin a b : nlt (Fin a) (Fin b) = true <-> a < b.
Proof. apply Rltb_true. Qed.

(** Case analysis on the boolean comparisons of reals, leaving the order
    facts in the context. *)
Ltac rcases :=
  repeat match goal with
  | |- context [Rltb ?a ?b] =>
      let H := fresh "Hlt" in
      destruct (Rltb a b) eqn:H;
      [apply Rltb_true in H | apply Rltb_false in H]
  | |- context [Rleb ?a ?b] =>
      let H := fresh "Hle" in
      destruct (Rleb a b) eqn:H;
      [apply Rleb_true in H | apply Rleb_false in H]
  | |- context [Reqb ?a ?b] =>
      let H := fresh "Heq" in
      destruct (Reqb a b) eqn:H;
      [apply Reqb_true in H | apply Reqb_false in H]
  end.

(** Arithmetic on finite numbers. *)
Lemma nadd_FF x y : (Fin x + Fin y)%num = Fin (x + y).
Proof. reflexivity. Qed.

Lemma nsub_FF x y : (Fin x - Fin y)%num = Fin (x - y).
Proof. reflexivity. Qed.

Lemma nneg_F x : (- Fin x)%num = Fin (- x).
Proof. reflexivity. Qed.

Lemma nmul_FF x y : (Fin x * Fin y)%num = Fin (x * y).
Proof. reflexivity. Qed.

Lemma ndiv_FF x y : y <> 0 -> (Fin x / Fin y)%num = Fin (x / y).
Proof. intros H. unfold ndiv. apply Reqb_false in H. now rewrite H. Qed.

Lemma inf_signed_pos x b : 0 < x -> inf_signed x b = if b then PInf else NInf.
Proof. intros H. unfold inf_signed. apply Rltb_true in H. now rewrite H. Qed.

Lemma inf_signed_neg x b : x < 0 -> inf_signed x b = if b then NInf else PInf.
Proof.
  intros H. unfold inf_signed.
  assert (H0 : Rltb 0 x = false) by (apply Rltb_false; lra).
  apply Rltb_true in H. now rewrite H0, H.
Qed.

Lemma Math_max_FF x y : Math_max (Fin x) (Fin y) = Fin (Rmax x y).
Proof.
  unfold Math_max, nlt, Rmax. rcases; destruct (Rle_dec x y); f_equal; lra.
Qed.

Lemma Math_min_FF x y : Math_min (Fin x) (Fin y) = Fin (Rmin x y).
Proof.
  unfold Math_min, nlt, Rmin. rcases; destruct (Rle_dec x y); f_equal; lra.
Qed.

Lemma Rmax_Rmin_clamp (lo hi d : R) :
  lo <= d <= hi -> Rmax lo (Rmin d hi) = d.
Proof.
  intros [H1 H2]. rewrite Rmin_left by assumption. now apply Rmax_right.
Qed.

(** Deciding the comparisons of concrete reals met while evaluating the
    model on an explicit input. *)
Ltac rdec :=
  repeat match goal with
  | |- context [Rltb ?a ?b] =>
      first [ replace (Rltb a b) with true by (symmetry; apply Rltb_true; lra)
            | replace (Rltb a b) with false by (symmetry; apply Rltb_false; lra) ]
  | |- context [Rleb ?a ?b] =>
      first [ replace (Rleb a b) with true by (symmetry; apply Rleb_true; lra)
            | replace (Rleb a b) with false by (symmetry; apply Rleb_false; lra) ]
  | |- context [Reqb ?a ?b] =>
      first [ replace (Reqb a b) with true by (symmetry; apply Reqb_true; lra)
            | replace (Reqb a b) with false by (symmetry; apply Reqb_false; lra) ]
  end.

(** Arithmetic and comparisons of finite numbers, then of the reals
    under them. *)
Ltac nred :=
  repeat first
    [ rewrite nadd_FF | rewrite nsub_FF | rewrite nmul_FF | rewrite nneg_F
    | rewrite ndiv_FF by lra
    | rewrite Math_max_FF | rewrite Math_min_FF
    | progress cbn [nle nlt nge ngt neq]
    | progress rdec ].

(** The logistic term of [densityFromLogE] at a finite argument. *)
Lemma logistic_bounds (span e : R) :
  0 <= span -> 0 < e -> 0 <= span / (1 + e) <= span.
Proof.
  intros Hs He.
  assert (H1 : 0 < 1 + e) by lra.
  split.
  - apply Rmult_le_pos; [lra | left; now apply Rinv_0_lt_compat].
  - apply Rmult_le_reg_r with (1 + e); [lra |].
    unfold Rdiv. rewrite Rmult_assoc, Rinv_l by lra. nra.
Qed.

Lemma logistic_mono (span e1 e2 : R) :
  0 <= span -> 0 < e2 -> e2 <= e1 -> span / (1 + e1) <= span / (1 + e2).
Proof.
  intros Hs He Hle. unfold Rdiv.
  apply Rmult_le_compat_l; [lra |].
  apply Rinv_le_contravar; lra.
Qed.

Lemma exp_mono_le (x y : R) : x <= y -> exp x <= exp y.
Proof.
  intros [H | ->]; [left; now apply exp_increasing | right; reflexivity].
Qed.

(** [densityFromLogE] at a finite, a [+Infinity] and a [-Infinity] log
    exposure. *)
Lemma densityFromLogE_Fin (x Dmin Dmax k E0 : R) :
  Dmin <= Dmax ->
  densityFromLogE (Fin x) (Fin Dmin) (Fin Dmax) (Fin k) (Fin E0)
  = Fin (Dmin + (Dmax - Dmin) / (1 + exp (- k * (x - E0)))).
Proof.
  intros HD. unfold densityFromLogE.
  rewrite !nsub_FF, nneg_F, nmul_FF. unfold Math_exp.
  pose proof (exp_pos (- k * (x - E0))) as He.
  rewrite nadd_FF, ndiv_FF, nadd_FF by lra.
  rewrite Math_min_FF, Math_max_FF. f_equal.
  apply Rmax_Rmin_clamp.
  pose proof (logistic_bounds (Dmax - Dmin) _ ltac:(lra) He). lra.
Qed.

Lemma densityFromLogE_PInf (Dmin Dmax k E0 : R) :
  Dmin <= Dmax -> 0 < k ->
  densityFromLogE PInf (Fin Dmin) (Fin Dmax) (Fin k) (Fin E0) = Fin Dmax.
Proof.
  intros HD Hk. unfold densityFromLogE.
  rewrite nsub_FF, nneg_F.
  change (PInf - Fin E0)%num with PInf.
  change (Fin (- k) * PInf)%num with (inf_signed (- k) true).
  rewrite inf_signed_neg by lra. unfold Math_exp.
  rewrite nadd_FF, ndiv_FF, nadd_FF by lra.
  rewrite Math_min_FF, Math_max_FF. f_equal.
  replace (Dmin + (Dmax - Dmin) / (1 + 0)) with Dmax by (field; lra).
  apply Rmax_Rmin_clamp; lra.
Qed.

Lemma densityFromLogE_NInf (Dmin Dmax k E0 : R) :
  Dmin <= Dmax -> 0 < k ->
  densityFromLogE NInf (Fin Dmin) (Fin Dmax) (Fin k) (Fin E0) = Fin Dmin.
Proof.
  intros HD Hk. unfold densityFromLogE.
  rewrite nsub_FF, nneg_F.
  change (NInf - Fin E0)%num with NInf.
  change (Fin (- k) * NInf)%num with (inf_signed (- k) false).
  rewrite inf_signed_neg by lra. unfold Math_exp.
  change (Fin 1 + PInf)%num with PInf.
  change (Fin (Dmax - Dmin) / PInf)%num with (Fin 0).
  rewrite nadd_FF, Math_min_FF, Math_max_FF. f_equal.
  rewrite Rplus_0_r. apply Rmax_Rmin_clamp; lra.
Qed.

(* ================================================================== *)
(** ** Truncation, rounding and the look-up table *)
(* ================================================================== *)

Lemma Int_part_bounds (r : R) : IZR (Int_part r) <= r < IZR (Int_part r) + 1.
Proof. destruct (base_Int_part r). lra. Qed.

Lemma Int_part_eq (r : R) (z : Z) : IZR z <= r < IZR z + 1 -> Int_part r = z.
Proof. intros H. symmetry. apply Int_part_spec. lra. Qed.

Lemma Int_part_nonneg (r : R) : 0 <= r -> (0 <= Int_part r)%Z.
Proof.
  intros H. destruct (Int_part_bounds r) as [_ H1].
  assert (IZR (-1) < IZR (Int_part r)) by (simpl; lra).
  apply lt_IZR in H0. lia.
Qed.

Lemma Rtrunc_nonneg (r : R) : 0 <= r -> Rtrunc r = Int_part r.
Proof. intros H. unfold Rtrunc. apply Rleb_true in H. now rewrite H. Qed.

Lemma wrap32_small (z : Z) : (- 2 ^ 31 <= z < 2 ^ 31)%Z -> wrap32 z = z.
Proof. intros H. unfold wrap32. rewrite Z.mod_small; lia. Qed.

Lemma array_get_in_range (a : list R) (z : Z) :
  (0 <= z < Z.of_nat (List.length a))%Z ->
  exists v, array_get a z = Fin v /\ In v a.
Proof.
  intros H. unfold array_get.
  destruct (Z.ltb_spec z 0); [lia |].
  destruct (nth_error a (Z.to_nat z)) as [v |] eqn:E.
  - exists v. split; [reflexivity | eapply nth_error_In; eauto].
  - apply nth_error_None in E. lia.
Qed.

(** The scalar [sigmoid] always returns a number of [0, 1], whatever its
    argument is ([NaN] and the infinities included). *)
Lemma sigmoid_range (L : SigmoidLUT) (x : num) :
  valid_lut L -> exists s, Script.sigmoid L x = Fin s /\ 0 <= s <= 1.
Proof.
  intros (Hlh & Hst & Hcov & H31 & Hv).
  rewrite Forall_forall in Hv.
  assert (Hlen : 0 < INR (List.length (lut L))).
  { eapply Rlt_le_trans; [| exact Hcov].
    apply Rmult_lt_0_compat; [lra | now apply Rinv_0_lt_compat]. }
  assert (Hidx : forall q, 0 <= q < (lut_hi L - lut_lo L) / lut_step L ->
            exists v, array_get (lut L) (wrap32 (Rtrunc q)) = Fin v /\ 0 <= v <= 1).
  { intros q [Hq0 Hq1].
    rewrite Rtrunc_nonneg by assumption.
    pose proof (Int_part_nonneg q Hq0) as Hz0.
    destruct (Int_part_bounds q) as [Hz1 _].
    assert (Hz2 : (Int_part q < Z.of_nat (List.length (lut L)))%Z).
    { apply lt_IZR. rewrite <- INR_IZR_INZ. lra. }
    rewrite wrap32_small by lia.
    destruct (array_get_in_range (lut L) (Int_part q)) as (v & -> & Hin); [lia |].
    exists v. split; [reflexivity | now apply Hv]. }
  unfold Script.sigmoid. destruct x as [x | | |]; cbn [nle nge].
  - destruct (Rleb x (lut_lo L)) eqn:E1; [exists 0; split; [reflexivity | lra] |].
    destruct (Rleb (lut_hi L) x) eqn:E2; [exists 1; split; [reflexivity | lra] |].
    apply Rleb_false in E1, E2.
    rewrite nsub_FF, ndiv_FF by lra. cbn [ToInt32].
    apply Hidx. split.
    + apply Rmult_le_pos; [lra | left; now apply Rinv_0_lt_compat].
    + unfold Rdiv. apply Rmult_lt_compat_r; [now apply Rinv_0_lt_compat | lra].
  - exists 1. split; [reflexivity | lra].
  - exists 0. split; [reflexivity | lra].
  - cbn [nsub nadd nneg ndiv ToInt32].
    assert (E : wrap32 (Rtrunc 0) = 0%Z).
    { rewrite Rtrunc_nonneg by lra.
      rewrite (Int_part_eq 0 0) by (simpl; lra). reflexivity. }
    destruct (Hidx 0) as (v & Hv1 & Hv2).
    { split; [lra |].
      apply Rmult_lt_0_compat; [lra | now apply Rinv_0_lt_compat]. }
    rewrite E in Hv1. exists v. now split.
Qed.

(** The table both files build is usable. *)
Lemma buildSigmoidLUT_valid (N : nat) :
  (2 <= N)%nat -> (Z.of_nat N < 2 ^ 31)%Z -> valid_lut (buildSigmoidLUT N).
Proof.
  intros HN H31. unfold valid_lut, buildSigmoidLUT; cbn [lut lut_lo lut_hi lut_step].
  rewrite length_map, length_seq.
  assert (HNR : 2 <= INR N) by (change 2 with (INR 2); now apply le_INR).
  repeat split; try lra; try assumption.
  - apply Rmult_lt_0_compat; [lra | apply Rinv_0_lt_compat; lra].
  - replace ((12 - -12) / ((12 - -12) / (INR N - 1))) with (INR N - 1)
      by (field; lra). lra.
  - apply Forall_forall. intros v Hin. apply in_map_iff in Hin.
    destruct Hin as (i & <- & _).
    pose proof (exp_pos (- (-12 + INR i * ((12 - -12) / (INR N - 1))))) as He.
    set (e := exp _) in *.
    pose proof (logistic_bounds 1 e ltac:(lra) He). lra.
Qed.

(* ================================================================== *)
(** ** The scalar loop of script.js *)
(* ================================================================== *)

(** The excess of one exposure is [spanD * s] for a sigmoid value [s] of
    [0, 1], whatever the exposure and the pixel are. *)
Lemma Dexcess_of_range (Dmin span : R) (L : SigmoidLUT) (logT : num)
  (j : nat) (ex : Script.PreExposure) :
  valid_lut L -> 0 <= span ->
  exists e, Script.Dexcess_of (Fin Dmin) (Fin span) L logT j ex = Fin e
            /\ 0 <= e <= span.
Proof.
  intros HL Hs. unfold Script.Dexcess_of.
  match goal with |- context [Script.sigmoid L ?x] =>
    destruct (sigmoid_range L x HL) as (s & -> & Hs01) end.
  rewrite nmul_FF, nadd_FF, nsub_FF.
  eexists. split; [reflexivity | nra].
Qed.

Lemma excess_R_range (Dmin span : R) (L : SigmoidLUT) (logT : num)
  (j : nat) (ex : Script.PreExposure) :
  valid_lut L -> 0 <= span ->
  Script.Dexcess_of (Fin Dmin) (Fin span) L logT j ex
  = Fin (Script.excess_R (Fin Dmin) (Fin span) L logT j ex)
  /\ 0 <= Script.excess_R (Fin Dmin) (Fin span) L logT j ex <= span.
Proof.
  intros HL Hs. unfold Script.excess_R.
  destruct (Dexcess_of_range Dmin span L logT j ex HL Hs) as (e & -> & He).
  rewrite Rmax_right by lra. split; [reflexivity | lra].
Qed.

Lemma excess_sum_nonneg (Dmin span : R) (L : SigmoidLUT) (logT : num)
  (j : nat) (pre : list Script.PreExposure) :
  valid_lut L -> 0 <= span ->
  0 <= Script.excess_sum (Fin Dmin) (Fin span) L logT j pre.
Proof.
  intros HL Hs. unfold Script.excess_sum.
  induction pre as [| ex rest IH]; cbn [fold_right]; [lra |].
  destruct (excess_R_range Dmin span L logT j ex HL Hs) as [_ H]. lra.
Qed.

(** The loop computes the clamped sum: from a running sum [a] of
    [0, span] it returns [min(span, a + sum of the excesses)]. *)
Lemma exposure_loop_closed (Dmin span : R) (L : SigmoidLUT) (logT : num)
  (j : nat) (pre : list Script.PreExposure) :
  valid_lut L -> 0 <= span ->
  forall a, 0 <= a <= span ->
  Script.exposure_loop (Fin Dmin) (Fin span) L logT j pre (Fin a)
  = Fin (Rmin span (a + Script.excess_sum (Fin Dmin) (Fin span) L logT j pre)).
Proof.
  intros HL Hs. induction pre as [| ex rest IH]; intros a Ha.
  - cbn. rewrite Rplus_0_r, Rmin_right by lra. reflexivity.
  - cbn [Script.exposure_loop Script.excess_sum fold_right].
    fold (Script.excess_sum (Fin Dmin) (Fin span) L logT j rest).
    pose proof (excess_sum_nonneg Dmin span L logT j rest HL Hs) as Hrest.
    destruct (excess_R_range Dmin span L logT j ex HL Hs) as [-> He].
    set (e := Script.excess_R (Fin Dmin) (Fin span) L logT j ex) in *.
    unfold ngt, nge. cbn [nlt nle nadd].
    destruct (Rltb 0 e) eqn:E0.
    + apply Rltb_true in E0.
      destruct (Rleb span (a + e)) eqn:E1.
      * apply Rleb_true in E1. rewrite Rmin_left by lra. reflexivity.
      * apply Rleb_false in E1. rewrite IH by lra. f_equal. f_equal. lra.
    + apply Rltb_false in E0. rewrite IH by lra.
      f_equal. f_equal. lra.
Qed.

(** The break: once the running sum has reached [spanD] inside a prefix
    of the exposures, the loop has ended there; what follows the prefix
    is never read. *)
Lemma exposure_loop_break (Dmin spanD : num) (L : SigmoidLUT) (logT : num)
  (j : nat) (pre1 pre2 : list Script.PreExposure) :
  forall Dsum,
  nge Dsum spanD = false ->
  nge (Script.exposure_loop Dmin spanD L logT j pre1 Dsum) spanD = true ->
  Script.exposure_loop Dmin spanD L logT j (pre1 ++ pre2) Dsum = spanD
  /\ Script.exposure_loop_steps Dmin spanD L logT j (pre1 ++ pre2) Dsum
     = Script.exposure_loop_steps Dmin spanD L logT j pre1 Dsum
  /\ (Script.exposure_loop_steps Dmin spanD L logT j pre1 Dsum
      <= List.length pre1)%nat.
Proof.
  induction pre1 as [| ex rest IH]; intros Dsum Hlow Hhigh.
  - cbn in Hhigh. congruence.
  - cbn [app Script.exposure_loop Script.exposure_loop_steps List.length] in *.
    destruct (ngt (Script.Dexcess_of Dmin spanD L logT j ex) (Fin 0)).
    + destruct (nge (Dsum + Script.Dexcess_of Dmin spanD L logT j ex)%num spanD)
        eqn:E.
      * repeat split; lia.
      * destruct (IH _ E Hhigh) as (H1 & H2 & H3). repeat split; [assumption | |]; lia.
    + destruct (IH _ Hlow Hhigh) as (H1 & H2 & H3). repeat split; [assumption | |]; lia.
Qed.

(** [Dfinal] is [min(Dmin + sum, Dmax)]. *)
Lemma Dfinal_closed (paper : Paper) (L : SigmoidLUT) (logT : num) (j : nat)
  (pre : list Script.PreExposure) :
  valid_lut L -> Dmin paper <= Dmax paper ->
  Script.Dfinal paper L logT j pre
  = Fin (Rmin (Dmin paper
               + Script.excess_sum (Fin (Dmin paper))
                   (Fin (Dmax paper - Dmin paper)) L logT j pre)
              (Dmax paper)).
Proof.
  intros HL HD. unfold Script.Dfinal. rewrite nsub_FF.
  assert (Hs : 0 <= Dmax paper - Dmin paper) by lra.
  rewrite (exposure_loop_closed _ _ L logT j pre HL Hs 0) by lra.
  pose proof (excess_sum_nonneg (Dmin paper) _ L logT j pre HL Hs) as Hsum.
  set (S := Script.excess_sum _ _ L logT j pre) in *.
  rewrite Rplus_0_l. unfold nge. cbn [nle].
  destruct (Rle_dec (Dmax paper - Dmin paper) S) as [Hge | Hlt].
  - rewrite Rmin_left by assumption.
    replace (Rleb (Dmax paper - Dmin paper) (Dmax paper - Dmin paper)) with true
      by (symmetry; apply Rleb_true; lra).
    rewrite Rmin_right by lra. reflexivity.
  - rewrite Rmin_right by lra.
    replace (Rleb (Dmax paper - Dmin paper) S) with false
      by (symmetry; apply Rleb_false; lra).
    rewrite nadd_FF, Rmin_left by lra. reflexivity.
Qed.

(* ================================================================== *)
(** ** The fragment shader *)
(* ================================================================== *)

Lemma lut_bytes_range (L : SigmoidLUT) :
  Forall (fun b => (0 <= b <= 255)%Z) (Darkroom.lut_bytes L).
Proof.
  unfold Darkroom.lut_bytes. apply Forall_forall. intros b Hin.
  apply in_map_iff in Hin. destruct Hin as (v & <- & _).
  pose proof (Z.mod_pos_bound (Rround (v * 255)) 256 ltac:(lia)). lia.
Qed.

Lemma texel_range (bytes : list Z) (i : Z) :
  Forall (fun b => (0 <= b <= 255)%Z) bytes ->
  0 <= Darkroom.texel bytes i <= 1.
Proof.
  intros Hb. unfold Darkroom.texel.
  set (n := Z.to_nat _).
  assert (Hn : (0 <= nth n bytes 0 <= 255)%Z).
  { destruct (Nat.lt_ge_cases n (List.length bytes)) as [Hlt | Hge].
    - rewrite Forall_forall in Hb. apply Hb. now apply nth_In.
    - rewrite nth_overflow by assumption. lia. }
  destruct Hn as [H0 H1]. apply IZR_le in H0, H1. lra.
Qed.

(** A sample of the table texture is a number of [0, 1], or [NaN] when
    the coordinate is not finite. *)
Lemma texture_lut_range (bytes : list Z) (u : num) :
  Forall (fun b => (0 <= b <= 255)%Z) bytes ->
  Darkroom.texture_lut bytes u = NaN
  \/ exists s, Darkroom.texture_lut bytes u = Fin s /\ 0 <= s <= 1.
Proof.
  intros Hb. destruct u as [u | | |]; cbn; auto.
  right. eexists. split; [reflexivity |].
  set (c := u * INR (List.length bytes) - / 2).
  destruct (Int_part_bounds c) as [H1 H2].
  pose proof (texel_range bytes (Int_part c) Hb).
  pose proof (texel_range bytes (Int_part c + 1) Hb). nra.
Qed.

(** What a slot adds to the total density lies in [0, span]. *)
Lemma shader_extra_range (U : Darkroom.Uniforms) (lutTex : list Z)
  (logTrans : num) (maskA : nat -> num) (e : nat) (dmin dmax : R) :
  Darkroom.uDmin U = Fin dmin -> Darkroom.uDmax U = Fin dmax -> dmin <= dmax ->
  Forall (fun b => (0 <= b <= 255)%Z) lutTex ->
  Darkroom.glsl_max (Fin 0) (Darkroom.shader_extra U lutTex logTrans maskA e)
  = Fin (Darkroom.extra_R U lutTex logTrans maskA e)
  /\ 0 <= Darkroom.extra_R U lutTex logTrans maskA e <= dmax - dmin.
Proof.
  intros Hmin Hmax HD Hb.
  unfold Darkroom.extra_R, Darkroom.shader_extra, Darkroom.slot_extra.
  rewrite Hmin, Hmax. unfold Darkroom.fetchSigmoid.
  match goal with |- context [Darkroom.texture_lut lutTex ?u] =>
    destruct (texture_lut_range lutTex u Hb) as [-> | (s & -> & Hs)] end.
  - cbn. split; [reflexivity | lra].
  - rewrite nsub_FF, nmul_FF, nadd_FF, nsub_FF.
    unfold Darkroom.glsl_max. cbn [nlt].
    set (x := dmin + (dmax - dmin) * s - dmin).
    assert (Hx : 0 <= x <= dmax - dmin) by (unfold x; nra).
    rewrite Rmax_right by lra.
    destruct (Rltb 0 x) eqn:E.
    + split; [reflexivity | lra].
    + apply Rltb_false in E. split; [f_equal; lra | lra].
Qed.

Lemma extra_sum_nonneg (U : Darkroom.Uniforms) (lutTex : list Z)
  (logTrans : num) (maskA : nat -> num) (es : list nat) (dmin dmax : R) :
  Darkroom.uDmin U = Fin dmin -> Darkroom.uDmax U = Fin dmax -> dmin <= dmax ->
  Forall (fun b => (0 <= b <= 255)%Z) lutTex ->
  0 <= Darkroom.extra_sum U lutTex logTrans maskA es.
Proof.
  intros Hmin Hmax HD Hb. unfold Darkroom.extra_sum.
  induction es as [| e rest IH]; cbn [fold_right]; [lra |].
  destruct (shader_extra_range U lutTex logTrans maskA e dmin dmax
              Hmin Hmax HD Hb) as [_ H]. lra.
Qed.

(** The shader loop adds up what the slots give, without a clamp. *)
Lemma shader_loop_closed (U : Darkroom.Uniforms) (lutTex : list Z)
  (logTrans : num) (maskA : nat -> num) (es : list nat) (dmin dmax : R) :
  Darkroom.uDmin U = Fin dmin -> Darkroom.uDmax U = Fin dmax -> dmin <= dmax ->
  Forall (fun b => (0 <= b <= 255)%Z) lutTex ->
  forall t,
  fold_left (Darkroom.shader_step U lutTex logTrans maskA) es (Fin t)
  = Fin (t + Darkroom.extra_sum U lutTex logTrans maskA es).
Proof.
  intros Hmin Hmax HD Hb. unfold Darkroom.extra_sum.
  induction es as [| e rest IH]; intros t; cbn [fold_left fold_right].
  - now rewrite Rplus_0_r.
  - unfold Darkroom.shader_step at 2.
    destruct (shader_extra_range U lutTex logTrans maskA e dmin dmax
                Hmin Hmax HD Hb) as [-> _].
    rewrite nadd_FF, IH. f_equal. lra.
Qed.

(** The shader's total density is [min(Dmin + sum, Dmax)] over all the
    [uExposureCount] slots. *)
Lemma shader_density_closed (U : Darkroom.Uniforms) (lutTex : list Z)
  (trans : num) (maskA : nat -> num) (dmin dmax : R) :
  Darkroom.uDmin U = Fin dmin -> Darkroom.uDmax U = Fin dmax -> dmin <= dmax ->
  Forall (fun b => (0 <= b <= 255)%Z) lutTex ->
  Darkroom.shader_density U lutTex trans maskA
  = Fin (Rmin (dmin + Darkroom.extra_sum U lutTex
                        (Darkroom.log10_ (Darkroom.glsl_max (Fin 1e-6) trans))
                        maskA (seq 0 (Darkroom.uExposureCount U)))
              dmax).
Proof.
  intros Hmin Hmax HD Hb. unfold Darkroom.shader_density.
  rewrite Hmin, Hmax.
  rewrite (shader_loop_closed U lutTex _ maskA _ dmin dmax Hmin Hmax HD Hb). unfold Darkroom.glsl_min. cbn [nlt].
  unfold Rmin. destruct (Rle_dec _ dmax) as [H | H].
  - replace (Rltb dmax _) with false by (symmetry; apply Rltb_false; lra).
    reflexivity.
  - replace (Rltb dmax _) with true by (symmetry; apply Rltb_true; lra).
    reflexivity.
Qed.

Lemma render_fields (paper : Paper) (exposures : list Darkroom.Exposure)
  (L : SigmoidLUT) (U : Darkroom.Uniforms) :
  Darkroom.render paper exposures L = Some U ->
  Darkroom.uDmin U = Fin (Dmin paper) /\ Darkroom.uDmax U = Fin (Dmax paper)
  /\ Darkroom.uExposureCount U
     = Nat.min (List.length exposures) Darkroom.maxExposures.
Proof.
  unfold Darkroom.render. destruct (Darkroom.all_constants _ _); [| discriminate].
  intros [= <-]. cbn. auto.
Qed.

(* ================================================================== *)
(** ** Evaluating the scalar loop on explicit inputs *)
(* ================================================================== *)

Lemma ln10_pos : 0 < ln 10.
Proof. rewrite <- ln_1. apply ln_increasing; lra. Qed.

Lemma LOG10E_pos : 0 < LOG10E.
Proof. unfold LOG10E. apply Rinv_0_lt_compat, ln10_pos. Qed.

Lemma ln_1000 : ln 1000 = 3 * ln 10.
Proof.
  replace 1000 with (10 * (10 * 10)) by lra.
  rewrite !ln_mult by lra. lra.
Qed.

Lemma ln_milli (a : R) : 0 < a -> ln (a / 1000) = ln a - 3 * ln 10.
Proof.
  intros Ha. unfold Rdiv. rewrite ln_mult, ln_Rinv, ln_1000 by lra. lra.
Qed.

Lemma ln_kilo (a : R) : 0 < a -> ln (a * 1000) = ln a + 3 * ln 10.
Proof. intros Ha. rewrite ln_mult, ln_1000 by lra. lra. Qed.

(** [log10] of three decades under and over [a]. *)
Lemma ln_micro : ln 1e-6 = - (6) * ln 10.
Proof.
  replace 1e-6 with (/ (10 * (10 * (10 * (10 * (10 * 10)))))) by lra.
  rewrite ln_Rinv by lra. rewrite !ln_mult by lra. lra.
Qed.

Lemma log10_milli (a : R) :
  0 < a -> ln (a / 1000) * LOG10E = ln a * LOG10E - 3.
Proof.
  intros Ha. rewrite ln_milli by assumption. unfold LOG10E.
  pose proof ln10_pos. field. lra.
Qed.

Lemma log10_kilo (a : R) :
  0 < a -> ln (a * 1000) * LOG10E = ln a * LOG10E + 3.
Proof.
  intros Ha. rewrite ln_kilo by assumption. unfold LOG10E.
  pose proof ln10_pos. field. lra.
Qed.

Lemma ToInt32_eval (r : R) (z : Z) :
  0 <= IZR z <= r -> r < IZR z + 1 -> (z < 2 ^ 31)%Z -> ToInt32 (Fin r) = z.
Proof.
  intros [Hz Hr] Hr1 H31. cbn [ToInt32].
  rewrite Rtrunc_nonneg by lra.
  rewrite (Int_part_eq r z) by lra.
  apply le_IZR in Hz. apply wrap32_small. lia.
Qed.

Lemma Rround_eval (r : R) (z : Z) :
  IZR z - / 2 <= r < IZR z + / 2 -> Rround r = z.
Proof. intros H. unfold Rround. apply Int_part_eq. lra. Qed.

Lemma logTrans_of_white : Script.logTrans_of 255 = 0.
Proof.
  unfold Script.logTrans_of. rdec.
  replace (255 * (1 / 255)) with 1 by lra. rewrite ln_1. lra.
Qed.

Lemma sigmoid_below (L : SigmoidLUT) (x : R) :
  x <= lut_lo L -> Script.sigmoid L (Fin x) = Fin 0.
Proof.
  intros H. unfold Script.sigmoid. cbn [nle].
  apply Rleb_true in H. now rewrite H.
Qed.

Lemma sigmoid_above (L : SigmoidLUT) (x : R) :
  lut_lo L < x -> lut_hi L <= x -> Script.sigmoid L (Fin x) = Fin 1.
Proof.
  intros H1 H2. unfold Script.sigmoid, nge. cbn [nle].
  replace (Rleb x (lut_lo L)) with false by (symmetry; apply Rleb_false; lra).
  apply Rleb_true in H2. now rewrite H2.
Qed.

(** The excess of an exposure without mask at a pixel of finite
    log transmittance. *)
Lemma Dexcess_of_nomask (dmin span k e0 lt logT : R) (L : SigmoidLUT) (j : nat) :
  Script.Dexcess_of (Fin dmin) (Fin span) L (Fin logT) j
    (Script.mkPre k (Fin e0) (Fin lt) None)
  = (Fin dmin + Fin span * Script.sigmoid L (Fin (k * (lt + logT + 0 - e0)))
     - Fin dmin)%num.
Proof.
  unfold Script.Dexcess_of.
  cbn [Script.pre_mask Script.pre_logTime Script.pre_E0 Script.pre_k].
  unfold ngt. nred. reflexivity.
Qed.

Lemma ilford_grade2 : gradeParam ilford_multigrade 5 = Some (mkGrade 4.2 0.0).
Proof. reflexivity. Qed.

Lemma precompute1_ilford (name : string) (t : R) :
  0 < t ->
  Script.precompute1 ilford_multigrade (Script.mkExposure name (Fin t) 5 None)
  = Some (ilford_pre t).
Proof.
  intros Ht. unfold Script.precompute1.
  cbn [Script.grade Script.time Script.mask].
  rewrite ilford_grade2. cbn [gp_k gp_speedShiftStops].
  change (baseExposure ilford_multigrade) with 16.
  unfold Math_log. rdec. nred. reflexivity.
Qed.

(** On the Ilford paper a grade 2 exposure three decades under the base
    exposure adds nothing at a pixel of transmittance 1, one three
    decades over it adds the whole span. *)
Lemma ilford_low_excess (N : nat) (j : nat) (span : R) :
  Script.excess_R (Fin 0.06) (Fin span) (buildSigmoidLUT N) (Fin 0) j
    (ilford_pre 0.016) = 0.
Proof.
  unfold Script.excess_R, ilford_pre. rewrite Dexcess_of_nomask.
  rewrite sigmoid_below.
  - nred. rewrite Rmax_left by lra. reflexivity.
  - change (lut_lo (buildSigmoidLUT N)) with (-12).
    replace 0.016 with (16 / 1000) by lra.
    rewrite log10_milli by lra. lra.
Qed.

Lemma ilford_high_excess (N : nat) (j : nat) (span : R) :
  0 <= span ->
  Script.excess_R (Fin 0.06) (Fin span) (buildSigmoidLUT N) (Fin 0) j
    (ilford_pre 16000) = span.
Proof.
  intros Hs. unfold Script.excess_R, ilford_pre. rewrite Dexcess_of_nomask.
  assert (Hx : 4.2 * (ln 16000 * LOG10E + 0 + 0
                     - (ln 16 * LOG10E + 0.0 * (LOG10E * LN2))) = 12.6).
  { replace 16000 with (16 * 1000) by lra. rewrite log10_kilo by lra. lra. }
  rewrite sigmoid_above.
  - nred. rewrite Rmax_right by lra. lra.
  - change (lut_lo (buildSigmoidLUT N)) with (-12). lra.
  - change (lut_hi (buildSigmoidLUT N)) with 12. lra.
Qed.

(** The tone value of the two extreme densities. *)
Lemma value_of_Dmax (paper : Paper) :
  Dmin paper < Dmax paper -> Script.value_of paper (Fin (Dmax paper)) = Fin 0.
Proof.
  intros HD. unfold Script.value_of. nred.
  replace ((Dmax paper - Dmin paper) / (Dmax paper - Dmin paper)) with 1
    by (field; lra).
  rewrite Rmin_left, Rmax_right by lra. nred.
  cbn [Math_round]. rewrite (Rround_eval _ 0) by (simpl; lra).
  nred. rewrite Rmin_right, Rmax_left by lra. reflexivity.
Qed.

Lemma value_of_Dmin (paper : Paper) :
  Dmin paper < Dmax paper -> Script.value_of paper (Fin (Dmin paper)) = Fin 255.
Proof.
  intros HD. unfold Script.value_of. nred.
  replace ((Dmin paper - Dmin paper) / (Dmax paper - Dmin paper)) with 0
    by (field; lra).
  rewrite Rmin_right, Rmax_left by lra. nred.
  cbn [Math_round]. rewrite (Rround_eval _ 255) by (simpl; lra).
  nred. rewrite Rmin_left, Rmax_right by lra. reflexivity.
Qed.

Lemma color_of_ilford_black :
  Script.color_of ilford_multigrade (Fin 0) = (0, 0, 0, 255)%Z.
Proof.
  unfold Script.color_of, ngt. nred.
  cbn [colorTone ilford_multigrade shadows tone_r tone_g tone_b].
  rewrite !(ToInt32_eval _ 0) by (simpl; try lia; lra). reflexivity.
Qed.

Lemma color_of_ilford_white :
  Script.color_of ilford_multigrade (Fin 255) = (247, 252, 255, 255)%Z.
Proof.
  unfold Script.color_of, ngt. nred.
  cbn [colorTone ilford_multigrade highlights tone_r tone_g tone_b].
  rewrite (ToInt32_eval _ 247), (ToInt32_eval _ 252), (ToInt32_eval _ 255)
    by (simpl; try lia; lra).
  reflexivity.
Qed.

(* ================================================================== *)
(** ** Both loops as sums over the exposure list *)
(* ================================================================== *)

Lemma ilford_multigrade_valid : valid_paper ilford_multigrade.
Proof.
  unfold valid_paper; cbn. repeat split; try lra.
  repeat constructor; cbn; lra.
Qed.

Lemma kodak_polymax_valid : valid_paper kodak_polymax.
Proof.
  unfold valid_paper; cbn. repeat split; try lra.
  repeat constructor; cbn; lra.
Qed.

Lemma foma_variant_valid : valid_paper foma_variant.
Proof.
  unfold valid_paper; cbn. repeat split; try lra.
  repeat constructor; cbn; lra.
Qed.

Lemma oriental_seagull_valid : valid_paper oriental_seagull.
Proof.
  unfold valid_paper; cbn. repeat split; try lra.
  repeat constructor; cbn; lra.
Qed.

(** Every paper of the registry satisfies the paper invariants. *)
Lemma papers_valid (name : string) (paper : Paper) :
  papers name = Some paper -> valid_paper paper.
Proof.
  unfold papers. intros H.
  destruct (String.eqb name "ilford-multigrade");
    [injection H as <-; apply ilford_multigrade_valid |].
  destruct (String.eqb name "kodak-polymax");
    [injection H as <-; apply kodak_polymax_valid |].
  destruct (String.eqb name "foma-variant");
    [injection H as <-; apply foma_variant_valid |].
  destruct (String.eqb name "oriental-seagull");
    [injection H as <-; apply oriental_seagull_valid |].
  discriminate.
Qed.

Lemma fold_seq_list {A : Type} (F : nat -> R) (G : A -> R) (l : list A) :
  forall s,
  (forall i x, nth_error l i = Some x -> F (s + i)%nat = G x) ->
  fold_right (fun e acc => F e + acc) 0 (seq s (List.length l))
  = fold_right (fun x acc => G x + acc) 0 l.
Proof.
  induction l as [| x l IH]; intros s H; cbn [List.length seq fold_right].
  - reflexivity.
  - rewrite (IH (S s)).
    + f_equal. rewrite <- (H 0%nat x eq_refl). f_equal. lia.
    + intros i y Hy. rewrite <- (H (S i) y Hy). f_equal. lia.
Qed.

Lemma fold_sum_perm {A : Type} (G : A -> R) (l l' : list A) :
  Permutation l l' ->
  fold_right (fun x acc => G x + acc) 0 l
  = fold_right (fun x acc => G x + acc) 0 l'.
Proof.
  induction 1; cbn [fold_right]; lra.
Qed.

(** *** script.js *)

Lemma precompute_Some (paper : Paper) (exposures : list Script.Exposure) :
  Forall (fun ex => Script.precompute1 paper ex <> None) exposures ->
  exists pre,
    Script.precompute paper exposures = Some pre
    /\ Forall2 (fun ex p => Script.precompute1 paper ex = Some p) exposures pre.
Proof.
  induction 1 as [| ex rest Hex _ (pre & Hpre & Hall)].
  - exists []. split; [reflexivity | constructor].
  - cbn [Script.precompute].
    destruct (Script.precompute1 paper ex) as [p |] eqn:Ep; [| congruence].
    rewrite Hpre. exists (p :: pre). split; [reflexivity | now constructor].
Qed.

Lemma precompute_None (paper : Paper) (exposures : list Script.Exposure) :
  ~ Forall (fun ex => Script.precompute1 paper ex <> None) exposures ->
  Script.precompute paper exposures = None.
Proof.
  induction exposures as [| ex rest IH]; intros Hn.
  - exfalso. apply Hn. constructor.
  - cbn [Script.precompute].
    destruct (Script.precompute1 paper ex) as [p |] eqn:Ep; [| reflexivity].
    rewrite IH; [reflexivity |].
    intros Hall. apply Hn. constructor; [congruence | assumption].
Qed.

Lemma excess_sum_exposures (paper : Paper) (L : SigmoidLUT) (logT : num)
  (j : nat) (exposures : list Script.Exposure) (pre : list Script.PreExposure) :
  Forall2 (fun ex p => Script.precompute1 paper ex = Some p) exposures pre ->
  Script.excess_sum (Fin (Dmin paper)) (Fin (Dmax paper - Dmin paper))
    L logT j pre
  = Script.exposures_excess_sum paper L logT j exposures.
Proof.
  unfold Script.excess_sum, Script.exposures_excess_sum.
  induction 1 as [| ex p rest pre' Hp _ IH]; cbn [fold_right]; [reflexivity |].
  assert (E : Script.exposure_excess_R paper L logT j ex
              = Script.excess_R (Fin (Dmin paper))
                  (Fin (Dmax paper - Dmin paper)) L logT j p).
  { unfold Script.exposure_excess_R. now rewrite Hp. }
  rewrite E, IH. reflexivity.
Qed.

(** The final density of the scalar loop, as a clamped sum over the
    exposures. *)
Lemma pixel_density_closed (paper : Paper) (L : SigmoidLUT)
  (logTrans : list R) (exposures : list Script.Exposure) (j : nat) :
  valid_lut L -> Dmin paper <= Dmax paper ->
  Forall (fun ex => Script.precompute1 paper ex <> None) exposures ->
  Script.pixel_density paper L logTrans exposures j
  = Some (Fin (Rmin (Dmin paper
                     + Script.exposures_excess_sum paper L
                         (array_get logTrans (Z.of_nat j)) j exposures)
                    (Dmax paper))).
Proof.
  intros HL HD Hall. unfold Script.pixel_density.
  destruct (precompute_Some paper exposures Hall) as (pre & -> & Hpre).
  rewrite Dfinal_closed by assumption.
  now rewrite (excess_sum_exposures paper L _ j exposures pre Hpre).
Qed.

(** *** The GPU engine *)

Lemma all_constants_Some (paper : Paper) (exposures : list Darkroom.Exposure) :
  Forall (fun ex => Darkroom.exposure_constants paper ex <> None) exposures ->
  exists cs,
    Darkroom.all_constants paper exposures = Some cs
    /\ Forall2 (fun ex c => Darkroom.exposure_constants paper ex = Some c)
               exposures cs.
Proof.
  induction 1 as [| ex rest Hex _ (cs & Hcs & Hall)].
  - exists []. split; [reflexivity | constructor].
  - cbn [Darkroom.all_constants].
    destruct (Darkroom.exposure_constants paper ex) as [c |] eqn:Ec; [| congruence].
    rewrite Hcs. exists (c :: cs). split; [reflexivity | now constructor].
Qed.

Lemma all_constants_None (paper : Paper) (exposures : list Darkroom.Exposure) :
  ~ Forall (fun ex => Darkroom.exposure_constants paper ex <> None) exposures ->
  Darkroom.all_constants paper exposures = None.
Proof.
  induction exposures as [| ex rest IH]; intros Hn.
  - exfalso. apply Hn. constructor.
  - cbn [Darkroom.all_constants].
    destruct (Darkroom.exposure_constants paper ex) as [c |] eqn:Ec; [| reflexivity].
    rewrite IH; [reflexivity |].
    intros Hall. apply Hn. constructor; [congruence | assumption].
Qed.

Lemma all_constants_Forall2 (paper : Paper)
  (exposures : list Darkroom.Exposure) (cs : list (num * num * num * Z)) :
  Darkroom.all_constants paper exposures = Some cs ->
  Forall2 (fun ex c => Darkroom.exposure_constants paper ex = Some c)
          exposures cs.
Proof.
  revert cs. induction exposures as [| ex rest IH]; intros cs H.
  - injection H as <-. constructor.
  - cbn [Darkroom.all_constants] in H.
    destruct (Darkroom.exposure_constants paper ex) as [c |] eqn:Ec;
      [| discriminate].
    destruct (Darkroom.all_constants paper rest) as [cs' |]; [| discriminate].
    injection H as <-. constructor; [assumption | now apply IH].
Qed.

Lemma Forall2_nth_error {A B : Type} (P : A -> B -> Prop) (l : list A)
  (l' : list B) :
  Forall2 P l l' ->
  forall i x, nth_error l i = Some x ->
  exists y, nth_error l' i = Some y /\ P x y.
Proof.
  induction 1 as [| a b l l' Hab _ IH]; intros i x Hi.
  - destruct i; discriminate.
  - destruct i as [| i]; cbn in *.
    + injection Hi as <-. eauto.
    + eauto.
Qed.

Lemma nth_pad12 {A : Type} (zero : A) (l : list A) (i : nat) (x : A) :
  nth_error l i = Some x -> nth i (Darkroom.pad12 zero l) zero = x.
Proof.
  intros H. unfold Darkroom.pad12.
  rewrite app_nth1 by (apply nth_error_Some; congruence).
  now apply nth_error_nth.
Qed.

Lemma firstn_min_12 (exposures : list Darkroom.Exposure) :
  firstn (Nat.min (List.length exposures) Darkroom.maxExposures) exposures
  = firstn Darkroom.maxExposures exposures.
Proof.
  destruct (Nat.le_ge_cases (List.length exposures) Darkroom.maxExposures).
  - rewrite Nat.min_l by assumption. rewrite !firstn_all2 by lia. reflexivity.
  - now rewrite Nat.min_r by assumption.
Qed.

(** What [render] uploads for a slot below the count are the constants
    of the exposure at that place of the list. *)
Lemma render_slot (paper : Paper) (exposures : list Darkroom.Exposure)
  (L : SigmoidLUT) (U : Darkroom.Uniforms) (e : nat) (ex : Darkroom.Exposure) :
  Darkroom.render paper exposures L = Some U ->
  nth_error (firstn Darkroom.maxExposures exposures) e = Some ex ->
  exists logT k E0 hasMask,
    Darkroom.exposure_constants paper ex = Some (logT, k, E0, hasMask)
    /\ nth e (Darkroom.uLogT U) (Fin 0) = logT
    /\ nth e (Darkroom.uK U) (Fin 0) = k
    /\ nth e (Darkroom.uE0 U) (Fin 0) = E0
    /\ nth e (Darkroom.uHasMask U) 0%Z = hasMask.
Proof.
  unfold Darkroom.render. intros HU He.
  rewrite firstn_min_12 in HU.
  destruct (Darkroom.all_constants paper
              (firstn Darkroom.maxExposures exposures)) as [cs |] eqn:Ecs;
    [| discriminate].
  injection HU as <-. cbn.
  pose proof (all_constants_Forall2 _ _ _ Ecs) as Hall.
  destruct (Forall2_nth_error _ _ _ Hall e ex He) as ([[[logT k] E0] hm] & Hc & Hex).
  exists logT, k, E0, hm. split; [assumption |].
  repeat split; apply nth_pad12; rewrite nth_error_map, Hc; reflexivity.
Qed.

Lemma render_lut_fields (paper : Paper) (exposures : list Darkroom.Exposure)
  (L : SigmoidLUT) (U : Darkroom.Uniforms) :
  Darkroom.render paper exposures L = Some U ->
  Darkroom.uLUTLo U = Fin (lut_lo L)
  /\ Darkroom.uLUTStep U = Fin (lut_step L)
  /\ Darkroom.uLUTLenMinus1 U = Fin (INR (List.length (lut L)) - 1).
Proof.
  unfold Darkroom.render. destruct (Darkroom.all_constants _ _); [| discriminate].
  intros [= <-]. cbn. auto.
Qed.

Lemma firstn_12_length (exposures : list Darkroom.Exposure) :
  List.length (firstn Darkroom.maxExposures exposures)
  = Nat.min (List.length exposures) Darkroom.maxExposures.
Proof. rewrite length_firstn. lia. Qed.

Lemma extra_R_render (paper : Paper) (exposures : list Darkroom.Exposure)
  (L : SigmoidLUT) (U : Darkroom.Uniforms) (logTrans : num) (j e : nat)
  (ex : Darkroom.Exposure) :
  Darkroom.render paper exposures L = Some U ->
  nth_error (firstn Darkroom.maxExposures exposures) e = Some ex ->
  Darkroom.extra_R U (Darkroom.lut_bytes L) logTrans
    (Darkroom.mask_alpha exposures j) e
  = Darkroom.exposure_extra_R paper L logTrans j ex.
Proof.
  intros HU He.
  destruct (render_slot paper exposures L U e ex HU He)
    as (logT & k & E0 & hm & Hc & H1 & H2 & H3 & H4).
  destruct (render_fields _ _ _ _ HU) as (Hmin & Hmax & _).
  destruct (render_lut_fields _ _ _ _ HU) as (Hlo & Hst & Hlen).
  assert (He12 : (e < 12)%nat).
  { assert (nth_error (firstn Darkroom.maxExposures exposures) e <> None)
      by congruence.
    apply nth_error_Some in H. rewrite firstn_12_length in H.
    unfold Darkroom.maxExposures in H. lia. }
  assert (Hex : nth_error exposures e = Some ex).
  { rewrite nth_error_firstn in He.
    destruct (e <? Darkroom.maxExposures)%nat; [assumption | discriminate]. }
  unfold Darkroom.extra_R, Darkroom.shader_extra, Darkroom.exposure_extra_R.
  rewrite Hc, H1, H2, H3, H4, Hmin, Hmax, Hlo, Hst, Hlen.
  apply Nat.ltb_lt in He12. rewrite He12.
  unfold Darkroom.mask_alpha. rewrite Hex. reflexivity.
Qed.

Lemma extra_sum_render (paper : Paper) (exposures : list Darkroom.Exposure)
  (L : SigmoidLUT) (U : Darkroom.Uniforms) (logTrans : num) (j : nat) :
  Darkroom.render paper exposures L = Some U ->
  Darkroom.extra_sum U (Darkroom.lut_bytes L) logTrans
    (Darkroom.mask_alpha exposures j) (seq 0 (Darkroom.uExposureCount U))
  = Darkroom.exposures_extra_sum paper L logTrans j
      (firstn Darkroom.maxExposures exposures).
Proof.
  intros HU. destruct (render_fields _ _ _ _ HU) as (_ & _ & Hn).
  rewrite Hn, <- firstn_12_length.
  unfold Darkroom.extra_sum, Darkroom.exposures_extra_sum.
  apply fold_seq_list. intros i ex Hi. cbn [Nat.add].
  now apply (extra_R_render paper exposures L U logTrans j i ex).
Qed.

(** The shader's final density, as a clamped sum over the first twelve
    exposures. *)
Lemma render_density_closed (paper : Paper) (exposures : list Darkroom.Exposure)
  (L : SigmoidLUT) (r8 : list Z) (j : nat) (U : Darkroom.Uniforms) :
  Darkroom.render paper exposures L = Some U ->
  Dmin paper <= Dmax paper ->
  Darkroom.render_density paper exposures L r8 j
  = Some (Fin (Rmin (Dmin paper
                     + Darkroom.exposures_extra_sum paper L
                         (Darkroom.log10_
                            (Darkroom.glsl_max (Fin 1e-6)
                               (Darkroom.trans_texel r8 j)))
                         j (firstn Darkroom.maxExposures exposures))
                    (Dmax paper))).
Proof.
  intros HU HD. unfold Darkroom.render_density. rewrite HU.
  destruct (render_fields _ _ _ _ HU) as (Hmin & Hmax & _).
  rewrite (shader_density_closed U _ _ _ _ _ Hmin Hmax HD (lut_bytes_range L)).
  now rewrite (extra_sum_render paper exposures L U _ j HU).
Qed.

Lemma render_Some (paper : Paper) (exposures : list Darkroom.Exposure)
  (L : SigmoidLUT) :
  Forall (fun ex => Darkroom.exposure_constants paper ex <> None)
         (firstn Darkroom.maxExposures exposures) ->
  exists U, Darkroom.render paper exposures L = Some U.
Proof.
  intros Hall. unfold Darkroom.render. rewrite firstn_min_12.
  destruct (all_constants_Some _ _ Hall) as (cs & -> & _). eauto.
Qed.

Lemma render_None (paper : Paper) (exposures : list Darkroom.Exposure)
  (L : SigmoidLUT) :
  ~ Forall (fun ex => Darkroom.exposure_constants paper ex <> None)
           (firstn Darkroom.maxExposures exposures) ->
  Darkroom.render paper exposures L = None.
Proof.
  intros Hn. unfold Darkroom.render. rewrite firstn_min_12.
  now rewrite (all_constants_None _ _ Hn).
Qed.

(* ================================================================== *)
(** ** Evaluating the shader on explicit inputs *)
(* ================================================================== *)

Lemma glsl_max_FF (a b : R) : Darkroom.glsl_max (Fin a) (Fin b) = Fin (Rmax a b).
Proof.
  unfold Darkroom.glsl_max, Rmax. cbn [nlt].
  destruct (Rle_dec a b); rcases; f_equal; lra.
Qed.

Lemma glsl_min_FF (a b : R) : Darkroom.glsl_min (Fin a) (Fin b) = Fin (Rmin a b).
Proof.
  unfold Darkroom.glsl_min, Rmin. cbn [nlt].
  destruct (Rle_dec a b); rcases; f_equal; lra.
Qed.

Lemma exp_1_ge_2 : 2 <= exp 1.
Proof. pose proof (exp_ineq1 1 ltac:(lra)). lra. Qed.

Lemma exp_12_big : 4096 <= exp 12.
Proof.
  pose proof exp_1_ge_2 as H1.
  assert (H2 : 4 <= exp 2).
  { replace 2 with (1 + 1) by lra. rewrite exp_plus. nra. }
  assert (H4 : 16 <= exp 4).
  { replace 4 with (2 + 2) by lra. rewrite exp_plus. nra. }
  assert (H8 : 256 <= exp 8).
  { replace 8 with (4 + 4) by lra. rewrite exp_plus. nra. }
  replace 12 with (8 + 4) by lra. rewrite exp_plus. nra.
Qed.

Lemma exp_m12_small : 0 < exp (-12) <= / 4096.
Proof.
  split; [apply exp_pos |].
  replace (-12) with (- (12)) by lra.
  rewrite exp_Ropp. apply Rinv_le_contravar; [lra | apply exp_12_big].
Qed.

Lemma div_mul_cancel (a b : R) : b <> 0 -> a / b * b = a.
Proof. intros H. field. assumption. Qed.

Lemma INR_pred (N : nat) : (1 <= N)%nat -> INR (N - 1) = INR N - 1.
Proof. intros H. rewrite minus_INR by assumption. reflexivity. Qed.

(** The bytes [uploadLUT] makes of the table. *)
Lemma lut_bytes_length (N : nat) :
  List.length (Darkroom.lut_bytes (buildSigmoidLUT N)) = N.
Proof.
  unfold Darkroom.lut_bytes, buildSigmoidLUT. cbn [lut].
  now rewrite !length_map, length_seq.
Qed.

Lemma lut_bytes_nth (N i : nat) :
  (i < N)%nat ->
  nth i (Darkroom.lut_bytes (buildSigmoidLUT N)) 0%Z
  = (Rround (1 / (1 + exp (- (-12 + INR i * ((12 - -12) / (INR N - 1))))) * 255)
     mod 256)%Z.
Proof.
  intros Hi. unfold Darkroom.lut_bytes, buildSigmoidLUT. cbn [lut].
  rewrite map_map.
  apply nth_error_nth.
  rewrite nth_error_map, nth_error_seq.
  apply Nat.ltb_lt in Hi. rewrite Hi. reflexivity.
Qed.

Lemma lut_byte_first (N : nat) :
  (2 <= N)%nat -> nth 0 (Darkroom.lut_bytes (buildSigmoidLUT N)) 0%Z = 0%Z.
Proof.
  intros HN. rewrite lut_bytes_nth by lia.
  replace (- (-12 + INR 0 * ((12 - -12) / (INR N - 1)))) with 12
    by (simpl; lra).
  pose proof exp_12_big as He.
  assert (H : 0 < / (1 + exp 12) <= / 4097).
  { split; [apply Rinv_0_lt_compat; lra | apply Rinv_le_contravar; lra]. }
  rewrite (Rround_eval _ 0); [reflexivity |].
  simpl. unfold Rdiv. lra.
Qed.

Lemma lut_byte_last (N : nat) :
  (2 <= N)%nat ->
  nth (N - 1) (Darkroom.lut_bytes (buildSigmoidLUT N)) 0%Z = 255%Z.
Proof.
  intros HN. rewrite lut_bytes_nth by lia.
  assert (HNR : 2 <= INR N) by (change 2 with (INR 2); now apply le_INR).
  rewrite INR_pred by lia.
  replace (- (-12 + (INR N - 1) * ((12 - -12) / (INR N - 1)))) with (-12)
    by (field; lra).
  destruct exp_m12_small as [He0 He1].
  assert (H : / (1 + / 4096) <= / (1 + exp (-12)) <= 1).
  { split.
    - apply Rinv_le_contravar; lra.
    - rewrite <- Rinv_1 at 2. apply Rinv_le_contravar; lra. }
  rewrite (Rround_eval _ 255); [reflexivity |].
  replace (/ (1 + / 4096)) with (4096 / 4097) in H by (field; lra).
  simpl. unfold Rdiv. lra.
Qed.

Lemma texel_first (N : nat) :
  (2 <= N)%nat -> Darkroom.texel (Darkroom.lut_bytes (buildSigmoidLUT N)) 0 = 0.
Proof.
  intros HN. unfold Darkroom.texel. rewrite lut_bytes_length.
  replace (Z.to_nat (Z.max 0 (Z.min (Z.of_nat N - 1) 0))) with 0%nat by lia.
  rewrite lut_byte_first by assumption. lra.
Qed.

Lemma texel_last (N : nat) (i : Z) :
  (2 <= N)%nat -> (Z.of_nat N - 1 <= i)%Z ->
  Darkroom.texel (Darkroom.lut_bytes (buildSigmoidLUT N)) i = 1.
Proof.
  intros HN Hi. unfold Darkroom.texel. rewrite lut_bytes_length.
  replace (Z.to_nat (Z.max 0 (Z.min (Z.of_nat N - 1) i))) with (N - 1)%nat by lia.
  rewrite lut_byte_last by assumption. lra.
Qed.

(** [fetchSigmoid] under and over the table, with the uniforms
    [uploadLUT] sets for it. *)
Lemma fetchSigmoid_below (N : nat) (x : R) :
  (2 <= N)%nat -> x <= -12 ->
  Darkroom.fetchSigmoid (Fin (lut_lo (buildSigmoidLUT N)))
    (Fin (lut_step (buildSigmoidLUT N)))
    (Fin (INR (List.length (lut (buildSigmoidLUT N))) - 1))
    (Darkroom.lut_bytes (buildSigmoidLUT N)) (Fin x)
  = Fin 0.
Proof.
  intros HN Hx.
  assert (HNR : 2 <= INR N) by (change 2 with (INR 2); now apply le_INR).
  assert (Hlen : List.length (lut (buildSigmoidLUT N)) = N).
  { unfold buildSigmoidLUT. cbn [lut]. now rewrite length_map, length_seq. }
  rewrite Hlen. unfold Darkroom.fetchSigmoid, Darkroom.glsl_clamp.
  change (lut_lo (buildSigmoidLUT N)) with (-12).
  change (lut_step (buildSigmoidLUT N)) with ((12 - -12) / (INR N - 1)).
  assert (Hstep : 0 < (12 - -12) / (INR N - 1)).
  { apply Rmult_lt_0_compat; [lra | apply Rinv_0_lt_compat; lra]. }
  rewrite nsub_FF, ndiv_FF by lra.
  rewrite glsl_max_FF, glsl_min_FF.
  assert (Hidx : (x - -12) / ((12 - -12) / (INR N - 1)) <= 0).
  { pose proof (Rinv_0_lt_compat _ Hstep) as Hinv.
    unfold Rdiv at 1. nra. }
  rewrite Rmax_right, Rmin_left by lra.
  rewrite !nadd_FF, ndiv_FF by lra.
  unfold Darkroom.texture_lut. rewrite lut_bytes_length.
  replace ((0 + 0.5) / (INR N - 1 + 1) * INR N - / 2) with 0
    by (replace (INR N - 1 + 1) with (INR N) by lra;
        rewrite div_mul_cancel by lra; lra).
  rewrite (Int_part_eq 0 0) by (simpl; lra).
  rewrite texel_first by assumption. f_equal. simpl. lra.
Qed.

Lemma fetchSigmoid_above (N : nat) (x : R) :
  (2 <= N)%nat -> 12 <= x ->
  Darkroom.fetchSigmoid (Fin (lut_lo (buildSigmoidLUT N)))
    (Fin (lut_step (buildSigmoidLUT N)))
    (Fin (INR (List.length (lut (buildSigmoidLUT N))) - 1))
    (Darkroom.lut_bytes (buildSigmoidLUT N)) (Fin x)
  = Fin 1.
Proof.
  intros HN Hx.
  assert (HNR : 2 <= INR N) by (change 2 with (INR 2); now apply le_INR).
  assert (Hlen : List.length (lut (buildSigmoidLUT N)) = N).
  { unfold buildSigmoidLUT. cbn [lut]. now rewrite length_map, length_seq. }
  rewrite Hlen. unfold Darkroom.fetchSigmoid, Darkroom.glsl_clamp.
  change (lut_lo (buildSigmoidLUT N)) with (-12).
  change (lut_step (buildSigmoidLUT N)) with ((12 - -12) / (INR N - 1)).
  assert (Hstep : 0 < (12 - -12) / (INR N - 1)).
  { apply Rmult_lt_0_compat; [lra | apply Rinv_0_lt_compat; lra]. }
  rewrite nsub_FF, ndiv_FF by lra.
  rewrite glsl_max_FF, glsl_min_FF.
  assert (Hidx : INR N - 1 <= (x - -12) / ((12 - -12) / (INR N - 1))).
  { replace (INR N - 1) with ((12 - -12) / ((12 - -12) / (INR N - 1))) at 1
      by (field; lra).
    unfold Rdiv at 1 3. apply Rmult_le_compat_r; [| lra].
    left. now apply Rinv_0_lt_compat. }
  rewrite Rmax_left, Rmin_right by lra.
  rewrite !nadd_FF, ndiv_FF by lra.
  unfold Darkroom.texture_lut. rewrite lut_bytes_length.
  replace ((INR N - 1 + 0.5) / (INR N - 1 + 1) * INR N - / 2) with (INR N - 1)
    by (replace (INR N - 1 + 1) with (INR N) by lra;
        rewrite div_mul_cancel by lra; lra).
  assert (HZ : INR N - 1 = IZR (Z.of_nat N - 1)).
  { rewrite minus_IZR, <- INR_IZR_INZ. reflexivity. }
  rewrite HZ. rewrite (Int_part_eq _ (Z.of_nat N - 1)) by lra.
  rewrite !texel_last by (try assumption; lia). f_equal. lra.
Qed.

Lemma LN10_pos : 0 < LN10.
Proof. exact ln10_pos. Qed.

Lemma Math_log10_pos (t : R) :
  0 < t -> Math_log10 (Fin t) = Fin (ln t / LN10).
Proof.
  intros Ht. unfold Math_log10, Math_log.
  apply Rltb_true in Ht. rewrite Ht.
  pose proof LN10_pos. now rewrite ndiv_FF by lra.
Qed.

(** The log transmittance the shader computes for a white negative. *)
Lemma logTrans_white :
  Darkroom.log10_ (Darkroom.glsl_max (Fin 1e-6) (Darkroom.trans_texel r8_white 0))
  = Fin 0.
Proof.
  unfold Darkroom.trans_texel, r8_white. cbn [nth].
  rewrite glsl_max_FF. replace (255 / 255) with 1 by lra.
  rewrite Rmax_right by lra.
  change (Darkroom.log10_ (Fin 1)) with (Math_log10 (Fin 1)).
  rewrite Math_log10_pos by lra. rewrite ln_1. f_equal. unfold Rdiv. lra.
Qed.

(** The constants [render] uploads on the Ilford paper for a grade 2
    exposure of [t] seconds without mask. *)
Lemma exposure_constants_ilford (name : string) (t : R) :
  1e-6 <= t ->
  Darkroom.exposure_constants ilford_multigrade
    (Darkroom.mkExposure name (Fin t) 5 None)
  = Some (Fin (ln t / LN10), Fin 4.2, Fin (ln 16 / LN10), 0%Z).
Proof.
  intros Ht. unfold Darkroom.exposure_constants.
  cbn [Darkroom.grade Darkroom.time Darkroom.maskData].
  rewrite ilford_grade2. cbn [gp_k gp_speedShiftStops].
  change (baseExposure ilford_multigrade) with 16.
  rewrite Math_max_FF, Rmax_right by lra.
  rewrite Math_log10_pos by lra.
  cbn [Math_pow2]. rewrite nmul_FF.
  replace (0.0 * ln 2) with 0 by lra. rewrite exp_0, Rmult_1_r.
  rewrite Math_log10_pos by lra. reflexivity.
Qed.

(** [slot_extra] for a slot without mask. *)
Lemma slot_extra_nomask (dmin dmax lt k e0 logTrans : R)
  (fetch : num -> num) (a : num) :
  Darkroom.slot_extra (Fin dmin) (Fin dmax) fetch (Fin logTrans) 0
    (Fin lt) (Fin k) (Fin e0) a
  = (Fin dmin + Fin (dmax - dmin) * fetch (Fin (k * (lt + logTrans - e0)))
     - Fin dmin)%num.
Proof.
  unfold Darkroom.slot_extra. cbn [Z.eqb]. nred. reflexivity.
Qed.

Lemma log10R_milli (a : R) : 0 < a -> ln (a / 1000) / LN10 = ln a / LN10 - 3.
Proof.
  intros Ha. rewrite ln_milli by assumption. unfold LN10.
  pose proof ln10_pos. field. lra.
Qed.

Lemma log10R_kilo (a : R) : 0 < a -> ln (a * 1000) / LN10 = ln a / LN10 + 3.
Proof.
  intros Ha. rewrite ln_kilo by assumption. unfold LN10.
  pose proof ln10_pos. field. lra.
Qed.

(** In the shader too, at a pixel of transmittance 1 on the Ilford paper,
    the weak exposure adds nothing and the saturating one the whole
    span. *)
Lemma gpu_low_extra (N j : nat) (name : string) :
  (2 <= N)%nat ->
  Darkroom.exposure_extra_R ilford_multigrade (buildSigmoidLUT N) (Fin 0) j
    (gpu_low name) = 0.
Proof.
  intros HN. unfold Darkroom.exposure_extra_R, gpu_low.
  rewrite exposure_constants_ilford by lra.
  change (Dmin ilford_multigrade) with 0.06.
  change (Dmax ilford_multigrade) with 2.05.
  rewrite slot_extra_nomask.
  rewrite fetchSigmoid_below.
  - nred. rewrite Rmax_left by lra. reflexivity.
  - assumption.
  - replace 0.016 with (16 / 1000) by lra.
    rewrite log10R_milli by lra. lra.
Qed.

Lemma gpu_high_extra (N j : nat) (name : string) :
  (2 <= N)%nat ->
  Darkroom.exposure_extra_R ilford_multigrade (buildSigmoidLUT N) (Fin 0) j
    (gpu_high name) = 2.05 - 0.06.
Proof.
  intros HN. unfold Darkroom.exposure_extra_R, gpu_high.
  rewrite exposure_constants_ilford by lra.
  change (Dmin ilford_multigrade) with 0.06.
  change (Dmax ilford_multigrade) with 2.05.
  rewrite slot_extra_nomask.
  rewrite fetchSigmoid_above.
  - nred. rewrite Rmax_right by lra. lra.
  - assumption.
  - replace 16000 with (16 * 1000) by lra.
    rewrite log10R_kilo by lra. lra.
Qed.

Lemma gpu_lows12_sum (N j : nat) :
  (2 <= N)%nat ->
  Darkroom.exposures_extra_sum ilford_multigrade (buildSigmoidLUT N) (Fin 0) j
    gpu_lows12 = 0.
Proof.
  intros HN. unfold Darkroom.exposures_extra_sum, gpu_lows12.
  cbn [fold_right]. rewrite !gpu_low_extra by assumption. lra.
Qed.

Lemma gpu_low_valid (name : string) :
  Darkroom.exposure_constants ilford_multigrade (gpu_low name) <> None.
Proof. unfold gpu_low. rewrite exposure_constants_ilford by lra. discriminate. Qed.

Lemma gpu_high_valid (name : string) :
  Darkroom.exposure_constants ilford_multigrade (gpu_high name) <> None.
Proof. unfold gpu_high. rewrite exposure_constants_ilford by lra. discriminate. Qed.

Lemma gpu_lows12_valid :
  Forall (fun ex => Darkroom.exposure_constants ilford_multigrade ex <> None)
         gpu_lows12.
Proof. unfold gpu_lows12. repeat constructor; apply gpu_low_valid. Qed.

(** The final density of the white-negative pixel under the thirteen
    exposures, the saturating one last and first. *)
Lemma gpu_density_13 :
  Darkroom.render_density ilford_multigrade gpu_exposures13
    Darkroom.makeSigmoidLUT r8_white 0 = Some (Fin 0.06).
Proof.
  destruct (render_Some ilford_multigrade gpu_exposures13 Darkroom.makeSigmoidLUT)
    as (U & HU).
  { change (firstn Darkroom.maxExposures gpu_exposures13) with gpu_lows12.
    apply gpu_lows12_valid. }
  rewrite (render_density_closed _ _ _ _ _ U HU) by (cbn; lra).
  change (firstn Darkroom.maxExposures gpu_exposures13) with gpu_lows12.
  rewrite logTrans_white. unfold Darkroom.makeSigmoidLUT.
  rewrite gpu_lows12_sum by lia.
  change (Dmin ilford_multigrade) with 0.06.
  change (Dmax ilford_multigrade) with 2.05.
  rewrite Rplus_0_r, Rmin_left by lra. reflexivity.
Qed.

Lemma gpu_density_13_rev :
  Darkroom.render_density ilford_multigrade gpu_exposures13_rev
    Darkroom.makeSigmoidLUT r8_white 0 = Some (Fin 2.05).
Proof.
  destruct (render_Some ilford_multigrade gpu_exposures13_rev
              Darkroom.makeSigmoidLUT) as (U & HU).
  { unfold gpu_exposures13_rev, gpu_lows12.
    cbn [firstn Darkroom.maxExposures].
    repeat constructor; first [apply gpu_low_valid | apply gpu_high_valid]. }
  rewrite (render_density_closed _ _ _ _ _ U HU) by (cbn; lra).
  rewrite logTrans_white. unfold Darkroom.makeSigmoidLUT.
  unfold gpu_exposures13_rev, gpu_lows12.
  cbn [firstn Darkroom.maxExposures].
  unfold Darkroom.exposures_extra_sum. cbn [fold_right].
  rewrite gpu_high_extra, !gpu_low_extra by lia.
  change (Dmin ilford_multigrade) with 0.06.
  change (Dmax ilford_multigrade) with 2.05.
  rewrite Rmin_right by lra. reflexivity.
Qed.

(** C3. For valid parameters (Dmax > Dmin >= 0, slope k > 0, any midtone
    E0) and any log exposure (finite or infinite, not NaN),
    [densityFromLogE] lies in [Dmin, Dmax], and it is monotonically
    non-decreasing in the log exposure. *)
Theorem densityFromLogE_range_monotone (Dmin Dmax k E0 : R) :
  0 <= Dmin -> Dmin < Dmax -> 0 < k ->
  (forall logE, logE <> NaN ->
     nle (Fin Dmin) (densityFromLogE logE (Fin Dmin) (Fin Dmax) (Fin k) (Fin E0)) = true
     /\ nle (densityFromLogE logE (Fin Dmin) (Fin Dmax) (Fin k) (Fin E0)) (Fin Dmax) = true)
  /\ (forall logE1 logE2, nle logE1 logE2 = true ->
        nle (densityFromLogE logE1 (Fin Dmin) (Fin Dmax) (Fin k) (Fin E0))
            (densityFromLogE logE2 (Fin Dmin) (Fin Dmax) (Fin k) (Fin E0)) = true).
Proof.
  intros H0 HD Hk.
  assert (HD' : Dmin <= Dmax) by lra.
  assert (Hfin : forall x, exists d,
             densityFromLogE (Fin x) (Fin Dmin) (Fin Dmax) (Fin k) (Fin E0) = Fin d
             /\ d = Dmin + (Dmax - Dmin) / (1 + exp (- k * (x - E0)))
             /\ Dmin <= d <= Dmax).
  { intros x. eexists. split; [now apply densityFromLogE_Fin |].
    split; [reflexivity |].
    pose proof (logistic_bounds (Dmax - Dmin) (exp (- k * (x - E0)))
                  ltac:(lra) (exp_pos _)); lra. }
  split.
  - intros [x | | |] Hn; try congruence.
    + destruct (Hfin x) as (d & -> & _ & Hr). rewrite !nle_Fin. lra.
    + rewrite densityFromLogE_PInf by assumption. rewrite !nle_Fin. lra.
    + rewrite densityFromLogE_NInf by assumption. rewrite !nle_Fin. lra.
  - intros [x | | |] [y | | |] Hle; cbn in Hle; try discriminate;
      rewrite ?densityFromLogE_PInf, ?densityFromLogE_NInf by assumption;
      try (destruct (Hfin x) as (dx & -> & Hx & Hrx));
      try (destruct (Hfin y) as (dy & -> & Hy & Hry));
      rewrite nle_Fin; try lra.
    apply Rleb_true in Hle. subst dx dy.
    apply Rplus_le_compat_l.
    apply logistic_mono; [lra | apply exp_pos |].
    apply exp_mono_le. nra.
Qed.
(** C1 (amended).  For every paper and every list of exposures the
    accumulated excess density of a pixel is clamped at Dmax - Dmin, and
    the final density is min(Dmin + sum, Dmax), in [Dmin, Dmax], in the
    scalar loop and in the shader alike.  Only the scalar loop of
    script.js ends early: its running sum is min(Dmax - Dmin, sum of the
    excesses) and the loop ends as soon as the sum reaches Dmax - Dmin
    (what follows is not read).  The shader has no early exit: its
    running total is Dmin plus the excess of every one of the uploaded
    exposures, clamped once, by the [min] after the loop.  With
    Dmin = 0.06 and Dmax = 2.05, two exposures of excess 1.5 each give a
    combined excess of 1.99. *)
Theorem excess_density_clamped (paper : Paper) (L : SigmoidLUT) :
  valid_paper paper -> valid_lut L ->
  let dmin := Fin (Dmin paper) in
  let spanD := Fin (Dmax paper - Dmin paper) in
  (forall logT j pre,
      Script.exposure_loop dmin spanD L logT j pre (Fin 0)
      = Fin (Rmin (Dmax paper - Dmin paper)
                  (Script.excess_sum dmin spanD L logT j pre))
      /\ Script.Dfinal paper L logT j pre
         = Fin (Rmin (Dmin paper + Script.excess_sum dmin spanD L logT j pre)
                     (Dmax paper))
      /\ nle dmin (Script.Dfinal paper L logT j pre) = true
      /\ nle (Script.Dfinal paper L logT j pre) (Fin (Dmax paper)) = true)
  /\ (forall logT j pre1 pre2,
        nge (Script.exposure_loop dmin spanD L logT j pre1 (Fin 0)) spanD = true ->
        Script.exposure_loop dmin spanD L logT j (pre1 ++ pre2) (Fin 0) = spanD
        /\ Script.exposure_loop_steps dmin spanD L logT j (pre1 ++ pre2) (Fin 0)
           = Script.exposure_loop_steps dmin spanD L logT j pre1 (Fin 0)
        /\ (Script.exposure_loop_steps dmin spanD L logT j pre1 (Fin 0)
            <= List.length pre1)%nat)
  /\ (forall exposures r8 j D,
        Darkroom.render_density paper exposures L r8 j = Some D ->
        exists U d,
          Darkroom.render paper exposures L = Some U
          /\ fold_left
               (Darkroom.shader_step U (Darkroom.lut_bytes L)
                  (Darkroom.log10_
                     (Darkroom.glsl_max (Fin 1e-6)
                        (Darkroom.trans_texel r8 j)))
                  (Darkroom.mask_alpha exposures j))
               (seq 0 (Darkroom.uExposureCount U)) (Darkroom.uDmin U)
             = Fin (Dmin paper
                    + Darkroom.extra_sum U (Darkroom.lut_bytes L)
                        (Darkroom.log10_
                           (Darkroom.glsl_max (Fin 1e-6)
                              (Darkroom.trans_texel r8 j)))
                        (Darkroom.mask_alpha exposures j)
                        (seq 0 (Darkroom.uExposureCount U)))
          /\ D = Fin d
          /\ d = Rmin (Dmin paper
                       + Darkroom.extra_sum U (Darkroom.lut_bytes L)
                           (Darkroom.log10_
                              (Darkroom.glsl_max (Fin 1e-6)
                                 (Darkroom.trans_texel r8 j)))
                           (Darkroom.mask_alpha exposures j)
                           (seq 0 (Darkroom.uExposureCount U)))
                      (Dmax paper)
          /\ Dmin paper <= d <= Dmax paper)
  /\ (Dmin paper = 0.06 -> Dmax paper = 2.05 ->
      forall logT j e1 e2,
        Script.Dexcess_of dmin spanD L logT j e1 = Fin 1.5 ->
        Script.Dexcess_of dmin spanD L logT j e2 = Fin 1.5 ->
        Script.exposure_loop dmin spanD L logT j [e1; e2] (Fin 0) = Fin 1.99
        /\ Script.Dfinal paper L logT j [e1; e2] = Fin 2.05).
Proof.
  intros (H0 & HD & _ & _) HL dmin spanD.
  assert (HD' : Dmin paper <= Dmax paper) by lra.
  assert (Hs : 0 <= Dmax paper - Dmin paper) by lra.
  assert (Hloop : forall logT j pre,
             Script.exposure_loop dmin spanD L logT j pre (Fin 0)
             = Fin (Rmin (Dmax paper - Dmin paper)
                         (Script.excess_sum dmin spanD L logT j pre))).
  { intros logT j pre. unfold dmin, spanD.
    rewrite (exposure_loop_closed _ _ L logT j pre HL Hs 0) by lra.
    now rewrite Rplus_0_l. }
  assert (Hfinal : forall logT j pre,
             Script.Dfinal paper L logT j pre
             = Fin (Rmin (Dmin paper + Script.excess_sum dmin spanD L logT j pre)
                         (Dmax paper))).
  { intros. now apply Dfinal_closed. }
  split; [| split; [| split]].
  - intros logT j pre.
    split; [apply Hloop |]. split; [apply Hfinal |].
    rewrite Hfinal.
    pose proof (excess_sum_nonneg (Dmin paper) _ L logT j pre HL Hs) as Hn.
    fold dmin spanD in Hn.
    split; apply nle_Fin; [apply Rmin_glb; lra | apply Rmin_r].
  - intros logT j pre1 pre2 Hsat.
    apply exposure_loop_break; [| assumption].
    unfold nge, spanD. cbn [nle]. apply Rleb_false. lra.
  - intros exposures r8 j D HDd. unfold Darkroom.render_density in HDd.
    destruct (Darkroom.render paper exposures L) as [U |] eqn:EU; [| discriminate].
    injection HDd as <-.
    destruct (render_fields _ _ _ _ EU) as (Hmin & Hmax & _).
    pose proof (lut_bytes_range L) as Hb.
    exists U. eexists. split; [reflexivity |]. split.
    { rewrite Hmin.
      apply (shader_loop_closed U _ _ _ _ _ _ Hmin Hmax HD' Hb). }
    split.
    { apply (shader_density_closed U _ _ _ _ _ Hmin Hmax HD' Hb). }
    split; [reflexivity |].
    pose proof (extra_sum_nonneg U (Darkroom.lut_bytes L)
                  (Darkroom.log10_ (Darkroom.glsl_max (Fin 1e-6)
                                      (Darkroom.trans_texel r8 j)))
                  (Darkroom.mask_alpha exposures j)
                  (seq 0 (Darkroom.uExposureCount U)) _ _ Hmin Hmax HD' Hb) as Hn.
    split; [apply Rmin_glb; lra | apply Rmin_r].
  - intros Ea Eb logT j e1 e2 He1 He2.
    rewrite Hloop, Hfinal.
    unfold Script.excess_sum, Script.excess_R. cbn [fold_right].
    rewrite He1, He2. rewrite Rmax_right by lra.
    rewrite Ea, Eb. split; f_equal.
    + rewrite Rmin_left by lra. lra.
    + rewrite Rmin_right by lra. lra.
Qed.

Lemma ilford_high_Dexcess (N j : nat) :
  Script.Dexcess_of (Fin 0.06) (Fin (2.05 - 0.06)) (buildSigmoidLUT N) (Fin 0) j
    (ilford_pre 16000) = Fin (2.05 - 0.06).
Proof.
  unfold ilford_pre. rewrite Dexcess_of_nomask.
  assert (Hx : 4.2 * (ln 16000 * LOG10E + 0 + 0
                     - (ln 16 * LOG10E + 0.0 * (LOG10E * LN2))) = 12.6).
  { replace 16000 with (16 * 1000) by lra. rewrite log10_kilo by lra. lra. }
  rewrite sigmoid_above.
  - nred. f_equal. lra.
  - change (lut_lo (buildSigmoidLUT N)) with (-12). lra.
  - change (lut_hi (buildSigmoidLUT N)) with 12. lra.
Qed.

(** C1, counterexample.  Two saturating exposures on the Ilford paper
    (Dmin 0.06, Dmax 2.05) at a pixel of transmittance 1.  The scalar
    loop of script.js runs one loop body and breaks: its sum is 1.99.
    The shader has no early exit: after the first slot its running
    total has reached Dmax, the second slot is added all the same and
    the total stands at 4.04, an excess of 3.98 over Dmin; only the
    [min] after the loop brings the density back to 2.05. *)
Lemma shader_has_no_early_exit :
  Script.exposure_loop_steps (Fin 0.06) (Fin (2.05 - 0.06))
    (buildSigmoidLUT 2048) (Fin 0) 0 [ilford_pre 16000; ilford_pre 16000]
    (Fin 0) = 1%nat
  /\ exists U,
       Darkroom.render ilford_multigrade [gpu_high "e01"; gpu_high "e02"]
         Darkroom.makeSigmoidLUT = Some U
       /\ Darkroom.uExposureCount U = 2%nat
       /\ fold_left
            (Darkroom.shader_step U (Darkroom.lut_bytes Darkroom.makeSigmoidLUT)
               (Darkroom.log10_
                  (Darkroom.glsl_max (Fin 1e-6)
                     (Darkroom.trans_texel r8_white 0)))
               (Darkroom.mask_alpha [gpu_high "e01"; gpu_high "e02"] 0))
            (seq 0 1) (Darkroom.uDmin U) = Fin 2.05
       /\ fold_left
            (Darkroom.shader_step U (Darkroom.lut_bytes Darkroom.makeSigmoidLUT)
               (Darkroom.log10_
                  (Darkroom.glsl_max (Fin 1e-6)
                     (Darkroom.trans_texel r8_white 0)))
               (Darkroom.mask_alpha [gpu_high "e01"; gpu_high "e02"] 0))
            (seq 0 (Darkroom.uExposureCount U)) (Darkroom.uDmin U) = Fin 4.04
       /\ Darkroom.render_density ilford_multigrade
            [gpu_high "e01"; gpu_high "e02"] Darkroom.makeSigmoidLUT r8_white 0
          = Some (Fin 2.05).
Proof.
  split.
  - cbn [Script.exposure_loop_steps]. rewrite ilford_high_Dexcess.
    unfold ngt, nge. nred. reflexivity.
  - destruct (render_Some ilford_multigrade [gpu_high "e01"; gpu_high "e02"]
                Darkroom.makeSigmoidLUT) as (U & HU).
    { cbn [firstn Darkroom.maxExposures].
      repeat constructor; apply gpu_high_valid. }
    exists U. split; [exact HU |].
    destruct (render_fields _ _ _ _ HU) as (Hmin & Hmax & Hn).
    assert (Hcount : Darkroom.uExposureCount U = 2%nat) by (rewrite Hn; reflexivity).
    split; [exact Hcount |].
    assert (HD : Dmin ilford_multigrade <= Dmax ilford_multigrade) by (cbn; lra).
    pose proof (lut_bytes_range Darkroom.makeSigmoidLUT) as Hb.
    rewrite Hmin.
    rewrite !(shader_loop_closed U _ _ _ _ _ _ Hmin Hmax HD Hb).
    rewrite (extra_sum_render _ _ _ U _ 0 HU).
    rewrite (render_density_closed _ _ _ _ _ U HU HD).
    rewrite logTrans_white.
    unfold Darkroom.extra_sum. cbn [seq fold_right].
    rewrite (extra_R_render ilford_multigrade _ Darkroom.makeSigmoidLUT U
               (Fin 0) 0 0 (gpu_high "e01") HU eq_refl).
    cbn [firstn Darkroom.maxExposures].
    unfold Darkroom.exposures_extra_sum. cbn [fold_right].
    unfold Darkroom.makeSigmoidLUT.
    rewrite !gpu_high_extra by lia.
    change (Dmin ilford_multigrade) with 0.06.
    change (Dmax ilford_multigrade) with 2.05.
    split; [f_equal; lra |]. split; [f_equal; lra |].
    rewrite Rmin_right by lra. reflexivity.
Qed.
Lemma densityFromLogE_range_monotone_witness :
  (0 <= 0.06 /\ 0.06 < 2.05 /\ 0 < 4.2)
  /\ nle (Fin 0.06)
         (densityFromLogE (Fin 1) (Fin 0.06) (Fin 2.05) (Fin 4.2) (Fin 1.2)) = true
  /\ nle (densityFromLogE (Fin 1) (Fin 0.06) (Fin 2.05) (Fin 4.2) (Fin 1.2))
         (Fin 2.05) = true.
Proof.
  split; [lra |].
  destruct (densityFromLogE_range_monotone 0.06 2.05 4.2 1.2) as [H _];
    [lra | lra | lra |].
  apply H. discriminate.
Defined.

Lemma lut_150_valid : valid_lut lut_150.
Proof.
  unfold valid_lut, lut_150; cbn. repeat split; try lra; try lia.
  repeat constructor; lra.
Qed.

Lemma pre_midtone_excess :
  Script.Dexcess_of (Fin 0.06) (Fin (2.05 - 0.06)) lut_150 (Fin 0) 0 pre_midtone
  = Fin 1.5.
Proof.
  unfold Script.Dexcess_of, pre_midtone, Script.sigmoid, lut_150.
  cbn [Script.pre_mask Script.pre_logTime Script.pre_E0 Script.pre_k
       lut lut_lo lut_hi lut_step].
  unfold ngt, nge. nred.
  cbn [ToInt32]. rewrite Rtrunc_nonneg by lra.
  rewrite (Int_part_eq _ 0) by (simpl; lra).
  change (array_get [1.5 / 1.99] (wrap32 0)) with (Fin (1.5 / 1.99)).
  nred. f_equal. lra.
Qed.

Lemma excess_density_clamped_witness :
  valid_paper ilford_multigrade /\ valid_lut lut_150
  /\ Script.exposure_loop (Fin 0.06) (Fin (2.05 - 0.06)) lut_150 (Fin 0) 0
       [pre_midtone; pre_midtone] (Fin 0) = Fin 1.99.
Proof.
  split; [exact ilford_multigrade_valid |].
  split; [exact lut_150_valid |].
  destruct (excess_density_clamped ilford_multigrade lut_150
              ilford_multigrade_valid lut_150_valid) as (_ & _ & _ & H).
  apply (H eq_refl eq_refl (Fin 0) 0%nat pre_midtone pre_midtone
           pre_midtone_excess pre_midtone_excess).
Defined.

(* ================================================================== *)
(** ** The exposure cap *)
(* ================================================================== *)

Lemma render_firstn (paper : Paper) (exposures : list Darkroom.Exposure)
  (L : SigmoidLUT) :
  Darkroom.render paper (firstn Darkroom.maxExposures exposures) L
  = Darkroom.render paper exposures L.
Proof.
  unfold Darkroom.render.
  rewrite length_firstn, firstn_firstn.
  replace (Nat.min (Nat.min Darkroom.maxExposures (List.length exposures))
             Darkroom.maxExposures)
    with (Nat.min (List.length exposures) Darkroom.maxExposures) by lia.
  replace (Nat.min (Nat.min (List.length exposures) Darkroom.maxExposures)
             Darkroom.maxExposures)
    with (Nat.min (List.length exposures) Darkroom.maxExposures) by lia.
  reflexivity.
Qed.

(** The shader reads the mask of a slot only below [uExposureCount]. *)
Lemma shader_density_ext (U : Darkroom.Uniforms) (lutTex : list Z)
  (trans : num) (maskA maskB : nat -> num) :
  (forall e, (e < Darkroom.uExposureCount U)%nat -> maskA e = maskB e) ->
  Darkroom.shader_density U lutTex trans maskA
  = Darkroom.shader_density U lutTex trans maskB.
Proof.
  intros Hext. unfold Darkroom.shader_density. f_equal.
  assert (Hin : forall e, In e (seq 0 (Darkroom.uExposureCount U)) ->
                          maskA e = maskB e).
  { intros e He. apply in_seq in He. apply Hext. lia. }
  generalize (Darkroom.uDmin U) as acc.
  induction (seq 0 (Darkroom.uExposureCount U)) as [| e es IH];
    intros acc; cbn [fold_left]; [reflexivity |].
  rewrite IH by (intros; apply Hin; now right).
  f_equal. unfold Darkroom.shader_step, Darkroom.shader_extra.
  rewrite (Hin e) by now left. reflexivity.
Qed.

Lemma mask_alpha_firstn (exposures : list Darkroom.Exposure) (n j e : nat) :
  (e < n)%nat ->
  Darkroom.mask_alpha (firstn n exposures) j e = Darkroom.mask_alpha exposures j e.
Proof.
  intros H. unfold Darkroom.mask_alpha. rewrite nth_error_firstn.
  apply Nat.ltb_lt in H. now rewrite H.
Qed.

Lemma render_pixel_firstn (paper : Paper) (exposures : list Darkroom.Exposure)
  (L : SigmoidLUT) (r8 : list Z) (j : nat) :
  Darkroom.render_pixel paper (firstn Darkroom.maxExposures exposures) L r8 j
  = Darkroom.render_pixel paper exposures L r8 j.
Proof.
  unfold Darkroom.render_pixel. rewrite render_firstn.
  destruct (Darkroom.render paper exposures L) as [U |] eqn:EU; [| reflexivity].
  destruct (render_fields _ _ _ _ EU) as (_ & _ & Hn).
  unfold Darkroom.shader_main. do 2 f_equal.
  apply shader_density_ext. intros e He.
  apply mask_alpha_firstn. lia.
Qed.

(** C5 (amended).  In the GPU engine only the first 12 exposures are
    rendered: the uniforms and every pixel are those of the first 12
    exposures alone, whatever follows them, and the project's exposure
    list is left as it is.  The scalar loop of script.js has no cap: its
    final density is min(Dmin + sum, Dmax) over every exposure of the
    list, and it too leaves the list as it is. *)
Theorem render_cap_is_gpu_only :
  (forall paper exposures L,
      Darkroom.render paper exposures L
      = Darkroom.render paper (firstn 12 exposures) L)
  /\ (forall paper exposures L r8 j,
        Darkroom.render_pixel paper exposures L r8 j
        = Darkroom.render_pixel paper (firstn 12 exposures) L r8 j)
  /\ (forall s, Darkroom.exposures (fst (Darkroom.processImage s))
                = Darkroom.exposures s)
  /\ (forall s, Script.exposures (fst (Script.processImage s))
                = Script.exposures s)
  /\ (forall paper L logT j pre,
        valid_paper paper -> valid_lut L ->
        Script.Dfinal paper L logT j pre
        = Fin (Rmin (Dmin paper
                     + Script.excess_sum (Fin (Dmin paper))
                         (Fin (Dmax paper - Dmin paper)) L logT j pre)
                    (Dmax paper))).
Proof.
  split; [| split; [| split; [| split]]].
  - intros. symmetry. apply render_firstn.
  - intros. symmetry. apply render_pixel_firstn.
  - intros s. unfold Darkroom.processImage.
    destruct (Darkroom.negativeImage s) as [[W H] |]; [| reflexivity].
    destruct (_ =? 0)%nat; [reflexivity |].
    destruct (papers _); [| reflexivity].
    destruct (Darkroom.render _ _ _); reflexivity.
  - intros s. unfold Script.processImage.
    destruct (Script.negativeImage s) as [[W H] |]; [| reflexivity].
    destruct (_ =? 0)%nat; [reflexivity |].
    destruct (papers _); [| reflexivity].
    destruct (_ || _); [reflexivity |].
    destruct (Script.precompute _ _); reflexivity.
  - intros paper L logT j pre (_ & HD & _) HL.
    apply Dfinal_closed; [assumption | lra].
Qed.

Lemma render_cap_is_gpu_only_witness :
  valid_paper ilford_multigrade /\ valid_lut lut_150
  /\ Script.Dfinal ilford_multigrade lut_150 (Fin 0) 0 [pre_midtone; pre_midtone]
     = Fin (Rmin (Dmin ilford_multigrade
                  + Script.excess_sum (Fin (Dmin ilford_multigrade))
                      (Fin (Dmax ilford_multigrade - Dmin ilford_multigrade))
                      lut_150 (Fin 0) 0 [pre_midtone; pre_midtone])
                 (Dmax ilford_multigrade)).
Proof.
  split; [exact ilford_multigrade_valid |].
  split; [exact lut_150_valid |].
  destruct render_cap_is_gpu_only as (_ & _ & _ & _ & H).
  apply H; [exact ilford_multigrade_valid | exact lut_150_valid].
Defined.

Lemma precompute_lows12 :
  Script.precompute ilford_multigrade script_lows12
  = Some (repeat (ilford_pre 0.016) 12).
Proof.
  unfold script_lows12, script_low. cbn [Script.precompute].
  rewrite !precompute1_ilford by lra. reflexivity.
Qed.

Lemma precompute_exposures13 :
  Script.precompute ilford_multigrade script_exposures13
  = Some (repeat (ilford_pre 0.016) 12 ++ [ilford_pre 16000]).
Proof.
  unfold script_exposures13, script_lows12, script_low, script_high.
  cbn [app Script.precompute].
  rewrite !precompute1_ilford by lra. reflexivity.
Qed.

Lemma excess_sum_app (dmin spanD : num) (L : SigmoidLUT) (logT : num)
  (j : nat) (p1 p2 : list Script.PreExposure) :
  Script.excess_sum dmin spanD L logT j (p1 ++ p2)
  = Script.excess_sum dmin spanD L logT j p1
    + Script.excess_sum dmin spanD L logT j p2.
Proof.
  unfold Script.excess_sum. induction p1 as [| ex rest IH]; cbn [app fold_right].
  - lra.
  - rewrite IH. lra.
Qed.

Lemma excess_sum_lows (N n j : nat) (span : R) :
  Script.excess_sum (Fin 0.06) (Fin span) (buildSigmoidLUT N) (Fin 0) j
    (repeat (ilford_pre 0.016) n) = 0.
Proof.
  unfold Script.excess_sum. induction n as [| n IH]; cbn [repeat fold_right].
  - reflexivity.
  - rewrite IH, ilford_low_excess. lra.
Qed.

(** One pixel of the Ilford paper under weak exposures only stays paper
    white; with the saturating exposure added it is black. *)
Lemma script_pixel_lows (n : nat) :
  Script.processPixel ilford_multigrade (buildSigmoidLUT 2048)
    [Script.logTrans_of 255] (repeat (ilford_pre 0.016) n) 0
  = (247, 252, 255, 255)%Z.
Proof.
  unfold Script.processPixel.
  change (array_get [Script.logTrans_of 255] (Z.of_nat 0))
    with (Fin (Script.logTrans_of 255)).
  rewrite logTrans_of_white.
  rewrite Dfinal_closed;
    [| apply buildSigmoidLUT_valid; lia | cbn; lra].
  change (Dmin ilford_multigrade) with 0.06.
  change (Dmax ilford_multigrade) with 2.05.
  rewrite excess_sum_lows, Rplus_0_r, Rmin_left by lra.
  change 0.06 with (Dmin ilford_multigrade).
  rewrite value_of_Dmin by (cbn; lra).
  apply color_of_ilford_white.
Qed.

Lemma script_pixel_lows_high (n : nat) :
  Script.processPixel ilford_multigrade (buildSigmoidLUT 2048)
    [Script.logTrans_of 255]
    (repeat (ilford_pre 0.016) n ++ [ilford_pre 16000]) 0
  = (0, 0, 0, 255)%Z.
Proof.
  unfold Script.processPixel.
  change (array_get [Script.logTrans_of 255] (Z.of_nat 0))
    with (Fin (Script.logTrans_of 255)).
  rewrite logTrans_of_white.
  rewrite Dfinal_closed;
    [| apply buildSigmoidLUT_valid; lia | cbn; lra].
  change (Dmin ilford_multigrade) with 0.06.
  change (Dmax ilford_multigrade) with 2.05.
  rewrite excess_sum_app, excess_sum_lows.
  unfold Script.excess_sum at 1. cbn [fold_right].
  rewrite ilford_high_excess by lra.
  rewrite Rmin_right by lra.
  change 2.05 with (Dmax ilford_multigrade).
  rewrite value_of_Dmax by (cbn; lra).
  apply color_of_ilford_black.
Qed.

(** C5, counterexample.  The scalar loop of script.js renders the first
    twelve of thirteen exposures as paper white, and all thirteen as
    black: the thirteenth exposure is not ignored. *)
Lemma script_loop_renders_exposure_13 :
  List.length script_exposures13 = 13%nat
  /\ snd (Script.processImage (script_sim (firstn 12 script_exposures13)))
     = Script.Rendered [(247, 252, 255, 255)%Z]
  /\ snd (Script.processImage (script_sim script_exposures13))
     = Script.Rendered [(0, 0, 0, 255)%Z]
  /\ snd (Script.processImage (script_sim script_exposures13))
     <> snd (Script.processImage (script_sim (firstn 12 script_exposures13))).
Proof.
  assert (H12 : snd (Script.processImage
                       (script_sim (firstn 12 script_exposures13)))
                = Script.Rendered [(247, 252, 255, 255)%Z]).
  { change (firstn 12 script_exposures13) with script_lows12.
    unfold Script.processImage, script_sim.
    cbn [Script.negativeImage Script.exposures Script.paperType
         Script.logTrans Script.sigmoidLUT].
    change (papers "ilford-multigrade") with (Some ilford_multigrade).
    cbv beta iota. rewrite precompute_lows12.
    cbn [List.length script_lows12 Nat.eqb orb Nat.mul Nat.add seq map snd].
    now rewrite script_pixel_lows. }
  assert (H13 : snd (Script.processImage (script_sim script_exposures13))
                = Script.Rendered [(0, 0, 0, 255)%Z]).
  { unfold Script.processImage, script_sim.
    cbn [Script.negativeImage Script.exposures Script.paperType
         Script.logTrans Script.sigmoidLUT].
    change (papers "ilford-multigrade") with (Some ilford_multigrade).
    cbv beta iota. rewrite precompute_exposures13.
    change (List.length script_exposures13 =? 0)%nat with false.
    cbn [Nat.eqb orb Nat.mul Nat.add seq map snd].
    now rewrite script_pixel_lows_high. }
  split; [reflexivity |]. split; [exact H12 |]. split; [exact H13 |].
  rewrite H12, H13. discriminate.
Qed.

(* ================================================================== *)
(** ** The order of the exposures *)
(* ================================================================== *)

Lemma precompute1_dec (paper : Paper) (ex : Script.Exposure) :
  {Script.precompute1 paper ex <> None} + {~ Script.precompute1 paper ex <> None}.
Proof.
  destruct (Script.precompute1 paper ex); [left; discriminate | right; auto].
Qed.

Lemma exposure_constants_dec (paper : Paper) (ex : Darkroom.Exposure) :
  {Darkroom.exposure_constants paper ex <> None}
  + {~ Darkroom.exposure_constants paper ex <> None}.
Proof.
  destruct (Darkroom.exposure_constants paper ex);
    [left; discriminate | right; auto].
Qed.

(** The scalar loop gives the same final density for every order of the
    exposures. *)
Lemma pixel_density_perm (paper : Paper) (L : SigmoidLUT) (logTrans : list R)
  (exposures exposures' : list Script.Exposure) (j : nat) :
  valid_lut L -> Dmin paper <= Dmax paper ->
  Permutation exposures exposures' ->
  Script.pixel_density paper L logTrans exposures j
  = Script.pixel_density paper L logTrans exposures' j.
Proof.
  intros HL HD Hp.
  destruct (Forall_dec _ (precompute1_dec paper) exposures) as [Hok | Hbad].
  - rewrite !pixel_density_closed;
      try assumption; [| eapply Permutation_Forall; eauto].
    unfold Script.exposures_excess_sum.
    now rewrite (fold_sum_perm _ _ _ Hp).
  - unfold Script.pixel_density.
    rewrite (precompute_None _ _ Hbad), precompute_None; [reflexivity |].
    intros Hok. apply Hbad.
    eapply Permutation_Forall; [apply Permutation_sym |]; eauto.
Qed.

(** The shader gives the same final density for every order of at most
    twelve exposures. *)
Lemma render_density_perm (paper : Paper) (L : SigmoidLUT) (r8 : list Z)
  (exposures exposures' : list Darkroom.Exposure) (j : nat) :
  Dmin paper <= Dmax paper ->
  (List.length exposures <= 12)%nat ->
  Permutation exposures exposures' ->
  Darkroom.render_density paper exposures L r8 j
  = Darkroom.render_density paper exposures' L r8 j.
Proof.
  intros HD Hlen Hp.
  assert (Hlen' : (List.length exposures' <= 12)%nat)
    by (rewrite <- (Permutation_length Hp); assumption).
  assert (Hf : firstn Darkroom.maxExposures exposures = exposures)
    by (apply firstn_all2; exact Hlen).
  assert (Hf' : firstn Darkroom.maxExposures exposures' = exposures')
    by (apply firstn_all2; exact Hlen').
  destruct (Forall_dec _ (exposure_constants_dec paper) exposures) as [Hok | Hbad].
  - assert (Hok' : Forall (fun ex => Darkroom.exposure_constants paper ex <> None)
                     exposures') by (eapply Permutation_Forall; eauto).
    destruct (render_Some paper exposures L) as (U & HU); [now rewrite Hf |].
    destruct (render_Some paper exposures' L) as (U' & HU'); [now rewrite Hf' |].
    rewrite (render_density_closed _ _ _ r8 j U HU HD).
    rewrite (render_density_closed _ _ _ r8 j U' HU' HD).
    rewrite Hf, Hf'. unfold Darkroom.exposures_extra_sum.
    now rewrite (fold_sum_perm _ _ _ Hp).
  - unfold Darkroom.render_density.
    rewrite (render_None paper exposures L), (render_None paper exposures' L);
      [reflexivity | |].
    + rewrite Hf'. intros Hok. apply Hbad.
      eapply Permutation_Forall; [apply Permutation_sym |]; eauto.
    + now rewrite Hf.
Qed.

(** C7 (amended).  With the paper, the transmittance and the masks
    fixed, the final density of a pixel does not depend on the order of
    the exposures: in the scalar loop for every permutation of the list,
    in the shader for every permutation of a list of at most twelve
    exposures (the shader reads the first twelve only). *)
Theorem density_independent_of_order (paper : Paper) (L : SigmoidLUT) :
  valid_paper paper -> valid_lut L ->
  (forall logTrans exposures exposures' j,
      Permutation exposures exposures' ->
      Script.pixel_density paper L logTrans exposures j
      = Script.pixel_density paper L logTrans exposures' j)
  /\ (forall r8 exposures exposures' j,
        (List.length exposures <= 12)%nat ->
        Permutation exposures exposures' ->
        Darkroom.render_density paper exposures L r8 j
        = Darkroom.render_density paper exposures' L r8 j).
Proof.
  intros (_ & HD & _) HL. split.
  - intros. apply pixel_density_perm; [assumption | lra | assumption].
  - intros. apply render_density_perm; [lra | assumption | assumption].
Qed.

Lemma density_independent_of_order_witness :
  valid_paper ilford_multigrade /\ valid_lut (buildSigmoidLUT 2048)
  /\ Script.pixel_density ilford_multigrade (buildSigmoidLUT 2048)
       [Script.logTrans_of 255] [script_low "a"; script_high "b"] 0
     = Script.pixel_density ilford_multigrade (buildSigmoidLUT 2048)
         [Script.logTrans_of 255] [script_high "b"; script_low "a"] 0.
Proof.
  split; [exact ilford_multigrade_valid |].
  split; [apply buildSigmoidLUT_valid; lia |].
  destruct (density_independent_of_order ilford_multigrade (buildSigmoidLUT 2048)
              ilford_multigrade_valid
              (buildSigmoidLUT_valid 2048 ltac:(lia) ltac:(lia))) as [H _].
  apply H. apply perm_swap.
Defined.

Lemma gpu_exposures13_perm : Permutation gpu_exposures13 gpu_exposures13_rev.
Proof.
  unfold gpu_exposures13, gpu_exposures13_rev.
  apply Permutation_sym, Permutation_cons_append.
Qed.

(** C7, counterexample.  Thirteen exposures on the Ilford paper, a white
    negative pixel: with the saturating exposure last the shader leaves
    the pixel at Dmin = 0.06, with the same exposures reordered so that it
    comes first the pixel is at Dmax = 2.05. *)
Lemma shader_density_depends_on_order :
  Permutation gpu_exposures13 gpu_exposures13_rev
  /\ Darkroom.render_density ilford_multigrade gpu_exposures13
       Darkroom.makeSigmoidLUT r8_white 0 = Some (Fin 0.06)
  /\ Darkroom.render_density ilford_multigrade gpu_exposures13_rev
       Darkroom.makeSigmoidLUT r8_white 0 = Some (Fin 2.05)
  /\ Darkroom.render_density ilford_multigrade gpu_exposures13
       Darkroom.makeSigmoidLUT r8_white 0
     <> Darkroom.render_density ilford_multigrade gpu_exposures13_rev
          Darkroom.makeSigmoidLUT r8_white 0.
Proof.
  split; [exact gpu_exposures13_perm |].
  split; [exact gpu_density_13 |].
  split; [exact gpu_density_13_rev |].
  rewrite gpu_density_13, gpu_density_13_rev.
  intros H. injection H as H. lra.
Qed.

(* ================================================================== *)
(** ** Degenerate times and transmittances *)
(* ================================================================== *)

Lemma precompute1_logTime (paper : Paper) (ex : Script.Exposure)
  (p : Script.PreExposure) :
  Script.precompute1 paper ex = Some p ->
  Script.pre_logTime p = (Math_log (Script.time ex) * Fin LOG10E)%num.
Proof.
  unfold Script.precompute1. destruct (gradeParam paper (Script.grade ex));
    [| discriminate].
  intros [= <-]. reflexivity.
Qed.

Lemma log_of_zero_time : (Math_log (Fin 0) * Fin LOG10E)%num = NInf.
Proof.
  unfold Math_log. rdec. cbn [nmul].
  apply inf_signed_pos. apply LOG10E_pos.
Qed.

Lemma log_of_negative_time : (Math_log (Fin (-1)) * Fin LOG10E)%num = NaN.
Proof. unfold Math_log. rdec. reflexivity. Qed.

(** C4, at the failing input.  For an exposure of time 0 the scalar loop
    of script.js takes the logarithm of the time itself: [logTime] is
    the product of [Math.log(0)] and [LOG10E], that is [-Infinity], and
    for a negative time it is [NaN]; no epsilon is substituted.  The GPU
    engine, for the same exposures, uploads log10(1e-6).  Zero
    transmittance is replaced by 1e-6 in both.  The density the scalar
    loop gives is none the less a number of [Dmin, Dmax]. *)
Theorem scalar_loop_takes_log_of_zero_time :
  (exists p, Script.precompute1 ilford_multigrade script_zero_time = Some p
             /\ Script.pre_logTime p = NInf)
  /\ (exists p, Script.precompute1 ilford_multigrade script_negative_time = Some p
                /\ Script.pre_logTime p = NaN)
  /\ (exists k E0 m,
         Darkroom.exposure_constants ilford_multigrade gpu_zero_time
         = Some (Math_log10 (Fin 1e-6), k, E0, m))
  /\ (exists k E0 m,
         Darkroom.exposure_constants ilford_multigrade gpu_negative_time
         = Some (Math_log10 (Fin 1e-6), k, E0, m))
  /\ Script.logTrans_of 0 = ln 1e-6 * LOG10E
  /\ Darkroom.glsl_max (Fin 1e-6) (Fin 0) = Fin 1e-6
  /\ (forall logTrans j,
         exists d,
           Script.pixel_density ilford_multigrade (buildSigmoidLUT 2048) logTrans
             [script_zero_time; script_negative_time] j = Some (Fin d)
           /\ 0.06 <= d <= 2.05).
Proof.
  split; [| split; [| split; [| split; [| split; [| split]]]]].
  - unfold Script.precompute1, script_zero_time.
    cbn [Script.grade Script.time Script.mask]. rewrite ilford_grade2.
    eexists. split; [reflexivity |]. cbn [Script.pre_logTime].
    apply log_of_zero_time.
  - unfold Script.precompute1, script_negative_time.
    cbn [Script.grade Script.time Script.mask]. rewrite ilford_grade2.
    eexists. split; [reflexivity |]. cbn [Script.pre_logTime].
    apply log_of_negative_time.
  - unfold Darkroom.exposure_constants, gpu_zero_time.
    cbn [Darkroom.grade Darkroom.time Darkroom.maskData]. rewrite ilford_grade2.
    rewrite Math_max_FF, Rmax_left by lra. eauto.
  - unfold Darkroom.exposure_constants, gpu_negative_time.
    cbn [Darkroom.grade Darkroom.time Darkroom.maskData]. rewrite ilford_grade2.
    rewrite Math_max_FF, Rmax_left by lra. eauto.
  - unfold Script.logTrans_of. rdec. reflexivity.
  - rewrite glsl_max_FF, Rmax_left by lra. reflexivity.
  - intros logTrans j.
    pose proof (buildSigmoidLUT_valid 2048 ltac:(lia) ltac:(lia)) as HL.
    set (L := buildSigmoidLUT 2048) in *.
    eexists. split.
    + apply pixel_density_closed; [assumption | cbn; lra |].
      repeat constructor; unfold Script.precompute1;
        cbn [Script.grade script_zero_time script_negative_time];
        rewrite ilford_grade2; discriminate.
    + change (Dmin ilford_multigrade) with 0.06.
      change (Dmax ilford_multigrade) with 2.05.
      assert (Hn : 0 <= Script.exposures_excess_sum ilford_multigrade L
                         (array_get logTrans (Z.of_nat j)) j
                         [script_zero_time; script_negative_time]).
      { unfold Script.exposures_excess_sum, Script.exposure_excess_R.
        cbn [fold_right].
        assert (Hex : forall ex, 0 <= match Script.precompute1 ilford_multigrade ex with
                                      | Some p =>
                                          Script.excess_R (Fin (Dmin ilford_multigrade))
                                            (Fin (Dmax ilford_multigrade
                                                  - Dmin ilford_multigrade))
                                            L (array_get logTrans (Z.of_nat j)) j p
                                      | None => 0
                                      end).
        { intros ex. destruct (Script.precompute1 ilford_multigrade ex); [| lra].
          apply excess_R_range; [assumption | cbn; lra]. }
        pose proof (Hex script_zero_time). pose proof (Hex script_negative_time).
        lra. }
      split; [apply Rmin_glb; lra | apply Rmin_r].
Qed.

(* ================================================================== *)
(** ** Histograms *)
(* ================================================================== *)

Lemma update_at_length {A : Type} (f : A -> A) (h : list A) (i : nat) :
  List.length (update_at f h i) = List.length h.
Proof.
  revert i. induction h as [| x t IH]; intros [| i]; cbn; auto.
Qed.

Lemma update_at_nth {A : Type} (f : A -> A) (h : list A) (i v : nat) (d : A) :
  (v < List.length h)%nat ->
  nth v (update_at f h i) d = if (v =? i)%nat then f (nth v h d) else nth v h d.
Proof.
  revert i v. induction h as [| x t IH]; intros i v Hv; cbn in Hv; [lia |].
  destruct i as [| i], v as [| v]; cbn; try reflexivity.
  apply IH. lia.
Qed.

Lemma bump_at_length (incr : Z -> Z) (h : list Z) (v : option Z) :
  List.length (bump_at incr h v) = List.length h.
Proof.
  destruct v as [v |]; cbn; [| reflexivity].
  destruct (0 <=? v)%Z; [apply update_at_length | reflexivity].
Qed.

Lemma bump_at_nth (incr : Z -> Z) (h : list Z) (o : option Z) (v : Z) :
  (0 <= v < Z.of_nat (List.length h))%Z ->
  nth (Z.to_nat v) (bump_at incr h o) 0%Z
  = Nat.iter (occurrences v [o]) incr (nth (Z.to_nat v) h 0%Z).
Proof.
  intros Hv. unfold bump_at, occurrences. destruct o as [w |]; cbn [filter].
  - destruct (Z.leb_spec 0 w) as [Hw | Hw].
    + rewrite update_at_nth by lia.
      destruct (Z.eqb_spec w v) as [-> | Hne].
      * rewrite Nat.eqb_refl. reflexivity.
      * destruct (Nat.eqb_spec (Z.to_nat v) (Z.to_nat w)); [lia | reflexivity].
    + destruct (Z.eqb_spec w v); [lia | reflexivity].
  - reflexivity.
Qed.

Lemma occurrences_app (v : Z) (l1 l2 : list (option Z)) :
  occurrences v (l1 ++ l2) = (occurrences v l1 + occurrences v l2)%nat.
Proof. unfold occurrences. now rewrite filter_app, length_app. Qed.

(** A counting loop leaves 256 bins per channel, and the bin [v] of
    channel [c] has been incremented once for every offset whose byte of
    that channel is [v]. *)
Lemma count_loop_spec (incr : Z -> Z) (data : list Z) (offs : list Z)
  (c : nat) (v : Z) :
  (c < 3)%nat ->
  forall h,
  (0 <= v < Z.of_nat (List.length (channel c h)))%Z ->
  List.length (channel c (fold_left (count_pixel incr data) offs h))
  = List.length (channel c h)
  /\ nth (Z.to_nat v) (channel c (fold_left (count_pixel incr data) offs h)) 0%Z
     = Nat.iter (occurrences v (map (fun o => byte_at data (o + Z.of_nat c)) offs))
                incr (nth (Z.to_nat v) (channel c h) 0%Z).
Proof.
  intros Hc. induction offs as [| o offs IH]; intros h Hv; cbn [fold_left map].
  - split; reflexivity.
  - assert (Hstep : channel c (count_pixel incr data h o)
                    = bump_at incr (channel c h) (byte_at data (o + Z.of_nat c))).
    { destruct c as [| [| [| c]]]; try lia; cbn [channel count_pixel hist_r hist_g hist_b];
        f_equal; f_equal; lia. }
    destruct (IH (count_pixel incr data h o)) as [Hl Hn].
    { rewrite Hstep, bump_at_length. exact Hv. }
    rewrite Hl, Hn, Hstep, bump_at_length. split; [reflexivity |].
    rewrite bump_at_nth by exact Hv.
    change (byte_at data (o + Z.of_nat c)
            :: map (fun o0 => byte_at data (o0 + Z.of_nat c)) offs)
      with ([byte_at data (o + Z.of_nat c)]
            ++ map (fun o0 => byte_at data (o0 + Z.of_nat c)) offs).
    rewrite occurrences_app, Nat.add_comm, Nat.iter_add. reflexivity.
Qed.

Lemma iter_incr_number (n : nat) : Nat.iter n incr_number 0%Z = Z.of_nat n.
Proof.
  induction n as [| n IH]; [reflexivity |].
  change (Nat.iter (S n) incr_number 0%Z)
    with (incr_number (Nat.iter n incr_number 0%Z)).
  rewrite IH. unfold incr_number. lia.
Qed.

Lemma iter_incr_uint32 (n : nat) :
  Nat.iter n incr_uint32 0%Z = (Z.of_nat n mod 2 ^ 32)%Z.
Proof.
  induction n as [| n IH]; [reflexivity |].
  change (Nat.iter (S n) incr_uint32 0%Z)
    with (incr_uint32 (Nat.iter n incr_uint32 0%Z)).
  rewrite IH. unfold incr_uint32.
  rewrite Nat2Z.inj_succ, <- Z.add_1_r.
  now rewrite Zplus_mod_idemp_l.
Qed.

Lemma channel_zeros (c : nat) :
  channel c (mkHist zeros256 zeros256 zeros256) = zeros256.
Proof. destruct c as [| [| c]]; reflexivity. Qed.

Lemma zeros256_nth (n : nat) : nth n zeros256 0%Z = 0%Z.
Proof. unfold zeros256. apply nth_repeat. Qed.

Lemma steps4_0 : steps4 0 = [].
Proof. reflexivity. Qed.

Lemma channel_generateHistogram (c : nat) (imageData : list Z) :
  channel c (Script.generateHistogram imageData)
  = Script.normalize (max_bin (Script.histogram_counts imageData))
      (channel c (Script.histogram_counts imageData)).
Proof. destruct c as [| [| c]]; reflexivity. Qed.

Lemma steps4_In (n i : nat) :
  In i (steps4 n) <-> (i < n)%nat /\ (i mod 4 = 0)%nat.
Proof.
  unfold steps4. rewrite in_map_iff. split.
  - intros (k & <- & Hk). apply in_seq in Hk.
    assert (H4 : (4 * ((n + 3) / 4) <= n + 3)%nat)
      by (apply Nat.Div0.mul_div_le).
    split; [lia |].
    rewrite Nat.mul_comm. apply Nat.Div0.mod_mul.
  - intros [Hi Hm]. exists (i / 4)%nat. split.
    + pose proof (Nat.div_mod_eq i 4). lia.
    + apply in_seq. split; [lia |]. cbn [Nat.add].
      pose proof (Nat.div_mod_eq i 4).
      pose proof (Nat.div_mod_eq (n + 3) 4).
      pose proof (Nat.mod_upper_bound (n + 3) 4 ltac:(lia)).
      apply Nat.Div0.div_lt_upper_bound; lia.
Qed.

Lemma fold_max_ge (l : list Z) :
  forall a, (a <= fold_left Z.max l a)%Z
            /\ (forall x, In x l -> (x <= fold_left Z.max l a)%Z).
Proof.
  induction l as [| y l IH]; intros a; cbn [fold_left].
  - split; [lia | intros x []].
  - destruct (IH (Z.max a y)) as [H1 H2]. split; [lia |].
    intros x [<- | Hx]; [lia | now apply H2].
Qed.

Lemma max_bin_ge (h : Hist Z) (c n : nat) :
  (n < List.length (channel c h))%nat ->
  (0 <= max_bin h)%Z /\ (nth n (channel c h) 0 <= max_bin h)%Z.
Proof.
  intros Hn. unfold max_bin.
  destruct (fold_max_ge (hist_r h ++ hist_g h ++ hist_b h) 0) as [H0 Hall].
  split; [exact H0 |]. apply Hall.
  assert (Hin : In (nth n (channel c h) 0%Z) (channel c h)) by now apply nth_In.
  destruct c as [| [| c]]; cbn [channel] in Hin; rewrite !in_app_iff; auto.
Qed.

Lemma normalize_nth (m : Z) (h : list Z) (n : nat) :
  (n < List.length h)%nat ->
  nth n (Script.normalize m h) NaN = (Fin (IZR (nth n h 0%Z)) / Fin (IZR m))%num.
Proof.
  intros Hn. unfold Script.normalize.
  apply nth_error_nth. rewrite nth_error_map.
  now rewrite (nth_error_nth' h 0%Z Hn).
Qed.

Lemma histogram_counts_spec (imageData : list Z) (c : nat) (v : Z) :
  (c < 3)%nat -> (0 <= v < 256)%Z ->
  List.length (channel c (Script.histogram_counts imageData)) = 256%nat
  /\ nth (Z.to_nat v) (channel c (Script.histogram_counts imageData)) 0%Z
     = Z.of_nat (occurrences v
                   (map (fun o => byte_at imageData (o + Z.of_nat c))
                        (map Z.of_nat (steps4 (List.length imageData))))).
Proof.
  intros Hc Hv. unfold Script.histogram_counts.
  destruct (count_loop_spec incr_number imageData
              (map Z.of_nat (steps4 (List.length imageData))) c v Hc
              (mkHist zeros256 zeros256 zeros256)) as [Hl Hn].
  { rewrite channel_zeros. cbn. lia. }
  rewrite Hl, Hn, channel_zeros, zeros256_nth, iter_incr_number.
  split; reflexivity.
Qed.

(** C9 (amended).  [_buildHistogramSampled] gives three arrays of 256
    counters: the bin [v] of a channel is the number (modulo 2^32) of
    sampled pixels whose byte of that channel is [v], the sampled pixels
    being those of every fourth column of every fourth row; a picture
    without width or height gives the all-zero histogram.
    [generateHistogram] gives three arrays of 256 numbers too, but its
    bins are the counts over all pixels divided by the largest count:
    for a non-empty buffer of bytes every bin is a number of [0, 1]. *)
Theorem histogram_builders :
  (forall img c v,
      (c < 3)%nat -> (0 <= v < 256)%Z ->
      List.length (channel c (Darkroom._buildHistogramSampled img)) = 256%nat
      /\ nth (Z.to_nat v) (channel c (Darkroom._buildHistogramSampled img)) 0%Z
         = (Z.of_nat
              (occurrences v
                 (map (fun o => byte_at (Darkroom.data img) (o + Z.of_nat c))
                      (Darkroom.sample_offsets
                         (Z.to_nat (Darkroom.width img))
                         (Z.to_nat (Darkroom.height img)))))
            mod 2 ^ 32)%Z)
  /\ (forall w h o,
        (Z.of_nat w < 2 ^ 29)%Z ->
        In o (Darkroom.sample_offsets w h)
        <-> exists x y, (x < w)%nat /\ (y < h)%nat
                        /\ (x mod 4 = 0)%nat /\ (y mod 4 = 0)%nat
                        /\ o = Z.of_nat (4 * (y * w + x)))
  /\ (forall img,
        (Darkroom.width img <= 0)%Z \/ (Darkroom.height img <= 0)%Z ->
        Darkroom._buildHistogramSampled img = mkHist zeros256 zeros256 zeros256)
  /\ (forall imageData c v,
        (c < 3)%nat -> (0 <= v < 256)%Z ->
        List.length (channel c (Script.generateHistogram imageData)) = 256%nat
        /\ nth (Z.to_nat v) (channel c (Script.generateHistogram imageData)) NaN
           = (Fin (IZR (Z.of_nat
                          (occurrences v
                             (map (fun o => byte_at imageData (o + Z.of_nat c))
                                  (map Z.of_nat
                                       (steps4 (List.length imageData)))))))
              / Fin (IZR (max_bin (Script.histogram_counts imageData))))%num)
  /\ (forall imageData c v,
        imageData <> [] ->
        Forall (fun b => (0 <= b <= 255)%Z) imageData ->
        (c < 3)%nat -> (0 <= v < 256)%Z ->
        exists q,
          nth (Z.to_nat v) (channel c (Script.generateHistogram imageData)) NaN
          = Fin q /\ 0 <= q <= 1).
Proof.
  split; [| split; [| split; [| split]]].
  - intros img c v Hc Hv. unfold Darkroom._buildHistogramSampled.
    destruct (count_loop_spec incr_uint32 (Darkroom.data img)
                (Darkroom.sample_offsets (Z.to_nat (Darkroom.width img))
                   (Z.to_nat (Darkroom.height img))) c v Hc
                (mkHist zeros256 zeros256 zeros256)) as [Hl Hn].
    { rewrite channel_zeros. cbn. lia. }
    rewrite Hl, Hn, channel_zeros, zeros256_nth, iter_incr_uint32.
    split; reflexivity.
  - intros w h o Hw. unfold Darkroom.sample_offsets.
    rewrite in_flat_map. split.
    + intros (y & Hy & Ho). apply in_map_iff in Ho.
      destruct Ho as (x & <- & Hx).
      apply steps4_In in Hy, Hx. destruct Hy, Hx.
      exists x, y. repeat split; try assumption.
      rewrite wrap32_small by lia. lia.
    + intros (x & y & Hx & Hy & Hx4 & Hy4 & ->).
      exists y. split; [apply steps4_In; auto |].
      apply in_map_iff. exists x. split; [| apply steps4_In; auto].
      rewrite wrap32_small by lia. lia.
  - intros img Hz. unfold Darkroom._buildHistogramSampled, Darkroom.sample_offsets.
    destruct Hz as [Hz | Hz].
    + replace (Z.to_nat (Darkroom.width img)) with 0%nat by lia.
      rewrite steps4_0. cbn [map].
      induction (steps4 (Z.to_nat (Darkroom.height img))); [reflexivity |].
      cbn [flat_map app]. assumption.
    + replace (Z.to_nat (Darkroom.height img)) with 0%nat by lia.
      reflexivity.
  - intros imageData c v Hc Hv.
    destruct (histogram_counts_spec imageData c v Hc Hv) as [Hl Hn].
    rewrite channel_generateHistogram. split.
    + unfold Script.normalize. now rewrite length_map.
    + rewrite normalize_nth by lia. now rewrite Hn.
  - intros imageData c v Hne Hb Hc Hv.
    destruct (histogram_counts_spec imageData c v Hc Hv) as [Hl Hn].
    rewrite channel_generateHistogram, normalize_nth by lia.
    destruct (max_bin_ge (Script.histogram_counts imageData) c (Z.to_nat v)
                ltac:(lia)) as [_ Hle].
    (* the first pixel has been counted in the red channel *)
    destruct imageData as [| b0 rest]; [congruence |].
    assert (Hb0 : (0 <= b0 <= 255)%Z) by (now inversion Hb).
    destruct (histogram_counts_spec (b0 :: rest) 0 b0 ltac:(lia) ltac:(lia))
      as [Hl0 Hn0].
    destruct (max_bin_ge (Script.histogram_counts (b0 :: rest)) 0 (Z.to_nat b0)
                ltac:(lia)) as [_ Hle0].
    rewrite Hn0 in Hle0.
    assert (Hocc : (1 <= occurrences b0
                           (map (fun o => byte_at (b0 :: rest) (o + Z.of_nat 0))
                                (map Z.of_nat
                                     (steps4 (List.length (b0 :: rest))))))%nat).
    { unfold steps4. cbn [List.length].
      replace ((S (List.length rest) + 3) / 4)%nat
        with (S (List.length rest / 4)).
      - cbn [seq map]. unfold occurrences. cbn [byte_at].
        change (byte_at (b0 :: rest) (Z.of_nat (4 * 0) + Z.of_nat 0))
          with (Some b0).
        cbn [filter]. rewrite Z.eqb_refl. cbn [List.length]. lia.
      - replace (S (List.length rest) + 3)%nat
          with (List.length rest + 1 * 4)%nat by lia.
        rewrite Nat.div_add by lia. lia. }
    set (m := max_bin (Script.histogram_counts (b0 :: rest))) in *.
    assert (Hm : (1 <= m)%Z) by lia.
    rewrite Hn in *.
    set (k := Z.of_nat _) in *.
    assert (Hk : (0 <= k)%Z) by (unfold k; lia).
    apply IZR_le in Hm, Hk, Hle.
    rewrite ndiv_FF by lra.
    eexists. split; [reflexivity |].
    split.
    + apply Rmult_le_pos; [lra | left; apply Rinv_0_lt_compat; lra].
    + apply Rmult_le_reg_r with (IZR m); [lra |].
      unfold Rdiv. rewrite Rmult_assoc, Rinv_l by lra. lra.
Qed.

Lemma histogram_builders_witness :
  nth 10 (hist_r (Darkroom._buildHistogramSampled image_5x5)) 0%Z = 4%Z
  /\ exists q,
       nth 10 (hist_r (Script.generateHistogram two_equal_pixels)) NaN = Fin q
       /\ 0 <= q <= 1.
Proof.
  destruct histogram_builders as (Hs & _ & _ & _ & Hg).
  split.
  - destruct (Hs image_5x5 0%nat 10%Z) as [_ H]; [lia | lia |].
    change (nth 10 (hist_r (Darkroom._buildHistogramSampled image_5x5)) 0%Z)
      with (nth (Z.to_nat 10)
              (channel 0 (Darkroom._buildHistogramSampled image_5x5)) 0%Z).
    rewrite H. vm_compute. reflexivity.
  - apply (Hg two_equal_pixels 0%nat 10%Z).
    + discriminate.
    + unfold two_equal_pixels. repeat constructor; lia.
    + lia.
    + lia.
Defined.

Lemma ndiv_zero_zero : (Fin (IZR 0) / Fin (IZR 0))%num = NaN.
Proof. unfold ndiv. rdec. unfold inf_signed. rdec. reflexivity. Qed.

(** C9, counterexample.  For a buffer of two pixels of the same colour
    [generateHistogram] leaves 1 in the bin of their red value, where the
    frequency count is 2; for the empty buffer every bin is [NaN] (zero
    divided by zero), not zero. *)
Lemma generateHistogram_is_normalized :
  nth 10 (hist_r (Script.generateHistogram two_equal_pixels)) NaN = Fin 1
  /\ occurrences 10
       (map (fun o => byte_at two_equal_pixels (o + 0))
            (map Z.of_nat (steps4 (List.length two_equal_pixels)))) = 2%nat
  /\ Script.generateHistogram []
     = mkHist (repeat NaN 256) (repeat NaN 256) (repeat NaN 256).
Proof.
  split; [| split].
  - unfold Script.generateHistogram. cbn [hist_r].
    destruct (histogram_counts_spec two_equal_pixels 0 10 ltac:(lia) ltac:(lia))
      as [Hl _]. cbn [channel] in Hl.
    rewrite normalize_nth by lia.
    assert (E : nth 10 (hist_r (Script.histogram_counts two_equal_pixels)) 0%Z
                = 2%Z) by (vm_compute; reflexivity).
    assert (M : max_bin (Script.histogram_counts two_equal_pixels) = 2%Z)
      by (vm_compute; reflexivity).
    rewrite E, M. rewrite ndiv_FF by lra. f_equal. lra.
  - vm_compute. reflexivity.
  - unfold Script.generateHistogram.
    change (Script.histogram_counts []) with (mkHist zeros256 zeros256 zeros256).
    change (max_bin (mkHist zeros256 zeros256 zeros256)) with 0%Z.
    cbn [hist_r hist_g hist_b]. unfold Script.normalize, zeros256.
    rewrite map_repeat, ndiv_zero_zero. reflexivity.
Qed.

(* ================================================================== *)
(** ** The binary project format *)
(* ================================================================== *)

Lemma slice_Ok (buffer : list Z) (offset length : Z) (l : list Z) :
  Darkroom.slice buffer offset length = Darkroom.Ok l ->
  (0 <= offset)%Z /\ (0 <= length)%Z
  /\ (offset + length <= Z.of_nat (List.length buffer))%Z
  /\ List.length l = Z.to_nat length.
Proof.
  unfold Darkroom.slice.
  destruct (Z.leb_spec 0 offset); cbn [andb]; [| discriminate].
  destruct (Z.leb_spec 0 length); cbn [andb]; [| discriminate].
  destruct (Z.leb_spec (offset + length) (Z.of_nat (List.length buffer)));
    [| discriminate].
  intros [= <-]. repeat split; try assumption.
  rewrite length_firstn, length_skipn. lia.
Qed.

Lemma slice_not_fuel (buffer : list Z) (offset length : Z) :
  Darkroom.slice buffer offset length <> Darkroom.OutOfFuel
  /\ Darkroom.slice buffer offset length <> Darkroom.ReturnNull.
Proof. unfold Darkroom.slice. destruct (_ && _)%bool; split; discriminate. Qed.

(** The case analysis of a read: it gives bytes that lie inside the
    buffer, or it throws. *)
Ltac on_slice buffer offset length l H :=
  let E := fresh "E" in
  destruct (Darkroom.slice buffer offset length) as [l | | |] eqn:E;
  [ pose proof (slice_Ok _ _ _ _ E) as H
  | exfalso; exact (proj2 (slice_not_fuel buffer offset length) E)
  | idtac
  | exfalso; exact (proj1 (slice_not_fuel buffer offset length) E) ].

Section PersistenceFacts.

Variable TextEncoder_encode : string -> list Z.
Variable TextDecoder_decode : list Z -> string.
Variable float64_bits : num -> Z.
Variable float64_of_bits : Z -> num.

Let read_exposure := Darkroom.read_exposure TextDecoder_decode float64_of_bits.
Let read_exposures := Darkroom.read_exposures TextDecoder_decode float64_of_bits.
Let parse_body := Darkroom.parse_body TextDecoder_decode float64_of_bits.

(** Reading one exposure takes at least 17 bytes of the buffer, never
    returns null and never exhausts anything. *)
Lemma read_exposure_progress (buffer : list Z) (offset : Z) :
  match read_exposure buffer offset with
  | Darkroom.Ok (_, offset') =>
      (offset + 17 <= offset' <= Z.of_nat (List.length buffer))%Z
  | Darkroom.RangeError => True
  | _ => False
  end.
Proof.
  unfold read_exposure, Darkroom.read_exposure, Darkroom.getUint32, Darkroom.getUint8,
    Darkroom.getInt32, Darkroom.getFloat64.
  on_slice buffer offset 4%Z l1 H1; cbn [Darkroom.bind]; [| exact I].
  on_slice buffer (offset + 4)%Z (Darkroom.le_value l1) l2 H2;
    cbn [Darkroom.bind]; [| exact I].
  on_slice buffer (offset + 4 + Darkroom.le_value l1)%Z 8%Z l3 H3;
    cbn [Darkroom.bind]; [| exact I].
  on_slice buffer (offset + 4 + Darkroom.le_value l1 + 8)%Z 4%Z l4 H4;
    cbn [Darkroom.bind]; [| exact I].
  on_slice buffer (offset + 4 + Darkroom.le_value l1 + 8 + 4)%Z 1%Z l5 H5;
    cbn [Darkroom.bind]; [| exact I].
  destruct (Darkroom.le_value l5 =? 1)%Z.
  - on_slice buffer (offset + 4 + Darkroom.le_value l1 + 8 + 4 + 1)%Z 4%Z l6 H6;
      cbn [Darkroom.bind]; [| exact I].
    on_slice buffer (offset + 4 + Darkroom.le_value l1 + 8 + 4 + 1 + 4)%Z 4%Z
      l7 H7; cbn [Darkroom.bind]; [| exact I].
    on_slice buffer (offset + 4 + Darkroom.le_value l1 + 8 + 4 + 1 + 4 + 4)%Z
      (Darkroom.le_value l6 * Darkroom.le_value l7 * 4)%Z l8 H8;
      cbn [Darkroom.bind]; [| exact I].
    lia.
  - lia.
Qed.

(** The bound of the loop is never reached. *)
Lemma read_exposures_fuel (buffer : list Z) (fuel : nat) :
  forall count offset acc,
  (offset <= Z.of_nat (List.length buffer))%Z ->
  (Z.of_nat (List.length buffer) - offset < 17 * Z.of_nat fuel)%Z ->
  read_exposures fuel buffer count offset acc <> Darkroom.OutOfFuel
  /\ read_exposures fuel buffer count offset acc <> Darkroom.ReturnNull.
Proof.
  induction fuel as [| fuel IH]; intros count offset acc Hle Hlt.
  - lia.
  - unfold read_exposures in *. cbn [Darkroom.read_exposures].
    destruct (count <=? 0)%Z; [split; discriminate |].
    pose proof (read_exposure_progress buffer offset) as Hp.
    unfold read_exposure in Hp.
    destruct (Darkroom.read_exposure TextDecoder_decode float64_of_bits
                buffer offset) as [[e offset'] | | |];
      cbn [Darkroom.bind fst snd]; try contradiction.
    + apply IH; lia.
    + split; discriminate.
Qed.

Lemma parse_body_not_fuel (buffer : list Z) :
  parse_body (S (List.length buffer)) buffer <> Darkroom.OutOfFuel.
Proof.
  unfold parse_body, Darkroom.parse_body, Darkroom.getUint8, Darkroom.getUint32.
  on_slice buffer 0%Z 1%Z l0 H0; cbn [Darkroom.bind]; [| discriminate].
  destruct (negb _); [discriminate |].
  on_slice buffer 1%Z 1%Z l1 H1; cbn [Darkroom.bind]; [| discriminate].
  destruct (negb _); [discriminate |].
  on_slice buffer 2%Z 1%Z l2 H2; cbn [Darkroom.bind]; [| discriminate].
  destruct (negb _); [discriminate |].
  on_slice buffer 3%Z 1%Z l3 H3; cbn [Darkroom.bind]; [| discriminate].
  destruct (negb _); [discriminate |].
  on_slice buffer 4%Z 4%Z l4 H4; cbn [Darkroom.bind]; [| discriminate].
  destruct (negb _); [discriminate |].
  on_slice buffer 8%Z 4%Z l5 H5; cbn [Darkroom.bind]; [| discriminate].
  on_slice buffer 12%Z (Darkroom.le_value l5) l6 H6; cbn [Darkroom.bind];
    [| discriminate].
  on_slice buffer (12 + Darkroom.le_value l5)%Z 4%Z l7 H7; cbn [Darkroom.bind];
    [| discriminate].
  destruct (read_exposures_fuel buffer (S (List.length buffer))
              (Darkroom.le_value l7) (12 + Darkroom.le_value l5 + 4)%Z [])
    as [Hf _]; [lia | lia |].
  unfold read_exposures in Hf.
  destruct (Darkroom.read_exposures _ _ _ _ _ _ _); cbn [Darkroom.bind];
    try discriminate. congruence.
Qed.

Lemma getUint8_nth (buffer : list Z) (i : nat) :
  Darkroom.getUint8 buffer (Z.of_nat i)
  = match nth_error buffer i with
    | Some b => Darkroom.Ok (b + 256 * 0)%Z
    | None => Darkroom.RangeError
    end.
Proof.
  unfold Darkroom.getUint8, Darkroom.slice.
  destruct (Z.leb_spec 0 (Z.of_nat i)); [| lia]. cbn [andb Z.leb].
  rewrite Nat2Z.id.
  destruct (nth_error buffer i) as [b |] eqn:E.
  - assert (Hi : (i < List.length buffer)%nat)
      by (apply nth_error_Some; congruence).
    destruct (Z.leb_spec (Z.of_nat i + 1) (Z.of_nat (List.length buffer)));
      [| lia].
    cbn [Darkroom.bind andb]. f_equal.
    apply nth_error_split in E. destruct E as (l1 & l2 & -> & <-).
    rewrite skipn_app, skipn_all, Nat.sub_diag. reflexivity.
  - apply nth_error_None in E.
    destruct (Z.leb_spec (Z.of_nat i + 1) (Z.of_nat (List.length buffer)));
      [lia |].
    reflexivity.
Qed.

(** A buffer that does not start with the bytes "DDRM" is refused. *)
Lemma parse_body_magic (fuel : nat) (buffer : list Z) :
  firstn 4 buffer <> [68; 68; 82; 77]%Z ->
  parse_body fuel buffer = Darkroom.ReturnNull
  \/ parse_body fuel buffer = Darkroom.RangeError.
Proof.
  intros Hm. unfold parse_body, Darkroom.parse_body.
  change (Darkroom.getUint8 buffer 0)
    with (Darkroom.getUint8 buffer (Z.of_nat 0)).
  change (Darkroom.getUint8 buffer 1)
    with (Darkroom.getUint8 buffer (Z.of_nat 1)).
  change (Darkroom.getUint8 buffer 2)
    with (Darkroom.getUint8 buffer (Z.of_nat 2)).
  change (Darkroom.getUint8 buffer 3)
    with (Darkroom.getUint8 buffer (Z.of_nat 3)).
  rewrite !getUint8_nth.
  destruct buffer as [| b0 [| b1 [| b2 [| b3 rest]]]]; cbn [nth_error Darkroom.bind];
    auto;
    repeat match goal with
    | |- context [negb (?b + 256 * 0 =? ?c)%Z] =>
        destruct (Z.eqb_spec (b + 256 * 0) c); cbn [negb Darkroom.bind]; auto
    end.
  exfalso. apply Hm. cbn [firstn]. repeat f_equal; lia.
Qed.

(** A buffer whose version field is not 1 is refused. *)
Lemma parse_body_version (fuel : nat) (buffer : list Z) :
  Darkroom.getUint32 buffer 4 <> Darkroom.Ok 1%Z ->
  parse_body fuel buffer = Darkroom.ReturnNull
  \/ parse_body fuel buffer = Darkroom.RangeError.
Proof.
  intros Hv. unfold parse_body, Darkroom.parse_body.
  repeat match goal with
  | |- context [Darkroom.bind (Darkroom.getUint8 buffer ?o) _] =>
      let b := fresh "b" in
      let E := fresh "E" in
      destruct (Darkroom.getUint8 buffer o) as [b | | |] eqn:E;
      [ cbn [Darkroom.bind]; destruct (negb (b =? _)%Z); auto
      | cbn [Darkroom.bind]; auto
      | cbn [Darkroom.bind]; auto
      | unfold Darkroom.getUint8 in E;
        destruct (Darkroom.slice buffer o 1) eqn:E';
        [ discriminate | discriminate | discriminate
        | exfalso; exact (proj1 (slice_not_fuel buffer o 1%Z) E') ] ]
  end.
  destruct (Darkroom.getUint32 buffer 4) as [v | | |] eqn:Ev; cbn [Darkroom.bind];
    auto.
  - destruct (Z.eqb_spec v 1) as [-> | Hne]; [congruence | cbn [negb]; auto].
  - unfold Darkroom.getUint32 in Ev.
    destruct (Darkroom.slice buffer 4 4) eqn:Es;
      [ discriminate | discriminate | discriminate
      | exfalso; exact (proj1 (slice_not_fuel buffer 4%Z 4%Z) Es) ].
Qed.

End PersistenceFacts.

(** C10.  For every buffer [parseBinaryProjectData] returns a project or
    [null] and hands the simulator back unchanged: the bound of its loop
    is never exhausted, [null] is exactly the explicit [return null] or a
    caught RangeError of a read past the end of the buffer, and it is
    [null] whenever the first four bytes are not "DDRM" and whenever the
    version field is not 1. *)
Theorem parseBinaryProjectData_total
  (TextDecoder_decode : list Z -> string) (float64_of_bits : Z -> num)
  (s : Darkroom.Simulator) (buffer : list Z) :
  let body := Darkroom.parse_body TextDecoder_decode float64_of_bits
                (S (List.length buffer)) buffer in
  let result := Darkroom.parseBinaryProjectData TextDecoder_decode
                  float64_of_bits s buffer in
  fst result = s
  /\ body <> Darkroom.OutOfFuel
  /\ (forall projectData,
        snd result = Some projectData <-> body = Darkroom.Ok projectData)
  /\ (snd result = None
      <-> body = Darkroom.ReturnNull \/ body = Darkroom.RangeError)
  /\ (firstn 4 buffer <> [68; 68; 82; 77]%Z -> snd result = None)
  /\ (Darkroom.getUint32 buffer 4 <> Darkroom.Ok 1%Z -> snd result = None).
Proof.
  intros body result.
  pose proof (parse_body_not_fuel TextDecoder_decode float64_of_bits buffer)
    as Hfuel. fold body in Hfuel.
  assert (Hnone : body = Darkroom.ReturnNull \/ body = Darkroom.RangeError ->
                  snd result = None).
  { unfold result, Darkroom.parseBinaryProjectData. fold body.
    intros [-> | ->]; reflexivity. }
  unfold result, Darkroom.parseBinaryProjectData. fold body.
  split; [destruct body; reflexivity |].
  split; [exact Hfuel |].
  split; [| split; [| split]].
  - intros p. destruct body; cbn [snd]; split; intros H;
      try discriminate; congruence.
  - destruct body; cbn [snd]; split; intros H; try discriminate; auto;
      try congruence; destruct H; discriminate.
  - intros Hm. apply Hnone. now apply parse_body_magic.
  - intros Hv. apply Hnone. now apply parse_body_version.
Qed.

Lemma parseBinaryProjectData_total_witness :
  firstn 4 [0; 1; 2; 3]%Z <> [68; 68; 82; 77]%Z
  /\ snd (Darkroom.parseBinaryProjectData bytewise_decode
            example_float64_of_bits example_simulator [0; 1; 2; 3]%Z) = None.
Proof.
  assert (Hm : firstn 4 [0; 1; 2; 3]%Z <> [68; 68; 82; 77]%Z) by discriminate.
  split; [exact Hm |].
  destruct (parseBinaryProjectData_total bytewise_decode example_float64_of_bits
              example_simulator [0; 1; 2; 3]%Z) as (_ & _ & _ & _ & H & _).
  exact (H Hm).
Defined.

(* ================================================================== *)
(** ** Saving and loading a project *)
(* ================================================================== *)

Lemma length_le_bytes (k : nat) (n : Z) : List.length (Darkroom.le_bytes k n) = k.
Proof.
  revert n. induction k as [| k IH]; intros n; cbn; [reflexivity |].
  now rewrite IH.
Qed.

Lemma le_value_le_bytes (k : nat) (n : Z) :
  Darkroom.le_value (Darkroom.le_bytes k n) = (n mod 256 ^ Z.of_nat k)%Z.
Proof.
  revert n. induction k as [| k IH]; intros n.
  - cbn. now rewrite Z.mod_1_r.
  - cbn [Darkroom.le_bytes Darkroom.le_value]. rewrite IH.
    rewrite Nat2Z.inj_succ, Z.pow_succ_r by lia.
    rewrite Z.rem_mul_r by lia. reflexivity.
Qed.

Lemma le_value_small (k : nat) (n : Z) :
  (0 <= n < 256 ^ Z.of_nat k)%Z ->
  Darkroom.le_value (Darkroom.le_bytes k n) = n.
Proof. intros H. rewrite le_value_le_bytes. now apply Z.mod_small. Qed.

Lemma wrap32_le_bytes (g : Z) :
  (- 2 ^ 31 <= g < 2 ^ 31)%Z ->
  wrap32 (Darkroom.le_value (Darkroom.le_bytes 4 g)) = g.
Proof.
  intros H. rewrite le_value_le_bytes. unfold wrap32.
  change (256 ^ Z.of_nat 4)%Z with (2 ^ 32)%Z.
  rewrite Zplus_mod_idemp_l. rewrite Z.mod_small; lia.
Qed.

Lemma map_mod256_bytes (l : list Z) :
  Forall (fun b => (0 <= b <= 255)%Z) l -> map (fun b => (b mod 256)%Z) l = l.
Proof.
  induction 1 as [| b l Hb _ IH]; cbn; [reflexivity |].
  rewrite IH, Z.mod_small by lia. reflexivity.
Qed.

Lemma le_value_single (b : Z) : Darkroom.le_value [b] = b.
Proof. cbn. lia. Qed.

(** Reading back a part of a buffer that was written at its place. *)
Lemma slice_at (buffer pre l post : list Z) (offset length : Z) :
  buffer = pre ++ l ++ post ->
  offset = Z.of_nat (List.length pre) ->
  length = Z.of_nat (List.length l) ->
  Darkroom.slice buffer offset length = Darkroom.Ok l.
Proof.
  intros -> -> ->. unfold Darkroom.slice.
  rewrite !length_app.
  destruct (Z.leb_spec 0 (Z.of_nat (List.length pre))); [| lia].
  destruct (Z.leb_spec 0 (Z.of_nat (List.length l))); [| lia].
  destruct (Z.leb_spec (Z.of_nat (List.length pre) + Z.of_nat (List.length l))
              (Z.of_nat (List.length pre
                         + (List.length l + List.length post)))); [| lia].
  cbn [andb]. rewrite !Nat2Z.id. f_equal.
  rewrite skipn_app, skipn_all, Nat.sub_diag. cbn [skipn app].
  rewrite firstn_app, firstn_all, Nat.sub_diag. cbn [firstn].
  apply app_nil_r.
Qed.

Section RoundTrip.

Variable TextEncoder_encode : string -> list Z.
Variable TextDecoder_decode : list Z -> string.
Variable float64_bits : num -> Z.
Variable float64_of_bits : Z -> num.

Let write_exposure := Darkroom.write_exposure TextEncoder_encode float64_bits.
Let storable_exposure :=
  Darkroom.storable_exposure TextEncoder_encode TextDecoder_decode
    float64_bits float64_of_bits.

(** The list lengths met while locating a part of the buffer. *)
Ltac lens :=
  repeat rewrite ?length_app, ?length_le_bytes, ?length_map;
  cbn [List.length]; lia.

(** The next read of the goal is the part [l] written after [pre]. *)
Ltac read_part buffer pre l post :=
  rewrite (slice_at buffer pre l post);
  [ cbn [Darkroom.bind]
  | subst buffer; repeat rewrite <- app_assoc; reflexivity
  | lens
  | lens ].

Lemma write_exposure_length (e : Darkroom.Exposure) :
  (17 <= List.length (write_exposure e))%nat.
Proof.
  unfold write_exposure, Darkroom.write_exposure.
  destruct (Darkroom.maskData e); lens.
Qed.

(** An exposure is read back as it was written. *)
Lemma read_exposure_written (pre post : list Z) (e : Darkroom.Exposure) :
  storable_exposure e ->
  Darkroom.read_exposure TextDecoder_decode float64_of_bits
    (pre ++ write_exposure e ++ post) (Z.of_nat (List.length pre))
  = Darkroom.Ok (e, Z.of_nat (List.length (pre ++ write_exposure e))).
Proof.
  intros (Hlen & Hid & Hbits & Htime & Hgrade & Hmask).
  destruct e as [eid etime egrade emask].
  cbn [Darkroom.id Darkroom.time Darkroom.grade Darkroom.maskData] in *.
  unfold write_exposure, Darkroom.write_exposure.
  cbn [Darkroom.id Darkroom.time Darkroom.grade Darkroom.maskData].
  set (A := Darkroom.le_bytes 4 (Z.of_nat (List.length (TextEncoder_encode eid)))).
  set (B := map (fun b => (b mod 256)%Z) (TextEncoder_encode eid)).
  set (C := Darkroom.le_bytes 8 (float64_bits etime)).
  set (D := Darkroom.le_bytes 4 egrade).
  assert (HA : Darkroom.le_value A = Z.of_nat (List.length B)).
  { unfold A, B. rewrite length_map. apply le_value_small.
    change (256 ^ Z.of_nat 4)%Z with (2 ^ 32)%Z. lia. }
  assert (HlA : List.length A = 4%nat) by apply length_le_bytes.
  assert (HlC : List.length C = 8%nat) by apply length_le_bytes.
  assert (HlD : List.length D = 4%nat) by apply length_le_bytes.
  assert (HC : float64_of_bits (Darkroom.le_value C) = etime).
  { unfold C. rewrite le_value_small; [assumption |].
    change (256 ^ Z.of_nat 8)%Z with (2 ^ 64)%Z. lia. }
  assert (HD : wrap32 (Darkroom.le_value D) = egrade)
    by now apply wrap32_le_bytes.
  unfold Darkroom.read_exposure, Darkroom.getUint32, Darkroom.getUint8,
    Darkroom.getInt32, Darkroom.getFloat64.
  destruct emask as [[w h d] |].
  - cbn [Darkroom.width Darkroom.height Darkroom.data] in *.
    destruct Hmask as (Hw & Hh & Hd & Hbytes).
    set (W := Darkroom.le_bytes 4 w). set (H := Darkroom.le_bytes 4 h).
    rewrite (map_mod256_bytes d Hbytes).
    assert (HW : Darkroom.le_value W = w)
      by (apply le_value_small; change (256 ^ Z.of_nat 4)%Z with (2 ^ 32)%Z; lia).
    assert (HH : Darkroom.le_value H = h)
      by (apply le_value_small; change (256 ^ Z.of_nat 4)%Z with (2 ^ 32)%Z; lia).
    assert (HlW : List.length W = 4%nat) by apply length_le_bytes.
    assert (HlH : List.length H = 4%nat) by apply length_le_bytes.
    set (buffer := pre ++ (A ++ B ++ C ++ D ++ [1%Z] ++ W ++ H ++ d) ++ post).
    read_part buffer pre A (B ++ C ++ D ++ [1%Z] ++ W ++ H ++ d ++ post).
    rewrite HA.
    read_part buffer (pre ++ A) B (C ++ D ++ [1%Z] ++ W ++ H ++ d ++ post).
    read_part buffer (pre ++ A ++ B) C (D ++ [1%Z] ++ W ++ H ++ d ++ post).
    read_part buffer (pre ++ A ++ B ++ C) D ([1%Z] ++ W ++ H ++ d ++ post).
    read_part buffer (pre ++ A ++ B ++ C ++ D) [1%Z] (W ++ H ++ d ++ post).
    rewrite le_value_single, Z.eqb_refl.
    read_part buffer (pre ++ A ++ B ++ C ++ D ++ [1%Z]) W (H ++ d ++ post).
    read_part buffer (pre ++ A ++ B ++ C ++ D ++ [1%Z] ++ W) H (d ++ post).
    rewrite HW, HH.
    read_part buffer (pre ++ A ++ B ++ C ++ D ++ [1%Z] ++ W ++ H) d post.
    rewrite HC, HD. unfold B. rewrite Hid.
    f_equal. f_equal. fold B. lens.
  - set (buffer := pre ++ (A ++ B ++ C ++ D ++ [0%Z]) ++ post).
    read_part buffer pre A (B ++ C ++ D ++ [0%Z] ++ post).
    rewrite HA.
    read_part buffer (pre ++ A) B (C ++ D ++ [0%Z] ++ post).
    read_part buffer (pre ++ A ++ B) C (D ++ [0%Z] ++ post).
    read_part buffer (pre ++ A ++ B ++ C) D ([0%Z] ++ post).
    read_part buffer (pre ++ A ++ B ++ C ++ D) [0%Z] post.
    rewrite le_value_single. change (0 =? 1)%Z with false. cbv iota.
    rewrite HC, HD. unfold B. rewrite Hid.
    f_equal. f_equal. fold B. lens.
Qed.

(** The exposures are read back as they were written, in order. *)
Lemma read_exposures_written (exposures : list Darkroom.Exposure) :
  forall pre post acc fuel,
  Forall storable_exposure exposures ->
  (List.length exposures <= fuel)%nat ->
  Darkroom.read_exposures TextDecoder_decode float64_of_bits fuel
    (pre ++ flat_map write_exposure exposures ++ post)
    (Z.of_nat (List.length exposures)) (Z.of_nat (List.length pre)) acc
  = Darkroom.Ok (rev acc ++ exposures).
Proof.
  induction exposures as [| e rest IH]; intros pre post acc fuel Hall Hfuel.
  - destruct fuel; cbn; now rewrite app_nil_r.
  - destruct fuel as [| fuel]; [cbn in Hfuel; lia |].
    cbn [Darkroom.read_exposures].
    destruct (Z.leb_spec (Z.of_nat (List.length (e :: rest))) 0) as [Hz | _];
      [cbn [List.length] in Hz; lia |].
    inversion Hall as [| ? ? He Hrest]; subst.
    cbn [flat_map]. rewrite <- app_assoc.
    rewrite (read_exposure_written pre _ e He). cbn [Darkroom.bind fst snd].
    replace (Z.of_nat (List.length (e :: rest)) - 1)%Z
      with (Z.of_nat (List.length rest)) by (cbn [List.length]; lia).
    rewrite (app_assoc pre).
    rewrite (IH (pre ++ write_exposure e) post (e :: acc) fuel Hrest)
      by (cbn [List.length] in Hfuel; lia).
    cbn [rev]. now rewrite <- app_assoc.
Qed.

Lemma flat_map_write_length (exposures : list Darkroom.Exposure) :
  (List.length exposures <= List.length (flat_map write_exposure exposures))%nat.
Proof.
  induction exposures as [| e rest IH]; cbn [flat_map List.length]; [lia |].
  rewrite length_app. pose proof (write_exposure_length e). lia.
Qed.

(** A saved project is parsed back as it was. *)
Lemma parse_body_written (fuel : nat) (paperType : string)
  (exposures : list Darkroom.Exposure) :
  Darkroom.storable_project TextEncoder_encode TextDecoder_decode
    float64_bits float64_of_bits paperType exposures ->
  (List.length exposures <= fuel)%nat ->
  Darkroom.parse_body TextDecoder_decode float64_of_bits fuel
    (Darkroom.project_buffer TextEncoder_encode float64_bits paperType exposures)
  = Darkroom.Ok (Darkroom.mkProjectData paperType exposures).
Proof.
  intros (Hlen & Hpt & Hcount & Hall) Hfuel.
  unfold Darkroom.project_buffer.
  fold write_exposure.
  set (V := Darkroom.le_bytes 4 1).
  set (A := Darkroom.le_bytes 4 (Z.of_nat (List.length (TextEncoder_encode paperType)))).
  set (B := map (fun b => (b mod 256)%Z) (TextEncoder_encode paperType)).
  set (N := Darkroom.le_bytes 4 (Z.of_nat (List.length exposures))).
  set (X := flat_map write_exposure exposures).
  assert (HA : Darkroom.le_value A = Z.of_nat (List.length B)).
  { unfold A, B. rewrite length_map. apply le_value_small.
    change (256 ^ Z.of_nat 4)%Z with (2 ^ 32)%Z. lia. }
  assert (HN : Darkroom.le_value N = Z.of_nat (List.length exposures)).
  { unfold N. apply le_value_small.
    change (256 ^ Z.of_nat 4)%Z with (2 ^ 32)%Z. lia. }
  assert (HlV : List.length V = 4%nat) by apply length_le_bytes.
  assert (HlA : List.length A = 4%nat) by apply length_le_bytes.
  assert (HlN : List.length N = 4%nat) by apply length_le_bytes.
  set (buffer := [68; 68; 82; 77]%Z ++ V ++ A ++ B ++ N ++ X).
  unfold Darkroom.parse_body, Darkroom.getUint8, Darkroom.getUint32.
  read_part buffer (@nil Z) [68%Z] ([68; 82; 77]%Z ++ V ++ A ++ B ++ N ++ X).
  rewrite le_value_single, Z.eqb_refl. cbn [negb].
  read_part buffer [68%Z] [68%Z] ([82; 77]%Z ++ V ++ A ++ B ++ N ++ X).
  rewrite le_value_single, Z.eqb_refl. cbn [negb].
  read_part buffer [68; 68]%Z [82%Z] ([77%Z] ++ V ++ A ++ B ++ N ++ X).
  rewrite le_value_single, Z.eqb_refl. cbn [negb].
  read_part buffer [68; 68; 82]%Z [77%Z] (V ++ A ++ B ++ N ++ X).
  rewrite le_value_single, Z.eqb_refl. cbn [negb].
  read_part buffer [68; 68; 82; 77]%Z V (A ++ B ++ N ++ X).
  change (Darkroom.le_value V) with 1%Z. rewrite Z.eqb_refl. cbn [negb].
  read_part buffer ([68; 68; 82; 77]%Z ++ V) A (B ++ N ++ X).
  rewrite HA.
  read_part buffer ([68; 68; 82; 77]%Z ++ V ++ A) B (N ++ X).
  read_part buffer ([68; 68; 82; 77]%Z ++ V ++ A ++ B) N X.
  rewrite HN.
  replace (12 + Z.of_nat (List.length B) + 4)%Z
    with (Z.of_nat (List.length ([68; 68; 82; 77]%Z ++ V ++ A ++ B ++ N)))
    by lens.
  replace buffer
    with (([68; 68; 82; 77]%Z ++ V ++ A ++ B ++ N) ++ X ++ [])
    by (subst buffer; rewrite app_nil_r; repeat rewrite <- app_assoc; reflexivity).
  unfold X.
  rewrite (read_exposures_written exposures _ [] [] fuel Hall Hfuel).
  cbn [Darkroom.bind rev app]. unfold B. now rewrite Hpt.
Qed.

End RoundTrip.


Lemma example_time_bits :
  example_float64_bits (Fin 16) = 0x4030000000000000%Z.
Proof. unfold example_float64_bits. rdec. reflexivity. Qed.

Lemma example_project_storable :
  Darkroom.storable_project bytewise_encode bytewise_decode
    example_float64_bits example_float64_of_bits
    (Darkroom.paperType example_simulator)
    (Darkroom.exposures example_simulator).
Proof.
  unfold Darkroom.storable_project, example_simulator, example_exposures.
  cbn [Darkroom.paperType Darkroom.exposures].
  split; [vm_compute; reflexivity |].
  split; [vm_compute; reflexivity |].
  split; [vm_compute; reflexivity |].
  repeat constructor;
    cbn [Darkroom.id Darkroom.time Darkroom.grade Darkroom.maskData
         Darkroom.width Darkroom.height Darkroom.data];
    try rewrite example_time_bits;
    try (vm_compute; reflexivity); try lia;
    try (vm_compute; split; congruence).
Qed.


(* ================================================================== *)
(** ** The mask brush *)
(* ================================================================== *)

Lemma tInner_range (brush : Script.Brush) : 0 <= Script.tInner brush <= 1.
Proof.
  unfold Script.tInner, Rmax, Rmin.
  repeat destruct (Rle_dec _ _); lra.
Qed.

Lemma tMid_range (brush : Script.Brush) :
  Script.tInner brush <= Script.tMid brush <= 1.
Proof.
  pose proof (tInner_range brush). unfold Script.tMid, Rmax, Rmin.
  repeat destruct (Rle_dec _ _); lra.
Qed.

Lemma ratio_unit (a b : R) : 0 <= a -> a <= b -> 0 < b -> 0 <= a / b <= 1.
Proof.
  intros Ha Hab Hb. split.
  - apply Rmult_le_pos; [assumption | left; now apply Rinv_0_lt_compat].
  - apply Rmult_le_reg_r with b; [assumption |].
    unfold Rdiv. rewrite Rmult_assoc, Rinv_l by lra. lra.
Qed.

Lemma gradient_alpha_range (brush : Script.Brush) (t : R) :
  0 <= Script.gradient_alpha brush t <= 1.
Proof.
  pose proof (tInner_range brush) as Hi. pose proof (tMid_range brush) as Hm.
  unfold Script.gradient_alpha. rcases; try lra.
  - pose proof (ratio_unit (t - Script.tInner brush)
                  (Script.tMid brush - Script.tInner brush)
                  ltac:(lra) ltac:(lra) ltac:(lra)). lra.
  - pose proof (ratio_unit (t - Script.tMid brush) (1 - Script.tMid brush)
                  ltac:(lra) ltac:(lra) ltac:(lra)). lra.
Qed.

Lemma globalAlpha_range (brush : Script.Brush) :
  0 <= Script.globalAlpha brush <= 1.
Proof.
  unfold Script.globalAlpha. destruct (Script.activeTool brush); [| lra].
  rcases; cbn [andb]; lra.
Qed.

Lemma stamp_alpha_range (brush : Script.Brush) (x y radius px py : R) :
  0 <= Script.stamp_alpha brush x y radius px py <= 1.
Proof.
  unfold Script.stamp_alpha. rcases; try lra.
  pose proof (globalAlpha_range brush).
  pose proof (gradient_alpha_range brush
                (sqrt ((px - x) * (px - x) + (py - y) * (py - y)) / radius)).
  nra.
Qed.

(** One composition: the result is an alpha; the dodge tool does not
    lower the alpha under the stamp, the eraser does not raise it. *)
Lemma composite_range (tool : Script.Tool) (a_src a_dst : R) :
  unit_interval a_src -> unit_interval a_dst ->
  unit_interval (Script.composite tool a_src a_dst)
  /\ match tool with
     | Script.Dodge => a_dst <= Script.composite tool a_src a_dst
     | Script.Erase => Script.composite tool a_src a_dst <= a_dst
     end.
Proof.
  unfold unit_interval. intros Hs Hd. destruct tool; cbn; split; nra.
Qed.

(** Under the inner disc of the brush the stamp has the alpha that
    [globalAlpha] holds: 1 for the eraser, the flow for the dodge
    tool. *)
Lemma stamp_alpha_inner (brush : Script.Brush) (x y radius px py : R) :
  0 < radius ->
  sqrt ((px - x) * (px - x) + (py - y) * (py - y))
  <= Script.tInner brush * radius ->
  Script.stamp_alpha brush x y radius px py = Script.globalAlpha brush.
Proof.
  intros Hr Hd. unfold Script.stamp_alpha. cbv zeta.
  set (d := sqrt ((px - x) * (px - x) + (py - y) * (py - y))) in *.
  pose proof (tInner_range brush) as Hi.
  assert (Hd0 : 0 <= d) by apply sqrt_pos.
  assert (Hdr : d <= radius) by nra.
  assert (Ht : d / radius <= Script.tInner brush).
  { apply Rmult_le_reg_r with radius; [lra |].
    rewrite div_mul_cancel by lra. lra. }
  replace (Rleb radius 0) with false by (symmetry; apply Rleb_false; lra).
  replace (Rleb d radius) with true by (symmetry; now apply Rleb_true).
  unfold Script.gradient_alpha.
  replace (Rleb (d / radius) (Script.tInner brush)) with true
    by (symmetry; now apply Rleb_true).
  lra.
Qed.

Lemma globalAlpha_erase (brush : Script.Brush) :
  Script.activeTool brush = Script.Erase -> Script.globalAlpha brush = 1.
Proof. intros H. unfold Script.globalAlpha. now rewrite H. Qed.

Lemma globalAlpha_dodge (brush : Script.Brush) :
  Script.activeTool brush = Script.Dodge ->
  0 <= Script.brushFlow brush <= 1 ->
  Script.globalAlpha brush = Script.brushFlow brush.
Proof.
  intros H [H0 H1]. unfold Script.globalAlpha. rewrite H.
  apply Rleb_true in H0, H1. now rewrite H0, H1.
Qed.

Lemma clamp_byte_range (z : Z) : is_byte (clamp_byte z).
Proof. unfold is_byte, clamp_byte. lia. Qed.

Lemma byte_ratio_unit (b : Z) : is_byte b -> unit_interval (IZR b / 255).
Proof.
  intros [H0 H1]. apply IZR_le in H0, H1. unfold unit_interval. lra.
Qed.

Lemma byte_IZR (b : Z) : is_byte b -> 0 <= IZR b <= 255.
Proof. intros [H0 H1]. apply IZR_le in H0, H1. lra. Qed.

Lemma Rabs_lt_bounds (a b : R) : Rabs a < b -> - b < a < b.
Proof. intros H. destruct (Rabs_def2 _ _ H). split; assumption. Qed.

(** A store gives a byte back as it is. *)
Lemma byte_store_exact (store : R -> Z) (b : Z) :
  byte_store store -> is_byte b -> store (IZR b / 255) = b.
Proof.
  intros Hs Hb. pose proof (byte_IZR b Hb) as Hr.
  destruct (Hs (IZR b / 255)) as [_ Hn]; [lra |].
  apply Rabs_lt_bounds in Hn.
  replace (255 * (IZR b / 255)) with (IZR b) in Hn by (field; lra).
  set (b' := store (IZR b / 255)) in *.
  rewrite <- minus_IZR in Hn. destruct Hn as [Hlo Hhi].
  assert (H1 : (-1 < b' - b)%Z) by (apply lt_IZR; lra).
  assert (H2 : (b' - b < 1)%Z) by (apply lt_IZR; lra).
  lia.
Qed.

(** One dodge stamp on a pixel of byte [b], the stamp having the alpha
    [s] there: the byte does not fall, stays a byte, and rises when
    [s] times the distance to 255 is a whole step or more. *)
Lemma dodge_step (store : R -> Z) (s : R) (b : Z) :
  byte_store store -> 0 <= s <= 1 -> is_byte b ->
  let b' := store (Script.composite Script.Dodge s (IZR b / 255)) in
  (b <= b' <= 255)%Z
  /\ (1 <= s * IZR (255 - b) -> (b < b')%Z)
  /\ (s = 1 -> b' = 255%Z).
Proof.
  intros Hs Hs01 Hb b'. pose proof (byte_IZR b Hb) as Hr.
  assert (Hv : 0 <= Script.composite Script.Dodge s (IZR b / 255) <= 1).
  { apply composite_range; unfold unit_interval; lra. }
  destruct (Hs _ Hv) as [[_ H255] Hn]. fold b' in H255, Hn.
  apply Rabs_lt_bounds in Hn.
  assert (E : 255 * Script.composite Script.Dodge s (IZR b / 255)
              = IZR b + s * (255 - IZR b)).
  { cbn [Script.composite]. field. }
  rewrite E in Hn. rewrite minus_IZR. change (IZR 255) with 255.
  assert (Hge : 0 <= s * (255 - IZR b)) by (apply Rmult_le_pos; lra).
  split; [| split].
  - split; [| exact H255].
    assert (H : (b - 1 < b')%Z) by (apply lt_IZR; rewrite minus_IZR; lra).
    lia.
  - intros Hstep. apply lt_IZR. lra.
  - intros ->.
    assert (H : (254 < b')%Z) by (apply lt_IZR; change (IZR 254) with 254; lra).
    lia.
Qed.

(** One erase stamp: the byte does not rise, does not fall under 0, and
    falls when [s] times the byte is a whole step or more. *)
Lemma erase_step (store : R -> Z) (s : R) (b : Z) :
  byte_store store -> 0 <= s <= 1 -> is_byte b ->
  let b' := store (Script.composite Script.Erase s (IZR b / 255)) in
  (0 <= b' <= b)%Z
  /\ (1 <= s * IZR b -> (b' < b)%Z)
  /\ (s = 1 -> b' = 0%Z).
Proof.
  intros Hs Hs01 Hb b'. pose proof (byte_IZR b Hb) as Hr.
  assert (Hv : 0 <= Script.composite Script.Erase s (IZR b / 255) <= 1).
  { apply composite_range; unfold unit_interval; lra. }
  destruct (Hs _ Hv) as [[H0 _] Hn]. fold b' in H0, Hn.
  apply Rabs_lt_bounds in Hn.
  assert (E : 255 * Script.composite Script.Erase s (IZR b / 255)
              = IZR b - s * IZR b).
  { cbn [Script.composite]. field. }
  rewrite E in Hn.
  assert (Hge : 0 <= s * IZR b) by (apply Rmult_le_pos; lra).
  split; [| split].
  - split; [exact H0 |].
    assert (H : (b' < b + 1)%Z) by (apply lt_IZR; rewrite plus_IZR; lra).
    lia.
  - intros Hstep. apply lt_IZR. lra.
  - intros ->.
    assert (H : (b' < 1)%Z) by (apply lt_IZR; lra).
    lia.
Qed.

Lemma stamp_length (store : R -> Z) (brush : Script.Brush)
  (canvas : Script.MaskCanvas) (x y radius : R) :
  List.length (Script.mc_alpha (Script._stamp store brush canvas x y radius))
  = List.length (Script.mc_alpha canvas).
Proof.
  unfold Script._stamp. cbn [Script.mc_alpha].
  rewrite length_map, length_combine, length_seq. lia.
Qed.

Lemma nth_error_combine_seq {A : Type} (l : list A) :
  forall s j,
  nth_error (combine (seq s (List.length l)) l) j
  = option_map (fun a => ((s + j)%nat, a)) (nth_error l j).
Proof.
  induction l as [| a l IH]; intros s j.
  - destruct j; reflexivity.
  - destruct j as [| j]; cbn [List.length seq combine nth_error option_map].
    + now rewrite Nat.add_0_r.
    + rewrite IH. destruct (nth_error l j); cbn [option_map]; [| reflexivity].
      do 2 f_equal. lia.
Qed.

(** The byte of pixel [j] after a stamp. *)
Lemma stamp_nth (store : R -> Z) (brush : Script.Brush)
  (canvas : Script.MaskCanvas) (x y radius : R) (j : nat) :
  (j < List.length (Script.mc_alpha canvas))%nat ->
  nth j (Script.mc_alpha (Script._stamp store brush canvas x y radius)) 0%Z
  = store (Script.composite (Script.activeTool brush)
             (Script.stamp_alpha brush x y radius
                (fst (Script.pixel_centre (Script.mc_width canvas) j))
                (snd (Script.pixel_centre (Script.mc_width canvas) j)))
             (IZR (nth j (Script.mc_alpha canvas) 0%Z) / 255)).
Proof.
  intros Hj. unfold Script._stamp. cbn [Script.mc_alpha].
  apply nth_error_nth. rewrite nth_error_map, nth_error_combine_seq.
  rewrite (nth_error_nth' _ 0%Z Hj). reflexivity.
Qed.

Lemma Forall_nth_byte (l : list Z) :
  Forall is_byte l <->
  (forall j, (j < List.length l)%nat -> is_byte (nth j l 0%Z)).
Proof.
  split.
  - intros H j Hj. rewrite Forall_forall in H. apply H. now apply nth_In.
  - intros H. apply Forall_forall. intros a Ha.
    destruct (In_nth l a 0%Z Ha) as (j & Hj & <-). now apply H.
Qed.

Lemma stamp_bytes (store : R -> Z) (brush : Script.Brush)
  (canvas : Script.MaskCanvas) (x y radius : R) :
  byte_store store ->
  Forall is_byte (Script.mc_alpha canvas) ->
  Forall is_byte
    (Script.mc_alpha (Script._stamp store brush canvas x y radius)).
Proof.
  intros Hs H. apply Forall_nth_byte. intros j Hj.
  rewrite stamp_length in Hj. rewrite stamp_nth by assumption.
  apply Hs. apply composite_range.
  - apply stamp_alpha_range.
  - apply byte_ratio_unit. now apply (proj1 (Forall_nth_byte _) H).
Qed.

Lemma stamps_bytes (store : R -> Z) (brush : Script.Brush) (radius : R)
  (pts : list (R * R)) :
  byte_store store ->
  forall canvas,
  Forall is_byte (Script.mc_alpha canvas) ->
  Forall is_byte
    (Script.mc_alpha
       (fold_left (fun c p => Script._stamp store brush c (fst p) (snd p) radius)
                  pts canvas))
  /\ List.length
       (Script.mc_alpha
          (fold_left
             (fun c p => Script._stamp store brush c (fst p) (snd p) radius)
             pts canvas))
     = List.length (Script.mc_alpha canvas).
Proof.
  intros Hs. induction pts as [| p pts IH]; intros canvas H; cbn [fold_left];
    [split; [assumption | reflexivity] |].
  destruct (IH (Script._stamp store brush canvas (fst p) (snd p) radius))
    as [Hb Hl]; [now apply stamp_bytes |].
  split; [exact Hb |]. now rewrite Hl, stamp_length.
Qed.

Lemma apply_op_bytes (store : R -> Z) (canvas canvas' : Script.MaskCanvas)
  (op : Script.MaskOp) :
  byte_store store ->
  Forall is_byte (Script.mc_alpha canvas) ->
  Script.apply_op store canvas op = Some canvas' ->
  Forall is_byte (Script.mc_alpha canvas')
  /\ List.length (Script.mc_alpha canvas')
     = List.length (Script.mc_alpha canvas).
Proof.
  intros Hs H. destruct op as [brush x y radius | brush lx ly x y radius |];
    cbn [Script.apply_op].
  - intros [= <-]. split; [now apply stamp_bytes | apply stamp_length].
  - unfold Script.stroke_segment.
    destruct (Script.segment_points lx ly x y radius) as [pts |];
      [| discriminate].
    intros [= <-]. now apply stamps_bytes.
  - intros [= <-]. unfold Script.clearCanvas. cbn [Script.mc_alpha].
    split; [| apply length_map].
    apply Forall_forall. intros a Ha. apply in_map_iff in Ha.
    destruct Ha as (? & <- & _). unfold is_byte. lia.
Qed.

Lemma apply_ops_bytes (store : R -> Z) (ops : list Script.MaskOp) :
  byte_store store ->
  forall canvas canvas',
  Forall is_byte (Script.mc_alpha canvas) ->
  Script.apply_ops store canvas ops = Some canvas' ->
  Forall is_byte (Script.mc_alpha canvas')
  /\ List.length (Script.mc_alpha canvas')
     = List.length (Script.mc_alpha canvas).
Proof.
  intros Hs. induction ops as [| op ops IH]; intros canvas canvas' H;
    cbn [Script.apply_ops].
  - intros [= <-]. split; [assumption | reflexivity].
  - destruct (Script.apply_op store canvas op) as [c1 |] eqn:E;
      [| discriminate].
    destruct (apply_op_bytes store canvas c1 op Hs H E) as [Hb Hl].
    intros Hrest. destruct (IH c1 canvas' Hb Hrest) as [Hb' Hl'].
    split; [exact Hb' | congruence].
Qed.

(** What [updateMaskData] stores: the bytes of the canvas over 255. *)
Lemma updateMaskData_nth (canvas : Script.MaskCanvas) (j : nat) :
  (j < List.length (Script.mc_alpha canvas))%nat ->
  nth j (Script.updateMaskData canvas) 0
  = IZR (nth j (Script.mc_alpha canvas) 0%Z) / 255.
Proof.
  intros Hj. unfold Script.updateMaskData.
  apply nth_error_nth. rewrite nth_error_map.
  now rewrite (nth_error_nth' _ 0%Z Hj).
Qed.

Lemma updateMaskData_unit (canvas : Script.MaskCanvas) :
  Forall is_byte (Script.mc_alpha canvas) ->
  Forall unit_interval (Script.updateMaskData canvas).
Proof.
  intros H. unfold Script.updateMaskData. apply Forall_forall. intros m Hm.
  apply in_map_iff in Hm. destruct Hm as (b & <- & Hin).
  apply byte_ratio_unit. rewrite Forall_forall in H. now apply H.
Qed.

(** The byte of pixel [j] after [n] stamps at the same place. *)
Lemma stamp_iter_nth (store : R -> Z) (brush : Script.Brush)
  (x y radius : R) (n j : nat) (canvas : Script.MaskCanvas) :
  (j < List.length (Script.mc_alpha canvas))%nat ->
  List.length
    (Script.mc_alpha
       (Nat.iter n (fun c => Script._stamp store brush c x y radius) canvas))
  = List.length (Script.mc_alpha canvas)
  /\ nth j (Script.mc_alpha
              (Nat.iter n (fun c => Script._stamp store brush c x y radius)
                 canvas)) 0%Z
     = Nat.iter n
         (fun b =>
            store (Script.composite (Script.activeTool brush)
                     (Script.stamp_alpha brush x y radius
                        (fst (Script.pixel_centre (Script.mc_width canvas) j))
                        (snd (Script.pixel_centre (Script.mc_width canvas) j)))
                     (IZR b / 255)))
         (nth j (Script.mc_alpha canvas) 0%Z).
Proof.
  intros Hj. induction n as [| n [IHl IHn]]; [split; reflexivity |].
  change (Nat.iter (S n) (fun c => Script._stamp store brush c x y radius) canvas)
    with (Script._stamp store brush
            (Nat.iter n (fun c => Script._stamp store brush c x y radius) canvas)
            x y radius).
  rewrite stamp_length, IHl. split; [reflexivity |].
  rewrite stamp_nth by lia. rewrite IHn.
  assert (Hw : Script.mc_width
                 (Nat.iter n (fun c => Script._stamp store brush c x y radius)
                    canvas)
               = Script.mc_width canvas).
  { clear. induction n as [| n IH]; [reflexivity |]. exact IH. }
  rewrite Hw. reflexivity.
Qed.

(** [n] dodge stamps of alpha [s] on a byte. *)
Lemma dodge_iter (store : R -> Z) (s : R) (b0 : Z) (n : nat) :
  byte_store store -> 0 <= s <= 1 -> is_byte b0 ->
  let f := fun b => store (Script.composite Script.Dodge s (IZR b / 255)) in
  (b0 <= Nat.iter n f b0 <= 255)%Z
  /\ (Nat.iter n f b0 <= Nat.iter (S n) f b0)%Z
  /\ (1 <= s * IZR (255 - Nat.iter n f b0) ->
      (Nat.iter n f b0 < Nat.iter (S n) f b0)%Z)
  /\ ((b0 + Z.of_nat n <= Nat.iter n f b0)%Z
      \/ s * IZR (255 - Nat.iter n f b0) < 1)
  /\ (s = 1 -> (1 <= n)%nat -> Nat.iter n f b0 = 255%Z).
Proof.
  intros Hs Hs01 Hb0 f.
  assert (Hinv : forall k,
             is_byte (Nat.iter k f b0) /\ (b0 <= Nat.iter k f b0)%Z
             /\ ((b0 + Z.of_nat k <= Nat.iter k f b0)%Z
                 \/ s * IZR (255 - Nat.iter k f b0) < 1)).
  { induction k as [| k (Hbk & Hge & Hprog)].
    - change (Nat.iter 0 f b0) with b0.
      split; [exact Hb0 |]. split; [lia |]. left. lia.
    - change (Nat.iter (S k) f b0) with (f (Nat.iter k f b0)).
      destruct (dodge_step store s (Nat.iter k f b0) Hs Hs01 Hbk)
        as ([Hle H255] & Hstrict & _).
      fold (f (Nat.iter k f b0)) in Hle, H255, Hstrict.
      destruct Hbk as [Hk0 Hk1].
      split; [split; lia |]. split; [lia |].
      destruct (Rlt_dec (s * IZR (255 - Nat.iter k f b0)) 1) as [Hsmall | Hbig].
      + right. apply Rle_lt_trans with (s * IZR (255 - Nat.iter k f b0));
          [| exact Hsmall].
        apply Rmult_le_compat_l; [lra |]. apply IZR_le. lia.
      + destruct Hprog as [Hp | Hp]; [| lra].
        left. specialize (Hstrict ltac:(lra)). lia. }
  destruct (Hinv n) as (Hbn & Hge & Hprog).
  change (Nat.iter (S n) f b0) with (f (Nat.iter n f b0)).
  destruct (dodge_step store s (Nat.iter n f b0) Hs Hs01 Hbn)
    as ([Hle H255] & Hstrict & _).
  fold (f (Nat.iter n f b0)) in Hle, H255, Hstrict.
  destruct Hbn as [Hn0 Hn1].
  split; [lia |]. split; [exact Hle |]. split; [exact Hstrict |].
  split; [exact Hprog |].
  intros -> Hn. destruct n as [| n]; [lia |].
  change (Nat.iter (S n) f b0) with (f (Nat.iter n f b0)).
  destruct (Hinv n) as (Hbn' & _).
  destruct (dodge_step store 1 (Nat.iter n f b0) Hs Hs01 Hbn')
    as (_ & _ & H1).
  exact (H1 eq_refl).
Qed.

(** [n] erase stamps of alpha [s] on a byte. *)
Lemma erase_iter (store : R -> Z) (s : R) (b0 : Z) (n : nat) :
  byte_store store -> 0 <= s <= 1 -> is_byte b0 ->
  let f := fun b => store (Script.composite Script.Erase s (IZR b / 255)) in
  (0 <= Nat.iter n f b0 <= b0)%Z
  /\ (Nat.iter (S n) f b0 <= Nat.iter n f b0)%Z
  /\ (1 <= s * IZR (Nat.iter n f b0) ->
      (Nat.iter (S n) f b0 < Nat.iter n f b0)%Z)
  /\ ((Nat.iter n f b0 + Z.of_nat n <= b0)%Z
      \/ s * IZR (Nat.iter n f b0) < 1)
  /\ (s = 1 -> (1 <= n)%nat -> Nat.iter n f b0 = 0%Z).
Proof.
  intros Hs Hs01 Hb0 f.
  assert (Hinv : forall k,
             is_byte (Nat.iter k f b0) /\ (Nat.iter k f b0 <= b0)%Z
             /\ ((Nat.iter k f b0 + Z.of_nat k <= b0)%Z
                 \/ s * IZR (Nat.iter k f b0) < 1)).
  { induction k as [| k (Hbk & Hle & Hprog)].
    - change (Nat.iter 0 f b0) with b0.
      split; [exact Hb0 |]. split; [lia |]. left. lia.
    - change (Nat.iter (S k) f b0) with (f (Nat.iter k f b0)).
      destruct (erase_step store s (Nat.iter k f b0) Hs Hs01 Hbk)
        as ([H0 Hdown] & Hstrict & _).
      fold (f (Nat.iter k f b0)) in H0, Hdown, Hstrict.
      destruct Hbk as [Hk0 Hk1].
      split; [split; lia |]. split; [lia |].
      destruct (Rlt_dec (s * IZR (Nat.iter k f b0)) 1) as [Hsmall | Hbig].
      + right. apply Rle_lt_trans with (s * IZR (Nat.iter k f b0));
          [| exact Hsmall].
        apply Rmult_le_compat_l; [lra |]. apply IZR_le. lia.
      + destruct Hprog as [Hp | Hp]; [| lra].
        left. specialize (Hstrict ltac:(lra)). lia. }
  destruct (Hinv n) as (Hbn & Hle & Hprog).
  change (Nat.iter (S n) f b0) with (f (Nat.iter n f b0)).
  destruct (erase_step store s (Nat.iter n f b0) Hs Hs01 Hbn)
    as ([H0 Hdown] & Hstrict & _).
  fold (f (Nat.iter n f b0)) in H0, Hdown, Hstrict.
  destruct Hbn as [Hn0 Hn1].
  split; [lia |]. split; [exact Hdown |]. split; [exact Hstrict |].
  split; [exact Hprog |].
  intros -> Hn. destruct n as [| n]; [lia |].
  change (Nat.iter (S n) f b0) with (f (Nat.iter n f b0)).
  destruct (Hinv n) as (Hbn' & _).
  destruct (erase_step store 1 (Nat.iter n f b0) Hs Hs01 Hbn')
    as (_ & _ & H1).
  exact (H1 eq_refl).
Qed.

Lemma invert_alpha_bytes (data : list Z) :
  Forall is_byte data -> Forall is_byte (Darkroom.invert_alpha data).
Proof.
  intros H. unfold Darkroom.invert_alpha. apply Forall_forall. intros b Hb.
  apply in_map_iff in Hb. destruct Hb as ([i v] & <- & Hin).
  cbn [fst snd]. destruct (i mod 4 =? 3)%nat; [apply clamp_byte_range |].
  apply in_combine_r in Hin. rewrite Forall_forall in H. now apply H.
Qed.

Lemma exposure_alpha_unit (ex : Darkroom.Exposure) (j : nat) :
  match Darkroom.maskData ex with
  | Some md => Forall is_byte (Darkroom.data md)
  | None => True
  end ->
  exists a, Darkroom.exposure_alpha ex j = Fin a /\ unit_interval a.
Proof.
  unfold Darkroom.exposure_alpha. destruct (Darkroom.maskData ex) as [md |].
  - intros Hb. destruct (_ || _)%bool.
    + exists 0. split; [reflexivity | unfold unit_interval; lra].
    + eexists. split; [reflexivity |]. apply byte_ratio_unit.
      destruct (Nat.lt_ge_cases (4 * j + 3) (List.length (Darkroom.data md))).
      * rewrite Forall_forall in Hb. apply Hb. now apply nth_In.
      * rewrite nth_overflow by assumption. unfold is_byte. lia.
  - intros _. exists 0. split; [reflexivity | unfold unit_interval; lra].
Qed.


(** C8 (amended).  The mask canvas holds an alpha byte per pixel, and
    the mask of an exposure is that byte over 255.  Whatever way the
    canvas has of storing a composited alpha into the byte (any that is
    less than one step off), after every operation (a dodge stamp, an
    erase stamp, the stamps of a stroke segment, a clear) every pixel is
    a byte, so every mask value [updateMaskData] reads lies in [0, 1];
    the inversion of a mask image keeps its values in [0, 1] too.
    Dodge stamps at the same point never lower a value and never take
    it over 1.0; a stamp raises the byte as long as the alpha [s] of
    the stamp at the pixel times the distance of the byte to 255 is a
    whole step or more, so that [n] stamps gain [n] steps or bring the
    value within 1/(255 s) of 1.0; they need not bring it closer.
    Erase stamps never raise a value and never take it under 0; a stamp
    lowers the byte as long as [s] times the byte is a whole step or
    more.  Under the inner disc of the brush [s] is the flow for the
    dodge tool and 1 for the eraser, which sets the pixel to 0 at
    once. *)
Theorem mask_stays_in_unit_interval (store : R -> Z) :
  byte_store store ->
  (forall canvas ops canvas',
      Forall is_byte (Script.mc_alpha canvas) ->
      Script.apply_ops store canvas ops = Some canvas' ->
      Forall is_byte (Script.mc_alpha canvas')
      /\ List.length (Script.updateMaskData canvas')
         = List.length (Script.mc_alpha canvas)
      /\ Forall unit_interval (Script.updateMaskData canvas')
      /\ (forall j, (j < List.length (Script.mc_alpha canvas))%nat ->
                    nth j (Script.updateMaskData canvas') 0
                    = IZR (nth j (Script.mc_alpha canvas') 0%Z) / 255))
  /\ (forall brush canvas x y radius j,
        Script.activeTool brush = Script.Dodge ->
        Forall is_byte (Script.mc_alpha canvas) ->
        (j < List.length (Script.mc_alpha canvas))%nat ->
        let s := Script.stamp_alpha brush x y radius
                   (fst (Script.pixel_centre (Script.mc_width canvas) j))
                   (snd (Script.pixel_centre (Script.mc_width canvas) j)) in
        let b := fun n =>
                   nth j (Script.mc_alpha
                            (Nat.iter n
                               (fun c => Script._stamp store brush c x y radius)
                               canvas)) 0%Z in
        forall n,
          (b 0%nat <= b n <= 255)%Z
          /\ (b n <= b (S n))%Z
          /\ (1 <= s * IZR (255 - b n) -> (b n < b (S n))%Z)
          /\ ((b 0%nat + Z.of_nat n <= b n)%Z \/ s * IZR (255 - b n) < 1)
          /\ (s = 1 -> (1 <= n)%nat -> b n = 255%Z))
  /\ (forall brush canvas x y radius j,
        Script.activeTool brush = Script.Erase ->
        Forall is_byte (Script.mc_alpha canvas) ->
        (j < List.length (Script.mc_alpha canvas))%nat ->
        let s := Script.stamp_alpha brush x y radius
                   (fst (Script.pixel_centre (Script.mc_width canvas) j))
                   (snd (Script.pixel_centre (Script.mc_width canvas) j)) in
        let b := fun n =>
                   nth j (Script.mc_alpha
                            (Nat.iter n
                               (fun c => Script._stamp store brush c x y radius)
                               canvas)) 0%Z in
        forall n,
          (0 <= b n <= b 0%nat)%Z
          /\ (b (S n) <= b n)%Z
          /\ (1 <= s * IZR (b n) -> (b (S n) < b n)%Z)
          /\ ((b n + Z.of_nat n <= b 0%nat)%Z \/ s * IZR (b n) < 1)
          /\ (s = 1 -> (1 <= n)%nat -> b n = 0%Z))
  /\ (forall brush x y radius px py,
        0 < radius ->
        sqrt ((px - x) * (px - x) + (py - y) * (py - y))
        <= Script.tInner brush * radius ->
        Script.stamp_alpha brush x y radius px py = Script.globalAlpha brush
        /\ (Script.activeTool brush = Script.Erase ->
            Script.globalAlpha brush = 1)
        /\ (Script.activeTool brush = Script.Dodge ->
            0 <= Script.brushFlow brush <= 1 ->
            Script.globalAlpha brush = Script.brushFlow brush))
  /\ (forall canvas,
        Script.updateMaskData (Script.clearCanvas canvas)
        = repeat 0 (List.length (Script.mc_alpha canvas)))
  /\ (forall ex j,
        match Darkroom.maskData ex with
        | Some md => Forall is_byte (Darkroom.data md)
        | None => True
        end ->
        exists a,
          Darkroom.exposure_alpha (Darkroom.invertDodgeMask ex) j = Fin a
          /\ unit_interval a).
Proof.
  intros Hs. split; [| split; [| split; [| split; [| split]]]].
  - intros canvas ops canvas' H Hops.
    destruct (apply_ops_bytes store ops Hs canvas canvas' H Hops) as [Hb Hl].
    split; [exact Hb |].
    split; [unfold Script.updateMaskData; now rewrite length_map |].
    split; [now apply updateMaskData_unit |].
    intros j Hj. apply updateMaskData_nth. now rewrite Hl.
  - intros brush canvas x y radius j Htool Hc Hj s b n. subst b. cbv beta.
    pose proof (proj1 (Forall_nth_byte _) Hc j Hj) as Hb0.
    pose proof (stamp_alpha_range brush x y radius
                  (fst (Script.pixel_centre (Script.mc_width canvas) j))
                  (snd (Script.pixel_centre (Script.mc_width canvas) j))) as Hs01.
    fold s in Hs01.
    rewrite (proj2 (stamp_iter_nth store brush x y radius n j canvas Hj)).
    rewrite (proj2 (stamp_iter_nth store brush x y radius (S n) j canvas Hj)).
    rewrite (proj2 (stamp_iter_nth store brush x y radius 0 j canvas Hj)).
    rewrite Htool. fold s.
    exact (dodge_iter store s _ n Hs Hs01 Hb0).
  - intros brush canvas x y radius j Htool Hc Hj s b n. subst b. cbv beta.
    pose proof (proj1 (Forall_nth_byte _) Hc j Hj) as Hb0.
    pose proof (stamp_alpha_range brush x y radius
                  (fst (Script.pixel_centre (Script.mc_width canvas) j))
                  (snd (Script.pixel_centre (Script.mc_width canvas) j))) as Hs01.
    fold s in Hs01.
    rewrite (proj2 (stamp_iter_nth store brush x y radius n j canvas Hj)).
    rewrite (proj2 (stamp_iter_nth store brush x y radius (S n) j canvas Hj)).
    rewrite (proj2 (stamp_iter_nth store brush x y radius 0 j canvas Hj)).
    rewrite Htool. fold s.
    exact (erase_iter store s _ n Hs Hs01 Hb0).
  - intros brush x y radius px py Hr Hd.
    split; [now apply stamp_alpha_inner |].
    split; [apply globalAlpha_erase | apply globalAlpha_dodge].
  - intros canvas. unfold Script.updateMaskData, Script.clearCanvas.
    cbn [Script.mc_alpha]. rewrite map_map.
    induction (Script.mc_alpha canvas) as [| a l IH];
      cbn [map List.length repeat]; [reflexivity |].
    rewrite IH. f_equal. unfold Rdiv. apply Rmult_0_l.
  - intros ex j Hb. apply exposure_alpha_unit.
    unfold Darkroom.invertDodgeMask.
    destruct (Darkroom.maskData ex) as [md |] eqn:E;
      cbn [Darkroom.maskData]; [| now rewrite E].
    cbn [Darkroom.data]. now apply invert_alpha_bytes.
Qed.

(** A canvas that rounds to the nearest byte. *)
Lemma alpha_byte_store : byte_store Script.alpha_byte.
Proof.
  intros a [H0 H1]. unfold Script.alpha_byte, Rround.
  pose proof (Int_part_bounds (255 * a + / 2)) as Hb.
  assert (Hn : (0 <= Int_part (255 * a + / 2) <= 255)%Z).
  { split.
    - apply Int_part_nonneg. lra.
    - assert (H : (Int_part (255 * a + / 2) < 256)%Z)
        by (apply lt_IZR; change (IZR 256) with 256; lra).
      lia. }
  unfold clamp_byte. rewrite Z.min_r, Z.max_r by lia.
  split; [exact Hn |]. apply Rabs_def1; lra.
Qed.

(** One stamp of the dodge brush of script.js (flow 0.03) on the centre
    of a one-pixel canvas that rounds to the nearest byte. *)
Lemma alpha_byte_flow (b : Z) :
  is_byte b ->
  Script.alpha_byte (Script.composite Script.Dodge 0.03 (IZR b / 255))
  = ((97 * b + 815) / 100)%Z.
Proof.
  intros Hb. pose proof (byte_IZR b Hb) as Hr. destruct Hb as [Hb0 Hb1].
  unfold Script.alpha_byte, Rround. cbn [Script.composite].
  set (q := ((97 * b + 815) / 100)%Z).
  pose proof (Z.div_mod (97 * b + 815) 100 ltac:(lia)) as Hdm.
  pose proof (Z.mod_pos_bound (97 * b + 815) 100 ltac:(lia)) as Hm.
  fold q in Hdm.
  set (m := ((97 * b + 815) mod 100)%Z) in *.
  assert (HR : 97 * IZR b + 815 = 100 * IZR q + IZR m).
  { apply (f_equal IZR) in Hdm.
    rewrite !plus_IZR, !mult_IZR in Hdm.
    change (IZR 97) with 97 in Hdm. change (IZR 815) with 815 in Hdm.
    change (IZR 100) with 100 in Hdm. exact Hdm. }
  assert (Hm0 : 0 <= IZR m) by (apply (IZR_le 0); lia).
  assert (Hm1 : IZR m <= 99) by (apply (IZR_le m 99); lia).
  rewrite (Int_part_eq _ q) by lra.
  unfold clamp_byte. rewrite Z.min_r, Z.max_r by lia. reflexivity.
Qed.

Lemma stamp_canvas_1x1 (b : Z) :
  is_byte b ->
  Script._stamp Script.alpha_byte dodge_brush (Script.mkCanvas 1 [b]) 0.5 0.5 1
  = Script.mkCanvas 1 [((97 * b + 815) / 100)%Z].
Proof.
  intros Hb. unfold Script._stamp.
  cbn [Script.mc_width Script.mc_alpha List.length seq combine map fst snd].
  unfold Script.pixel_centre.
  change (0 mod 1)%nat with 0%nat. change (0 / 1)%nat with 0%nat.
  change (INR 0) with 0. cbn [fst snd].
  rewrite stamp_alpha_inner.
  - rewrite globalAlpha_dodge by (cbn; try reflexivity; lra).
    change (Script.brushFlow dodge_brush) with 0.03.
    change (Script.activeTool dodge_brush) with Script.Dodge.
    now rewrite alpha_byte_flow.
  - lra.
  - replace ((0 + 0.5 - 0.5) * (0 + 0.5 - 0.5) + (0 + 0.5 - 0.5) * (0 + 0.5 - 0.5))
      with 0 by lra.
    rewrite sqrt_0. pose proof (tInner_range dodge_brush). lra.
Qed.

Lemma stamps_canvas_1x1 (n : nat) :
  forall b, is_byte b ->
  Nat.iter n (fun c => Script._stamp Script.alpha_byte dodge_brush c 0.5 0.5 1)
    (Script.mkCanvas 1 [b])
  = Script.mkCanvas 1 [Nat.iter n (fun z => ((97 * z + 815) / 100)%Z) b]
  /\ is_byte (Nat.iter n (fun z => ((97 * z + 815) / 100)%Z) b).
Proof.
  induction n as [| n IH]; intros b Hb; [split; [reflexivity | exact Hb] |].
  destruct (IH b Hb) as [E Hn].
  change (Nat.iter (S n)
            (fun c => Script._stamp Script.alpha_byte dodge_brush c 0.5 0.5 1)
            (Script.mkCanvas 1 [b]))
    with (Script._stamp Script.alpha_byte dodge_brush
            (Nat.iter n
               (fun c => Script._stamp Script.alpha_byte dodge_brush c 0.5 0.5 1)
               (Script.mkCanvas 1 [b])) 0.5 0.5 1).
  rewrite E, stamp_canvas_1x1 by exact Hn.
  split; [reflexivity |].
  change (Nat.iter (S n) (fun z => ((97 * z + 815) / 100)%Z) b)
    with ((97 * Nat.iter n (fun z => ((97 * z + 815) / 100)%Z) b + 815) / 100)%Z.
  set (z := Nat.iter n (fun z => ((97 * z + 815) / 100)%Z) b) in *.
  destruct Hn as [Hz0 Hz1]. split.
  - apply Z.div_pos; lia.
  - assert (H : ((97 * z + 815) / 100 < 256)%Z)
      by (apply Z.div_lt_upper_bound; lia).
    lia.
Qed.

(** C8, counterexample.  On a canvas that rounds to the nearest byte,
    the dodge brush of script.js (flow 0.03) stamped again and again on
    the same pixel of a blank mask: after 86 stamps the byte is 239, and
    every further stamp leaves it at 239.  The mask value stays at
    239/255, under 0.94: the stamps do not converge toward 1.0. *)
Lemma dodge_stamps_stop_short_of_one :
  Nat.iter 86
    (fun c => Script._stamp Script.alpha_byte dodge_brush c 0.5 0.5 1)
    canvas_1x1
  = Script.mkCanvas 1 [239%Z]
  /\ Script._stamp Script.alpha_byte dodge_brush (Script.mkCanvas 1 [239%Z])
       0.5 0.5 1
     = Script.mkCanvas 1 [239%Z]
  /\ Script.updateMaskData (Script.mkCanvas 1 [239%Z]) = [239 / 255]
  /\ 239 / 255 < 0.94.
Proof.
  split; [| split; [| split]].
  - unfold canvas_1x1.
    rewrite (proj1 (stamps_canvas_1x1 86 0%Z ltac:(unfold is_byte; lia))).
    reflexivity.
  - rewrite stamp_canvas_1x1 by (unfold is_byte; lia). reflexivity.
  - reflexivity.
  - lra.
Qed.

Lemma canvas_1x1_bytes : Forall is_byte (Script.mc_alpha canvas_1x1).
Proof. repeat constructor; unfold is_byte; lia. Qed.

Lemma mask_stays_in_unit_interval_witness :
  byte_store Script.alpha_byte
  /\ (nth 0 (Script.mc_alpha
               (Script._stamp Script.alpha_byte dodge_brush canvas_1x1
                  0.5 0.5 1)) 0
      <= nth 0 (Script.mc_alpha
                  (Nat.iter 2
                     (fun c => Script._stamp Script.alpha_byte dodge_brush c
                                 0.5 0.5 1)
                     canvas_1x1)) 0)%Z
  /\ nth 0 (Script.mc_alpha
              (Script._stamp Script.alpha_byte erase_brush
                 (Script._stamp Script.alpha_byte dodge_brush canvas_1x1
                    0.5 0.5 1)
                 0.5 0.5 1)) 0%Z
     = 0%Z.
Proof.
  destruct (mask_stays_in_unit_interval Script.alpha_byte alpha_byte_store)
    as (Hops & Hdodge & Herase & Hinner & _).
  split; [exact alpha_byte_store |]. split.
  - apply (Hdodge dodge_brush canvas_1x1 0.5 0.5 1 0%nat eq_refl
             canvas_1x1_bytes ltac:(cbn; lia) 1%nat).
  - destruct (Hops canvas_1x1 [Script.OpStamp dodge_brush 0.5 0.5 1]
                (Script._stamp Script.alpha_byte dodge_brush canvas_1x1
                   0.5 0.5 1) canvas_1x1_bytes eq_refl) as (Hb & _).
    assert (Hs1 : Script.stamp_alpha erase_brush 0.5 0.5 1 (0 + 0.5) (0 + 0.5)
                  = 1).
    { destruct (Hinner erase_brush 0.5 0.5 1 (0 + 0.5) (0 + 0.5))
        as (Ha & He & _).
      - lra.
      - replace ((0 + 0.5 - 0.5) * (0 + 0.5 - 0.5)
                 + (0 + 0.5 - 0.5) * (0 + 0.5 - 0.5)) with 0 by lra.
        rewrite sqrt_0. pose proof (tInner_range erase_brush). lra.
      - rewrite Ha. now apply He. }
    apply (Herase erase_brush
             (Script._stamp Script.alpha_byte dodge_brush canvas_1x1 0.5 0.5 1)
             0.5 0.5 1 0%nat eq_refl Hb ltac:(cbn; lia) 1%nat);
      [exact Hs1 | lia].
Defined.
(* ================================================================== *)
(** ** The shader and the scalar loop on the same project *)
(* ================================================================== *)

(** *** The two look-ups of the sigmoid *)

(** The logistic function does not decrease, and rises by no more than
    its argument does. *)
Lemma logistic_lipschitz (a b : R) :
  a <= b ->
  0 <= 1 / (1 + exp (- b)) - 1 / (1 + exp (- a)) <= b - a.
Proof.
  intros Hab.
  pose proof (exp_pos (- a)) as Hu. pose proof (exp_pos (- b)) as Hv.
  assert (Hvu : exp (- b) <= exp (- a)) by (apply exp_mono_le; lra).
  assert (Hd : exp (- a) - exp (- b) <= exp (- a) * (b - a)).
  { replace (- b) with (- a + - (b - a)) by lra. rewrite exp_plus.
    pose proof (exp_ineq1_le (- (b - a))) as H1.
    pose proof (exp_pos (- (b - a))) as H2. nra. }
  replace (1 / (1 + exp (- b)) - 1 / (1 + exp (- a)))
    with ((exp (- a) - exp (- b)) / ((1 + exp (- a)) * (1 + exp (- b))))
    by (field; lra).
  assert (Hden : 0 < (1 + exp (- a)) * (1 + exp (- b))) by nra.
  split.
  - apply Rmult_le_pos; [lra | left; now apply Rinv_0_lt_compat].
  - apply Rmult_le_reg_r with ((1 + exp (- a)) * (1 + exp (- b)));
      [assumption |].
    rewrite div_mul_cancel by lra. nra.
Qed.

Lemma buildSigmoidLUT_length (N : nat) :
  List.length (lut (buildSigmoidLUT N)) = N.
Proof. unfold buildSigmoidLUT. cbn [lut]. now rewrite length_map, length_seq. Qed.

Lemma buildSigmoidLUT_nth_error (N i : nat) :
  (i < N)%nat ->
  nth_error (lut (buildSigmoidLUT N)) i
  = Some (1 / (1 + exp (- (-12 + INR i * ((12 - -12) / (INR N - 1)))))).
Proof.
  intros Hi. unfold buildSigmoidLUT. cbn [lut].
  rewrite nth_error_map, nth_error_seq.
  apply Nat.ltb_lt in Hi. rewrite Hi. reflexivity.
Qed.

(** Where an argument of the table's domain falls: between the nodes
    [i] and [i + 1], with [i] the integer part of its index. *)
Lemma table_index (N : nat) (x : R) :
  (2 <= N)%nat -> -12 < x < 12 ->
  let step := (12 - -12) / (INR N - 1) in
  let i := Int_part ((x - -12) / step) in
  0 < step
  /\ (0 <= i < Z.of_nat N - 1)%Z
  /\ -12 + IZR i * step <= x < -12 + (IZR i + 1) * step.
Proof.
  intros HN Hx step i.
  assert (HNR : 2 <= INR N) by (change 2 with (INR 2); now apply le_INR).
  assert (Hstep : 0 < step).
  { apply Rmult_lt_0_compat; [lra | apply Rinv_0_lt_compat; lra]. }
  assert (Hq : (x - -12) / step * step = x - -12)
    by (apply div_mul_cancel; lra).
  pose proof (Int_part_bounds ((x - -12) / step)) as Hb. fold i in Hb.
  assert (Hq0 : 0 <= (x - -12) / step).
  { apply Rmult_le_pos; [lra | left; now apply Rinv_0_lt_compat]. }
  assert (Hq1 : (x - -12) / step < INR N - 1).
  { apply Rmult_lt_reg_r with step; [assumption |]. rewrite Hq.
    unfold step. rewrite Rmult_comm, div_mul_cancel by lra. lra. }
  split; [assumption |]. split.
  - split.
    + now apply Int_part_nonneg.
    + apply lt_IZR. rewrite minus_IZR, <- INR_IZR_INZ. lra.
  - nra.
Qed.

(** The scalar loop's look-up inside the table: the sample of the node
    at or under the argument, at most one step's rise under the
    logistic value. *)
Lemma sigmoid_table_error (N : nat) (x : R) :
  (2 <= N)%nat -> (Z.of_nat N < 2 ^ 31)%Z -> -12 < x < 12 ->
  exists s,
    Script.sigmoid (buildSigmoidLUT N) (Fin x) = Fin s
    /\ 1 / (1 + exp (- x)) - (12 - -12) / (INR N - 1) <= s
       <= 1 / (1 + exp (- x)).
Proof.
  intros HN H31 Hx.
  destruct (table_index N x HN Hx) as (Hstep & Hi & Hnode).
  set (step := (12 - -12) / (INR N - 1)) in *.
  set (i := Int_part ((x - -12) / step)) in *.
  unfold Script.sigmoid, nge.
  change (lut_lo (buildSigmoidLUT N)) with (-12).
  change (lut_hi (buildSigmoidLUT N)) with 12.
  change (lut_step (buildSigmoidLUT N)) with step.
  cbn [nle]. rdec. rewrite nsub_FF, ndiv_FF by lra.
  assert (Hq0 : 0 <= (x - -12) / step).
  { apply Rmult_le_pos; [lra | left; now apply Rinv_0_lt_compat]. }
  cbn [ToInt32]. rewrite Rtrunc_nonneg by assumption. fold i.
  rewrite wrap32_small by lia.
  unfold array_get. replace (i <? 0)%Z with false by lia.
  rewrite buildSigmoidLUT_nth_error by lia.
  fold step. rewrite INR_IZR_INZ, Z2Nat.id by lia.
  eexists. split; [reflexivity |].
  pose proof (logistic_lipschitz (-12 + IZR i * step) x ltac:(lra)).
  lra.
Qed.

(** A byte of the table texture is the sample, to half a level. *)
Lemma lut_byte_error (N i : nat) :
  (i < N)%nat ->
  (0 <= nth i (Darkroom.lut_bytes (buildSigmoidLUT N)) 0%Z <= 255)%Z
  /\ - (1 / 510)
     <= IZR (nth i (Darkroom.lut_bytes (buildSigmoidLUT N)) 0%Z) / 255
        - 1 / (1 + exp (- (-12 + INR i * ((12 - -12) / (INR N - 1)))))
     <= 1 / 510.
Proof.
  intros Hi. rewrite lut_bytes_nth by assumption.
  set (s := 1 / (1 + exp (- (-12 + INR i * ((12 - -12) / (INR N - 1)))))).
  assert (Hs : 0 < s < 1).
  { unfold s. pose proof (exp_pos (- (-12 + INR i * ((12 - -12) / (INR N - 1))))) as He.
    split.
    - apply Rmult_lt_0_compat; [lra | apply Rinv_0_lt_compat; lra].
    - apply Rmult_lt_reg_r with (1 + exp (- (-12 + INR i * ((12 - -12) / (INR N - 1)))));
        [lra |].
      rewrite div_mul_cancel by lra. lra. }
  unfold Rround.
  pose proof (Int_part_bounds (s * 255 + / 2)) as Hb.
  set (z := Int_part (s * 255 + / 2)) in *.
  assert (Hz : (0 <= z <= 255)%Z).
  { split.
    - apply Int_part_nonneg. lra.
    - apply Z.lt_succ_r, lt_IZR. rewrite succ_IZR. lra. }
  rewrite Z.mod_small by lia. split; [assumption | lra].
Qed.

(** A texel of the table texture inside the table. *)
Lemma texel_error (N : nat) (i : Z) :
  (0 <= i < Z.of_nat N)%Z ->
  - (1 / 510)
  <= Darkroom.texel (Darkroom.lut_bytes (buildSigmoidLUT N)) i
     - 1 / (1 + exp (- (-12 + IZR i * ((12 - -12) / (INR N - 1)))))
  <= 1 / 510.
Proof.
  intros Hi. unfold Darkroom.texel. rewrite lut_bytes_length.
  replace (Z.max 0 (Z.min (Z.of_nat N - 1) i)) with i by lia.
  destruct (lut_byte_error N (Z.to_nat i) ltac:(lia)) as [_ H].
  rewrite INR_IZR_INZ, Z2Nat.id in H by lia. exact H.
Qed.

(** The shader's look-up inside the table: a blend of the two texels
    around the argument, within a step's rise and half a level of the
    logistic value. *)
Lemma fetchSigmoid_table_error (N : nat) (x : R) :
  (2 <= N)%nat -> -12 < x < 12 ->
  exists s,
    Darkroom.fetchSigmoid (Fin (lut_lo (buildSigmoidLUT N)))
      (Fin (lut_step (buildSigmoidLUT N)))
      (Fin (INR (List.length (lut (buildSigmoidLUT N))) - 1))
      (Darkroom.lut_bytes (buildSigmoidLUT N)) (Fin x)
    = Fin s
    /\ 0 <= s <= 1
    /\ 1 / (1 + exp (- x)) - (12 - -12) / (INR N - 1) - 1 / 510 <= s
       <= 1 / (1 + exp (- x)) + (12 - -12) / (INR N - 1) + 1 / 510.
Proof.
  intros HN Hx.
  assert (HNR : 2 <= INR N) by (change 2 with (INR 2); now apply le_INR).
  destruct (table_index N x HN Hx) as (Hstep & Hi & Hnode).
  rewrite buildSigmoidLUT_length.
  unfold Darkroom.fetchSigmoid, Darkroom.glsl_clamp.
  change (lut_lo (buildSigmoidLUT N)) with (-12).
  change (lut_step (buildSigmoidLUT N)) with ((12 - -12) / (INR N - 1)).
  set (step := (12 - -12) / (INR N - 1)) in *.
  set (i := Int_part ((x - -12) / step)) in *.
  rewrite nsub_FF, ndiv_FF by lra.
  rewrite glsl_max_FF, glsl_min_FF.
  pose proof (Int_part_bounds ((x - -12) / step)) as Hb. fold i in Hb.
  assert (Hq0 : 0 <= (x - -12) / step).
  { apply Rmult_le_pos; [lra | left; now apply Rinv_0_lt_compat]. }
  assert (Hq1 : (x - -12) / step < INR N - 1).
  { apply Rmult_lt_reg_r with step; [assumption |].
    rewrite div_mul_cancel by lra.
    unfold step. rewrite Rmult_comm, div_mul_cancel by lra. lra. }
  rewrite Rmax_left, Rmin_left by lra.
  rewrite !nadd_FF, ndiv_FF by lra.
  unfold Darkroom.texture_lut. rewrite lut_bytes_length.
  replace (((x - -12) / step + 0.5) / (INR N - 1 + 1) * INR N - / 2)
    with ((x - -12) / step)
    by (replace (INR N - 1 + 1) with (INR N) by lra;
        rewrite div_mul_cancel by lra; lra).
  fold i. eexists. split; [reflexivity |].
  pose proof (texel_error N i ltac:(lia)) as H0.
  pose proof (texel_error N (i + 1) ltac:(lia)) as H1.
  fold step in H0, H1. rewrite plus_IZR in H1.
  pose proof (texel_range _ i (lut_bytes_range (buildSigmoidLUT N))) as R0.
  pose proof (texel_range _ (i + 1)%Z (lut_bytes_range (buildSigmoidLUT N)))
    as R1.
  set (t0 := Darkroom.texel (Darkroom.lut_bytes (buildSigmoidLUT N)) i) in *.
  set (t1 := Darkroom.texel (Darkroom.lut_bytes (buildSigmoidLUT N)) (i + 1)) in *.
  pose proof (logistic_lipschitz (-12 + IZR i * step) x ltac:(lra)) as L0.
  pose proof (logistic_lipschitz x (-12 + (IZR i + 1) * step) ltac:(lra)) as L1.
  set (s0 := 1 / (1 + exp (- (-12 + IZR i * step)))) in *.
  set (s1 := 1 / (1 + exp (- (-12 + (IZR i + 1) * step)))) in *.
  set (sx := 1 / (1 + exp (- x))) in *.
  set (w := (x - -12) / step - IZR i) in *.
  assert (Hw : 0 <= w < 1) by (unfold w; lra).
  assert (Hstep1 : s1 - s0 <= step).
  { pose proof (logistic_lipschitz (-12 + IZR i * step)
                  (-12 + (IZR i + 1) * step) ltac:(lra)) as L.
    fold s0 s1 in L. lra. }
  assert (Hlow : s0 - 1 / 510 <= (1 - w) * t0 + w * t1).
  { assert (0 <= (1 - w) * (t0 - (s0 - 1 / 510))) by (apply Rmult_le_pos; lra).
    assert (0 <= w * (t1 - (s0 - 1 / 510))) by (apply Rmult_le_pos; lra).
    lra. }
  assert (Hhigh : (1 - w) * t0 + w * t1 <= s1 + 1 / 510).
  { assert (0 <= (1 - w) * (s1 + 1 / 510 - t0)) by (apply Rmult_le_pos; lra).
    assert (0 <= w * (s1 + 1 / 510 - t1)) by (apply Rmult_le_pos; lra).
    lra. }
  split; [| lra].
  assert (0 <= (1 - w) * t0) by (apply Rmult_le_pos; lra).
  assert (0 <= w * t1) by (apply Rmult_le_pos; lra).
  assert (0 <= (1 - w) * (1 - t0)) by (apply Rmult_le_pos; lra).
  assert (0 <= w * (1 - t1)) by (apply Rmult_le_pos; lra).
  lra.
Qed.

(** The two look-ups of one argument differ by at most a step of each
    table and half a level of the texture. *)
Lemma lut_lookups_agree (Nc Ng : nat) (x : R) :
  (2 <= Nc)%nat -> (Z.of_nat Nc < 2 ^ 31)%Z -> (2 <= Ng)%nat ->
  exists sc sg,
    Script.sigmoid (buildSigmoidLUT Nc) (Fin x) = Fin sc
    /\ Darkroom.fetchSigmoid (Fin (lut_lo (buildSigmoidLUT Ng)))
         (Fin (lut_step (buildSigmoidLUT Ng)))
         (Fin (INR (List.length (lut (buildSigmoidLUT Ng))) - 1))
         (Darkroom.lut_bytes (buildSigmoidLUT Ng)) (Fin x)
       = Fin sg
    /\ 0 <= sc <= 1 /\ 0 <= sg <= 1
    /\ Rabs (sc - sg)
       <= (12 - -12) / (INR Nc - 1) + (12 - -12) / (INR Ng - 1) + 1 / 510.
Proof.
  intros HNc H31 HNg.
  assert (HNcR : 2 <= INR Nc) by (change 2 with (INR 2); now apply le_INR).
  assert (HNgR : 2 <= INR Ng) by (change 2 with (INR 2); now apply le_INR).
  assert (Hc : 0 < (12 - -12) / (INR Nc - 1)).
  { apply Rmult_lt_0_compat; [lra | apply Rinv_0_lt_compat; lra]. }
  assert (Hg : 0 < (12 - -12) / (INR Ng - 1)).
  { apply Rmult_lt_0_compat; [lra | apply Rinv_0_lt_compat; lra]. }
  destruct (Rle_dec x (-12)) as [Hlo | Hlo].
  - exists 0, 0. rewrite sigmoid_below by exact Hlo.
    rewrite fetchSigmoid_below by assumption.
    repeat split; try lra. rewrite Rminus_diag, Rabs_R0. lra.
  - destruct (Rle_dec 12 x) as [Hhi | Hhi].
    + exists 1, 1.
      rewrite sigmoid_above
        by (change (lut_lo (buildSigmoidLUT Nc)) with (-12);
            change (lut_hi (buildSigmoidLUT Nc)) with 12; lra).
      rewrite fetchSigmoid_above by assumption.
      repeat split; try lra. rewrite Rminus_diag, Rabs_R0. lra.
    + destruct (sigmoid_table_error Nc x HNc H31 ltac:(lra)) as (sc & Ec & Hsc).
      destruct (fetchSigmoid_table_error Ng x HNg ltac:(lra))
        as (sg & Eg & Hrg & Hsg).
      exists sc, sg. split; [exact Ec |]. split; [exact Eg |].
      destruct (sigmoid_range (buildSigmoidLUT Nc) (Fin x)
                  (buildSigmoidLUT_valid Nc HNc H31)) as (sc' & Ec' & Hr).
      rewrite Ec in Ec'. injection Ec' as <-.
      split; [exact Hr |]. split; [exact Hrg |].
      apply Rabs_le. lra.
Qed.

(** *** The argument of the sigmoid *)

Lemma logTrans_of_texel (b : R) :
  Darkroom.log10_ (Darkroom.glsl_max (Fin 1e-6) (Fin (b / 255)))
  = Fin (Script.logTrans_of b).
Proof.
  rewrite glsl_max_FF. unfold Script.logTrans_of.
  change (Darkroom.log10_ (Fin (Rmax 1e-6 (b / 255))))
    with (Math_log10 (Fin (Rmax 1e-6 (b / 255)))).
  assert (Hpos : 0 < Rmax 1e-6 (b / 255)).
  { apply Rlt_le_trans with 1e-6; [lra | apply Rmax_l]. }
  rewrite Math_log10_pos by assumption. f_equal.
  replace (b * (1 / 255)) with (b / 255) by lra.
  unfold LOG10E, LN10, Rdiv at 1. f_equal. f_equal.
  rcases.
  - rewrite Rmax_right; lra.
  - rewrite Rmax_left; lra.
Qed.

(** The excess of one exposure in the scalar loop, for a finite dodge
    value [v] (0 without mask). *)
Lemma Dexcess_of_value (dmin span k e0 lt l v : R) (L : SigmoidLUT) (j : nat)
  (mk : option (list R)) :
  match mk with
  | Some a => array_get a (Z.of_nat j)
  | None => Fin 0
  end = Fin v ->
  Script.Dexcess_of (Fin dmin) (Fin span) L (Fin l) j
    (Script.mkPre k (Fin e0) (Fin lt) mk)
  = (Fin dmin
     + Fin span
       * Script.sigmoid L
           (Fin (k * (lt + l
                      + (if Rltb 0 v then ln (Rmax 1e-6 (1 - v)) * LOG10E else 0)
                      - e0)))
     - Fin dmin)%num.
Proof.
  intros Hm. unfold Script.Dexcess_of.
  cbn [Script.pre_mask Script.pre_logTime Script.pre_E0 Script.pre_k].
  rewrite Hm. unfold ngt. cbn [nlt].
  destruct (Rltb 0 v) eqn:Hv.
  - apply Rltb_true in Hv. rewrite nsub_FF, Math_max_FF. cbn [neq].
    assert (Hpos : 0 < Rmax 1e-6 (1 - v)).
    { apply Rlt_le_trans with 1e-6; [lra | apply Rmax_l]. }
    assert (Hlt1 : Rmax 1e-6 (1 - v) < 1) by (apply Rmax_lub_lt; lra).
    replace (Reqb (Rmax 1e-6 (1 - v)) 1) with false
      by (symmetry; apply Reqb_false; lra).
    unfold Math_log. apply Rltb_true in Hpos. rewrite Hpos.
    now rewrite nmul_FF, !nadd_FF, nsub_FF, nmul_FF.
  - cbn [neq]. rdec.
    now rewrite !nadd_FF, nsub_FF, nmul_FF.
Qed.

(** The same in the shader, for the alpha [v] of the mask texture. *)
Lemma slot_extra_value (dmin dmax lt k e0 l v : R) (fetch : num -> num)
  (hasMask : Z) :
  (hasMask = 1%Z \/ (hasMask = 0%Z /\ v = 0)) ->
  Darkroom.slot_extra (Fin dmin) (Fin dmax) fetch (Fin l) hasMask
    (Fin lt) (Fin k) (Fin e0) (Fin v)
  = (Fin dmin
     + Fin (dmax - dmin)
       * fetch
           (Fin (k * (lt + l
                      + (if Rltb 0 v then ln (Rmax 1e-6 (1 - v)) / LN10 else 0)
                      - e0)))
     - Fin dmin)%num.
Proof.
  intros Hh. unfold Darkroom.slot_extra. rewrite nsub_FF.
  assert (E : (if (hasMask =? 1)%Z then (Fin 1 - Fin v)%num else Fin 1)
              = Fin (1 - v)).
  { destruct Hh as [-> | [-> ->]]; cbn [Z.eqb Pos.eqb]; rewrite ?nsub_FF;
      f_equal; lra. }
  rewrite E. cbn [nlt].
  destruct (Rltb 0 v) eqn:Hv.
  - apply Rltb_true in Hv.
    replace (Rltb (1 - v) 1) with true by (symmetry; apply Rltb_true; lra).
    rewrite glsl_max_FF.
    change (Darkroom.log10_ (Fin (Rmax 1e-6 (1 - v))))
      with (Math_log10 (Fin (Rmax 1e-6 (1 - v)))).
    assert (Hpos : 0 < Rmax 1e-6 (1 - v)).
    { apply Rlt_le_trans with 1e-6; [lra | apply Rmax_l]. }
    rewrite Math_log10_pos by assumption.
    now rewrite !nadd_FF, nsub_FF, nmul_FF.
  - apply Rltb_false in Hv.
    replace (Rltb (1 - v) 1) with false by (symmetry; apply Rltb_false; lra).
    rewrite !nadd_FF, nsub_FF, nmul_FF.
    do 4 f_equal. f_equal. f_equal. lra.
Qed.

Lemma exposure_alpha_Fin (ed : Darkroom.Exposure) (j : nat) :
  exists v,
    Darkroom.exposure_alpha ed j = Fin v
    /\ (Darkroom.maskData ed = None -> v = 0).
Proof.
  unfold Darkroom.exposure_alpha.
  destruct (Darkroom.maskData ed) as [md |].
  - destruct (_ || _)%bool; eexists; (split; [reflexivity | discriminate]).
  - exists 0. now split.
Qed.

(** *** The two look-ups of different arguments *)

Lemma Rabs_le_bounds (a b : R) : Rabs a <= b -> - b <= a <= b.
Proof. unfold Rabs. destruct (Rcase_abs a); lra. Qed.

(** The logistic function lies in (0, 1); at and under -12 it is under
    1/4096, at and over 12 it is over 1 - 1/4096. *)
Lemma logistic_tails (x : R) :
  0 < 1 / (1 + exp (- x)) < 1
  /\ (x <= -12 -> 1 / (1 + exp (- x)) <= / 4096)
  /\ (12 <= x -> 1 - / 4096 <= 1 / (1 + exp (- x))).
Proof.
  pose proof (exp_pos (- x)) as He.
  destruct exp_m12_small as [He0 He1].
  split; [split |].
  - apply Rmult_lt_0_compat; [lra | apply Rinv_0_lt_compat; lra].
  - apply Rmult_lt_reg_r with (1 + exp (- x)); [lra |].
    rewrite div_mul_cancel by lra. lra.
  - split; intros Hx.
    + pose proof (logistic_lipschitz x (-12) Hx) as [Hm _].
      assert (H : 1 / (1 + exp (- -12)) <= / 4096); [| lra].
      replace (- -12) with 12 by lra.
      assert (H12 : exp 12 * exp (-12) = 1).
      { rewrite <- exp_plus. replace (12 + -12) with 0 by lra. apply exp_0. }
      pose proof (exp_pos 12) as Hp.
      assert (H4096 : 4096 <= exp 12) by nra.
      apply Rmult_le_reg_r with (1 + exp 12); [lra |].
      rewrite div_mul_cancel by lra. lra.
    + pose proof (logistic_lipschitz 12 x Hx) as [Hm _].
      assert (H : 1 - / 4096 <= 1 / (1 + exp (- (12)))); [| lra].
      replace (- (12)) with (-12) by lra.
      apply Rmult_le_reg_r with (1 + exp (-12)); [lra |].
      rewrite div_mul_cancel by lra. lra.
Qed.

(** The scalar loop's look-up, for every argument: within a step of its
    table under the logistic value inside the table, within 1/4096 of
    it beyond the ends. *)
Lemma sigmoid_near_logistic (N : nat) (x : R) :
  (2 <= N)%nat -> (Z.of_nat N < 2 ^ 31)%Z ->
  exists s,
    Script.sigmoid (buildSigmoidLUT N) (Fin x) = Fin s
    /\ 0 <= s <= 1
    /\ 1 / (1 + exp (- x)) - (12 - -12) / (INR N - 1) - / 4096 <= s
       <= 1 / (1 + exp (- x)) + / 4096.
Proof.
  intros HN H31.
  assert (HNR : 2 <= INR N) by (change 2 with (INR 2); now apply le_INR).
  assert (Hstep : 0 < (12 - -12) / (INR N - 1)).
  { apply Rmult_lt_0_compat; [lra | apply Rinv_0_lt_compat; lra]. }
  destruct (logistic_tails x) as (Hl & Hlo' & Hhi').
  destruct (Rle_dec x (-12)) as [Hlo | Hlo].
  - exists 0. rewrite sigmoid_below by exact Hlo.
    specialize (Hlo' Hlo). repeat split; lra.
  - destruct (Rle_dec 12 x) as [Hhi | Hhi].
    + exists 1.
      rewrite sigmoid_above
        by (change (lut_lo (buildSigmoidLUT N)) with (-12);
            change (lut_hi (buildSigmoidLUT N)) with 12; lra).
      specialize (Hhi' Hhi). repeat split; lra.
    + destruct (sigmoid_table_error N x HN H31 ltac:(lra)) as (s & Es & Hs).
      exists s. split; [exact Es |].
      destruct (sigmoid_range (buildSigmoidLUT N) (Fin x)
                  (buildSigmoidLUT_valid N HN H31)) as (s' & Es' & Hr).
      rewrite Es in Es'. injection Es' as <-.
      split; [exact Hr | lra].
Qed.

(** The shader's look-up, for every argument: within a step of its
    table and half a level of the texture of the logistic value. *)
Lemma fetchSigmoid_near_logistic (N : nat) (x : R) :
  (2 <= N)%nat ->
  exists s,
    Darkroom.fetchSigmoid (Fin (lut_lo (buildSigmoidLUT N)))
      (Fin (lut_step (buildSigmoidLUT N)))
      (Fin (INR (List.length (lut (buildSigmoidLUT N))) - 1))
      (Darkroom.lut_bytes (buildSigmoidLUT N)) (Fin x)
    = Fin s
    /\ 0 <= s <= 1
    /\ 1 / (1 + exp (- x)) - (12 - -12) / (INR N - 1) - 1 / 510 <= s
       <= 1 / (1 + exp (- x)) + (12 - -12) / (INR N - 1) + 1 / 510.
Proof.
  intros HN.
  assert (HNR : 2 <= INR N) by (change 2 with (INR 2); now apply le_INR).
  assert (Hstep : 0 < (12 - -12) / (INR N - 1)).
  { apply Rmult_lt_0_compat; [lra | apply Rinv_0_lt_compat; lra]. }
  destruct (logistic_tails x) as (Hl & Hlo' & Hhi').
  destruct (Rle_dec x (-12)) as [Hlo | Hlo].
  - exists 0. rewrite fetchSigmoid_below by assumption.
    specialize (Hlo' Hlo). repeat split; lra.
  - destruct (Rle_dec 12 x) as [Hhi | Hhi].
    + exists 1. rewrite fetchSigmoid_above by assumption.
      specialize (Hhi' Hhi). repeat split; lra.
    + apply fetchSigmoid_table_error; [assumption | lra].
Qed.

(** The two look-ups of two arguments differ by no more than the
    arguments do, a step of each table, half a level of the texture and
    1/4096; of one argument, by a step of each table and half a
    level. *)
Lemma lut_lookups_near (Nc Ng : nat) (x y : R) :
  (2 <= Nc)%nat -> (Z.of_nat Nc < 2 ^ 31)%Z -> (2 <= Ng)%nat ->
  exists sc sg,
    Script.sigmoid (buildSigmoidLUT Nc) (Fin x) = Fin sc
    /\ Darkroom.fetchSigmoid (Fin (lut_lo (buildSigmoidLUT Ng)))
         (Fin (lut_step (buildSigmoidLUT Ng)))
         (Fin (INR (List.length (lut (buildSigmoidLUT Ng))) - 1))
         (Darkroom.lut_bytes (buildSigmoidLUT Ng)) (Fin y)
       = Fin sg
    /\ 0 <= sc <= 1 /\ 0 <= sg <= 1
    /\ Rabs (sc - sg)
       <= (12 - -12) / (INR Nc - 1) + (12 - -12) / (INR Ng - 1) + 1 / 510
          + / 4096 + Rabs (x - y)
    /\ (x = y ->
        Rabs (sc - sg)
        <= (12 - -12) / (INR Nc - 1) + (12 - -12) / (INR Ng - 1) + 1 / 510).
Proof.
  intros HNc H31 HNg.
  assert (HNcR : 2 <= INR Nc) by (change 2 with (INR 2); now apply le_INR).
  assert (HNgR : 2 <= INR Ng) by (change 2 with (INR 2); now apply le_INR).
  assert (Hc : 0 < (12 - -12) / (INR Nc - 1)).
  { apply Rmult_lt_0_compat; [lra | apply Rinv_0_lt_compat; lra]. }
  assert (Hg : 0 < (12 - -12) / (INR Ng - 1)).
  { apply Rmult_lt_0_compat; [lra | apply Rinv_0_lt_compat; lra]. }
  destruct (sigmoid_near_logistic Nc x HNc H31) as (sc & Ec & Hrc & Hsc).
  destruct (fetchSigmoid_near_logistic Ng y HNg) as (sg & Eg & Hrg & Hsg).
  exists sc, sg. split; [exact Ec |]. split; [exact Eg |].
  split; [exact Hrc |]. split; [exact Hrg |]. split.
  - assert (Hl : Rabs (1 / (1 + exp (- x)) - 1 / (1 + exp (- y)))
                 <= Rabs (x - y)).
    { destruct (Rle_dec x y) as [Hxy | Hxy].
      - pose proof (logistic_lipschitz x y Hxy) as H.
        rewrite (Rabs_left1 (x - y)) by lra. apply Rabs_le. lra.
      - pose proof (logistic_lipschitz y x ltac:(lra)) as H.
        rewrite (Rabs_right (x - y)) by lra. apply Rabs_le. lra. }
    apply Rabs_le_bounds in Hl. apply Rabs_le. lra.
  - intros <-.
    destruct (lut_lookups_agree Nc Ng x HNc H31 HNg)
      as (sc' & sg' & Ec' & Eg' & _ & _ & Hd).
    rewrite Ec in Ec'. rewrite Eg in Eg'.
    injection Ec' as <-. injection Eg' as <-. exact Hd.
Qed.

(** *** One exposure in the two programs *)

Lemma gradeParam_In (paper : Paper) (grade : Z) (p : GradeParam) :
  gradeParam paper grade = Some p -> In p (gradeParams paper).
Proof.
  unfold gradeParam. destruct (grade <? 0)%Z; [discriminate |].
  apply nth_error_In.
Qed.

(** What one exposure adds in the scalar loop at a log-transmittance
    [lc] and in the shader at a log-transmittance [lg]: the two differ
    by no more than the span of the paper times the distance of the
    look-ups, which the slope of the grade times the distance of [lc]
    and [lg] bounds. *)
Lemma exposure_excess_near (paper : Paper) (Nc Ng : nat) (K : R) (j : nat)
  (es : Script.Exposure) (ed : Darkroom.Exposure) (lc lg : R) :
  valid_paper paper ->
  0 <= K -> Forall (fun p => gp_k p <= K) (gradeParams paper) ->
  (2 <= Nc)%nat -> (Z.of_nat Nc < 2 ^ 31)%Z -> (2 <= Ng)%nat ->
  same_exposure j es ed -> usable_time (Darkroom.time ed) ->
  (Script.precompute1 paper es = None
   <-> Darkroom.exposure_constants paper ed = None)
  /\ Rabs (Script.exposure_excess_R paper (buildSigmoidLUT Nc) (Fin lc) j es
           - Darkroom.exposure_extra_R paper (buildSigmoidLUT Ng) (Fin lg) j ed)
     <= (Dmax paper - Dmin paper)
        * ((12 - -12) / (INR Nc - 1) + (12 - -12) / (INR Ng - 1) + 1 / 510
           + / 4096 + K * Rabs (lc - lg))
  /\ (lc = lg ->
      Rabs (Script.exposure_excess_R paper (buildSigmoidLUT Nc) (Fin lc) j es
            - Darkroom.exposure_extra_R paper (buildSigmoidLUT Ng) (Fin lg) j
                ed)
      <= (Dmax paper - Dmin paper)
         * ((12 - -12) / (INR Nc - 1) + (12 - -12) / (INR Ng - 1) + 1 / 510)).
Proof.
  intros (HD0 & HD & Hbase & Hks) HK0 HK HNc H31 HNg (Ht & Hg & Hm)
    (t & Et & Htime).
  destruct (lut_lookups_agree Nc Ng 0 HNc H31 HNg)
    as (sc0 & sg0 & _ & _ & _ & _ & Hd0).
  assert (Hdelta : 0 <= (12 - -12) / (INR Nc - 1) + (12 - -12) / (INR Ng - 1)
                        + 1 / 510).
  { eapply Rle_trans; [apply Rabs_pos | exact Hd0]. }
  clear Hd0.
  pose proof (Rabs_pos (lc - lg)) as Hgap0.
  assert (HKgap : 0 <= K * Rabs (lc - lg)) by (apply Rmult_le_pos; lra).
  unfold Script.exposure_excess_R, Darkroom.exposure_extra_R,
         Script.precompute1, Darkroom.exposure_constants.
  rewrite Hg, Ht, Et.
  destruct (gradeParam paper (Darkroom.grade ed)) as [p |] eqn:Ep.
  2: { split; [tauto |]. rewrite Rminus_diag, Rabs_R0.
       split; [| intros _]; apply Rmult_le_pos; lra. }
  split; [split; discriminate |].
  apply gradeParam_In in Ep.
  rewrite Forall_forall in Hks, HK.
  pose proof (Hks p Ep) as Hk0. pose proof (HK p Ep) as HkK.
  cbv beta in Hk0, HkK.
  rewrite Math_max_FF, Rmax_right by lra.
  rewrite Math_log10_pos by lra.
  cbn [Math_pow2]. rewrite nmul_FF.
  assert (Hpow : 0 < baseExposure paper * exp (gp_speedShiftStops p * ln 2)).
  { apply Rmult_lt_0_compat; [assumption | apply exp_pos]. }
  rewrite Math_log10_pos by assumption.
  unfold Math_log.
  replace (Rltb 0 (baseExposure paper)) with true
    by (symmetry; now apply Rltb_true).
  replace (Rltb 0 t) with true by (symmetry; apply Rltb_true; lra).
  rewrite !nmul_FF, nadd_FF.
  destruct (exposure_alpha_Fin ed j) as (v & Ev & Hv0).
  assert (Hmask : match Script.mask es with
                  | Some a => array_get a (Z.of_nat j)
                  | None => Fin 0
                  end = Fin v
                  /\ (match Darkroom.maskData ed with
                      | Some _ => 1%Z
                      | None => 0%Z
                      end = 1%Z
                      \/ (match Darkroom.maskData ed with
                          | Some _ => 1%Z
                          | None => 0%Z
                          end = 0%Z /\ v = 0))).
  { destruct (Script.mask es) as [mk |], (Darkroom.maskData ed) as [md |];
      try contradiction.
    - split; [congruence | now left].
    - split; [now rewrite Hv0 | right; split; [reflexivity | now apply Hv0]]. }
  destruct Hmask as [Hmc Hmg].
  unfold Script.excess_R.
  rewrite (Dexcess_of_value _ _ _ _ _ _ v) by exact Hmc.
  rewrite Ev, (slot_extra_value _ _ _ _ _ _ v) by exact Hmg.
  set (a := ln t * LOG10E
            + (if Rltb 0 v then ln (Rmax 1e-6 (1 - v)) * LOG10E else 0)
            - (ln (baseExposure paper) * LOG10E
               + gp_speedShiftStops p * (LOG10E * LN2))).
  replace (gp_k p
           * (ln t * LOG10E + lc
              + (if Rltb 0 v then ln (Rmax 1e-6 (1 - v)) * LOG10E else 0)
              - (ln (baseExposure paper) * LOG10E
                 + gp_speedShiftStops p * (LOG10E * LN2))))
    with (gp_k p * (lc + a)) by (unfold a; lra).
  replace (gp_k p
           * (ln t / LN10 + lg
              + (if Rltb 0 v then ln (Rmax 1e-6 (1 - v)) / LN10 else 0)
              - ln (baseExposure paper * exp (gp_speedShiftStops p * ln 2))
                / LN10))
    with (gp_k p * (lg + a)).
  2: { unfold a. rewrite ln_mult, ln_exp by (try assumption; apply exp_pos).
       unfold LOG10E, LN10, LN2. pose proof ln10_pos.
       destruct (Rltb 0 v); field; lra. }
  destruct (lut_lookups_near Nc Ng (gp_k p * (lc + a)) (gp_k p * (lg + a))
              HNc H31 HNg)
    as (sc & sg & Ec & Eg & Hsc & Hsg & Hd & Hd').
  rewrite Ec, Eg. rewrite !nmul_FF, !nadd_FF, !nsub_FF.
  assert (Hpc : 0 <= (Dmax paper - Dmin paper) * sc)
    by (apply Rmult_le_pos; lra).
  assert (Hpg : 0 <= (Dmax paper - Dmin paper) * sg)
    by (apply Rmult_le_pos; lra).
  rewrite !Rmax_right by lra.
  replace (Dmin paper + (Dmax paper - Dmin paper) * sc - Dmin paper
           - (Dmin paper + (Dmax paper - Dmin paper) * sg - Dmin paper))
    with ((Dmax paper - Dmin paper) * (sc - sg)) by lra.
  rewrite Rabs_mult, (Rabs_right (Dmax paper - Dmin paper)) by lra.
  split.
  - apply Rmult_le_compat_l; [lra |].
    eapply Rle_trans; [exact Hd |].
    replace (gp_k p * (lc + a) - gp_k p * (lg + a))
      with (gp_k p * (lc - lg)) by lra.
    rewrite Rabs_mult, (Rabs_right (gp_k p)) by lra.
    assert (gp_k p * Rabs (lc - lg) <= K * Rabs (lc - lg))
      by (apply Rmult_le_compat_r; lra).
    lra.
  - intros ->. apply Rmult_le_compat_l; [lra |]. now apply Hd'.
Qed.

(** *** The sums and the final densities *)

Lemma exposures_sums_near (paper : Paper) (Nc Ng : nat) (K : R) (j : nat)
  (lc lg : R) (exS : list Script.Exposure) (exD : list Darkroom.Exposure) :
  valid_paper paper ->
  0 <= K -> Forall (fun p => gp_k p <= K) (gradeParams paper) ->
  (2 <= Nc)%nat -> (Z.of_nat Nc < 2 ^ 31)%Z -> (2 <= Ng)%nat ->
  Forall2 (same_exposure j) exS exD ->
  Forall (fun ed => usable_time (Darkroom.time ed)) exD ->
  (Forall (fun ex => Script.precompute1 paper ex <> None) exS
   <-> Forall (fun ex => Darkroom.exposure_constants paper ex <> None) exD)
  /\ Rabs (Script.exposures_excess_sum paper (buildSigmoidLUT Nc) (Fin lc) j
             exS
           - Darkroom.exposures_extra_sum paper (buildSigmoidLUT Ng) (Fin lg)
               j exD)
     <= INR (List.length exD)
        * ((Dmax paper - Dmin paper)
           * ((12 - -12) / (INR Nc - 1) + (12 - -12) / (INR Ng - 1) + 1 / 510
              + / 4096 + K * Rabs (lc - lg)))
  /\ (lc = lg ->
      Rabs (Script.exposures_excess_sum paper (buildSigmoidLUT Nc) (Fin lc) j
              exS
            - Darkroom.exposures_extra_sum paper (buildSigmoidLUT Ng) (Fin lg)
                j exD)
      <= INR (List.length exD)
         * ((Dmax paper - Dmin paper)
            * ((12 - -12) / (INR Nc - 1) + (12 - -12) / (INR Ng - 1)
               + 1 / 510))).
Proof.
  intros Hp HK0 HK HNc H31 HNg Hsame.
  induction Hsame as [| es ed exS exD H1 Hrest IH]; intros Htimes.
  - split; [split; constructor |].
    cbn. rewrite Rminus_diag, Rabs_R0. split; [| intros _]; lra.
  - inversion Htimes as [| ? ? Ht1 Htr]; subst.
    destruct (IH Htr) as (IHv & IHs & IHs').
    destruct (exposure_excess_near paper Nc Ng K j es ed lc lg Hp HK0 HK HNc
                H31 HNg H1 Ht1) as (Hv & Hs & Hs').
    split.
    + split; intros HF; inversion HF as [| ? ? Ha Hb]; subst; constructor;
        try (now apply IHv); intros Hn; apply Ha; now apply Hv.
    + unfold Script.exposures_excess_sum, Darkroom.exposures_extra_sum in *.
      cbn [fold_right List.length]. rewrite S_INR.
      split.
      * set (d := (Dmax paper - Dmin paper) * _) in *.
        apply Rabs_le. apply Rabs_le_bounds in IHs. apply Rabs_le_bounds in Hs.
        lra.
      * intros E. specialize (IHs' E). specialize (Hs' E).
        set (d := (Dmax paper - Dmin paper)
                  * ((12 - -12) / (INR Nc - 1) + (12 - -12) / (INR Ng - 1)
                     + 1 / 510)) in *.
        apply Rabs_le. apply Rabs_le_bounds in IHs'.
        apply Rabs_le_bounds in Hs'. lra.
Qed.

Lemma Rmin_close (a b m : R) : Rabs (Rmin a m - Rmin b m) <= Rabs (a - b).
Proof.
  unfold Rmin. destruct (Rle_dec a m), (Rle_dec b m);
    unfold Rabs; repeat destruct Rcase_abs; lra.
Qed.

Lemma exposures_excess_sum_nonneg (paper : Paper) (L : SigmoidLUT)
  (logT : num) (j : nat) (exposures : list Script.Exposure) :
  0 <= Script.exposures_excess_sum paper L logT j exposures.
Proof.
  unfold Script.exposures_excess_sum.
  induction exposures as [| ex rest IH]; cbn [fold_right]; [lra |].
  assert (0 <= Script.exposure_excess_R paper L logT j ex); [| lra].
  unfold Script.exposure_excess_R, Script.excess_R.
  destruct (Script.precompute1 paper ex); [| lra].
  destruct (Script.Dexcess_of _ _ _ _ _ _); try lra. apply Rmax_l.
Qed.

Lemma exposures_extra_sum_nonneg (paper : Paper) (L : SigmoidLUT)
  (logTrans : num) (j : nat) (exposures : list Darkroom.Exposure) :
  0 <= Darkroom.exposures_extra_sum paper L logTrans j exposures.
Proof.
  unfold Darkroom.exposures_extra_sum.
  induction exposures as [| ex rest IH]; cbn [fold_right]; [lra |].
  assert (0 <= Darkroom.exposure_extra_R paper L logTrans j ex); [| lra].
  unfold Darkroom.exposure_extra_R.
  destruct (Darkroom.exposure_constants paper ex) as [[[[? ?] ?] ?] |];
    [| lra].
  destruct (Darkroom.slot_extra _ _ _ _ _ _ _ _ _); try lra. apply Rmax_l.
Qed.

(** *** The two loaders on a picture *)

Lemma ToUint8Clamp_near (r : R) :
  0 <= r <= 255 ->
  (0 <= ToUint8Clamp r <= 255)%Z /\ Rabs (IZR (ToUint8Clamp r) - r) <= / 2.
Proof.
  intros [H0 H255]. unfold ToUint8Clamp.
  pose proof (Int_part_bounds r) as Hb.
  pose proof (Int_part_nonneg r H0) as Hn.
  assert (Hle : (Int_part r <= 255)%Z).
  { apply le_IZR. change (IZR 255) with 255. lra. }
  unfold Rleb, Rltb.
  destruct (Rle_dec r 0) as [Hr0 | Hr0].
  { split; [lia |]. replace r with 0 by lra.
    rewrite Rminus_0_r, Rabs_R0. lra. }
  destruct (Rle_dec 255 r) as [Hr255 | Hr255].
  { split; [lia |]. replace r with 255 by lra.
    change (IZR 255) with 255. rewrite Rminus_diag, Rabs_R0. lra. }
  assert (Hlt : (Int_part r < 255)%Z).
  { apply lt_IZR. change (IZR 255) with 255. lra. }
  destruct (Rlt_dec (IZR (Int_part r) + 0.5) r) as [Hup | Hup].
  { split; [lia |]. rewrite plus_IZR. apply Rabs_le. lra. }
  destruct (Rlt_dec r (IZR (Int_part r) + 0.5)) as [Hdn | Hdn].
  { split; [lia |]. apply Rabs_le. lra. }
  destruct (Z.even (Int_part r)).
  - split; [lia |]. apply Rabs_le. lra.
  - split; [lia |]. rewrite plus_IZR. apply Rabs_le. lra.
Qed.

Lemma ToUint8Clamp_byte (z : Z) : is_byte z -> ToUint8Clamp (IZR z) = z.
Proof.
  intros [H0 H255].
  destruct (ToUint8Clamp_near (IZR z)) as [Hb Hn].
  { split; [now apply (IZR_le 0) | now apply (IZR_le z 255)]. }
  apply Rabs_le_bounds in Hn. rewrite <- minus_IZR in Hn.
  destruct Hn as [Hlo Hhi].
  assert (H1 : (-1 < ToUint8Clamp (IZR z) - z)%Z) by (apply lt_IZR; lra).
  assert (H2 : (ToUint8Clamp (IZR z) - z < 1)%Z) by (apply lt_IZR; lra).
  lia.
Qed.

Lemma ToUint8Clamp_monotone (r1 r2 : R) :
  0 <= r1 -> r1 <= r2 -> r2 <= 255 ->
  (ToUint8Clamp r1 <= ToUint8Clamp r2)%Z.
Proof.
  intros H0 [Hlt | ->] H255; [| lia].
  destruct (ToUint8Clamp_near r1) as [_ H1]; [lra |].
  destruct (ToUint8Clamp_near r2) as [_ H2]; [lra |].
  apply Rabs_le_bounds in H1, H2.
  assert (H : (ToUint8Clamp r1 - ToUint8Clamp r2 < 1)%Z).
  { apply lt_IZR. rewrite minus_IZR. lra. }
  lia.
Qed.

(** What the two loaders leave for pixel [j] of a picture of RGBA
    bytes. *)
Lemma convertToNegative_logTrans_nth (data : list Z) (j : nat) :
  (4 * j + 3 < List.length data)%nat ->
  array_get (Script.convertToNegative_logTrans data) (Z.of_nat j)
  = Fin (Script.logTrans_of
           (Script.inverted_of (nth (4 * j) data 0%Z)
              (nth (4 * j + 1) data 0%Z) (nth (4 * j + 2) data 0%Z))).
Proof.
  unfold array_get. replace (Z.of_nat j <? 0)%Z with false
    by (symmetry; apply Z.ltb_ge; lia).
  rewrite Nat2Z.id. revert data.
  induction j as [| j IH]; intros data Hlen.
  - destruct data as [| r [| g [| b [| a rest]]]]; cbn in Hlen; try lia.
    reflexivity.
  - destruct data as [| r [| g [| b [| a rest]]]]; cbn [List.length] in Hlen;
      try lia.
    replace (4 * S j)%nat with (S (S (S (S (4 * j))))) by lia.
    cbn [Script.convertToNegative_logTrans nth_error nth Nat.add].
    apply IH. lia.
Qed.

Lemma uploadTransmittance_nth (data : list Z) (j : nat) :
  (4 * j + 3 < List.length data)%nat ->
  nth j (Darkroom.uploadTransmittanceFromImageData
           (Darkroom.createNegativeImage data)) 0%Z
  = Darkroom.createNegativeImage_byte (nth (4 * j) data 0%Z)
      (nth (4 * j + 1) data 0%Z) (nth (4 * j + 2) data 0%Z).
Proof.
  revert data. induction j as [| j IH]; intros data Hlen.
  - destruct data as [| r [| g [| b [| a rest]]]]; cbn in Hlen; try lia.
    reflexivity.
  - destruct data as [| r [| g [| b [| a rest]]]]; cbn [List.length] in Hlen;
      try lia.
    replace (4 * S j)%nat with (S (S (S (S (4 * j))))) by lia.
    cbn [Darkroom.createNegativeImage
           Darkroom.uploadTransmittanceFromImageData nth Nat.add].
    apply IH. lia.
Qed.

(** A grey pixel: the inverted grey is a whole number, the byte is that
    number, and the two programs read the same log-transmittance. *)
Lemma logTrans_gap_grey (v : Z) : is_byte v -> logTrans_gap v v v = 0.
Proof.
  intros Hv. unfold logTrans_gap, Darkroom.createNegativeImage_byte.
  replace (255 - (0.299 * IZR v + 0.587 * IZR v + 0.114 * IZR v))
    with (IZR (255 - v))
    by (rewrite minus_IZR; lra).
  rewrite ToUint8Clamp_byte by (unfold is_byte in *; lia).
  replace (Script.inverted_of v v v) with (IZR (255 - v))
    by (rewrite minus_IZR; unfold Script.inverted_of, Script.gray_of; lra).
  rewrite Rminus_diag. apply Rabs_R0.
Qed.

Lemma ln_le_minus_1 (y : R) : 0 < y -> ln y <= y - 1.
Proof.
  intros Hy. pose proof (exp_ineq1_le (y - 1)) as H.
  destruct (Rle_lt_or_eq_dec _ _ H) as [Hlt | Heq].
  - left. rewrite <- (ln_exp (y - 1)). apply ln_increasing; lra.
  - right. rewrite <- (ln_exp (y - 1)). f_equal. lra.
Qed.

Lemma ln_quotient (a b : R) : 0 < a -> 0 < b -> ln a - ln b = ln (a / b).
Proof.
  intros Ha Hb. unfold Rdiv.
  rewrite ln_mult by (try assumption; now apply Rinv_0_lt_compat).
  rewrite ln_Rinv by assumption. lra.
Qed.

(** A pixel whose byte is not 0: the two log-transmittances are within
    LOG10E / (2 n - 1) of each other, for the byte n. *)
Lemma logTrans_gap_small (r g b : Z) :
  is_byte r -> is_byte g -> is_byte b ->
  (1 <= Darkroom.createNegativeImage_byte r g b)%Z ->
  logTrans_gap r g b
  <= LOG10E / (2 * IZR (Darkroom.createNegativeImage_byte r g b) - 1).
Proof.
  intros [Hr0 Hr1] [Hg0 Hg1] [Hb0 Hb1] Hn.
  apply IZR_le in Hr0, Hr1, Hg0, Hg1, Hb0, Hb1, Hn.
  change (IZR 255) with 255 in *. change (IZR 0) with 0 in *.
  change (IZR 1) with 1 in *.
  assert (Hinv : 0 <= Script.inverted_of r g b <= 255)
    by (unfold Script.inverted_of, Script.gray_of; lra).
  destruct (ToUint8Clamp_near _ Hinv) as [_ Hnear].
  unfold logTrans_gap.
  change (Darkroom.createNegativeImage_byte r g b)
    with (ToUint8Clamp (Script.inverted_of r g b)) in *.
  set (n := IZR (ToUint8Clamp (Script.inverted_of r g b))) in *.
  set (i := Script.inverted_of r g b) in *.
  apply Rabs_le_bounds in Hnear.
  unfold Script.logTrans_of.
  replace (Rltb 1e-6 (i * (1 / 255))) with true
    by (symmetry; apply Rltb_true; lra).
  replace (Rltb 1e-6 (n * (1 / 255))) with true
    by (symmetry; apply Rltb_true; lra).
  pose proof LOG10E_pos as HL.
  assert (Hi : 0 < i) by lra. assert (Hn0 : 0 < n) by lra.
  rewrite !ln_mult by lra.
  replace ((ln i + ln (1 / 255)) * LOG10E - (ln n + ln (1 / 255)) * LOG10E)
    with ((ln i - ln n) * LOG10E) by lra.
  rewrite Rabs_mult, (Rabs_right LOG10E) by lra.
  unfold Rdiv at 1. rewrite Rmult_comm.
  apply Rmult_le_compat_l; [lra |].
  assert (Hden : 0 < 2 * n - 1) by lra.
  assert (Hup : ln i - ln n <= / (2 * n - 1)).
  { rewrite ln_quotient by assumption.
    eapply Rle_trans; [apply ln_le_minus_1; now apply Rdiv_lt_0_compat |].
    apply Rmult_le_reg_r with (n * (2 * n - 1)); [nra |].
    replace ((i / n - 1) * (n * (2 * n - 1))) with ((i - n) * (2 * n - 1))
      by (field; lra).
    replace (/ (2 * n - 1) * (n * (2 * n - 1))) with n by (field; lra).
    nra. }
  assert (Hdn : ln n - ln i <= / (2 * n - 1)).
  { rewrite ln_quotient by assumption.
    eapply Rle_trans; [apply ln_le_minus_1; now apply Rdiv_lt_0_compat |].
    apply Rmult_le_reg_r with (i * (2 * n - 1)); [nra |].
    replace ((n / i - 1) * (i * (2 * n - 1))) with ((n - i) * (2 * n - 1))
      by (field; lra).
    replace (/ (2 * n - 1) * (i * (2 * n - 1))) with i by (field; lra).
    nra. }
  apply Rabs_le. lra.
Qed.

(** C2 (amended).  For the same project and the same picture at a
    pixel, the shader and the scalar loop either both fail (a grade
    without parameters) or both compute a final density in
    [Dmin, Dmax].  On a grey pixel of the picture (r = g = b), and on
    every pixel where the two programs read the same log-transmittance,
    the two densities differ by at most
    n (Dmax - Dmin) (24/(Nc - 1) + 24/(Ng - 1) + 1/510) for n exposures
    and tables of Nc and Ng samples: a step of each table and half a
    level of the table texture per exposure.  On any other pixel
    script.js takes the logarithm of the unrounded inverted grey and the
    shader the logarithm of the byte stored for it, and the densities
    differ by at most
    n (Dmax - Dmin) (24/(Nc - 1) + 24/(Ng - 1) + 1/510 + 1/4096 + K gap),
    with K a bound of the slopes of the paper and gap the distance of
    the two log-transmittances, which is at most LOG10E / (2 b - 1) when
    the stored byte b is not 0.  The same project: a paper with
    Dmax > Dmin >= 0 and a positive base exposure, at most twelve
    exposures with the same grades, times of at least 1e-6 s and the
    same dodge values at the pixel.  (The colours of the two paths are
    another matter: they map the density to a colour by different tone
    curves.) *)
Theorem shader_and_loop_densities_agree (paper : Paper) (Nc Ng : nat) (K : R)
  (data : list Z) (j : nat)
  (exS : list Script.Exposure) (exD : list Darkroom.Exposure) :
  valid_paper paper ->
  0 <= K -> Forall (fun p => gp_k p <= K) (gradeParams paper) ->
  (2 <= Nc)%nat -> (Z.of_nat Nc < 2 ^ 31)%Z -> (2 <= Ng)%nat ->
  (List.length exD <= Darkroom.maxExposures)%nat ->
  Forall2 (same_exposure j) exS exD ->
  Forall (fun ed => usable_time (Darkroom.time ed)) exD ->
  Forall is_byte data -> (4 * j + 3 < List.length data)%nat ->
  let r := nth (4 * j) data 0%Z in
  let g := nth (4 * j + 1) data 0%Z in
  let b := nth (4 * j + 2) data 0%Z in
  let tol := (12 - -12) / (INR Nc - 1) + (12 - -12) / (INR Ng - 1) + 1 / 510 in
  match Script.pixel_density paper (buildSigmoidLUT Nc)
          (Script.convertToNegative_logTrans data) exS j,
        Darkroom.render_density paper exD (buildSigmoidLUT Ng)
          (Darkroom.uploadTransmittanceFromImageData
             (Darkroom.createNegativeImage data)) j with
  | Some dc, Some dg =>
      exists c d,
        dc = Fin c /\ dg = Fin d
        /\ Dmin paper <= c <= Dmax paper
        /\ Dmin paper <= d <= Dmax paper
        /\ Rabs (c - d)
           <= INR (List.length exD)
              * ((Dmax paper - Dmin paper)
                 * (tol + / 4096 + K * logTrans_gap r g b))
        /\ (logTrans_gap r g b = 0 ->
            Rabs (c - d)
            <= INR (List.length exD) * ((Dmax paper - Dmin paper) * tol))
  | None, None => True
  | _, _ => False
  end
  /\ (r = g -> g = b -> logTrans_gap r g b = 0)
  /\ ((1 <= Darkroom.createNegativeImage_byte r g b)%Z ->
      logTrans_gap r g b
      <= LOG10E / (2 * IZR (Darkroom.createNegativeImage_byte r g b) - 1)).
Proof.
  intros Hp HK0 HK HNc H31 HNg Hlen Hsame Htimes Hbytes Hj r g b tol.
  pose proof Hp as (HD0 & HD & Hbase & _).
  rewrite Forall_forall in Hbytes.
  assert (Hr : is_byte r) by (apply Hbytes, nth_In; lia).
  assert (Hg : is_byte g) by (apply Hbytes, nth_In; lia).
  assert (Hb : is_byte b) by (apply Hbytes, nth_In; lia).
  split; [| split].
  2: { intros <- <-. now apply logTrans_gap_grey. }
  2: { now apply logTrans_gap_small. }
  assert (Hf : firstn Darkroom.maxExposures exD = exD)
    by (apply firstn_all2; exact Hlen).
  pose proof (convertToNegative_logTrans_nth data j Hj) as Hlc.
  pose proof (uploadTransmittance_nth data j Hj) as Hlg.
  fold r g b in Hlc, Hlg.
  set (lc := Script.logTrans_of (Script.inverted_of r g b)) in *.
  set (lg := Script.logTrans_of
               (IZR (Darkroom.createNegativeImage_byte r g b))).
  assert (Hgap : logTrans_gap r g b = Rabs (lc - lg)) by reflexivity.
  destruct (exposures_sums_near paper Nc Ng K j lc lg exS exD Hp HK0 HK HNc H31
              HNg Hsame Htimes) as (Hv & Hs & Hs').
  destruct (Forall_dec _ (precompute1_dec paper) exS) as [Hok | Hbad].
  - rewrite pixel_density_closed;
      [| now apply buildSigmoidLUT_valid | lra | exact Hok].
    destruct (render_Some paper exD (buildSigmoidLUT Ng)) as (U & HU);
      [rewrite Hf; now apply Hv |].
    rewrite (render_density_closed _ _ _ _ j U HU) by lra.
    unfold Darkroom.trans_texel. rewrite Hlg, logTrans_of_texel, Hf, Hlc.
    fold lg.
    eexists _, _. split; [reflexivity |]. split; [reflexivity |].
    pose proof (exposures_excess_sum_nonneg paper (buildSigmoidLUT Nc)
                  (Fin lc) j exS) as Hc0.
    pose proof (exposures_extra_sum_nonneg paper (buildSigmoidLUT Ng)
                  (Fin lg) j exD) as Hg0.
    split; [| split; [| split]].
    + split; [apply Rmin_glb; lra | apply Rmin_r].
    + split; [apply Rmin_glb; lra | apply Rmin_r].
    + eapply Rle_trans; [apply Rmin_close |].
      match goal with
      | |- Rabs (?a + ?x - (?a + ?y)) <= _ =>
          replace (a + x - (a + y)) with (x - y) by lra
      end.
      rewrite Hgap. exact Hs.
    + intros H0. eapply Rle_trans; [apply Rmin_close |].
      match goal with
      | |- Rabs (?a + ?x - (?a + ?y)) <= _ =>
          replace (a + x - (a + y)) with (x - y) by lra
      end.
      apply Hs'. rewrite Hgap in H0.
      destruct (Req_dec (lc - lg) 0) as [E | E]; [lra |].
      apply Rabs_pos_lt in E. lra.
  - unfold Script.pixel_density. rewrite (precompute_None _ _ Hbad).
    unfold Darkroom.render_density. rewrite render_None; [exact I |].
    rewrite Hf. intros Hok. apply Hbad. now apply Hv.
Qed.

Lemma script_gpu_project_same : Forall2 (same_exposure 0) script_project gpu_project.
Proof.
  repeat constructor.
Defined.

Lemma gpu_project_times :
  Forall (fun ed => usable_time (Darkroom.time ed)) gpu_project.
Proof.
  repeat constructor.
  - exists 0.016. split; [reflexivity | lra].
  - exists 16000. split; [reflexivity | lra].
  - exists 16. split; [reflexivity | lra].
Defined.

Lemma ilford_slopes : Forall (fun p => gp_k p <= 10) (gradeParams ilford_multigrade).
Proof.
  repeat constructor; cbn [gp_k]; lra.
Defined.

Lemma picture_2px_bytes : Forall is_byte picture_2px.
Proof.
  repeat constructor; unfold is_byte; lia.
Defined.

Lemma shader_and_loop_densities_agree_witness :
  match Script.pixel_density ilford_multigrade (buildSigmoidLUT 2048)
          (Script.convertToNegative_logTrans picture_2px) script_project 0,
        Darkroom.render_density ilford_multigrade gpu_project
          Darkroom.makeSigmoidLUT
          (Darkroom.uploadTransmittanceFromImageData
             (Darkroom.createNegativeImage picture_2px)) 0 with
  | Some dc, Some dg =>
      exists c g,
        dc = Fin c /\ dg = Fin g
        /\ 0.06 <= c <= 2.05 /\ 0.06 <= g <= 2.05
        /\ Rabs (c - g)
           <= 3 * ((2.05 - 0.06)
                   * ((12 - -12) / (INR 2048 - 1) + (12 - -12) / (INR 4096 - 1)
                      + 1 / 510))
  | None, None => True
  | _, _ => False
  end.
Proof.
  pose proof (shader_and_loop_densities_agree ilford_multigrade 2048 4096 10
                picture_2px 0 script_project gpu_project
                ilford_multigrade_valid ltac:(lra) ilford_slopes
                ltac:(lia) ltac:(lia) ltac:(lia)
                ltac:(unfold gpu_project, Darkroom.maxExposures; simpl; lia)
                script_gpu_project_same gpu_project_times picture_2px_bytes
                ltac:(unfold picture_2px; simpl; lia)) as (H & Hgrey & _).
  specialize (Hgrey eq_refl eq_refl).
  destruct (Script.pixel_density _ _ _ _ _), (Darkroom.render_density _ _ _ _ _);
    try exact H.
  destruct H as (c & g & Ec & Eg & Hc & Hg & _ & Hd).
  exists c, g. repeat split; try assumption; try apply Hc; try apply Hg.
  replace 3 with (INR (List.length gpu_project)) by (unfold gpu_project; simpl; lra).
  exact (Hd Hgrey).
Defined.

(** *** A pixel that is not grey *)

(** The white pixel with a little less blue: its inverted grey is
    0.456; the byte the darkroom module stores for it is 0. *)
Lemma inverted_of_251 : Script.inverted_of 255 255 251 = 0.456.
Proof. unfold Script.inverted_of, Script.gray_of. lra. Qed.

Lemma createNegativeImage_byte_251 :
  Darkroom.createNegativeImage_byte 255 255 251 = 0%Z.
Proof.
  change (Darkroom.createNegativeImage_byte 255 255 251)
    with (ToUint8Clamp (Script.inverted_of 255 255 251)).
  rewrite inverted_of_251. unfold ToUint8Clamp.
  rewrite (Int_part_eq 0.456 0) by (simpl; lra).
  rdec. reflexivity.
Qed.

(** The scalar loop on that pixel, for one exposure of 16000 s at grade
    2 on the Ilford paper: the logarithm of the transmittance 0.456/255
    is over -3, the sigmoid is read at or over 0, and the density is
    over 1. *)
Lemma script_density_251 :
  exists c,
    Script.pixel_density ilford_multigrade (buildSigmoidLUT 2048)
      (Script.convertToNegative_logTrans picture_2px) [script_high "e01"] 1
    = Some (Fin c)
    /\ 1 <= c.
Proof.
  rewrite pixel_density_closed;
    [| apply buildSigmoidLUT_valid; lia | cbn; lra
     | repeat constructor; unfold script_high;
       rewrite precompute1_ilford by lra; discriminate].
  eexists. split; [reflexivity |].
  rewrite (convertToNegative_logTrans_nth picture_2px 1)
    by (unfold picture_2px; simpl; lia).
  change (nth (4 * 1) picture_2px 0%Z) with 255%Z.
  change (nth (4 * 1 + 1) picture_2px 0%Z) with 255%Z.
  change (nth (4 * 1 + 2) picture_2px 0%Z) with 251%Z.
  rewrite inverted_of_251.
  set (l := Script.logTrans_of 0.456).
  assert (Hl : - (3) <= l).
  { unfold l, Script.logTrans_of. rdec.
    replace (- (3)) with (ln (1 / 1000) * LOG10E).
    - apply Rmult_le_compat_r; [left; apply LOG10E_pos |].
      left. apply ln_increasing; lra.
    - rewrite log10_milli by lra. rewrite ln_1. lra. }
  unfold Script.exposures_excess_sum. cbn [fold_right].
  unfold Script.exposure_excess_R, script_high.
  rewrite precompute1_ilford by lra.
  change (Dmin ilford_multigrade) with 0.06.
  change (Dmax ilford_multigrade) with 2.05.
  unfold Script.excess_R, ilford_pre. rewrite Dexcess_of_nomask.
  set (x := 4.2 * (ln 16000 * LOG10E + l + 0
                   - (ln 16 * LOG10E + 0.0 * (LOG10E * LN2)))).
  assert (Hx : 0 <= x).
  { unfold x. replace 16000 with (16 * 1000) by lra.
    rewrite log10_kilo by lra. lra. }
  destruct (sigmoid_near_logistic 2048 x ltac:(lia) ltac:(lia))
    as (s & Es & Hs01 & Hs).
  rewrite Es. nred.
  pose proof (logistic_lipschitz 0 x Hx) as Hlog.
  replace (- 0) with 0 in Hlog by lra. rewrite exp_0 in Hlog.
  assert (HN : INR 2048 = 2048) by (rewrite INR_IZR_INZ; reflexivity).
  rewrite HN in Hs.
  assert (Hs' : 0.48 <= s) by lra.
  rewrite Rmax_right by lra.
  apply Rmin_glb; lra.
Qed.

(** The shader on the same pixel, for the same exposure: the byte 0 is
    read as the transmittance 1e-6, the sigmoid is read under the
    table, and the density is that of blank paper. *)
Lemma gpu_density_251 :
  Darkroom.render_density ilford_multigrade [gpu_high "e01"]
    Darkroom.makeSigmoidLUT
    (Darkroom.uploadTransmittanceFromImageData
       (Darkroom.createNegativeImage picture_2px)) 1
  = Some (Fin 0.06).
Proof.
  destruct (render_Some ilford_multigrade [gpu_high "e01"]
              Darkroom.makeSigmoidLUT) as (U & HU).
  { repeat constructor. apply gpu_high_valid. }
  rewrite (render_density_closed _ _ _ _ _ U HU) by (cbn; lra).
  unfold Darkroom.trans_texel.
  rewrite (uploadTransmittance_nth picture_2px 1)
    by (unfold picture_2px; simpl; lia).
  change (nth (4 * 1) picture_2px 0%Z) with 255%Z.
  change (nth (4 * 1 + 1) picture_2px 0%Z) with 255%Z.
  change (nth (4 * 1 + 2) picture_2px 0%Z) with 251%Z.
  rewrite createNegativeImage_byte_251, logTrans_of_texel.
  assert (Hl : Script.logTrans_of 0 = - (6)).
  { unfold Script.logTrans_of. rdec. rewrite ln_micro. unfold LOG10E.
    pose proof ln10_pos. field. lra. }
  rewrite Hl. unfold Darkroom.makeSigmoidLUT.
  cbn [firstn Darkroom.maxExposures].
  unfold Darkroom.exposures_extra_sum. cbn [fold_right].
  unfold Darkroom.exposure_extra_R, gpu_high.
  rewrite exposure_constants_ilford by lra.
  change (Dmin ilford_multigrade) with 0.06.
  change (Dmax ilford_multigrade) with 2.05.
  rewrite slot_extra_nomask.
  rewrite fetchSigmoid_below.
  - nred. rewrite Rmax_left by lra.
    rewrite !Rplus_0_r, Rmin_left by lra. reflexivity.
  - lia.
  - replace 16000 with (16 * 1000) by lra.
    rewrite log10R_kilo by lra. lra.
Qed.

(** *** The colours *)

Lemma render_tones (paper : Paper) (exposures : list Darkroom.Exposure)
  (L : SigmoidLUT) (U : Darkroom.Uniforms) :
  Darkroom.render paper exposures L = Some U ->
  Darkroom.uHi U = highlights (colorTone paper)
  /\ Darkroom.uMid U = midtones (colorTone paper)
  /\ Darkroom.uSh U = shadows (colorTone paper).
Proof.
  unfold Darkroom.render. destruct (Darkroom.all_constants _ _); [| discriminate].
  intros [= <-]. cbn. auto.
Qed.

(** A channel of the shader's colour is at most the reflectance times
    the largest tone multiplier. *)
Lemma shader_channel_bound (sh mid hi m rho : R) :
  0 <= rho <= 1 -> 0 <= sh <= m -> 0 <= mid <= m -> 0 <= hi <= m ->
  exists c,
    Darkroom.shader_channel sh mid hi (Fin rho) = Fin c
    /\ 0 <= c <= m * rho.
Proof.
  intros Hr Hs Hm Hh. unfold Darkroom.shader_channel. cbn [nlt].
  destruct (Rltb rho 0.5) eqn:E.
  - apply Rltb_true in E.
    rewrite !nmul_FF, nsub_FF, !nmul_FF, nadd_FF, nmul_FF.
    eexists. split; [reflexivity |].
    assert (H1 : 0 <= sh * (1 - rho * 2)) by (apply Rmult_le_pos; lra).
    assert (H2 : 0 <= mid * (rho * 2)) by (apply Rmult_le_pos; lra).
    assert (H3 : sh * (1 - rho * 2) <= m * (1 - rho * 2))
      by (apply Rmult_le_compat_r; lra).
    assert (H4 : mid * (rho * 2) <= m * (rho * 2))
      by (apply Rmult_le_compat_r; lra).
    split.
    + apply Rmult_le_pos; lra.
    + apply Rmult_le_compat_r; lra.
  - apply Rltb_false in E.
    rewrite nsub_FF, !nmul_FF, nsub_FF, !nmul_FF, nadd_FF, nmul_FF.
    eexists. split; [reflexivity |].
    assert (H1 : 0 <= mid * (1 - (rho - 0.5) * 2)) by (apply Rmult_le_pos; lra).
    assert (H2 : 0 <= hi * ((rho - 0.5) * 2)) by (apply Rmult_le_pos; lra).
    assert (H3 : mid * (1 - (rho - 0.5) * 2) <= m * (1 - (rho - 0.5) * 2))
      by (apply Rmult_le_compat_r; lra).
    assert (H4 : hi * ((rho - 0.5) * 2) <= m * ((rho - 0.5) * 2))
      by (apply Rmult_le_compat_r; lra).
    split.
    + apply Rmult_le_pos; lra.
    + apply Rmult_le_compat_r; lra.
Qed.

Lemma LN10_ge_2 : 2 <= LN10.
Proof.
  unfold LN10. left. apply exp_lt_inv. rewrite exp_ln by lra.
  pose proof exp_le_3 as H3. pose proof (exp_pos 1) as H0.
  replace 2 with (1 + 1) by lra. rewrite exp_plus. nra.
Qed.

(** The reflectance of blank Ilford paper (density 0.06). *)
Lemma reflectance_of_Dmin : 0 < exp (- (0.06) * LN10) < 0.893.
Proof.
  split; [apply exp_pos |].
  pose proof LN10_ge_2 as H2.
  apply Rle_lt_trans with (exp (- 0.12)); [apply exp_mono_le; lra |].
  replace (- 0.12) with (- (0.12)) by lra. rewrite exp_Ropp.
  pose proof (exp_ineq1_le 0.12) as H.
  apply Rle_lt_trans with (/ (1 + 0.12)).
  - apply Rinv_le_contravar; lra.
  - apply Rmult_lt_reg_r with (1 + 0.12); [lra |].
    rewrite Rinv_l by lra. lra.
Qed.

Lemma gpu_low_density :
  Darkroom.render_density ilford_multigrade [gpu_low "e01"]
    Darkroom.makeSigmoidLUT r8_white 0 = Some (Fin 0.06).
Proof.
  destruct (render_Some ilford_multigrade [gpu_low "e01"] Darkroom.makeSigmoidLUT)
    as (U & HU).
  { repeat constructor. apply gpu_low_valid. }
  rewrite (render_density_closed _ _ _ _ _ U HU) by (cbn; lra).
  rewrite logTrans_white. unfold Darkroom.makeSigmoidLUT.
  cbn [firstn Darkroom.maxExposures].
  unfold Darkroom.exposures_extra_sum. cbn [fold_right].
  rewrite gpu_low_extra by lia.
  change (Dmin ilford_multigrade) with 0.06.
  change (Dmax ilford_multigrade) with 2.05.
  rewrite !Rplus_0_r, Rmin_left by lra. reflexivity.
Qed.

(** One weak exposure of a white negative on the Ilford paper: both
    paths find the density of blank paper, 0.06; the scalar loop writes
    the colour (247, 252, 255), the shader a colour whose channels are
    under 222, 226 and 228 of 255. *)
Lemma blank_paper_colours :
  Script.pixel_density ilford_multigrade (buildSigmoidLUT 2048)
    [Script.logTrans_of 255] [script_low "e01"] 0 = Some (Fin 0.06)
  /\ Darkroom.render_density ilford_multigrade [gpu_low "e01"]
       Darkroom.makeSigmoidLUT r8_white 0 = Some (Fin 0.06)
  /\ snd (Script.processImage (script_sim [script_low "e01"]))
     = Script.Rendered [(247, 252, 255, 255)%Z]
  /\ exists r g b,
       snd (Darkroom.processImage (gpu_sim [gpu_low "e01"]))
       = Darkroom.Rendered [(Fin r, Fin g, Fin b)]
       /\ 255 * r < 222 /\ 255 * g < 226 /\ 255 * b < 228.
Proof.
  assert (Hpre : Script.precompute ilford_multigrade [script_low "e01"]
                 = Some (repeat (ilford_pre 0.016) 1)).
  { unfold script_low. cbn [Script.precompute].
    rewrite precompute1_ilford by lra. reflexivity. }
  split; [| split; [exact gpu_low_density | split]].
  - unfold Script.pixel_density. rewrite Hpre.
    change (array_get [Script.logTrans_of 255] (Z.of_nat 0))
      with (Fin (Script.logTrans_of 255)).
    rewrite logTrans_of_white.
    rewrite Dfinal_closed; [| apply buildSigmoidLUT_valid; lia | cbn; lra].
    change (Dmin ilford_multigrade) with 0.06.
    change (Dmax ilford_multigrade) with 2.05.
    rewrite excess_sum_lows, Rplus_0_r, Rmin_left by lra. reflexivity.
  - unfold Script.processImage, script_sim.
    cbn [Script.negativeImage Script.exposures Script.paperType
         Script.logTrans Script.sigmoidLUT].
    change (papers "ilford-multigrade") with (Some ilford_multigrade).
    cbv beta iota. rewrite Hpre.
    cbn [List.length Nat.eqb orb Nat.mul Nat.add seq map snd].
    now rewrite script_pixel_lows.
  - pose proof gpu_low_density as HD.
    unfold Darkroom.render_density in HD.
    unfold Darkroom.processImage, gpu_sim.
    cbn [Darkroom.negativeImage Darkroom.exposures Darkroom.paperType
         Darkroom.sigmoidLUT Darkroom.gpu_trans].
    change (papers "ilford-multigrade") with (Some ilford_multigrade).
    cbv beta iota.
    destruct (Darkroom.render ilford_multigrade [gpu_low "e01"]
                Darkroom.makeSigmoidLUT) as [U |] eqn:HU; [| discriminate].
    injection HD as HD.
    destruct (render_tones _ _ _ _ HU) as (Hhi & Hmid & Hsh).
    cbn [List.length Nat.eqb Nat.mul Nat.add seq map snd].
    unfold Darkroom.shader_main. rewrite HD.
    unfold Darkroom.shader_color. rewrite Hhi, Hmid, Hsh.
    cbn [colorTone ilford_multigrade highlights midtones shadows
         tone_r tone_g tone_b].
    rewrite nneg_F, nmul_FF. cbn [Math_exp].
    destruct reflectance_of_Dmin as [Hr0 Hr1].
    destruct (shader_channel_bound 0.94 0.96 0.97 0.97 (exp (- (0.06) * LN10)))
      as (r & Er & Hr); try lra.
    destruct (shader_channel_bound 0.97 0.98 0.99 0.99 (exp (- (0.06) * LN10)))
      as (g & Eg & Hg); try lra.
    destruct (shader_channel_bound 1.00 1.00 1.00 1.00 (exp (- (0.06) * LN10)))
      as (b & Eb & Hb); try lra.
    exists r, g, b. rewrite Er, Eg, Eb. split; [reflexivity |]. lra.
Qed.

(** C2, counterexample.  Two pixels on the Ilford paper.  At a pixel
    where both paths find the density of blank paper, 0.06, the scalar
    loop writes the colour (247, 252, 255) and the shader a colour whose
    channels are under 222, 226 and 228 of 255.  At the pixel
    (255, 255, 251) of a picture, under one exposure of 16000 s at
    grade 2, the darkroom module stores the byte 0 for the negative and
    the shader finds the density 0.06, while script.js takes the
    logarithm of the inverted grey 0.456 and finds a density over 1;
    a step of each table and half a level of the texture account for
    less than 0.04. *)
Lemma shader_and_loop_results_differ :
  Script.pixel_density ilford_multigrade (buildSigmoidLUT 2048)
    [Script.logTrans_of 255] [script_low "e01"] 0 = Some (Fin 0.06)
  /\ Darkroom.render_density ilford_multigrade [gpu_low "e01"]
       Darkroom.makeSigmoidLUT r8_white 0 = Some (Fin 0.06)
  /\ snd (Script.processImage (script_sim [script_low "e01"]))
     = Script.Rendered [(247, 252, 255, 255)%Z]
  /\ (exists r g b,
        snd (Darkroom.processImage (gpu_sim [gpu_low "e01"]))
        = Darkroom.Rendered [(Fin r, Fin g, Fin b)]
        /\ 255 * r < 222 /\ 255 * g < 226 /\ 255 * b < 228)
  /\ Script.inverted_of 255 255 251 = 0.456
  /\ Darkroom.createNegativeImage_byte 255 255 251 = 0%Z
  /\ (exists c,
        Script.pixel_density ilford_multigrade (buildSigmoidLUT 2048)
          (Script.convertToNegative_logTrans picture_2px)
          [script_high "e01"] 1
        = Some (Fin c)
        /\ 1 <= c)
  /\ Darkroom.render_density ilford_multigrade [gpu_high "e01"]
       Darkroom.makeSigmoidLUT
       (Darkroom.uploadTransmittanceFromImageData
          (Darkroom.createNegativeImage picture_2px)) 1
     = Some (Fin 0.06)
  /\ 1 * ((2.05 - 0.06)
          * ((12 - -12) / (INR 2048 - 1) + (12 - -12) / (INR 4096 - 1)
             + 1 / 510))
     < 0.04.
Proof.
  destruct blank_paper_colours as (H1 & H2 & H3 & H4).
  split; [exact H1 |]. split; [exact H2 |]. split; [exact H3 |].
  split; [exact H4 |]. split; [exact inverted_of_251 |].
  split; [exact createNegativeImage_byte_251 |].
  split; [exact script_density_251 |]. split; [exact gpu_density_251 |].
  assert (H2048 : INR 2048 = 2048) by (rewrite INR_IZR_INZ; reflexivity).
  assert (H4096 : INR 4096 = 4096) by (rewrite INR_IZR_INZ; reflexivity).
  rewrite H2048, H4096. lra.
Qed.
(* ================================================================== *)
(** ** Further properties of the code *)
(* ================================================================== *)

(** *** The D-logE helpers *)

Lemma log10_pos (x : R) : 0 < x -> log10 (Fin x) = Fin (ln x / LN10).
Proof. intros H. now apply Math_log10_pos. Qed.

(** The midtone of a grade that has parameters. *)
Lemma midtoneLogEForGrade_Some (paper : Paper) (grade : Z) (p : GradeParam) :
  0 < baseExposure paper ->
  gradeParam paper grade = Some p ->
  midtoneLogEForGrade paper grade
  = Some (Fin ((ln (baseExposure paper) + gp_speedShiftStops p * ln 2) / LN10)).
Proof.
  intros Hb Hp. unfold midtoneLogEForGrade. rewrite Hp.
  cbn [Math_pow2]. rewrite nmul_FF.
  rewrite log10_pos
    by (apply Rmult_lt_0_compat; [assumption | apply exp_pos]).
  rewrite ln_mult, ln_exp by (try assumption; apply exp_pos). reflexivity.
Qed.

Lemma gradeParam_slope (paper : Paper) (grade : Z) (p : GradeParam) :
  valid_paper paper -> gradeParam paper grade = Some p -> 0 < gp_k p.
Proof.
  intros (_ & _ & _ & Hk) Hp. unfold gradeParam in Hp.
  destruct (grade <? 0)%Z; [discriminate |].
  apply nth_error_In in Hp. rewrite Forall_forall in Hk. now apply Hk.
Qed.

(** The closed form of [densityFromOneExposure] for finite arguments. *)
Lemma densityFromOneExposure_Fin (paper : Paper) (grade : Z) (p : GradeParam)
  (t tr m : R) :
  valid_paper paper -> gradeParam paper grade = Some p ->
  densityFromOneExposure paper (Fin t) grade (Fin tr) (Fin m)
  = Some (Fin (Dmin paper
               + (Dmax paper - Dmin paper)
                 / (1 + exp (- gp_k p
                             * (ln (Rmax 1e-6
                                      (t * tr * (if Rltb 0 m then 1 - m else 1)))
                                / LN10
                                - (ln (baseExposure paper)
                                   + gp_speedShiftStops p * ln 2) / LN10))))).
Proof.
  intros Hv Hp. pose proof Hv as (HD0 & HD & Hb & _).
  unfold densityFromOneExposure. rewrite Hp.
  rewrite (midtoneLogEForGrade_Some _ _ _ Hb Hp).
  unfold ngt. cbn [nlt].
  assert (E : (if Rltb 0 m then (Fin 1 - Fin m)%num else Fin 1)
              = Fin (if Rltb 0 m then 1 - m else 1)).
  { destruct (Rltb 0 m); [apply nsub_FF | reflexivity]. }
  rewrite E, !nmul_FF, Math_max_FF.
  rewrite log10_pos by (apply Rlt_le_trans with 1e-6; [lra | apply Rmax_l]).
  rewrite densityFromLogE_Fin by lra. reflexivity.
Qed.

(** X1.  [densityFromOneExposure] on numbers throws exactly when the
    grade has no parameters; otherwise it returns a density of
    [Dmin, Dmax], whatever the time, the transmittance and the dodge
    value are: the exposure is floored at 1e-6 before the logarithm. *)
Theorem densityFromOneExposure_range (paper : Paper) (grade : Z) (t tr m : R) :
  valid_paper paper ->
  match gradeParam paper grade,
        densityFromOneExposure paper (Fin t) grade (Fin tr) (Fin m) with
  | Some _, Some d => exists D, d = Fin D /\ Dmin paper <= D <= Dmax paper
  | None, None => True
  | _, _ => False
  end.
Proof.
  intros Hv. destruct (gradeParam paper grade) as [p |] eqn:Hp.
  - rewrite (densityFromOneExposure_Fin _ _ p) by assumption.
    eexists. split; [reflexivity |].
    pose proof Hv as (HD0 & HD & _).
    match goal with
    | |- _ <= _ + _ / (1 + exp ?x) <= _ =>
        pose proof (logistic_bounds (Dmax paper - Dmin paper) (exp x)
                      ltac:(lra) (exp_pos _))
    end.
    lra.
  - unfold densityFromOneExposure. now rewrite Hp.
Qed.

Lemma densityFromOneExposure_range_witness :
  exists D,
    densityFromOneExposure ilford_multigrade (Fin 16) 5 (Fin 0.5) (Fin 0.25)
    = Some (Fin D)
    /\ 0.06 <= D <= 2.05.
Proof.
  pose proof (densityFromOneExposure_range ilford_multigrade 5 16 0.5 0.25
                ilford_multigrade_valid) as H.
  rewrite ilford_grade2 in H.
  destruct (densityFromOneExposure ilford_multigrade (Fin 16) 5 (Fin 0.5)
              (Fin 0.25)) as [d |]; [| contradiction].
  destruct H as (D & -> & HD). now exists D.
Defined.

(** X2.  More light never gives less density: [densityFromOneExposure]
    does not decrease when the time grows and the dodge value shrinks,
    for a transmittance that is not negative and dodge values of
    [0, 1]. *)
Theorem densityFromOneExposure_monotone (paper : Paper) (grade : Z)
  (t1 t2 tr m1 m2 : R) :
  valid_paper paper ->
  0 <= tr -> 0 <= t1 <= t2 -> 0 <= m2 <= m1 -> m1 <= 1 ->
  match densityFromOneExposure paper (Fin t1) grade (Fin tr) (Fin m1),
        densityFromOneExposure paper (Fin t2) grade (Fin tr) (Fin m2) with
  | Some d1, Some d2 => nle d1 d2 = true
  | None, None => True
  | _, _ => False
  end.
Proof.
  intros Hv Htr Ht Hm Hm1. destruct (gradeParam paper grade) as [p |] eqn:Hp.
  - rewrite !(densityFromOneExposure_Fin _ _ p) by assumption.
    pose proof (gradeParam_slope _ _ _ Hv Hp) as Hk.
    pose proof Hv as (HD0 & HD & Hb & _).
    rewrite nle_Fin. apply Rplus_le_compat_l.
    apply logistic_mono; [lra | apply exp_pos |].
    apply exp_mono_le.
    set (mul1 := if Rltb 0 m1 then 1 - m1 else 1).
    set (mul2 := if Rltb 0 m2 then 1 - m2 else 1).
    assert (Hmul : 0 <= mul1 <= mul2).
    { unfold mul1, mul2. do 2 rcases; lra. }
    assert (HE : Rmax 1e-6 (t1 * tr * mul1) <= Rmax 1e-6 (t2 * tr * mul2)).
    { apply Rmax_lub; [apply Rmax_l |].
      eapply Rle_trans; [| apply Rmax_r].
      apply Rmult_le_compat; try lra.
      - apply Rmult_le_pos; lra.
      - apply Rmult_le_compat_r; lra. }
    assert (HE1 : 0 < Rmax 1e-6 (t1 * tr * mul1))
      by (apply Rlt_le_trans with 1e-6; [lra | apply Rmax_l]).
    assert (Hln : ln (Rmax 1e-6 (t1 * tr * mul1))
                  <= ln (Rmax 1e-6 (t2 * tr * mul2))).
    { destruct HE as [HE | HE]; [left; now apply ln_increasing | rewrite HE; lra]. }
    pose proof LN10_pos as H10.
    assert (Hq : ln (Rmax 1e-6 (t1 * tr * mul1)) / LN10
                 <= ln (Rmax 1e-6 (t2 * tr * mul2)) / LN10).
    { apply Rmult_le_compat_r; [left; now apply Rinv_0_lt_compat | exact Hln]. }
    nra.
  - unfold densityFromOneExposure. now rewrite Hp.
Qed.

Lemma densityFromOneExposure_monotone_witness :
  match densityFromOneExposure ilford_multigrade (Fin 8) 5 (Fin 0.5) (Fin 0.5),
        densityFromOneExposure ilford_multigrade (Fin 16) 5 (Fin 0.5) (Fin 0.25)
  with
  | Some d1, Some d2 => nle d1 d2 = true
  | None, None => True
  | _, _ => False
  end.
Proof.
  apply (densityFromOneExposure_monotone ilford_multigrade 5 8 16 0.5 0.5 0.25
           ilford_multigrade_valid); lra.
Defined.

(** X3.  The midtone is computed in three places, and they agree: the
    constant [E0] the scalar loop pre-computes for an exposure and the
    uniform [uE0] the shader is given are [midtoneLogEForGrade] of the
    exposure's grade. *)
Theorem midtone_computed_alike (paper : Paper) :
  0 < baseExposure paper ->
  (forall ex p,
      Script.precompute1 paper ex = Some p ->
      midtoneLogEForGrade paper (Script.grade ex) = Some (Script.pre_E0 p))
  /\ (forall ex logT k E0 hasMask,
        Darkroom.exposure_constants paper ex = Some (logT, k, E0, hasMask) ->
        midtoneLogEForGrade paper (Darkroom.grade ex) = Some E0).
Proof.
  intros Hb. split.
  - intros ex p. unfold Script.precompute1.
    destruct (gradeParam paper (Script.grade ex)) as [g |] eqn:Hg;
      [| discriminate].
    intros [= <-]. cbn [Script.pre_E0].
    rewrite (midtoneLogEForGrade_Some _ _ _ Hb Hg).
    unfold Math_log. apply Rltb_true in Hb. rewrite Hb.
    rewrite nmul_FF, nadd_FF. do 2 f_equal.
    unfold LOG10E, LN10, LN2. pose proof ln10_pos. field. lra.
  - intros ex logT k E0 hasMask. unfold Darkroom.exposure_constants.
    unfold midtoneLogEForGrade.
    destruct (gradeParam paper (Darkroom.grade ex)) as [g |]; [| discriminate].
    intros [= _ _ <- _]. reflexivity.
Qed.

Lemma midtone_computed_alike_witness :
  midtoneLogEForGrade ilford_multigrade 5
  = Some (Script.pre_E0 (ilford_pre 16))
  /\ midtoneLogEForGrade ilford_multigrade 5 = Some (Fin (ln 16 / LN10)).
Proof.
  destruct (midtone_computed_alike ilford_multigrade ltac:(cbn; lra))
    as [Hs Hg].
  split.
  - apply (Hs (Script.mkExposure "e" (Fin 16) 5 None)).
    apply precompute1_ilford. lra.
  - apply (Hg (Darkroom.mkExposure "e" (Fin 16) 5 None)
              (Fin (ln 16 / LN10)) (Fin 4.2) (Fin (ln 16 / LN10)) 0%Z).
    apply exposure_constants_ilford. lra.
Defined.

(** X4.  An exposure that brings exactly the base exposure of the paper,
    shifted by the stops of the grade, to a pixel prints the density
    half way between Dmin and Dmax. *)
Theorem densityFromOneExposure_midtone (paper : Paper) (grade : Z)
  (p : GradeParam) (t tr m : R) :
  valid_paper paper -> gradeParam paper grade = Some p ->
  1e-6 <= baseExposure paper * exp (gp_speedShiftStops p * ln 2) ->
  t * tr * (if Rltb 0 m then 1 - m else 1)
  = baseExposure paper * exp (gp_speedShiftStops p * ln 2) ->
  densityFromOneExposure paper (Fin t) grade (Fin tr) (Fin m)
  = Some (Fin ((Dmin paper + Dmax paper) / 2)).
Proof.
  intros Hv Hp Hlow HE. pose proof Hv as (HD0 & HD & Hb & _).
  rewrite (densityFromOneExposure_Fin _ _ p) by assumption.
  rewrite HE, Rmax_right by assumption.
  rewrite ln_mult, ln_exp by (try assumption; apply exp_pos).
  replace (- gp_k p
           * ((ln (baseExposure paper) + gp_speedShiftStops p * ln 2) / LN10
              - (ln (baseExposure paper) + gp_speedShiftStops p * ln 2) / LN10))
    with 0 by lra.
  rewrite exp_0. do 2 f_equal. lra.
Qed.

Lemma densityFromOneExposure_midtone_witness :
  densityFromOneExposure ilford_multigrade (Fin 32) 5 (Fin 1) (Fin 0.5)
  = Some (Fin ((0.06 + 2.05) / 2)).
Proof.
  apply (densityFromOneExposure_midtone ilford_multigrade 5 (mkGrade 4.2 0.0)).
  - exact ilford_multigrade_valid.
  - reflexivity.
  - cbn [gp_speedShiftStops baseExposure ilford_multigrade].
    replace (0.0 * ln 2) with 0 by lra. rewrite exp_0. lra.
  - cbn [gp_speedShiftStops baseExposure ilford_multigrade].
    replace (0.0 * ln 2) with 0 by lra. rewrite exp_0.
    replace (Rltb 0 0.5) with true by (symmetry; apply Rltb_true; lra). lra.
Defined.

(** *** The scalar loop and the exposure time *)

Lemma Int_part_mono (a b : R) : a <= b -> (Int_part a <= Int_part b)%Z.
Proof.
  intros H. pose proof (Int_part_bounds a). pose proof (Int_part_bounds b).
  apply Z.lt_succ_r, lt_IZR. rewrite succ_IZR. lra.
Qed.

(** The look-up of the scalar loop inside the table: the sample of the
    node at or under the argument. *)
Lemma sigmoid_table_value (N : nat) (x : R) :
  (2 <= N)%nat -> (Z.of_nat N < 2 ^ 31)%Z -> -12 < x < 12 ->
  Script.sigmoid (buildSigmoidLUT N) (Fin x)
  = Fin (1 / (1 + exp (- (-12 + IZR (Int_part ((x - -12)
                                               / ((12 - -12) / (INR N - 1))))
                                * ((12 - -12) / (INR N - 1)))))).
Proof.
  intros HN H31 Hx.
  destruct (table_index N x HN Hx) as (Hstep & Hi & Hnode).
  set (step := (12 - -12) / (INR N - 1)) in *.
  set (i := Int_part ((x - -12) / step)) in *.
  unfold Script.sigmoid, nge.
  change (lut_lo (buildSigmoidLUT N)) with (-12).
  change (lut_hi (buildSigmoidLUT N)) with 12.
  change (lut_step (buildSigmoidLUT N)) with step.
  cbn [nle]. rdec. rewrite nsub_FF, ndiv_FF by lra.
  assert (Hq0 : 0 <= (x - -12) / step).
  { apply Rmult_le_pos; [lra | left; now apply Rinv_0_lt_compat]. }
  cbn [ToInt32]. rewrite Rtrunc_nonneg by assumption. fold i.
  rewrite wrap32_small by lia.
  unfold array_get. replace (i <? 0)%Z with false by lia.
  rewrite buildSigmoidLUT_nth_error by lia.
  fold step. rewrite INR_IZR_INZ, Z2Nat.id by lia. reflexivity.
Qed.

(** The look-up of the scalar loop does not decrease with its
    argument. *)
Lemma sigmoid_monotone (N : nat) (x y : R) :
  (2 <= N)%nat -> (Z.of_nat N < 2 ^ 31)%Z -> x <= y ->
  exists sx sy,
    Script.sigmoid (buildSigmoidLUT N) (Fin x) = Fin sx
    /\ Script.sigmoid (buildSigmoidLUT N) (Fin y) = Fin sy
    /\ 0 <= sx <= sy /\ sy <= 1.
Proof.
  intros HN H31 Hxy.
  pose proof (buildSigmoidLUT_valid N HN H31) as HL.
  destruct (sigmoid_range (buildSigmoidLUT N) (Fin x) HL) as (sx & Ex & Hsx).
  destruct (sigmoid_range (buildSigmoidLUT N) (Fin y) HL) as (sy & Ey & Hsy).
  exists sx, sy. split; [exact Ex |]. split; [exact Ey |].
  split; [| lra]. split; [lra |].
  destruct (Rle_dec x (-12)) as [Hx | Hx].
  - rewrite sigmoid_below in Ex by exact Hx. injection Ex as <-. lra.
  - destruct (Rle_dec 12 y) as [Hy | Hy].
    + rewrite sigmoid_above in Ey
        by (change (lut_lo (buildSigmoidLUT N)) with (-12);
            change (lut_hi (buildSigmoidLUT N)) with 12; lra).
      injection Ey as <-. lra.
    + rewrite sigmoid_table_value in Ex, Ey by (try assumption; lra).
      injection Ex as <-. injection Ey as <-.
      assert (HNR : 2 <= INR N) by (change 2 with (INR 2); now apply le_INR).
      set (step := (12 - -12) / (INR N - 1)).
      assert (Hstep : 0 < step).
      { apply Rmult_lt_0_compat; [lra | apply Rinv_0_lt_compat; lra]. }
      assert (Hi : (Int_part ((x - -12) / step) <= Int_part ((y - -12) / step))%Z).
      { apply Int_part_mono. apply Rmult_le_compat_r;
          [left; now apply Rinv_0_lt_compat | lra]. }
      apply IZR_le in Hi.
      pose proof (logistic_lipschitz
                    (-12 + IZR (Int_part ((x - -12) / step)) * step)
                    (-12 + IZR (Int_part ((y - -12) / step)) * step)
                    ltac:(nra)) as L.
      lra.
Qed.

(** One exposure of the scalar loop with a longer time adds at least as
    much. *)
Lemma excess_R_time (dmin span k e0 a1 a2 : R) (N : nat) (logT : num)
  (j : nat) (mk : option (list R)) :
  (2 <= N)%nat -> (Z.of_nat N < 2 ^ 31)%Z -> 0 <= span -> 0 < k -> a1 <= a2 ->
  Script.excess_R (Fin dmin) (Fin span) (buildSigmoidLUT N) logT j
    (Script.mkPre k (Fin e0) (Fin a1) mk)
  <= Script.excess_R (Fin dmin) (Fin span) (buildSigmoidLUT N) logT j
       (Script.mkPre k (Fin e0) (Fin a2) mk).
Proof.
  intros HN H31 Hspan Hk Ha.
  unfold Script.excess_R, Script.Dexcess_of.
  cbn [Script.pre_mask Script.pre_logTime Script.pre_E0 Script.pre_k].
  set (lm := if neq _ (Fin 1) then Fin 0 else _).
  assert (Hcase :
    (exists r, (logT + lm)%num = Fin r)
    \/ (forall a, (Fin a + logT + lm)%num = (Fin 0 + logT + lm)%num)).
  { destruct logT as [l | | |], lm as [m | | |]; cbn;
      first [left; eexists; reflexivity | right; reflexivity]. }
  destruct Hcase as [(r & Hr) | Hsame].
  - assert (E : forall a, (Fin a + logT + lm)%num = Fin (a + r)).
    { intros a. destruct logT as [l | | |], lm as [m | | |]; cbn in Hr |- *;
        try discriminate. injection Hr as <-. f_equal. lra. }
    rewrite !E, !nsub_FF, !nmul_FF.
    destruct (sigmoid_monotone N (k * (a1 + r - e0)) (k * (a2 + r - e0)) HN H31
                ltac:(nra)) as (s1 & s2 & -> & -> & Hs & Hs1).
    rewrite !nmul_FF, !nadd_FF, !nsub_FF.
    apply Rle_max_compat_l. nra.
  - rewrite (Hsame a1), (Hsame a2). lra.
Qed.

Lemma exposures_excess_sum_app (paper : Paper) (L : SigmoidLUT) (logT : num)
  (j : nat) (l1 l2 : list Script.Exposure) :
  Script.exposures_excess_sum paper L logT j (l1 ++ l2)
  = Script.exposures_excess_sum paper L logT j l1
    + Script.exposures_excess_sum paper L logT j l2.
Proof.
  unfold Script.exposures_excess_sum.
  induction l1 as [| ex rest IH]; cbn [app fold_right]; [lra |].
  rewrite IH. lra.
Qed.

Lemma precompute1_time (paper : Paper) (ex : Script.Exposure) (p : GradeParam)
  (t : R) :
  0 < baseExposure paper -> gradeParam paper (Script.grade ex) = Some p ->
  Script.time ex = Fin t -> 0 < t ->
  Script.precompute1 paper ex
  = Some (Script.mkPre (gp_k p)
            (Fin (ln (baseExposure paper) * LOG10E
                  + gp_speedShiftStops p * (LOG10E * LN2)))
            (Fin (ln t * LOG10E)) (Script.mask ex)).
Proof.
  intros Hb Hp Ht Hpos. unfold Script.precompute1. rewrite Hp, Ht.
  unfold Math_log. apply Rltb_true in Hb, Hpos. rewrite Hb, Hpos.
  now rewrite !nmul_FF, nadd_FF.
Qed.

(** X5.  In the scalar loop a longer exposure never prints lighter: when
    the time of one exposure of the list grows (both times positive),
    the final density of every pixel stays or grows. *)
Theorem pixel_density_monotone_in_time (paper : Paper) (N : nat)
  (logTrans : list R) (j : nat) (l1 l2 : list Script.Exposure)
  (ex ex' : Script.Exposure) (t t' : R) :
  valid_paper paper -> (2 <= N)%nat -> (Z.of_nat N < 2 ^ 31)%Z ->
  Script.grade ex' = Script.grade ex -> Script.mask ex' = Script.mask ex ->
  Script.time ex = Fin t -> Script.time ex' = Fin t' -> 0 < t <= t' ->
  match Script.pixel_density paper (buildSigmoidLUT N) logTrans
          (l1 ++ ex :: l2) j,
        Script.pixel_density paper (buildSigmoidLUT N) logTrans
          (l1 ++ ex' :: l2) j with
  | Some d, Some d' => nle d d' = true
  | None, None => True
  | _, _ => False
  end.
Proof.
  intros Hv HN H31 Hg Hm Ht Ht' Htt.
  pose proof Hv as (HD0 & HD & Hb & _).
  pose proof (buildSigmoidLUT_valid N HN H31) as HL.
  assert (Hnone : Script.precompute1 paper ex <> None
                  <-> Script.precompute1 paper ex' <> None).
  { unfold Script.precompute1. rewrite Hg.
    destruct (gradeParam paper (Script.grade ex)); split; intros H;
      first [discriminate | exact H]. }
  destruct (Forall_dec _ (precompute1_dec paper) (l1 ++ ex :: l2))
    as [Hok | Hbad].
  - assert (Hok' : Forall (fun e => Script.precompute1 paper e <> None)
                     (l1 ++ ex' :: l2)).
    { apply Forall_app in Hok. destruct Hok as [H1 H2].
      inversion H2 as [| ? ? Ha Hb2]; subst.
      apply Forall_app. split; [assumption |]. constructor; [| assumption].
      now apply Hnone. }
    rewrite !pixel_density_closed by (try assumption; lra).
    rewrite nle_Fin. apply Rle_min_compat_r. apply Rplus_le_compat_l.
    rewrite !exposures_excess_sum_app.
    unfold Script.exposures_excess_sum at 2 4. cbn [fold_right].
    fold (Script.exposures_excess_sum paper (buildSigmoidLUT N)
            (array_get logTrans (Z.of_nat j)) j l2).
    assert (Hone : Script.exposure_excess_R paper (buildSigmoidLUT N)
                     (array_get logTrans (Z.of_nat j)) j ex
                   <= Script.exposure_excess_R paper (buildSigmoidLUT N)
                        (array_get logTrans (Z.of_nat j)) j ex'); [| lra].
    unfold Script.exposure_excess_R.
    destruct (gradeParam paper (Script.grade ex)) as [p |] eqn:Hp.
    + rewrite (precompute1_time paper ex p t) by (try assumption; lra).
      rewrite (precompute1_time paper ex' p t')
        by (try assumption; try lra; now rewrite Hg).
      rewrite Hm. apply excess_R_time; try assumption; try lra.
      * eapply gradeParam_slope; eauto.
      * pose proof LOG10E_pos as H10.
        apply Rmult_le_compat_r; [lra |].
        destruct Htt as [H0 [Hlt | ->]]; [left; now apply ln_increasing | lra].
    + apply Forall_app in Hok. destruct Hok as [_ H2].
      inversion H2 as [| ? ? Ha _]; subst. exfalso. apply Ha.
      unfold Script.precompute1. now rewrite Hp.
  - unfold Script.pixel_density.
    rewrite (precompute_None _ _ Hbad), precompute_None; [exact I |].
    intros Hok'. apply Hbad.
    apply Forall_app in Hok'. destruct Hok' as [H1 H2].
    inversion H2 as [| ? ? Ha Hb2]; subst.
    apply Forall_app. split; [assumption |]. constructor; [| assumption].
    now apply Hnone.
Qed.

Lemma pixel_density_monotone_in_time_witness :
  match Script.pixel_density ilford_multigrade (buildSigmoidLUT 2048)
          [Script.logTrans_of 255]
          ([script_low "e01"] ++ script_low "e02" :: [script_low "e03"]) 0,
        Script.pixel_density ilford_multigrade (buildSigmoidLUT 2048)
          [Script.logTrans_of 255]
          ([script_low "e01"] ++ script_high "e02" :: [script_low "e03"]) 0
  with
  | Some d, Some d' => nle d d' = true
  | None, None => True
  | _, _ => False
  end.
Proof.
  apply (pixel_density_monotone_in_time ilford_multigrade 2048
           [Script.logTrans_of 255] 0 [script_low "e01"] [script_low "e03"]
           (script_low "e02") (script_high "e02") 0.016 16000
           ilford_multigrade_valid);
    try reflexivity; try lia; lra.
Defined.

(** *** The tone mapping of the scalar loop *)

Lemma value_of_Fin (paper : Paper) (d : R) :
  Dmin paper < Dmax paper ->
  exists v,
    Script.value_of paper (Fin d) = Fin (IZR v)
    /\ (0 <= v <= 255)%Z
    /\ v = Rround (255 * (1 - Rmax 0 (Rmin 1 ((d - Dmin paper)
                                              / (Dmax paper - Dmin paper))))).
Proof.
  intros HD. unfold Script.value_of.
  rewrite !nsub_FF, ndiv_FF, Math_min_FF, Math_max_FF by lra.
  rewrite nsub_FF, nmul_FF. cbn [Math_round].
  rewrite Math_min_FF, Math_max_FF.
  set (frac := Rmax 0 (Rmin 1 ((d - Dmin paper) / (Dmax paper - Dmin paper)))).
  assert (Hf : 0 <= frac <= 1).
  { unfold frac. split; [apply Rmax_l |].
    apply Rmax_lub; [lra | apply Rmin_l]. }
  pose proof (Int_part_bounds (255 * (1 - frac) + / 2)) as Hb.
  unfold Rround. set (v := Int_part (255 * (1 - frac) + / 2)) in *.
  assert (Hv : (0 <= v <= 255)%Z).
  { split.
    - apply Int_part_nonneg. nra.
    - apply Z.lt_succ_r, lt_IZR. rewrite succ_IZR. nra. }
  exists v. split; [| split; [exact Hv | reflexivity]].
  destruct Hv as [Hv0 Hv1]. apply IZR_le in Hv0, Hv1.
  rewrite Rmin_right, Rmax_right by lra. reflexivity.
Qed.

Lemma registered_tones (name : string) (paper : Paper) :
  papers name = Some paper ->
  Forall (fun tone => 0 < tone_r tone <= 1 /\ 0 < tone_g tone <= 1
                      /\ 0 < tone_b tone <= 1)
         [highlights (colorTone paper); midtones (colorTone paper);
          shadows (colorTone paper)].
Proof.
  assert (Hall : forall hi mid sh,
             (0 < tone_r hi <= 1 /\ 0 < tone_g hi <= 1 /\ 0 < tone_b hi <= 1) ->
             (0 < tone_r mid <= 1 /\ 0 < tone_g mid <= 1 /\ 0 < tone_b mid <= 1) ->
             (0 < tone_r sh <= 1 /\ 0 < tone_g sh <= 1 /\ 0 < tone_b sh <= 1) ->
             Forall (fun tone => 0 < tone_r tone <= 1 /\ 0 < tone_g tone <= 1
                                 /\ 0 < tone_b tone <= 1) [hi; mid; sh]).
  { intros hi mid sh H1 H2 H3.
    apply Forall_cons; [exact H1 |]. apply Forall_cons; [exact H2 |].
    apply Forall_cons; [exact H3 |]. apply Forall_nil. }
  unfold papers. intros H.
  destruct (String.eqb name "ilford-multigrade").
  { injection H as <-. apply Hall;
      cbn [highlights midtones shadows colorTone tone_r tone_g tone_b
           ilford_multigrade]; lra. }
  destruct (String.eqb name "kodak-polymax").
  { injection H as <-. apply Hall;
      cbn [highlights midtones shadows colorTone tone_r tone_g tone_b
           kodak_polymax]; lra. }
  destruct (String.eqb name "foma-variant").
  { injection H as <-. apply Hall;
      cbn [highlights midtones shadows colorTone tone_r tone_g tone_b
           foma_variant]; lra. }
  destruct (String.eqb name "oriental-seagull").
  { injection H as <-. apply Hall;
      cbn [highlights midtones shadows colorTone tone_r tone_g tone_b
           oriental_seagull]; lra. }
  discriminate.
Qed.

Lemma tone_byte (v : Z) (m : R) :
  (0 <= v <= 255)%Z -> 0 < m <= 1 ->
  (0 <= clamp_byte (ToInt32 (Fin (IZR v) * Fin m)%num) <= v)%Z.
Proof.
  intros [Hv0 Hv1] Hm. rewrite nmul_FF. cbn [ToInt32].
  pose proof (IZR_le _ _ Hv0) as H0. pose proof (IZR_le _ _ Hv1) as H1.
  assert (Hp : 0 <= IZR v * m <= IZR v) by nra.
  rewrite Rtrunc_nonneg by lra.
  pose proof (Int_part_bounds (IZR v * m)) as Hb.
  assert (Hi : (0 <= Int_part (IZR v * m) <= v)%Z).
  { split.
    - apply Int_part_nonneg. lra.
    - apply le_IZR. lra. }
  rewrite wrap32_small by lia. unfold clamp_byte. lia.
Qed.

(** X6.  The tone mapping of the scalar loop: the grey value of a final
    density is a whole number of 0..255 that does not grow with the
    density, and on a registered paper the pixel written for it is
    opaque, with every channel between 0 and the grey value. *)
Theorem scalar_tone_mapping (name : string) (paper : Paper) (d1 d2 : R) :
  papers name = Some paper -> d1 <= d2 ->
  exists v1 v2 r g b,
    Script.value_of paper (Fin d1) = Fin (IZR v1)
    /\ Script.value_of paper (Fin d2) = Fin (IZR v2)
    /\ (0 <= v2 <= v1)%Z /\ (v1 <= 255)%Z
    /\ Script.color_of paper (Fin (IZR v1)) = (r, g, b, 255%Z)
    /\ (0 <= r <= v1)%Z /\ (0 <= g <= v1)%Z /\ (0 <= b <= v1)%Z.
Proof.
  intros Hp Hd.
  destruct (papers_valid _ _ Hp) as (HD0 & HD & _).
  destruct (value_of_Fin paper d1 HD) as (v1 & E1 & Hv1 & Hr1).
  destruct (value_of_Fin paper d2 HD) as (v2 & E2 & Hv2 & Hr2).
  assert (Hmono : (v2 <= v1)%Z).
  { rewrite Hr1, Hr2. unfold Rround. apply Int_part_mono.
    assert (Hq : (d1 - Dmin paper) / (Dmax paper - Dmin paper)
                 <= (d2 - Dmin paper) / (Dmax paper - Dmin paper)).
    { apply Rmult_le_compat_r; [| lra].
      left. apply Rinv_0_lt_compat. lra. }
    assert (Hf : Rmax 0 (Rmin 1 ((d1 - Dmin paper) / (Dmax paper - Dmin paper)))
                 <= Rmax 0 (Rmin 1 ((d2 - Dmin paper)
                                    / (Dmax paper - Dmin paper)))).
    { apply Rle_max_compat_l. apply Rle_min_compat_l. exact Hq. }
    lra. }
  pose proof (registered_tones _ _ Hp) as Ht.
  apply Forall_cons_iff in Ht. destruct Ht as [Hhi Ht].
  apply Forall_cons_iff in Ht. destruct Ht as [Hmid Ht].
  apply Forall_cons_iff in Ht. destruct Ht as [Hsh _].
  exists v1, v2.
  unfold Script.color_of.
  set (tone := if ngt (Fin (IZR v1)) (Fin 192) then highlights (colorTone paper)
               else if ngt (Fin (IZR v1)) (Fin 64) then midtones (colorTone paper)
               else shadows (colorTone paper)).
  assert (Htone : 0 < tone_r tone <= 1 /\ 0 < tone_g tone <= 1
                  /\ 0 < tone_b tone <= 1).
  { unfold tone. destruct (ngt _ _); [exact Hhi |].
    destruct (ngt _ _); [exact Hmid | exact Hsh]. }
  destruct Htone as (Hr & Hg & Hb).
  eexists _, _, _. split; [exact E1 |]. split; [exact E2 |].
  split; [lia |]. split; [lia |]. split; [reflexivity |].
  split; [| split]; apply tone_byte; (lia || assumption).
Qed.

Lemma scalar_tone_mapping_witness :
  exists v1 v2 r g b,
    Script.value_of ilford_multigrade (Fin 0.5) = Fin (IZR v1)
    /\ Script.value_of ilford_multigrade (Fin 1.5) = Fin (IZR v2)
    /\ (0 <= v2 <= v1)%Z /\ (v1 <= 255)%Z
    /\ Script.color_of ilford_multigrade (Fin (IZR v1)) = (r, g, b, 255%Z)
    /\ (0 <= r <= v1)%Z /\ (0 <= g <= v1)%Z /\ (0 <= b <= v1)%Z.
Proof.
  apply (scalar_tone_mapping "ilford-multigrade" ilford_multigrade 0.5 1.5);
    [reflexivity | lra].
Defined.

(** *** The transmittance of the negative *)

(** X7.  The transmittance pass of the image loader: the inverted grey
    of a pixel of bytes lies in [0, 255], the logarithm stored for it
    lies in [-6, 0] (the guard keeps it at -6 for a black negative), it
    is 0 for a white negative, and it does not decrease with the
    inverted grey. *)
Theorem logTrans_range (r g b : Z) :
  is_byte r -> is_byte g -> is_byte b ->
  0 <= Script.inverted_of r g b <= 255
  /\ - (6) <= Script.logTrans_of (Script.inverted_of r g b) <= 0
  /\ Script.logTrans_of (Script.inverted_of 255 255 255) = - (6)
  /\ Script.logTrans_of (Script.inverted_of 0 0 0) = 0
  /\ (forall i1 i2, i1 <= i2 ->
        Script.logTrans_of i1 <= Script.logTrans_of i2).
Proof.
  intros [Hr0 Hr1] [Hg0 Hg1] [Hb0 Hb1].
  apply IZR_le in Hr0, Hr1, Hg0, Hg1, Hb0, Hb1.
  pose proof LOG10E_pos as HL. pose proof ln10_pos as H10.
  assert (Hsix : ln 1e-6 * LOG10E = - (6)).
  { rewrite ln_micro. unfold LOG10E. field. lra. }
  assert (Hmono : forall i1 i2, i1 <= i2 ->
            Script.logTrans_of i1 <= Script.logTrans_of i2).
  { intros i1 i2 Hi. unfold Script.logTrans_of.
    apply Rmult_le_compat_r; [lra |].
    assert (Hs : 0 < (if Rltb 1e-6 (i1 * (1 / 255)) then i1 * (1 / 255) else 1e-6)
                 <= (if Rltb 1e-6 (i2 * (1 / 255)) then i2 * (1 / 255) else 1e-6)).
    { do 2 rcases; lra. }
    destruct Hs as [H0 [Hlt | Heq]];
      [left; now apply ln_increasing | rewrite Heq; lra]. }
  assert (Hblack : Script.logTrans_of 0 = - (6)).
  { unfold Script.logTrans_of. rdec. exact Hsix. }
  assert (Hinv : 0 <= Script.inverted_of r g b <= 255).
  { unfold Script.inverted_of, Script.gray_of. lra. }
  split; [exact Hinv |]. split; [| split; [| split; [| exact Hmono]]].
  - split.
    + rewrite <- Hblack. apply Hmono. lra.
    + rewrite <- logTrans_of_white. apply Hmono. lra.
  - replace (Script.inverted_of 255 255 255) with 0
      by (unfold Script.inverted_of, Script.gray_of; lra).
    exact Hblack.
  - replace (Script.inverted_of 0 0 0) with 255
      by (unfold Script.inverted_of, Script.gray_of; lra).
    exact logTrans_of_white.
Qed.

Lemma logTrans_range_witness :
  0 <= Script.inverted_of 10 20 30 <= 255
  /\ - (6) <= Script.logTrans_of (Script.inverted_of 10 20 30) <= 0.
Proof.
  destruct (logTrans_range 10 20 30) as (H1 & H2 & _);
    try (unfold is_byte; lia).
  split; assumption.
Defined.

(** *** The strokes of the mask brush *)

(** X8.  The stamps of a stroke segment of script.js, for a positive
    brush radius: the loop ends; the first stamp is at the last point;
    every stamp lies on the segment from the last point to the current
    one; and the last stamp is less than a quarter of the radius short
    of the current point. *)
Theorem stroke_stamps_on_segment (lastX lastY x y radius : R) :
  0 < radius ->
  exists pts,
    Script.segment_points lastX lastY x y radius = Some pts
    /\ hd_error pts = Some (lastX, lastY)
    /\ Forall (fun p =>
                 exists f, 0 <= f <= 1
                           /\ p = (lastX + (x - lastX) * f,
                                   lastY + (y - lastY) * f)) pts
    /\ exists f,
         last pts (lastX, lastY)
         = (lastX + (x - lastX) * f, lastY + (y - lastY) * f)
         /\ 0 <= f <= 1
         /\ sqrt ((x - lastX) * (x - lastX) + (y - lastY) * (y - lastY))
            * (1 - f) < radius * 0.25.
Proof.
  intros Hr. unfold Script.segment_points.
  set (dx := x - lastX). set (dy := y - lastY).
  set (dist := sqrt (dx * dx + dy * dy)).
  set (step := radius * 0.25).
  assert (Hstep : 0 < step) by (unfold step; lra).
  assert (Hdist : 0 <= dist) by apply sqrt_pos.
  replace (Rleb step 0) with false by (symmetry; apply Rleb_false; lra).
  set (n := Z.to_nat (Int_part (dist / step))).
  assert (Hq : dist / step * step = dist) by (apply div_mul_cancel; lra).
  assert (Hq0 : 0 <= dist / step).
  { apply Rmult_le_pos; [lra | left; now apply Rinv_0_lt_compat]. }
  pose proof (Int_part_bounds (dist / step)) as Hb.
  pose proof (Int_part_nonneg _ Hq0) as Hn0.
  assert (HnR : INR n = IZR (Int_part (dist / step))).
  { unfold n. rewrite INR_IZR_INZ, Z2Nat.id by assumption. reflexivity. }
  assert (Hf : forall i, (i <= n)%nat ->
             0 <= (if Reqb dist 0 then 0 else INR i * step / dist) <= 1).
  { intros i Hi. rcases; [lra |].
    apply le_INR in Hi. pose proof (pos_INR i) as Hi0.
    assert (Hd : 0 < dist) by lra.
    assert (Ht : 0 <= INR i * step <= dist) by nra.
    split.
    - apply Rmult_le_pos; [lra | left; now apply Rinv_0_lt_compat].
    - apply Rmult_le_reg_r with dist; [assumption |].
      rewrite div_mul_cancel by lra. lra. }
  eexists. split; [reflexivity |]. split; [| split].
  - cbn [seq map hd_error]. do 2 f_equal.
    + rcases; [lra |]. change (INR 0) with 0. unfold Rdiv. lra.
    + rcases; [lra |]. change (INR 0) with 0. unfold Rdiv. lra.
  - apply Forall_forall. intros p Hp. apply in_map_iff in Hp.
    destruct Hp as (i & <- & Hi). apply in_seq in Hi.
    exists (if Reqb dist 0 then 0 else INR i * step / dist).
    split; [apply Hf; lia | reflexivity].
  - exists (if Reqb dist 0 then 0 else INR n * step / dist).
    split; [| split; [apply Hf; lia |]].
    + rewrite seq_S, map_app. cbn [map]. rewrite last_last. reflexivity.
    + rcases; [lra |].
      replace (dist * (1 - INR n * step / dist)) with (dist - INR n * step)
        by (field; lra).
      rewrite HnR. nra.
Qed.

Lemma stroke_stamps_on_segment_witness :
  exists pts,
    Script.segment_points 0 0 3 4 2 = Some pts
    /\ hd_error pts = Some (0, 0)
    /\ Forall (fun p =>
                 exists f, 0 <= f <= 1
                           /\ p = (0 + (3 - 0) * f, 0 + (4 - 0) * f)) pts.
Proof.
  destruct (stroke_stamps_on_segment 0 0 3 4 2 ltac:(lra))
    as (pts & E & Hh & Hall & _).
  exists pts. repeat split; assumption.
Defined.

(** X9.  The wheel keeps the brush usable: after a wheel event the brush
    size is in [1, 100] and the feather in [0, 100], each at most 5 from
    a value that already was in range; and with a brush size of at
    least 1 on a mask canvas that has pixels, the radius is positive,
    so that the stamp loop of a stroke ends. *)
Theorem wheel_keeps_brush_usable (brushSize brushFeather deltaY : R)
  (w h : nat) (lastX lastY x y : R) :
  (0 < w)%nat -> (0 < h)%nat ->
  1 <= Script.wheel_brushSize brushSize deltaY <= 100
  /\ 0 <= Script.wheel_brushFeather brushFeather deltaY <= 100
  /\ (1 <= brushSize <= 100 ->
      Rabs (Script.wheel_brushSize brushSize deltaY - brushSize) <= 5)
  /\ (0 <= brushFeather <= 100 ->
      Rabs (Script.wheel_brushFeather brushFeather deltaY - brushFeather) <= 5)
  /\ 0 < Script.brush_radius (Script.wheel_brushSize brushSize deltaY) w h
  /\ Script.segment_points lastX lastY x y
       (Script.brush_radius (Script.wheel_brushSize brushSize deltaY) w h)
     <> None.
Proof.
  intros Hw Hh.
  assert (Hsign : -1 <= Script.Math_sign deltaY <= 1).
  { unfold Script.Math_sign. rcases; lra. }
  assert (Hs : 1 <= Script.wheel_brushSize brushSize deltaY <= 100).
  { unfold Script.wheel_brushSize. split; [apply Rmax_l |].
    apply Rmax_lub; [lra | apply Rmin_l]. }
  assert (Hf : 0 <= Script.wheel_brushFeather brushFeather deltaY <= 100).
  { unfold Script.wheel_brushFeather. split; [apply Rmax_l |].
    apply Rmax_lub; [lra | apply Rmin_l]. }
  assert (Hrad : 0 < Script.brush_radius
                       (Script.wheel_brushSize brushSize deltaY) w h).
  { unfold Script.brush_radius. apply Rmult_lt_0_compat; [lra |].
    apply Rmin_glb_lt; change 0 with (INR 0); now apply lt_INR. }
  split; [exact Hs |]. split; [exact Hf |]. split; [| split; [| split]].
  - intros Hb. unfold Script.wheel_brushSize.
    apply Rabs_le. unfold Rmax, Rmin.
    repeat destruct Rle_dec; lra.
  - intros Hb. unfold Script.wheel_brushFeather.
    apply Rabs_le. unfold Rmax, Rmin.
    repeat destruct Rle_dec; lra.
  - exact Hrad.
  - unfold Script.segment_points.
    replace (Rleb _ 0) with false; [discriminate |].
    symmetry. apply Rleb_false. lra.
Qed.

Lemma wheel_keeps_brush_usable_witness :
  1 <= Script.wheel_brushSize 3 100 <= 100
  /\ Script.segment_points 0 0 3 4
       (Script.brush_radius (Script.wheel_brushSize 3 100) 640 480)
     <> None.
Proof.
  destruct (wheel_keeps_brush_usable 3 10 100 640 480 0 0 3 4)
    as (H1 & _ & _ & _ & _ & H2); try lia.
  split; assumption.
Defined.

(** *** The undo history of the darkroom module *)

Lemma selectExposure_fields (s : Darkroom.Editor) (i : string) :
  Darkroom.ed_exposures (Darkroom.selectExposure s i) = Darkroom.ed_exposures s
  /\ Darkroom.ed_paperType (Darkroom.selectExposure s i)
     = Darkroom.ed_paperType s
  /\ Darkroom.history (Darkroom.selectExposure s i) = Darkroom.history s
  /\ Darkroom.redoStack (Darkroom.selectExposure s i) = Darkroom.redoStack s
  /\ Darkroom.loadingProjectData (Darkroom.selectExposure s i)
     = Darkroom.loadingProjectData s
  /\ Darkroom.ed_negativeImage (Darkroom.selectExposure s i)
     = Darkroom.ed_negativeImage s.
Proof.
  unfold Darkroom.selectExposure.
  destruct (Darkroom.findIndex i (Darkroom.ed_exposures s)); cbn; auto 10.
Qed.

Lemma restore_fields (s : Darkroom.Editor) (st : Darkroom.Snapshot)
  (h r : list Darkroom.Snapshot) :
  Darkroom.ed_exposures (Darkroom.restore s st h r) = Darkroom.snap_exposures st
  /\ Darkroom.ed_paperType (Darkroom.restore s st h r)
     = Darkroom.snap_paperType st
  /\ Darkroom.history (Darkroom.restore s st h r) = h
  /\ Darkroom.redoStack (Darkroom.restore s st h r) = r
  /\ Darkroom.loadingProjectData (Darkroom.restore s st h r)
     = Darkroom.loadingProjectData s
  /\ Darkroom.ed_negativeImage (Darkroom.restore s st h r)
     = Darkroom.ed_negativeImage s.
Proof.
  unfold Darkroom.restore.
  destruct (Darkroom.truthy_id _) as [i |].
  - destruct (selectExposure_fields
                (Darkroom.with_stacks
                   (Darkroom.with_project s (Darkroom.snap_paperType st)
                      (Darkroom.snap_exposures st)
                      (Darkroom.selectedExposureId s)) h r) i)
      as (-> & -> & -> & -> & -> & ->).
    cbn. auto 10.
  - destruct (Darkroom.snap_exposures st) as [| ex rest].
    + cbn. auto 10.
    + destruct (selectExposure_fields
                  (Darkroom.with_stacks
                     (Darkroom.with_project s (Darkroom.snap_paperType st)
                        (ex :: rest) (Darkroom.selectedExposureId s)) h r)
                  (Darkroom.id ex))
        as (-> & -> & -> & -> & -> & ->).
      cbn. auto 10.
Qed.

Lemma length_removelast {A : Type} (l : list A) :
  List.length (removelast l) = (List.length l - 1)%nat.
Proof.
  rewrite removelast_firstn_len, length_firstn. lia.
Qed.

(** The history after [saveState]: the states held before, the oldest
    dropped when there were [maxHistoryLength] of them or more, then the
    state saved. *)
Lemma saveState_stacks (s : Darkroom.Editor) :
  Darkroom.redoStack (Darkroom.saveState s) = []
  /\ Darkroom.history (Darkroom.saveState s)
     = (if (Darkroom.maxHistoryLength <=? List.length (Darkroom.history s))%nat
        then tl (Darkroom.history s) else Darkroom.history s)
       ++ [Darkroom.snapshot s]
  /\ Darkroom.ed_exposures (Darkroom.saveState s) = Darkroom.ed_exposures s
  /\ Darkroom.ed_paperType (Darkroom.saveState s) = Darkroom.ed_paperType s
  /\ Darkroom.selectedExposureId (Darkroom.saveState s)
     = Darkroom.selectedExposureId s
  /\ Darkroom.loadingProjectData (Darkroom.saveState s)
     = Darkroom.loadingProjectData s.
Proof.
  unfold Darkroom.saveState, Darkroom.with_stacks.
  cbn [Darkroom.redoStack Darkroom.history Darkroom.ed_exposures
       Darkroom.ed_paperType Darkroom.selectedExposureId
       Darkroom.loadingProjectData].
  split; [reflexivity |]. split; [| repeat split].
  rewrite length_app. cbn [List.length].
  destruct (Nat.leb_spec Darkroom.maxHistoryLength
              (List.length (Darkroom.history s))) as [H | H].
  - replace (Darkroom.maxHistoryLength
             <? List.length (Darkroom.history s) + 1)%nat with true
      by (symmetry; apply Nat.ltb_lt; lia).
    destruct (Darkroom.history s);
      [cbn in H; unfold Darkroom.maxHistoryLength in H; lia | reflexivity].
  - replace (Darkroom.maxHistoryLength
             <? List.length (Darkroom.history s) + 1)%nat with false
      by (symmetry; apply Nat.ltb_ge; lia).
    reflexivity.
Qed.

Lemma saveState_bounded (s : Darkroom.Editor) :
  (List.length (Darkroom.history s) <= Darkroom.maxHistoryLength)%nat ->
  (List.length (Darkroom.history (Darkroom.saveState s))
   + List.length (Darkroom.redoStack (Darkroom.saveState s))
   <= Darkroom.maxHistoryLength)%nat.
Proof.
  intros H. destruct (saveState_stacks s) as (-> & -> & _).
  rewrite length_app. cbn [List.length].
  destruct (Nat.leb_spec Darkroom.maxHistoryLength
              (List.length (Darkroom.history s))) as [H1 | H1]; [| lia].
  destruct (Darkroom.history s); cbn [tl List.length] in *;
    unfold Darkroom.maxHistoryLength in *; lia.
Qed.

Lemma undo_sum (s : Darkroom.Editor) :
  (List.length (Darkroom.history (Darkroom.undo s))
   + List.length (Darkroom.redoStack (Darkroom.undo s))
   = List.length (Darkroom.history s)
     + List.length (Darkroom.redoStack s))%nat.
Proof.
  unfold Darkroom.undo. destruct (Darkroom.history s) as [| a h] eqn:E.
  - now rewrite E.
  - destruct (restore_fields s (last (a :: h) (Darkroom.snapshot s))
                (removelast (a :: h))
                (Darkroom.redoStack s ++ [Darkroom.snapshot s]))
      as (_ & _ & -> & -> & _).
    rewrite length_removelast, length_app. cbn [List.length]. lia.
Qed.

Lemma redo_sum (s : Darkroom.Editor) :
  (List.length (Darkroom.history (Darkroom.redo s))
   + List.length (Darkroom.redoStack (Darkroom.redo s))
   = List.length (Darkroom.history s)
     + List.length (Darkroom.redoStack s))%nat.
Proof.
  unfold Darkroom.redo. destruct (Darkroom.redoStack s) as [| a h] eqn:E.
  - now rewrite E.
  - destruct (restore_fields s (last (a :: h) (Darkroom.snapshot s))
                (Darkroom.history s ++ [Darkroom.snapshot s])
                (removelast (a :: h)))
      as (_ & _ & -> & -> & _).
    rewrite length_removelast, length_app. cbn [List.length]. lia.
Qed.

Lemma addExposure_stacks (now : string) (s : Darkroom.Editor) :
  Darkroom.history (Darkroom.addExposure now s) = Darkroom.history s
  /\ Darkroom.redoStack (Darkroom.addExposure now s) = Darkroom.redoStack s.
Proof.
  unfold Darkroom.addExposure.
  destruct (selectExposure_fields
              (Darkroom.with_exposures s
                 (Darkroom.ed_exposures s
                  ++ [Darkroom.mkExposure now (Fin 16) 5
                        match Darkroom.ed_negativeImage s with
                        | Some (w, h) => Some (Darkroom.createImageData w h)
                        | None => None
                        end])) now) as (_ & _ & -> & -> & _).
  split; reflexivity.
Qed.

Lemma moveExposure_stacks (s : Darkroom.Editor) (i d : string) :
  Darkroom.history (Darkroom.moveExposure s i d)
  = Darkroom.history (Darkroom.saveState s)
  /\ Darkroom.redoStack (Darkroom.moveExposure s i d)
     = Darkroom.redoStack (Darkroom.saveState s).
Proof.
  unfold Darkroom.moveExposure.
  destruct (Darkroom.findIndex i _); [| split; reflexivity].
  destruct (_ && _)%bool; [split; reflexivity |].
  destruct (_ && _)%bool; split; reflexivity.
Qed.

Lemma deleteExposure_stacks (now : string) (s : Darkroom.Editor) (i : string) :
  Darkroom.history (Darkroom.deleteExposure now s i)
  = Darkroom.history (Darkroom.saveState s)
  /\ Darkroom.redoStack (Darkroom.deleteExposure now s i)
     = Darkroom.redoStack (Darkroom.saveState s).
Proof.
  unfold Darkroom.deleteExposure.
  destruct (Darkroom.findIndex i _) as [index |]; [| split; reflexivity].
  set (s1 := Darkroom.with_exposures (Darkroom.saveState s) _).
  set (s2 := match Darkroom.selectedExposureId s1 with
             | Some sel => _
             | None => s1
             end).
  assert (H2 : Darkroom.history s2 = Darkroom.history (Darkroom.saveState s)
               /\ Darkroom.redoStack s2
                  = Darkroom.redoStack (Darkroom.saveState s)).
  { unfold s2. destruct (Darkroom.selectedExposureId s1) as [sel |];
      [| split; reflexivity].
    destruct (String.eqb sel i); [| split; reflexivity].
    destruct (Darkroom.ed_exposures s1) as [| ex rest]; [split; reflexivity |].
    destruct (selectExposure_fields s1 (Darkroom.id ex))
      as (_ & _ & -> & -> & _).
    split; reflexivity. }
  destruct (_ && _)%bool; [| exact H2].
  destruct (addExposure_stacks now s2) as [-> ->]. exact H2.
Qed.

Lemma cloneExposure_stacks (now : string) (s : Darkroom.Editor) (i : string) :
  Darkroom.history (Darkroom.cloneExposure now s i)
  = Darkroom.history (Darkroom.saveState s)
  /\ Darkroom.redoStack (Darkroom.cloneExposure now s i)
     = Darkroom.redoStack (Darkroom.saveState s).
Proof.
  unfold Darkroom.cloneExposure.
  destruct (find _ _) as [src |]; [| split; reflexivity].
  match goal with
  | |- context [Darkroom.selectExposure ?a ?b] =>
      destruct (selectExposure_fields a b) as (_ & _ & -> & -> & _)
  end.
  split; reflexivity.
Qed.

(** X10.  The two stacks of the history stay bounded: whatever the user
    does (saving a state, undoing, redoing, moving, deleting, cloning
    or adding an exposure, editing the project), the history and the
    redo stack together never hold more than [maxHistoryLength] = 20
    states. *)
Theorem history_is_bounded (ops : list Darkroom.EditorOp) :
  forall s,
  (List.length (Darkroom.history s) + List.length (Darkroom.redoStack s)
   <= Darkroom.maxHistoryLength)%nat ->
  (List.length (Darkroom.history (Darkroom.run_ops s ops))
   + List.length (Darkroom.redoStack (Darkroom.run_ops s ops))
   <= Darkroom.maxHistoryLength)%nat.
Proof.
  unfold Darkroom.run_ops.
  induction ops as [| op ops IH]; intros s H; cbn [fold_left]; [exact H |].
  apply IH.
  assert (Hsave : (List.length (Darkroom.history (Darkroom.saveState s))
                   + List.length (Darkroom.redoStack (Darkroom.saveState s))
                   <= Darkroom.maxHistoryLength)%nat)
    by (apply saveState_bounded; lia).
  destruct op as [| | | i d | now i | now i | now | p l sel]; cbn [Darkroom.run_op].
  - exact Hsave.
  - rewrite undo_sum. exact H.
  - rewrite redo_sum. exact H.
  - destruct (moveExposure_stacks s i d) as [-> ->]. exact Hsave.
  - destruct (deleteExposure_stacks now s i) as [-> ->]. exact Hsave.
  - destruct (cloneExposure_stacks now s i) as [-> ->]. exact Hsave.
  - destruct (addExposure_stacks now (Darkroom.saveState s)) as [-> ->].
    exact Hsave.
  - exact H.
Qed.

Lemma history_is_bounded_witness :
  (List.length (Darkroom.history (Darkroom.run_ops example_editor example_session))
   + List.length (Darkroom.redoStack
                    (Darkroom.run_ops example_editor example_session))
   <= 20)%nat.
Proof.
  apply (history_is_bounded example_session example_editor).
  cbn. lia.
Defined.

Lemma selectExposure_found (s : Darkroom.Editor) (i : string) :
  Darkroom.findIndex i (Darkroom.ed_exposures s) <> None ->
  Darkroom.selectExposure s i = Darkroom.with_selected s (Some i).
Proof.
  intros H. unfold Darkroom.selectExposure.
  destruct (Darkroom.findIndex i (Darkroom.ed_exposures s));
    [reflexivity | contradiction].
Qed.

(** Restoring a state whose selection names one of its exposures. *)
Lemma restore_selected (s : Darkroom.Editor) (st : Darkroom.Snapshot)
  (h r : list Darkroom.Snapshot) :
  selection_ok (Darkroom.snap_exposures st)
    (Darkroom.snap_selectedExposureId st) ->
  Darkroom.restore s st h r
  = Darkroom.mkEditor (Darkroom.ed_negativeImage s)
      (Darkroom.snap_paperType st) (Darkroom.snap_exposures st)
      (Darkroom.snap_selectedExposureId st)
      (Darkroom.loadingProjectData s) h r.
Proof.
  intros (i & Hsel & Hne & Hfound). unfold Darkroom.restore.
  rewrite Hsel. cbn [Darkroom.truthy_id].
  apply String.eqb_neq in Hne. rewrite Hne.
  rewrite selectExposure_found by exact Hfound. reflexivity.
Qed.

(** X11.  [undo] gives back the state that [saveState] saved: after a
    state is saved and the project is changed in any way, one [undo]
    restores the exposures and the paper of the saved state, puts the
    changed state on the redo stack and, when the history was not full,
    leaves the history as it was before the save; the selection comes
    back too when it named an exposure of the list. *)
Theorem undo_restores_saved_state (s : Darkroom.Editor) (paperType : string)
  (exposures : list Darkroom.Exposure) (selected : option string) :
  let s' := Darkroom.undo
              (Darkroom.with_project (Darkroom.saveState s)
                 paperType exposures selected) in
  Darkroom.ed_exposures s' = Darkroom.ed_exposures s
  /\ Darkroom.ed_paperType s' = Darkroom.ed_paperType s
  /\ Darkroom.redoStack s' = [Darkroom.mkSnapshot exposures paperType selected]
  /\ ((List.length (Darkroom.history s) < Darkroom.maxHistoryLength)%nat ->
      Darkroom.history s' = Darkroom.history s)
  /\ (selection_ok (Darkroom.ed_exposures s) (Darkroom.selectedExposureId s) ->
      Darkroom.selectedExposureId s' = Darkroom.selectedExposureId s).
Proof.
  intros s'. subst s'.
  destruct (saveState_stacks s) as (Hr & Hh & _).
  set (h0 := if (Darkroom.maxHistoryLength
                 <=? List.length (Darkroom.history s))%nat
             then tl (Darkroom.history s) else Darkroom.history s) in *.
  unfold Darkroom.undo.
  cbn [Darkroom.with_project Darkroom.history Darkroom.redoStack].
  rewrite Hh, Hr.
  destruct (h0 ++ [Darkroom.snapshot s]) as [| a l] eqn:E;
    [destruct h0; discriminate |].
  rewrite <- E. rewrite last_last, removelast_last.
  match goal with
  | |- context [Darkroom.restore ?a ?b ?c ?d] =>
      pose proof (restore_fields a b c d) as (H1 & H2 & H3 & H4 & _);
      pose proof (restore_selected a b c d) as H5
  end.
  split; [exact H1 |]. split; [exact H2 |]. split; [exact H4 |]. split.
  - intros Hlen. rewrite H3. unfold h0.
    replace (Darkroom.maxHistoryLength <=? List.length (Darkroom.history s))%nat
      with false by (symmetry; apply Nat.leb_gt; exact Hlen).
    reflexivity.
  - intros Hok. rewrite H5 by exact Hok. reflexivity.
Qed.

Lemma example_selection_ok :
  selection_ok (Darkroom.ed_exposures example_editor)
    (Darkroom.selectedExposureId example_editor).
Proof.
  exists "1730500000000"%string. repeat split; discriminate.
Defined.

Lemma undo_restores_saved_state_witness :
  Darkroom.ed_exposures
    (Darkroom.undo
       (Darkroom.with_project (Darkroom.saveState example_editor)
          "kodak-polymax" [] None))
  = example_exposures
  /\ Darkroom.selectedExposureId
       (Darkroom.undo
          (Darkroom.with_project (Darkroom.saveState example_editor)
             "kodak-polymax" [] None))
     = Some "1730500000000"%string.
Proof.
  destruct (undo_restores_saved_state example_editor "kodak-polymax" [] None)
    as (H1 & _ & _ & _ & H5).
  split; [exact H1 | exact (H5 example_selection_ok)].
Defined.

Lemma snapshot_mkEditor (n : option (Z * Z)) (p : string)
  (e : list Darkroom.Exposure) (sel : option string) (ld : bool)
  (h r : list Darkroom.Snapshot) :
  Darkroom.snapshot (Darkroom.mkEditor n p e sel ld h r)
  = Darkroom.mkSnapshot e p sel.
Proof. reflexivity. Qed.

(** X12.  [redo] takes back an [undo]: when there is a state to go back
    to, and the selection of the current state and of that state each
    name an exposure of their list, [undo] followed by [redo] gives the
    state before, stacks included. *)
Theorem redo_undoes_undo (s : Darkroom.Editor) :
  Darkroom.history s <> [] ->
  selection_ok (Darkroom.ed_exposures s) (Darkroom.selectedExposureId s) ->
  selection_ok
    (Darkroom.snap_exposures (last (Darkroom.history s) (Darkroom.snapshot s)))
    (Darkroom.snap_selectedExposureId
       (last (Darkroom.history s) (Darkroom.snapshot s))) ->
  Darkroom.redo (Darkroom.undo s) = s.
Proof.
  intros Hh Hs Hst.
  pose proof (app_removelast_last (Darkroom.snapshot s) Hh) as Hsplit.
  remember (last (Darkroom.history s) (Darkroom.snapshot s)) as st eqn:Est.
  remember (removelast (Darkroom.history s)) as h eqn:Eh.
  unfold Darkroom.undo.
  destruct (Darkroom.history s) as [| a l] eqn:E; [contradiction |].
  rewrite <- Est, <- Eh.
  rewrite restore_selected by exact Hst.
  unfold Darkroom.redo. cbn [Darkroom.redoStack].
  destruct (Darkroom.redoStack s ++ [Darkroom.snapshot s]) as [| b r] eqn:Er;
    [destruct (Darkroom.redoStack s); discriminate |].
  rewrite <- Er. rewrite last_last, removelast_last.
  rewrite restore_selected by exact Hs.
  rewrite snapshot_mkEditor.
  cbn [Darkroom.ed_negativeImage Darkroom.loadingProjectData Darkroom.history
       Darkroom.ed_exposures Darkroom.ed_paperType
       Darkroom.selectedExposureId Darkroom.snap_paperType
       Darkroom.snap_exposures Darkroom.snap_selectedExposureId].
  replace (Darkroom.mkSnapshot (Darkroom.snap_exposures st)
             (Darkroom.snap_paperType st)
             (Darkroom.snap_selectedExposureId st)) with st
    by (destruct st; reflexivity).
  rewrite <- Hsplit. rewrite <- E. destruct s; reflexivity.
Qed.

Lemma redo_undoes_undo_witness :
  Darkroom.redo (Darkroom.undo (Darkroom.saveState example_editor))
  = Darkroom.saveState example_editor.
Proof.
  apply redo_undoes_undo.
  - discriminate.
  - exact example_selection_ok.
  - exact example_selection_ok.
Defined.

(** *** Moving, deleting and cloning exposures *)

Lemma swap_at_perm {A : Type} (l : list A) :
  forall i, Permutation l (swap_at i l).
Proof.
  induction l as [| a l IH]; intros [| i]; cbn [swap_at];
    try apply Permutation_refl.
  - destruct l as [| b rest]; [apply Permutation_refl | apply perm_swap].
  - apply perm_skip, IH.
Qed.

(** One [undo] after a save: the exposures and the paper of the state
    saved come back, whatever was done to the project since. *)
Lemma undo_of_saved (s s2 : Darkroom.Editor) :
  Darkroom.history s2 = Darkroom.history (Darkroom.saveState s) ->
  Darkroom.ed_exposures (Darkroom.undo s2) = Darkroom.ed_exposures s
  /\ Darkroom.ed_paperType (Darkroom.undo s2) = Darkroom.ed_paperType s.
Proof.
  intros H. destruct (saveState_stacks s) as (_ & Hh & _).
  rewrite Hh in H. unfold Darkroom.undo. rewrite H.
  match type of H with
  | _ = ?h0 ++ _ =>
      destruct (h0 ++ [Darkroom.snapshot s]) as [| a l] eqn:E;
        [destruct h0; discriminate |]; rewrite <- E
  end.
  rewrite last_last.
  match goal with
  | |- context [Darkroom.restore ?a ?b ?c ?d] =>
      destruct (restore_fields a b c d) as (-> & -> & _)
  end.
  split; reflexivity.
Qed.

Lemma moveExposure_exposures (s : Darkroom.Editor) (i d : string) :
  Darkroom.ed_exposures (Darkroom.moveExposure s i d) = Darkroom.ed_exposures s
  \/ exists n, Darkroom.ed_exposures (Darkroom.moveExposure s i d)
               = swap_at n (Darkroom.ed_exposures s).
Proof.
  unfold Darkroom.moveExposure.
  destruct (saveState_stacks s) as (_ & _ & He & _).
  destruct (Darkroom.findIndex i _) as [index |]; [| left; exact He].
  destruct (_ && _)%bool; [right; eexists; unfold Darkroom.with_exposures, Darkroom.with_project;
     cbn [Darkroom.ed_exposures]; rewrite He; reflexivity |].
  destruct (_ && _)%bool; [right; eexists; unfold Darkroom.with_exposures, Darkroom.with_project;
     cbn [Darkroom.ed_exposures]; rewrite He; reflexivity |].
  left. exact He.
Qed.

(** X13.  [moveExposure] only reorders, whatever the project: the
    exposures afterwards are a permutation of the exposures before, the
    paper is the same, the selection is the same, and one [undo]
    afterwards brings the old order back; and when the project has at
    most twelve exposures the shader gives every pixel the same density
    as before. *)
Theorem moveExposure_reorders (s : Darkroom.Editor)
  (exposureId direction : string) :
  let s' := Darkroom.moveExposure s exposureId direction in
  Permutation (Darkroom.ed_exposures s) (Darkroom.ed_exposures s')
  /\ Darkroom.ed_paperType s' = Darkroom.ed_paperType s
  /\ Darkroom.selectedExposureId s' = Darkroom.selectedExposureId s
  /\ Darkroom.ed_exposures (Darkroom.undo s') = Darkroom.ed_exposures s
  /\ (forall (paper : Paper) (L : SigmoidLUT) (r8 : list Z) (j : nat),
        Dmin paper <= Dmax paper ->
        (List.length (Darkroom.ed_exposures s) <= 12)%nat ->
        Darkroom.render_density paper (Darkroom.ed_exposures s') L r8 j
        = Darkroom.render_density paper (Darkroom.ed_exposures s) L r8 j).
Proof.
  intros s'. subst s'.
  assert (Hperm : Permutation (Darkroom.ed_exposures s)
                    (Darkroom.ed_exposures
                       (Darkroom.moveExposure s exposureId direction))).
  { destruct (moveExposure_exposures s exposureId direction) as [-> | (n & ->)];
      [apply Permutation_refl | apply swap_at_perm]. }
  split; [exact Hperm |]. split; [| split; [| split]].
  - unfold Darkroom.moveExposure.
    destruct (Darkroom.findIndex exposureId _); [| reflexivity].
    destruct (_ && _)%bool; [reflexivity |].
    destruct (_ && _)%bool; reflexivity.
  - unfold Darkroom.moveExposure.
    destruct (Darkroom.findIndex exposureId _); [| reflexivity].
    destruct (_ && _)%bool; [reflexivity |].
    destruct (_ && _)%bool; reflexivity.
  - apply (undo_of_saved s).
    apply (moveExposure_stacks s exposureId direction).
  - intros paper L r8 j HD Hlen. symmetry.
    apply render_density_perm; assumption.
Qed.

Lemma moveExposure_reorders_witness :
  Permutation example_exposures
    (Darkroom.ed_exposures
       (Darkroom.moveExposure example_editor "1730500000001" "up"))
  /\ Darkroom.ed_exposures
       (Darkroom.undo
          (Darkroom.moveExposure example_editor "1730500000001" "up"))
     = example_exposures
  /\ Darkroom.render_density ilford_multigrade
       (Darkroom.ed_exposures
          (Darkroom.moveExposure example_editor "1730500000001" "up"))
       Darkroom.makeSigmoidLUT [255; 255]%Z 0
     = Darkroom.render_density ilford_multigrade example_exposures
         Darkroom.makeSigmoidLUT [255; 255]%Z 0.
Proof.
  destruct (moveExposure_reorders example_editor "1730500000001" "up")
    as (H1 & _ & _ & H4 & H5).
  split; [exact H1 |]. split; [exact H4 |].
  apply H5; [cbn; lra | cbn; lia].
Defined.

Lemma option_map_not_None {A B : Type} (f : A -> B) (o : option A) :
  option_map f o <> None <-> o <> None.
Proof. destruct o; cbn; split; congruence. Qed.

Lemma findIndex_remove_at (sel i : string) (l : list Darkroom.Exposure) :
  forall index,
  Darkroom.findIndex i l = Some index -> sel <> i ->
  Darkroom.findIndex sel l <> None ->
  Darkroom.findIndex sel (remove_at index l) <> None.
Proof.
  induction l as [| ex rest IH]; intros index Hi Hne Hsel;
    [discriminate Hi |].
  cbn [Darkroom.findIndex] in Hi, Hsel.
  destruct (String.eqb (Darkroom.id ex) i) eqn:Ei.
  - injection Hi as <-. cbn [remove_at].
    apply String.eqb_eq in Ei.
    destruct (String.eqb (Darkroom.id ex) sel) eqn:Es.
    + apply String.eqb_eq in Es. congruence.
    + now apply option_map_not_None in Hsel.
  - destruct (Darkroom.findIndex i rest) as [n |] eqn:En; [| discriminate].
    injection Hi as <-. cbn [remove_at Darkroom.findIndex].
    destruct (String.eqb (Darkroom.id ex) sel); [discriminate |].
    apply option_map_not_None. apply option_map_not_None in Hsel.
    now apply IH.
Qed.

Lemma findIndex_app_last (now : string) (l : list Darkroom.Exposure)
  (ex : Darkroom.Exposure) :
  Darkroom.id ex = now -> Darkroom.findIndex now (l ++ [ex]) <> None.
Proof.
  intros H. induction l as [| a l IH]; cbn [app Darkroom.findIndex].
  - rewrite H, String.eqb_refl. discriminate.
  - destruct (String.eqb (Darkroom.id a) now); [discriminate |].
    now apply option_map_not_None.
Qed.

Lemma findIndex_app_l (sel : string) (l l' : list Darkroom.Exposure) :
  Darkroom.findIndex sel l <> None ->
  Darkroom.findIndex sel (l ++ l') <> None.
Proof.
  induction l as [| a l IH]; cbn [app Darkroom.findIndex]; [contradiction |].
  destruct (String.eqb (Darkroom.id a) sel); [discriminate |].
  intros H. apply option_map_not_None. apply option_map_not_None in H.
  now apply IH.
Qed.

Lemma remove_at_length {A : Type} (l : list A) :
  forall i, (i < List.length l)%nat ->
  S (List.length (remove_at i l)) = List.length l.
Proof.
  induction l as [| a l IH]; intros [| i] H; cbn [remove_at List.length] in *;
    try lia.
  rewrite IH by lia. reflexivity.
Qed.

Lemma findIndex_lt (i : string) (l : list Darkroom.Exposure) :
  forall index,
  Darkroom.findIndex i l = Some index ->
  (index < List.length l)%nat
  /\ exists ex, nth_error l index = Some ex /\ Darkroom.id ex = i.
Proof.
  induction l as [| ex rest IH]; intros index H; [discriminate H |].
  cbn [Darkroom.findIndex] in H.
  destruct (String.eqb (Darkroom.id ex) i) eqn:E.
  - injection H as <-. apply String.eqb_eq in E.
    split; [cbn; lia | exists ex; now split].
  - destruct (Darkroom.findIndex i rest) as [n |]; [| discriminate].
    injection H as <-. destruct (IH n eq_refl) as (Hlt & ex' & Hn & Hid).
    split; [cbn; lia | exists ex'; now split].
Qed.

Lemma addExposure_exposures (now : string) (s : Darkroom.Editor) :
  exists ex,
    Darkroom.ed_exposures (Darkroom.addExposure now s)
    = Darkroom.ed_exposures s ++ [ex]
    /\ Darkroom.id ex = now
    /\ Darkroom.selectedExposureId (Darkroom.addExposure now s) = Some now.
Proof.
  unfold Darkroom.addExposure. eexists. 
  rewrite selectExposure_found
    by (cbn [Darkroom.with_exposures Darkroom.with_project
             Darkroom.ed_exposures]; now apply findIndex_app_last).
  cbn. repeat split.
Qed.

Lemma Forall_remove_at {A : Type} (P : A -> Prop) (l : list A) :
  forall i, Forall P l -> Forall P (remove_at i l).
Proof.
  induction l as [| a l IH]; intros [| i] H; cbn [remove_at];
    try constructor; inversion H; subst; auto.
Qed.

Lemma addExposure_eq (now : string) (s : Darkroom.Editor) :
  Darkroom.addExposure now s
  = Darkroom.with_selected
      (Darkroom.with_exposures s
         (Darkroom.ed_exposures s
          ++ [Darkroom.mkExposure now (Fin 16) 5 (Darkroom.initialMaskData s)]))
      (Some now).
Proof.
  unfold Darkroom.addExposure, Darkroom.initialMaskData.
  apply selectExposure_found.
  cbn [Darkroom.with_exposures Darkroom.with_project Darkroom.ed_exposures].
  now apply findIndex_app_last.
Qed.

Lemma initialMaskData_negative (s1 s2 : Darkroom.Editor) :
  Darkroom.ed_negativeImage s1 = Darkroom.ed_negativeImage s2 ->
  Darkroom.initialMaskData s1 = Darkroom.initialMaskData s2.
Proof. unfold Darkroom.initialMaskData. now intros ->. Qed.

(** X14.  [deleteExposure], for an id of the list, whatever the state:
    the first exposure of that id is taken out of the list and nothing
    else changes in it; when this empties the list, a default exposure
    (16 s, grade 5, blank mask, the clock reading as its id) is added
    and selected, except while a project is being loaded, when the list
    stays empty; so outside loading the list is never left empty.  A
    selection that named an exposure of the list names one afterwards
    (the ids not being empty strings), and one [undo] brings the old
    list back. *)
Theorem deleteExposure_removes_one (now : string) (s : Darkroom.Editor)
  (exposureId : string) (index : nat) :
  Darkroom.findIndex exposureId (Darkroom.ed_exposures s) = Some index ->
  let s' := Darkroom.deleteExposure now s exposureId in
  let l' := remove_at index (Darkroom.ed_exposures s) in
  S (List.length l') = List.length (Darkroom.ed_exposures s)
  /\ (l' <> [] -> Darkroom.ed_exposures s' = l')
  /\ (l' = [] -> Darkroom.loadingProjectData s = false ->
      Darkroom.ed_exposures s'
      = [Darkroom.mkExposure now (Fin 16) 5 (Darkroom.initialMaskData s)]
      /\ Darkroom.selectedExposureId s' = Some now)
  /\ (l' = [] -> Darkroom.loadingProjectData s = true ->
      Darkroom.ed_exposures s' = [])
  /\ (Darkroom.loadingProjectData s = false -> Darkroom.ed_exposures s' <> [])
  /\ (l' <> [] \/ (Darkroom.loadingProjectData s = false /\ now <> ""%string) ->
      Forall (fun ex => Darkroom.id ex <> ""%string) (Darkroom.ed_exposures s) ->
      selection_ok (Darkroom.ed_exposures s) (Darkroom.selectedExposureId s) ->
      selection_ok (Darkroom.ed_exposures s') (Darkroom.selectedExposureId s'))
  /\ Darkroom.ed_exposures (Darkroom.undo s') = Darkroom.ed_exposures s.
Proof.
  intros Hidx s' l'.
  assert (Hundo : Darkroom.ed_exposures (Darkroom.undo s')
                  = Darkroom.ed_exposures s).
  { apply (undo_of_saved s). apply (deleteExposure_stacks now s exposureId). }
  revert Hundo. generalize (Darkroom.ed_exposures (Darkroom.undo s')).
  intros u Hundo.
  destruct (findIndex_lt _ _ _ Hidx) as (Hlt & _).
  assert (Hlen : S (List.length l') = List.length (Darkroom.ed_exposures s))
    by (unfold l'; now apply remove_at_length).
  subst s'. unfold Darkroom.deleteExposure in *.
  destruct (saveState_stacks s) as (_ & _ & He & _ & Hs & Hl).
  rewrite He, Hidx in *. fold l'.
  set (s1 := Darkroom.with_exposures (Darkroom.saveState s) l') in *.
  assert (E1 : Darkroom.ed_exposures s1 = l') by reflexivity.
  assert (Es1 : Darkroom.selectedExposureId s1 = Darkroom.selectedExposureId s)
    by (unfold s1; cbn; congruence).
  assert (El1 : Darkroom.loadingProjectData s1 = Darkroom.loadingProjectData s)
    by (unfold s1; cbn; congruence).
  assert (En1 : Darkroom.ed_negativeImage s1 = Darkroom.ed_negativeImage s).
  { unfold s1, Darkroom.saveState, Darkroom.with_stacks,
      Darkroom.with_exposures, Darkroom.with_project. reflexivity. }
  set (s2 := match Darkroom.selectedExposureId s1 with
             | Some sel => _
             | None => s1
             end) in *.
  assert (H2 : Darkroom.ed_exposures s2 = l'
               /\ Darkroom.loadingProjectData s2
                  = Darkroom.loadingProjectData s
               /\ Darkroom.ed_negativeImage s2 = Darkroom.ed_negativeImage s
               /\ (l' <> [] ->
                   Forall (fun ex => Darkroom.id ex <> ""%string)
                          (Darkroom.ed_exposures s) ->
                   selection_ok (Darkroom.ed_exposures s)
                     (Darkroom.selectedExposureId s) ->
                   selection_ok l' (Darkroom.selectedExposureId s2))).
  { unfold s2. rewrite Es1.
    destruct (Darkroom.selectedExposureId s) as [sel |] eqn:Esel.
    - destruct (String.eqb sel exposureId) eqn:Eq.
      + rewrite E1. destruct l' as [| ex rest] eqn:El'.
        * split; [exact E1 |]. split; [exact El1 |]. split; [exact En1 |].
          intros Hne. contradiction.
        * assert (Hf : Darkroom.findIndex (Darkroom.id ex)
                         (Darkroom.ed_exposures s1) <> None).
          { rewrite E1. cbn [Darkroom.findIndex].
            rewrite String.eqb_refl. discriminate. }
          rewrite (selectExposure_found s1 _ Hf).
          split; [exact E1 |]. split; [exact El1 |]. split; [exact En1 |].
          intros _ Hids _.
          exists (Darkroom.id ex). split; [reflexivity |]. split.
          -- pose proof (Forall_remove_at _ _ index Hids) as Hids'.
             fold l' in Hids'. rewrite El' in Hids'.
             now inversion Hids'.
          -- cbn [Darkroom.findIndex]. rewrite String.eqb_refl. discriminate.
      + split; [exact E1 |]. split; [exact El1 |]. split; [exact En1 |].
        intros _ _ (i0 & Hi0 & Hne0 & Hf0). injection Hi0 as <-.
        exists sel. split; [exact Es1 |]. split; [exact Hne0 |].
        apply String.eqb_neq in Eq.
        unfold l'. eapply findIndex_remove_at; eauto.
    - split; [exact E1 |]. split; [exact El1 |]. split; [exact En1 |].
      intros _ _ (i0 & Hi0 & _). discriminate. }
  destruct H2 as (E2 & El2 & En2 & Hsel2).
  rewrite E2, El2.
  split; [exact Hlen |].
  destruct l' as [| ex rest] eqn:El'.
  - cbn [List.length Nat.eqb andb].
    destruct (Darkroom.loadingProjectData s) eqn:Eload;
      cbn [negb].
    + rewrite E2.
      split; [intros Hne; contradiction |].
      split; [intros _ Hf; discriminate |].
      split; [reflexivity |].
      split; [intros Hf; discriminate |].
      split; [| exact Hundo].
      intros [Hne | [Hf _]]; [contradiction | discriminate].
    + rewrite addExposure_eq.
      cbn [Darkroom.with_selected Darkroom.with_exposures
           Darkroom.with_project Darkroom.ed_exposures
           Darkroom.selectedExposureId].
      rewrite E2, (initialMaskData_negative s2 s En2). cbn [app].
      split; [intros Hne; contradiction |].
      split; [intros _ _; split; reflexivity |].
      split; [intros _ Hf; discriminate |].
      split; [intros _; discriminate |].
      split; [| exact Hundo].
      intros [Hne | [_ Hnow]]; [contradiction |]. intros _ _.
      exists now. split; [reflexivity |]. split; [exact Hnow |].
      cbn [Darkroom.findIndex Darkroom.id]. rewrite String.eqb_refl.
      discriminate.
  - cbn [List.length Nat.eqb andb]. rewrite E2.
    split; [intros _; reflexivity |].
    split; [intros Hf; discriminate |].
    split; [intros Hf; discriminate |].
    split; [intros _; discriminate |].
    split; [| exact Hundo].
    intros _ Hids Hok. apply Hsel2; [discriminate | assumption | assumption].
Qed.

Lemma deleteExposure_removes_one_witness :
  Darkroom.ed_exposures
    (Darkroom.deleteExposure "1730500000002" example_editor "1730500000000")
  = remove_at 0 example_exposures
  /\ selection_ok
       (Darkroom.ed_exposures
          (Darkroom.deleteExposure "1730500000002" example_editor
             "1730500000000"))
       (Darkroom.selectedExposureId
          (Darkroom.deleteExposure "1730500000002" example_editor
             "1730500000000"))
  /\ Darkroom.ed_exposures
       (Darkroom.deleteExposure "1730500000003" single_editor "1730500000000")
     = [Darkroom.mkExposure "1730500000003" (Fin 16) 5
          (Darkroom.initialMaskData single_editor)].
Proof.
  destruct (deleteExposure_removes_one "1730500000002" example_editor
              "1730500000000" 0 eq_refl)
    as (_ & H1 & _ & _ & _ & H3 & _).
  destruct (deleteExposure_removes_one "1730500000003" single_editor
              "1730500000000" 0 eq_refl)
    as (_ & _ & H2 & _).
  split; [apply H1; discriminate |]. split.
  - apply H3; [left; discriminate | | exact example_selection_ok].
    repeat constructor; discriminate.
  - apply H2; reflexivity.
Defined.

Lemma map_clamp_bytes (l : list Z) : Forall is_byte l -> map clamp_byte l = l.
Proof.
  induction 1 as [| b l Hb _ IH]; cbn [map]; [reflexivity |].
  rewrite IH. f_equal. unfold clamp_byte, is_byte in *. lia.
Qed.

(** X15.  [cloneExposure] appends a copy: the new exposure has the new
    id, and the time, the grade and (for a mask image of four bytes per
    pixel) the mask of the first exposure of the given id; it gives
    every pixel what that exposure gives; it is selected; and one [undo]
    takes it away again. *)
Theorem cloneExposure_copies (now : string) (s : Darkroom.Editor)
  (exposureId : string) (src : Darkroom.Exposure) :
  find (fun ex => String.eqb (Darkroom.id ex) exposureId)
       (Darkroom.ed_exposures s) = Some src ->
  match Darkroom.maskData src with
  | Some md =>
      Z.of_nat (List.length (Darkroom.data md))
      = (Darkroom.width md * Darkroom.height md * 4)%Z
      /\ Forall is_byte (Darkroom.data md)
  | None => True
  end ->
  exists clone,
    Darkroom.ed_exposures (Darkroom.cloneExposure now s exposureId)
    = Darkroom.ed_exposures s ++ [clone]
    /\ clone = Darkroom.mkExposure now (Darkroom.time src) (Darkroom.grade src)
                 (Darkroom.maskData src)
    /\ Darkroom.selectedExposureId (Darkroom.cloneExposure now s exposureId)
       = Some now
    /\ (forall paper L logTrans j,
          Darkroom.exposure_extra_R paper L logTrans j clone
          = Darkroom.exposure_extra_R paper L logTrans j src)
    /\ Darkroom.ed_exposures
         (Darkroom.undo (Darkroom.cloneExposure now s exposureId))
       = Darkroom.ed_exposures s.
Proof.
  intros Hfind Hmask.
  assert (Hundo : Darkroom.ed_exposures
                    (Darkroom.undo (Darkroom.cloneExposure now s exposureId))
                  = Darkroom.ed_exposures s).
  { apply (undo_of_saved s). apply (cloneExposure_stacks now s exposureId). }
  unfold Darkroom.cloneExposure in *.
  destruct (saveState_stacks s) as (_ & _ & He & _).
  rewrite He, Hfind in *.
  set (clone := Darkroom.mkExposure now _ _ _) in *.
  assert (Hclone : clone = Darkroom.mkExposure now (Darkroom.time src)
                             (Darkroom.grade src) (Darkroom.maskData src)).
  { unfold clone. f_equal.
    destruct (Darkroom.maskData src) as [md |]; [| reflexivity].
    destruct Hmask as [Hlen Hbytes].
    cbn [Darkroom.createImageData Darkroom.data]. rewrite repeat_length.
    rewrite <- Hlen, Nat2Z.id, firstn_all, Nat.sub_diag. cbn [repeat].
    rewrite app_nil_r, map_clamp_bytes by assumption.
    destruct md; reflexivity. }
  exists clone.
  rewrite selectExposure_found
    by (cbn [Darkroom.with_exposures Darkroom.with_project
             Darkroom.ed_exposures]; now apply findIndex_app_last).
  rewrite selectExposure_found in Hundo
    by (cbn [Darkroom.with_exposures Darkroom.with_project
             Darkroom.ed_exposures]; now apply findIndex_app_last).
  split; [reflexivity |]. split; [exact Hclone |].
  split; [reflexivity |]. split; [| exact Hundo].
  intros paper L logTrans j. rewrite Hclone.
  unfold Darkroom.exposure_extra_R, Darkroom.exposure_constants,
    Darkroom.exposure_alpha.
  reflexivity.
Qed.

Lemma cloneExposure_copies_witness :
  exists clone,
    Darkroom.ed_exposures
      (Darkroom.cloneExposure "1730500000002" example_editor "1730500000001")
    = example_exposures ++ [clone]
    /\ clone = Darkroom.mkExposure "1730500000002" (Fin 16) 8
                 (Some (Darkroom.mkImageData 1 2
                          [255; 0; 0; 128; 255; 0; 0; 0]%Z)).
Proof.
  destruct (cloneExposure_copies "1730500000002" example_editor "1730500000001"
              (Darkroom.mkExposure "1730500000001" (Fin 16) 8
                 (Some (Darkroom.mkImageData 1 2
                          [255; 0; 0; 128; 255; 0; 0; 0]%Z))) eq_refl)
    as (clone & H1 & H2 & _).
  - split; [reflexivity |]. repeat constructor; unfold is_byte; lia.
  - exists clone. split; assumption.
Defined.

(** *** The order of the exposures in script.js *)

(** Two pre-computed exposures that give every pixel the same excess. *)
Lemma Dexcess_of_zero_mask (k : R) (E0 logTime : num) (n : nat)
  (dmin span : num) (L : SigmoidLUT) (logT : num) (j : nat) :
  Script.Dexcess_of dmin span L logT j
    (Script.mkPre k E0 logTime (Some (repeat 0 n)))
  = Script.Dexcess_of dmin span L logT j (Script.mkPre k E0 logTime None).
Proof.
  unfold Script.Dexcess_of.
  cbn [Script.pre_mask Script.pre_logTime Script.pre_E0 Script.pre_k].
  assert (H0 : ngt (Fin 0) (Fin 0) = false).
  { unfold ngt. cbn [nlt]. apply Rltb_false. lra. }
  assert (H : ngt (array_get (repeat 0 n) (Z.of_nat j)) (Fin 0) = false).
  { unfold array_get. replace (Z.of_nat j <? 0)%Z with false
      by (symmetry; apply Z.ltb_ge; lia).
    rewrite Nat2Z.id.
    destruct (nth_error (repeat 0 n) j) as [v |] eqn:E.
    - apply nth_error_In, repeat_spec in E. subst v. exact H0.
    - reflexivity. }
  rewrite H, H0. reflexivity.
Qed.

Lemma exposure_loop_ext (dmin span : num) (L : SigmoidLUT) (logT : num)
  (j : nat) (pre pre' : list Script.PreExposure) :
  Forall2 (fun p p' => Script.Dexcess_of dmin span L logT j p
                       = Script.Dexcess_of dmin span L logT j p') pre pre' ->
  forall Dsum,
  Script.exposure_loop dmin span L logT j pre Dsum
  = Script.exposure_loop dmin span L logT j pre' Dsum.
Proof.
  induction 1 as [| p p' pre pre' Hp _ IH]; intros Dsum;
    cbn [Script.exposure_loop]; [reflexivity |].
  rewrite Hp. destruct (ngt _ _); [| apply IH].
  destruct (nge _ _); [reflexivity | apply IH].
Qed.

Lemma precompute_init_mask (paper : Paper) (neg : option (nat * nat))
  (i : string) (l : list Script.Exposure) :
  match Script.precompute paper l,
        Script.precompute paper (Script.init_mask neg i l) with
  | Some pre, Some pre' =>
      Forall2 (fun p p' => forall dmin span L logT j,
                 Script.Dexcess_of dmin span L logT j p'
                 = Script.Dexcess_of dmin span L logT j p) pre pre'
  | None, None => True
  | _, _ => False
  end.
Proof.
  assert (Hrefl : forall pre : list Script.PreExposure,
             Forall2 (fun p p' => forall dmin span L logT j,
                        Script.Dexcess_of dmin span L logT j p'
                        = Script.Dexcess_of dmin span L logT j p) pre pre).
  { induction pre; constructor; auto. }
  induction l as [| ex rest IH]; cbn [Script.init_mask Script.precompute].
  - constructor.
  - destruct (String.eqb (Script.id ex) i).
    + destruct (Script.mask ex) as [mk |] eqn:Em;
        [| destruct neg as [[W H] |]].
      * cbn [Script.precompute].
        destruct (Script.precompute1 paper ex); [| exact I].
        destruct (Script.precompute paper rest); [apply Hrefl | exact I].
      * cbn [Script.precompute]. unfold Script.precompute1.
        cbn [Script.grade Script.time Script.mask]. rewrite Em.
        destruct (gradeParam paper (Script.grade ex)); [| exact I].
        destruct (Script.precompute paper rest); [| exact I].
        constructor; [| apply Hrefl].
        intros. apply Dexcess_of_zero_mask.
      * cbn [Script.precompute].
        destruct (Script.precompute1 paper ex); [| exact I].
        destruct (Script.precompute paper rest); [apply Hrefl | exact I].
    + cbn [Script.precompute].
      destruct (Script.precompute1 paper ex); [| 
        destruct (Script.precompute paper rest),
                 (Script.precompute paper (Script.init_mask neg i rest));
        exact I || contradiction || exact I].
      destruct (Script.precompute paper rest),
               (Script.precompute paper (Script.init_mask neg i rest));
        try exact I; try contradiction.
      constructor; [reflexivity | exact IH].
Qed.

Lemma pixel_density_init_mask (paper : Paper) (L : SigmoidLUT)
  (logTrans : list R) (neg : option (nat * nat)) (i : string)
  (l : list Script.Exposure) (j : nat) :
  Script.pixel_density paper L logTrans (Script.init_mask neg i l) j
  = Script.pixel_density paper L logTrans l j.
Proof.
  unfold Script.pixel_density.
  pose proof (precompute_init_mask paper neg i l) as H.
  destruct (Script.precompute paper l) as [pre |],
           (Script.precompute paper (Script.init_mask neg i l)) as [pre' |];
    try contradiction; [| reflexivity].
  f_equal. unfold Script.Dfinal.
  rewrite (exposure_loop_ext _ _ _ _ _ pre' pre); [reflexivity |].
  clear -H. induction H; constructor; auto.
Qed.

Lemma init_mask_length (neg : option (nat * nat)) (i : string)
  (l : list Script.Exposure) :
  List.length (Script.init_mask neg i l) = List.length l
  /\ map Script.id (Script.init_mask neg i l) = map Script.id l.
Proof.
  induction l as [| ex rest [IH1 IH2]]; cbn [Script.init_mask];
    [split; reflexivity |].
  destruct (String.eqb (Script.id ex) i).
  - destruct (Script.mask ex), neg as [[W H] |]; split; reflexivity.
  - cbn [List.length map]. rewrite IH1, IH2. split; reflexivity.
Qed.

(** X16.  Moving an exposure up or down in script.js changes no print:
    the list afterwards has the same length and the same ids in another
    order, and the scalar loop gives every pixel the density it gave
    before (the all-zero mask that the selection may create counts as
    no mask), for any number of exposures. *)
Theorem script_move_keeps_densities (neg : option (nat * nat))
  (paper : Paper) (L : SigmoidLUT) (logTrans : list R)
  (l : list Script.Exposure) (sel : option string) (i : string) (j : nat) :
  valid_lut L -> Dmin paper <= Dmax paper ->
  let up := fst (Script.moveExposureUp neg l sel i) in
  let down := fst (Script.moveExposureDown neg l sel i) in
  Script.pixel_density paper L logTrans up j
  = Script.pixel_density paper L logTrans l j
  /\ Script.pixel_density paper L logTrans down j
     = Script.pixel_density paper L logTrans l j
  /\ Permutation (map Script.id l) (map Script.id up)
  /\ Permutation (map Script.id l) (map Script.id down).
Proof.
  intros HL HD up down. subst up down.
  unfold Script.moveExposureUp, Script.moveExposureDown.
  destruct (Script.findIndex i l) as [[| n] |]; cbn [fst];
    repeat match goal with
    | |- context [if ?c then _ else _] => destruct c; cbn [fst]
    end;
    repeat split; try reflexivity; try apply Permutation_refl;
    try (rewrite pixel_density_init_mask; symmetry;
         apply pixel_density_perm; try assumption; apply swap_at_perm);
    try (rewrite (proj2 (init_mask_length _ _ _));
         apply Permutation_map, swap_at_perm).
Qed.

Lemma script_move_keeps_densities_witness :
  Script.pixel_density ilford_multigrade (buildSigmoidLUT 2048)
    [Script.logTrans_of 255]
    (fst (Script.moveExposureUp (Some (1, 1)%nat) script_project None "e02")) 0
  = Script.pixel_density ilford_multigrade (buildSigmoidLUT 2048)
      [Script.logTrans_of 255] script_project 0.
Proof.
  apply (script_move_keeps_densities (Some (1, 1)%nat) ilford_multigrade
           (buildSigmoidLUT 2048) [Script.logTrans_of 255] script_project
           None "e02" 0).
  - apply buildSigmoidLUT_valid; lia.
  - cbn. lra.
Defined.

(** *** Inverting a dodge mask *)

Lemma invert_alpha_length (data : list Z) :
  List.length (Darkroom.invert_alpha data) = List.length data.
Proof.
  unfold Darkroom.invert_alpha.
  now rewrite length_map, length_combine, length_seq, Nat.min_id.
Qed.

Lemma invert_alpha_nth_error (data : list Z) (i : nat) :
  nth_error (Darkroom.invert_alpha data) i
  = option_map (fun b => if (i mod 4 =? 3)%nat then clamp_byte (255 - b) else b)
               (nth_error data i).
Proof.
  unfold Darkroom.invert_alpha.
  rewrite nth_error_map, nth_error_combine_seq.
  destruct (nth_error data i); reflexivity.
Qed.

Lemma invert_alpha_twice (data : list Z) :
  Forall is_byte data ->
  Darkroom.invert_alpha (Darkroom.invert_alpha data) = data.
Proof.
  intros Hb. apply nth_error_ext. intros i.
  rewrite !invert_alpha_nth_error.
  destruct (nth_error data i) as [b |] eqn:E; [| reflexivity].
  cbn [option_map]. f_equal.
  apply nth_error_In in E. rewrite Forall_forall in Hb.
  specialize (Hb b E). unfold is_byte, clamp_byte in *.
  destruct (i mod 4 =? 3)%nat; lia.
Qed.

(** X17.  [invertDodgeMask] turns the dodge value of every pixel of the
    mask image into its complement, alpha' = 1 - alpha, and leaves the
    id, the time and the grade of the exposure alone; inverting twice
    gives every pixel its dodge value back.  An exposure without mask
    image is left as it is. *)
Theorem invertDodgeMask_complements (ex : Darkroom.Exposure) :
  match Darkroom.maskData ex with
  | Some md => Forall is_byte (Darkroom.data md)
  | None => True
  end ->
  (forall j,
      Darkroom.exposure_alpha
        (Darkroom.invertDodgeMask (Darkroom.invertDodgeMask ex)) j
      = Darkroom.exposure_alpha ex j)
  /\ Darkroom.id (Darkroom.invertDodgeMask ex) = Darkroom.id ex
  /\ Darkroom.time (Darkroom.invertDodgeMask ex) = Darkroom.time ex
  /\ Darkroom.grade (Darkroom.invertDodgeMask ex) = Darkroom.grade ex
  /\ (Darkroom.maskData ex = None -> Darkroom.invertDodgeMask ex = ex)
  /\ (forall md j a,
        Darkroom.maskData ex = Some md ->
        Darkroom.width md <> 0%Z -> Darkroom.height md <> 0%Z ->
        (4 * j + 3 < List.length (Darkroom.data md))%nat ->
        Darkroom.exposure_alpha ex j = Fin a ->
        Darkroom.exposure_alpha (Darkroom.invertDodgeMask ex) j = Fin (1 - a)).
Proof.
  intros Hb. unfold Darkroom.invertDodgeMask.
  destruct (Darkroom.maskData ex) as [md |] eqn:E.
  - cbn [Darkroom.maskData Darkroom.id Darkroom.time Darkroom.grade
         Darkroom.data Darkroom.width Darkroom.height].
    split; [| repeat split; try discriminate].
    + intros j. unfold Darkroom.exposure_alpha.
      cbn [Darkroom.maskData Darkroom.width Darkroom.height Darkroom.data].
      rewrite invert_alpha_twice by exact Hb. now rewrite E.
    + intros md' j a [= <-] Hw Hh Hj Ha.
      unfold Darkroom.exposure_alpha in *. rewrite E in Ha.
      cbn [Darkroom.maskData Darkroom.width Darkroom.height Darkroom.data].
      apply Z.eqb_neq in Hw, Hh. rewrite Hw, Hh in *. cbn [orb] in *.
      injection Ha as <-. f_equal.
      rewrite (nth_error_nth (Darkroom.invert_alpha (Darkroom.data md))
                 (4 * j + 3) 0%Z
                 (x := clamp_byte (255 - nth (4 * j + 3) (Darkroom.data md) 0%Z))).
      * assert (Hbyte : is_byte (nth (4 * j + 3) (Darkroom.data md) 0%Z)).
        { rewrite Forall_forall in Hb. apply Hb. now apply nth_In. }
        unfold is_byte, clamp_byte in *.
        replace (Z.max 0 (Z.min 255 (255 - nth (4 * j + 3) (Darkroom.data md) 0)))%Z
          with (255 - nth (4 * j + 3) (Darkroom.data md) 0)%Z by lia.
        rewrite minus_IZR.
        change (j + (j + (j + (j + 0))) + 3)%nat with (4 * j + 3)%nat. lra.
      * rewrite invert_alpha_nth_error.
        rewrite (nth_error_nth' _ 0%Z Hj). cbn [option_map].
        replace ((4 * j + 3) mod 4 =? 3)%nat with true; [reflexivity |].
        symmetry. apply Nat.eqb_eq.
        rewrite Nat.add_comm, Nat.mul_comm, Nat.Div0.mod_add. reflexivity.
  - rewrite E. repeat split; try reflexivity. intros md j a H. discriminate.
Qed.

Lemma invertDodgeMask_complements_witness :
  Darkroom.exposure_alpha
    (Darkroom.invertDodgeMask (Darkroom.invertDodgeMask masked_exposure)) 0
  = Darkroom.exposure_alpha masked_exposure 0
  /\ Darkroom.exposure_alpha (Darkroom.invertDodgeMask masked_exposure) 0
     = Fin (1 - 64 / 255).
Proof.
  destruct (invertDodgeMask_complements masked_exposure) as (H1 & _ & _ & _ & _ & H6).
  - cbn. repeat constructor; unfold is_byte; lia.
  - split; [exact (H1 0%nat) |].
    apply (H6 (Darkroom.mkImageData 1 1 [0; 0; 0; 64]%Z));
      try reflexivity; try discriminate.
    cbn. lia.
Defined.

(** *** The table texture of the shader *)

Lemma lut_bytes_round (N i : nat) :
  (i < N)%nat ->
  nth i (Darkroom.lut_bytes (buildSigmoidLUT N)) 0%Z
  = Rround (1 / (1 + exp (- (-12 + INR i * ((12 - -12) / (INR N - 1))))) * 255).
Proof.
  intros Hi. pose proof (lut_bytes_range (buildSigmoidLUT N)) as Hr.
  rewrite Forall_forall in Hr.
  assert (Hin : In (nth i (Darkroom.lut_bytes (buildSigmoidLUT N)) 0%Z)
                   (Darkroom.lut_bytes (buildSigmoidLUT N))).
  { apply nth_In. now rewrite lut_bytes_length. }
  specialize (Hr _ Hin). rewrite lut_bytes_nth in Hr |- * by assumption.
  destruct (lut_byte_error N i Hi) as [Hb _].
  rewrite lut_bytes_nth in Hb by assumption.
  set (s := 1 / (1 + exp (- (-12 + INR i * ((12 - -12) / (INR N - 1)))))) in *.
  assert (Hs : 0 < s < 1).
  { unfold s.
    pose proof (exp_pos (- (-12 + INR i * ((12 - -12) / (INR N - 1))))) as He.
    split.
    - apply Rmult_lt_0_compat; [lra | apply Rinv_0_lt_compat; lra].
    - apply Rmult_lt_reg_r
        with (1 + exp (- (-12 + INR i * ((12 - -12) / (INR N - 1)))));
        [lra |].
      rewrite div_mul_cancel by lra. lra. }
  unfold Rround in *.
  pose proof (Int_part_bounds (s * 255 + / 2)) as Hbd.
  apply Z.mod_small. split.
  - apply Int_part_nonneg. lra.
  - apply lt_IZR. change (IZR 256) with 256. lra.
Qed.

(** X18.  [uploadLUT] turns a sigmoid table of N >= 2 samples into N
    bytes that start at 0, end at 255 and never decrease in between. *)
Theorem uploadLUT_bytes_increase (N : nat) :
  (2 <= N)%nat ->
  List.length (Darkroom.lut_bytes (buildSigmoidLUT N)) = N
  /\ nth 0 (Darkroom.lut_bytes (buildSigmoidLUT N)) 0%Z = 0%Z
  /\ nth (N - 1) (Darkroom.lut_bytes (buildSigmoidLUT N)) 0%Z = 255%Z
  /\ forall i i', (i <= i')%nat -> (i' < N)%nat ->
       (0 <= nth i (Darkroom.lut_bytes (buildSigmoidLUT N)) 0
        <= nth i' (Darkroom.lut_bytes (buildSigmoidLUT N)) 0)%Z
       /\ (nth i' (Darkroom.lut_bytes (buildSigmoidLUT N)) 0 <= 255)%Z.
Proof.
  intros HN.
  assert (HNR : 2 <= INR N) by (change 2 with (INR 2); now apply le_INR).
  split; [apply lut_bytes_length |].
  split; [now apply lut_byte_first |].
  split; [now apply lut_byte_last |].
  intros i i' Hii Hi'.
  destruct (lut_byte_error N i ltac:(lia)) as [[Hb0 _] _].
  destruct (lut_byte_error N i' Hi') as [[_ Hb1] _].
  split; [| exact Hb1]. split; [exact Hb0 |].
  rewrite !lut_bytes_round by lia.
  unfold Rround. apply Int_part_mono.
  assert (Hstep : 0 < (12 - -12) / (INR N - 1)).
  { apply Rmult_lt_0_compat; [lra | apply Rinv_0_lt_compat; lra]. }
  apply le_INR in Hii.
  pose proof (logistic_lipschitz
                (-12 + INR i * ((12 - -12) / (INR N - 1)))
                (-12 + INR i' * ((12 - -12) / (INR N - 1)))
                ltac:(nra)) as L.
  lra.
Qed.

Lemma uploadLUT_bytes_increase_witness :
  List.length (Darkroom.lut_bytes Darkroom.makeSigmoidLUT) = 4096%nat
  /\ (nth 100 (Darkroom.lut_bytes Darkroom.makeSigmoidLUT) 0
      <= nth 3000 (Darkroom.lut_bytes Darkroom.makeSigmoidLUT) 0)%Z.
Proof.
  destruct (uploadLUT_bytes_increase 4096 ltac:(lia)) as (H1 & _ & _ & H4).
  split; [exact H1 |].
  destruct (H4 100%nat 3000%nat ltac:(lia) ltac:(lia)) as [[_ H] _]. exact H.
Defined.

Lemma texel_monotone (N : nat) (i i' : Z) :
  (2 <= N)%nat -> (i <= i')%Z ->
  Darkroom.texel (Darkroom.lut_bytes (buildSigmoidLUT N)) i
  <= Darkroom.texel (Darkroom.lut_bytes (buildSigmoidLUT N)) i'.
Proof.
  intros HN Hi. unfold Darkroom.texel. rewrite lut_bytes_length.
  apply Rmult_le_compat_r; [lra |]. apply IZR_le.
  assert (Hidx : forall z, (Z.to_nat (Z.max 0 (Z.min (Z.of_nat N - 1) z)) < N)%nat)
    by (intros; lia).
  rewrite !lut_bytes_round by apply Hidx.
  unfold Rround. apply Int_part_mono.
  assert (HNR : 2 <= INR N) by (change 2 with (INR 2); now apply le_INR).
  assert (Hstep : 0 < (12 - -12) / (INR N - 1)).
  { apply Rmult_lt_0_compat; [lra | apply Rinv_0_lt_compat; lra]. }
  assert (Hle : INR (Z.to_nat (Z.max 0 (Z.min (Z.of_nat N - 1) i)))
                <= INR (Z.to_nat (Z.max 0 (Z.min (Z.of_nat N - 1) i')))).
  { apply le_INR. lia. }
  match goal with
  | |- 1 / (1 + exp (- ?a)) * 255 + _ <= 1 / (1 + exp (- ?b)) * 255 + _ =>
      pose proof (logistic_lipschitz a b ltac:(nra)) as L
  end.
  lra.
Qed.

(** The shader's look-up inside the table: the blend of the texels
    around the argument. *)
Lemma fetchSigmoid_table_value (N : nat) (x : R) :
  (2 <= N)%nat -> -12 < x < 12 ->
  let idx := (x - -12) / ((12 - -12) / (INR N - 1)) in
  Darkroom.fetchSigmoid (Fin (lut_lo (buildSigmoidLUT N)))
    (Fin (lut_step (buildSigmoidLUT N)))
    (Fin (INR (List.length (lut (buildSigmoidLUT N))) - 1))
    (Darkroom.lut_bytes (buildSigmoidLUT N)) (Fin x)
  = Fin ((1 - (idx - IZR (Int_part idx)))
         * Darkroom.texel (Darkroom.lut_bytes (buildSigmoidLUT N))
             (Int_part idx)
         + (idx - IZR (Int_part idx))
           * Darkroom.texel (Darkroom.lut_bytes (buildSigmoidLUT N))
               (Int_part idx + 1)).
Proof.
  intros HN Hx idx.
  assert (HNR : 2 <= INR N) by (change 2 with (INR 2); now apply le_INR).
  destruct (table_index N x HN Hx) as (Hstep & Hi & Hnode).
  rewrite buildSigmoidLUT_length.
  unfold Darkroom.fetchSigmoid, Darkroom.glsl_clamp.
  change (lut_lo (buildSigmoidLUT N)) with (-12).
  change (lut_step (buildSigmoidLUT N)) with ((12 - -12) / (INR N - 1)).
  set (step := (12 - -12) / (INR N - 1)) in *.
  fold idx in Hi, Hnode.
  rewrite nsub_FF, ndiv_FF by lra. fold idx.
  rewrite glsl_max_FF, glsl_min_FF.
  pose proof (Int_part_bounds idx) as Hb.
  assert (Hq0 : 0 <= idx).
  { apply Rmult_le_pos; [lra | left; now apply Rinv_0_lt_compat]. }
  assert (Hq1 : idx < INR N - 1).
  { apply Rmult_lt_reg_r with step; [assumption |].
    unfold idx. rewrite div_mul_cancel by lra.
    unfold step. rewrite Rmult_comm, div_mul_cancel by lra. lra. }
  rewrite Rmax_left, Rmin_left by lra.
  rewrite !nadd_FF, ndiv_FF by lra.
  unfold Darkroom.texture_lut. rewrite lut_bytes_length.
  replace ((idx + 0.5) / (INR N - 1 + 1) * INR N - / 2) with idx
    by (replace (INR N - 1 + 1) with (INR N) by lra;
        rewrite div_mul_cancel by lra; lra).
  reflexivity.
Qed.

(** The look-up of the shader does not decrease with its argument. *)
Lemma fetchSigmoid_monotone (N : nat) (x y : R) :
  (2 <= N)%nat -> x <= y ->
  exists sx sy,
    Darkroom.fetchSigmoid (Fin (lut_lo (buildSigmoidLUT N)))
      (Fin (lut_step (buildSigmoidLUT N)))
      (Fin (INR (List.length (lut (buildSigmoidLUT N))) - 1))
      (Darkroom.lut_bytes (buildSigmoidLUT N)) (Fin x) = Fin sx
    /\ Darkroom.fetchSigmoid (Fin (lut_lo (buildSigmoidLUT N)))
         (Fin (lut_step (buildSigmoidLUT N)))
         (Fin (INR (List.length (lut (buildSigmoidLUT N))) - 1))
         (Darkroom.lut_bytes (buildSigmoidLUT N)) (Fin y) = Fin sy
    /\ 0 <= sx <= sy /\ sy <= 1.
Proof.
  intros HN Hxy.
  assert (HNR : 2 <= INR N) by (change 2 with (INR 2); now apply le_INR).
  assert (Hstep : 0 < (12 - -12) / (INR N - 1)).
  { apply Rmult_lt_0_compat; [lra | apply Rinv_0_lt_compat; lra]. }
  assert (Hin : forall z, -12 < z < 12 ->
            exists s, Darkroom.fetchSigmoid (Fin (lut_lo (buildSigmoidLUT N)))
                        (Fin (lut_step (buildSigmoidLUT N)))
                        (Fin (INR (List.length (lut (buildSigmoidLUT N))) - 1))
                        (Darkroom.lut_bytes (buildSigmoidLUT N)) (Fin z) = Fin s
                      /\ 0 <= s <= 1).
  { intros z Hz. destruct (fetchSigmoid_table_error N z HN Hz) as (s & E & Hr & _).
    now exists s. }
  destruct (Rle_dec x (-12)) as [Hx | Hx].
  - rewrite (fetchSigmoid_below N x HN Hx).
    destruct (Rle_dec y (-12)) as [Hy | Hy].
    + rewrite (fetchSigmoid_below N y HN Hy). exists 0, 0. repeat split; lra.
    + destruct (Rle_dec 12 y) as [Hy1 | Hy1].
      * rewrite (fetchSigmoid_above N y HN Hy1). exists 0, 1. repeat split; lra.
      * destruct (Hin y ltac:(lra)) as (s & -> & Hs).
        exists 0, s. repeat split; lra.
  - destruct (Rle_dec 12 y) as [Hy | Hy].
    + rewrite (fetchSigmoid_above N y HN Hy).
      destruct (Rle_dec 12 x) as [Hx1 | Hx1].
      * rewrite (fetchSigmoid_above N x HN Hx1). exists 1, 1. repeat split; lra.
      * destruct (Hin x ltac:(lra)) as (s & -> & Hs).
        exists s, 1. repeat split; lra.
    + destruct (Hin x ltac:(lra)) as (sx & Ex & Hsx).
      destruct (Hin y ltac:(lra)) as (sy & Ey & Hsy).
      exists sx, sy. split; [exact Ex |]. split; [exact Ey |].
      split; [| lra]. split; [lra |].
      rewrite fetchSigmoid_table_value in Ex, Ey by (try assumption; lra).
      cbv zeta in Ex, Ey. injection Ex as <-. injection Ey as <-.
      set (step := (12 - -12) / (INR N - 1)) in *.
      set (ix := (x - -12) / step). set (iy := (y - -12) / step).
      assert (Hidx : ix <= iy).
      { unfold ix, iy. apply Rmult_le_compat_r;
          [left; now apply Rinv_0_lt_compat | lra]. }
      pose proof (Int_part_bounds ix) as Hbx.
      pose proof (Int_part_bounds iy) as Hby.
      pose proof (Int_part_mono ix iy Hidx) as Him.
      set (B := Darkroom.lut_bytes (buildSigmoidLUT N)) in *.
      pose proof (texel_monotone N (Int_part ix) (Int_part ix + 1) HN ltac:(lia))
        as Tx. fold B in Tx.
      pose proof (texel_monotone N (Int_part iy) (Int_part iy + 1) HN ltac:(lia))
        as Ty. fold B in Ty.
      assert (Hup : (1 - (ix - IZR (Int_part ix))) * Darkroom.texel B (Int_part ix)
                    + (ix - IZR (Int_part ix)) * Darkroom.texel B (Int_part ix + 1)
                    <= Darkroom.texel B (Int_part ix + 1)).
      { assert (0 <= (1 - (ix - IZR (Int_part ix)))
                     * (Darkroom.texel B (Int_part ix + 1)
                        - Darkroom.texel B (Int_part ix)))
          by (apply Rmult_le_pos; lra).
        lra. }
      assert (Hdown : Darkroom.texel B (Int_part iy)
                      <= (1 - (iy - IZR (Int_part iy)))
                         * Darkroom.texel B (Int_part iy)
                         + (iy - IZR (Int_part iy))
                           * Darkroom.texel B (Int_part iy + 1)).
      { assert (0 <= (iy - IZR (Int_part iy))
                     * (Darkroom.texel B (Int_part iy + 1)
                        - Darkroom.texel B (Int_part iy)))
          by (apply Rmult_le_pos; lra).
        lra. }
      destruct (Z.eq_dec (Int_part ix) (Int_part iy)) as [Heq | Hneq].
      * rewrite <- Heq in *.
        assert (0 <= (iy - ix)
                     * (Darkroom.texel B (Int_part ix + 1)
                        - Darkroom.texel B (Int_part ix)))
          by (apply Rmult_le_pos; lra).
        lra.
      * pose proof (texel_monotone N (Int_part ix + 1) (Int_part iy) HN
                      ltac:(lia)) as Tm. fold B in Tm.
        lra.
Qed.

Lemma exposure_constants_time (paper : Paper) (ex : Darkroom.Exposure)
  (p : GradeParam) (t : R) :
  0 < baseExposure paper -> gradeParam paper (Darkroom.grade ex) = Some p ->
  Darkroom.time ex = Fin t ->
  Darkroom.exposure_constants paper ex
  = Some (Fin (ln (Rmax 1e-6 t) / LN10), Fin (gp_k p),
          Fin (ln (baseExposure paper * exp (gp_speedShiftStops p * ln 2))
               / LN10),
          match Darkroom.maskData ex with Some _ => 1%Z | None => 0%Z end).
Proof.
  intros Hb Hp Ht. unfold Darkroom.exposure_constants. rewrite Hp, Ht.
  rewrite Math_max_FF.
  rewrite Math_log10_pos
    by (apply Rlt_le_trans with 1e-6; [lra | apply Rmax_l]).
  cbn [Math_pow2]. rewrite nmul_FF.
  rewrite Math_log10_pos
    by (apply Rmult_lt_0_compat; [assumption | apply exp_pos]).
  reflexivity.
Qed.

(** One exposure of the shader with a longer time adds at least as
    much, whatever the two times are. *)
Lemma exposure_extra_R_time (paper : Paper) (N : nat) (l : R) (j : nat)
  (ex ex' : Darkroom.Exposure) (t t' : R) :
  valid_paper paper -> (2 <= N)%nat ->
  Darkroom.grade ex' = Darkroom.grade ex ->
  Darkroom.maskData ex' = Darkroom.maskData ex ->
  Darkroom.time ex = Fin t -> Darkroom.time ex' = Fin t' -> t <= t' ->
  Darkroom.exposure_extra_R paper (buildSigmoidLUT N) (Fin l) j ex
  <= Darkroom.exposure_extra_R paper (buildSigmoidLUT N) (Fin l) j ex'.
Proof.
  intros Hv HN Hg Hm Ht Ht' Htt. pose proof Hv as (HD0 & HD & Hb & _).
  unfold Darkroom.exposure_extra_R.
  destruct (gradeParam paper (Darkroom.grade ex)) as [p |] eqn:Hp.
  - rewrite (exposure_constants_time paper ex p t) by assumption.
    rewrite (exposure_constants_time paper ex' p t')
      by (try assumption; now rewrite Hg).
    pose proof (gradeParam_slope _ _ _ Hv Hp) as Hk.
    assert (Ha : Darkroom.exposure_alpha ex' j = Darkroom.exposure_alpha ex j).
    { unfold Darkroom.exposure_alpha. now rewrite Hm. }
    rewrite Hm, Ha.
    destruct (exposure_alpha_Fin ex j) as (v & Ev & Hv0). rewrite Ev.
    assert (Hh : match Darkroom.maskData ex with
                 | Some _ => 1%Z
                 | None => 0%Z
                 end = 1%Z
                 \/ (match Darkroom.maskData ex with
                     | Some _ => 1%Z
                     | None => 0%Z
                     end = 0%Z /\ v = 0)).
    { destruct (Darkroom.maskData ex); [now left | right; split; auto]. }
    rewrite !(slot_extra_value _ _ _ _ _ _ v) by exact Hh.
    assert (Hlog : ln (Rmax 1e-6 t) / LN10 <= ln (Rmax 1e-6 t') / LN10).
    { pose proof LN10_pos as H10.
      apply Rmult_le_compat_r; [left; now apply Rinv_0_lt_compat |].
      assert (H1 : 0 < Rmax 1e-6 t)
        by (apply Rlt_le_trans with 1e-6; [lra | apply Rmax_l]).
      assert (H2 : Rmax 1e-6 t <= Rmax 1e-6 t')
        by (apply Rle_max_compat_l; exact Htt).
      destruct H2 as [H2 | H2]; [left; now apply ln_increasing | rewrite H2; lra]. }
    match goal with
    | |- context [Darkroom.fetchSigmoid ?a ?b ?c ?d (Fin ?x1)] =>
        match goal with
        | |- _ <= match (_ + _ * Darkroom.fetchSigmoid a b c d (Fin ?x2) - _)%num
                  with _ => _ end =>
            destruct (fetchSigmoid_monotone N x1 x2 HN ltac:(nra))
              as (s1 & s2 & -> & -> & Hs & Hs1)
        end
    end.
    rewrite !nmul_FF, !nadd_FF, !nsub_FF.
    apply Rle_max_compat_l. nra.
  - unfold Darkroom.exposure_constants. rewrite Hg, Hp. lra.
Qed.

Lemma exposures_extra_sum_app (paper : Paper) (L : SigmoidLUT)
  (logTrans : num) (j : nat) (l1 l2 : list Darkroom.Exposure) :
  Darkroom.exposures_extra_sum paper L logTrans j (l1 ++ l2)
  = Darkroom.exposures_extra_sum paper L logTrans j l1
    + Darkroom.exposures_extra_sum paper L logTrans j l2.
Proof.
  unfold Darkroom.exposures_extra_sum.
  induction l1 as [| ex rest IH]; cbn [app fold_right]; [lra |].
  rewrite IH. lra.
Qed.

(** X19.  In the shader a longer exposure never prints lighter, and this
    for every pair of finite times (the time is floored at 1e-6 before
    the logarithm): when the time of one of at most twelve exposures
    grows, the final density of every pixel stays or grows. *)
Theorem render_density_monotone_in_time (paper : Paper) (N : nat)
  (r8 : list Z) (j : nat) (l1 l2 : list Darkroom.Exposure)
  (ex ex' : Darkroom.Exposure) (t t' : R) :
  valid_paper paper -> (2 <= N)%nat ->
  (List.length (l1 ++ ex :: l2) <= Darkroom.maxExposures)%nat ->
  Darkroom.grade ex' = Darkroom.grade ex ->
  Darkroom.maskData ex' = Darkroom.maskData ex ->
  Darkroom.time ex = Fin t -> Darkroom.time ex' = Fin t' -> t <= t' ->
  match Darkroom.render_density paper (l1 ++ ex :: l2) (buildSigmoidLUT N) r8 j,
        Darkroom.render_density paper (l1 ++ ex' :: l2) (buildSigmoidLUT N) r8 j
  with
  | Some d, Some d' => nle d d' = true
  | None, None => True
  | _, _ => False
  end.
Proof.
  intros Hv HN Hlen Hg Hm Ht Ht' Htt.
  pose proof Hv as (HD0 & HD & Hb & _).
  assert (Hlen' : (List.length (l1 ++ ex' :: l2) <= Darkroom.maxExposures)%nat)
    by (rewrite length_app in *; cbn [List.length] in *; exact Hlen).
  assert (Hf : firstn Darkroom.maxExposures (l1 ++ ex :: l2) = l1 ++ ex :: l2)
    by (apply firstn_all2; exact Hlen).
  assert (Hf' : firstn Darkroom.maxExposures (l1 ++ ex' :: l2) = l1 ++ ex' :: l2)
    by (apply firstn_all2; exact Hlen').
  assert (Hnone : Darkroom.exposure_constants paper ex <> None
                  <-> Darkroom.exposure_constants paper ex' <> None).
  { unfold Darkroom.exposure_constants. rewrite Hg.
    destruct (gradeParam paper (Darkroom.grade ex)); split; intros H;
      first [discriminate | exact H]. }
  assert (Hall : Forall (fun e => Darkroom.exposure_constants paper e <> None)
                   (l1 ++ ex :: l2)
                 <-> Forall (fun e => Darkroom.exposure_constants paper e <> None)
                       (l1 ++ ex' :: l2)).
  { rewrite !Forall_app, !Forall_cons_iff. tauto. }
  destruct (Forall_dec _ (exposure_constants_dec paper) (l1 ++ ex :: l2))
    as [Hok | Hbad].
  - destruct (render_Some paper (l1 ++ ex :: l2) (buildSigmoidLUT N))
      as (U & HU); [now rewrite Hf |].
    destruct (render_Some paper (l1 ++ ex' :: l2) (buildSigmoidLUT N))
      as (U' & HU'); [rewrite Hf'; now apply Hall |].
    rewrite (render_density_closed _ _ _ r8 j U HU) by lra.
    rewrite (render_density_closed _ _ _ r8 j U' HU') by lra.
    rewrite Hf, Hf'. unfold Darkroom.trans_texel.
    rewrite logTrans_of_texel.
    rewrite nle_Fin. apply Rle_min_compat_r. apply Rplus_le_compat_l.
    rewrite !exposures_extra_sum_app.
    unfold Darkroom.exposures_extra_sum at 2 4. cbn [fold_right].
    fold (Darkroom.exposures_extra_sum paper (buildSigmoidLUT N)
            (Fin (Script.logTrans_of (IZR (nth j r8 0%Z)))) j l2).
    pose proof (exposure_extra_R_time paper N
                  (Script.logTrans_of (IZR (nth j r8 0%Z))) j ex ex' t t'
                  Hv HN Hg Hm Ht Ht' Htt).
    lra.
  - unfold Darkroom.render_density.
    rewrite render_None, render_None; [exact I | |].
    + rewrite Hf'. intros Hok'. apply Hbad. now apply Hall.
    + now rewrite Hf.
Qed.

Lemma render_density_monotone_in_time_witness :
  match Darkroom.render_density ilford_multigrade
          ([gpu_low "e01"] ++ gpu_negative_time :: [gpu_low "e03"])
          (buildSigmoidLUT 4096) r8_white 0,
        Darkroom.render_density ilford_multigrade
          ([gpu_low "e01"] ++ gpu_high "n" :: [gpu_low "e03"])
          (buildSigmoidLUT 4096) r8_white 0
  with
  | Some d, Some d' => nle d d' = true
  | None, None => True
  | _, _ => False
  end.
Proof.
  apply (render_density_monotone_in_time ilford_multigrade 4096 r8_white 0
           [gpu_low "e01"] [gpu_low "e03"] gpu_negative_time (gpu_high "n")
           (-1) 16000 ilford_multigrade_valid);
    try reflexivity; try lia; try lra.
  cbn. unfold Darkroom.maxExposures. lia.
Defined.

(** *** The colours of the shader *)

(** X20.  The colour of the shader on a registered paper: every channel
    of every fragment is a number between 0 and the reflectance of the
    blank paper, 10^(-Dmin), which is at most 1: the shader writes no
    colour out of range, and nothing brighter than blank paper. *)
Theorem shader_colour_in_range (name : string) (paper : Paper)
  (exposures : list Darkroom.Exposure) (L : SigmoidLUT) (r8 : list Z) (j : nat)
  (c : num * num * num) :
  papers name = Some paper ->
  Darkroom.render_pixel paper exposures L r8 j = Some c ->
  exists r g b,
    c = (Fin r, Fin g, Fin b)
    /\ 0 <= r <= exp (- Dmin paper * LN10)
    /\ 0 <= g <= exp (- Dmin paper * LN10)
    /\ 0 <= b <= exp (- Dmin paper * LN10)
    /\ exp (- Dmin paper * LN10) <= 1.
Proof.
  intros Hp Hc.
  destruct (papers_valid _ _ Hp) as (HD0 & HD & _).
  pose proof (registered_tones _ _ Hp) as Ht.
  apply Forall_cons_iff in Ht. destruct Ht as [Hhi Ht].
  apply Forall_cons_iff in Ht. destruct Ht as [Hmid Ht].
  apply Forall_cons_iff in Ht. destruct Ht as [Hsh _].
  unfold Darkroom.render_pixel in Hc.
  destruct (Darkroom.render paper exposures L) as [U |] eqn:HU;
    [| discriminate].
  injection Hc as <-.
  destruct (render_fields _ _ _ _ HU) as (Hmin & Hmax & _).
  destruct (render_tones _ _ _ _ HU) as (Ehi & Emid & Esh).
  unfold Darkroom.shader_main.
  rewrite (shader_density_closed U _ _ _ (Dmin paper) (Dmax paper))
    by (try assumption; try lra; apply lut_bytes_range).
  pose proof (extra_sum_nonneg U (Darkroom.lut_bytes L)
                (Darkroom.log10_ (Darkroom.glsl_max (Fin 1e-6)
                                    (Darkroom.trans_texel r8 j)))
                (Darkroom.mask_alpha exposures j)
                (seq 0 (Darkroom.uExposureCount U)) (Dmin paper) (Dmax paper)
                Hmin Hmax ltac:(lra) (lut_bytes_range L)) as Hsum.
  set (D := Rmin _ (Dmax paper)).
  assert (HDr : Dmin paper <= D <= Dmax paper).
  { unfold D. split; [apply Rmin_glb; lra | apply Rmin_r]. }
  unfold Darkroom.shader_color. rewrite Ehi, Emid, Esh.
  rewrite nneg_F, nmul_FF. cbn [Math_exp].
  pose proof LN10_pos as H10.
  assert (Hrho : 0 < exp (- D * LN10) <= exp (- Dmin paper * LN10)).
  { split; [apply exp_pos | apply exp_mono_le; nra]. }
  assert (Hone : exp (- Dmin paper * LN10) <= 1).
  { rewrite <- exp_0. apply exp_mono_le. nra. }
  destruct (shader_channel_bound
              (tone_r (shadows (colorTone paper)))
              (tone_r (midtones (colorTone paper)))
              (tone_r (highlights (colorTone paper))) 1 (exp (- D * LN10)))
    as (r & -> & Hr); try lra.
  destruct (shader_channel_bound
              (tone_g (shadows (colorTone paper)))
              (tone_g (midtones (colorTone paper)))
              (tone_g (highlights (colorTone paper))) 1 (exp (- D * LN10)))
    as (g & -> & Hg); try lra.
  destruct (shader_channel_bound
              (tone_b (shadows (colorTone paper)))
              (tone_b (midtones (colorTone paper)))
              (tone_b (highlights (colorTone paper))) 1 (exp (- D * LN10)))
    as (b & -> & Hb); try lra.
  exists r, g, b. split; [reflexivity |].
  repeat split; lra.
Qed.

Lemma shader_colour_in_range_witness :
  exists c r g b,
    Darkroom.render_pixel ilford_multigrade gpu_project
      Darkroom.makeSigmoidLUT r8_white 0 = Some c
    /\ c = (Fin r, Fin g, Fin b)
    /\ 0 <= r <= 1 /\ 0 <= g <= 1 /\ 0 <= b <= 1.
Proof.
  destruct (Darkroom.render_pixel ilford_multigrade gpu_project
              Darkroom.makeSigmoidLUT r8_white 0) as [c |] eqn:E.
  - destruct (shader_colour_in_range "ilford-multigrade" ilford_multigrade
                gpu_project Darkroom.makeSigmoidLUT r8_white 0 c eq_refl E)
      as (r & g & b & Hc & Hr & Hg & Hb & H1).
    exists c, r, g, b. split; [reflexivity |]. split; [exact Hc |].
    repeat split; lra.
  - exfalso. unfold Darkroom.render_pixel in E.
    destruct (render_Some ilford_multigrade gpu_project Darkroom.makeSigmoidLUT)
      as (U & HU).
    + repeat constructor; discriminate.
    + rewrite HU in E. discriminate.
Defined.

(** *** The strokes of the darkroom module *)

Lemma drawMaskLine_loop_points (n : nat) (x y ix iy : R) :
  Darkroom.drawMaskLine_loop n x y ix iy
  = map (fun i => (x + INR i * ix, y + INR i * iy)) (seq 0 n).
Proof.
  revert x y. induction n as [| n IH]; intros x y; [reflexivity |].
  cbn [Darkroom.drawMaskLine_loop]. rewrite IH.
  cbn [seq map]. f_equal.
  - change (INR 0) with 0. f_equal; lra.
  - rewrite <- seq_shift, map_map. apply map_ext. intros i.
    rewrite S_INR. f_equal; lra.
Qed.

(** X21.  [drawMaskLine] for two points at least a pixel apart (and not
    2^31 brush radii apart): the stamps run from the first point to
    exactly the second one, in equal steps along the segment, and two
    consecutive stamps are less than a brush diameter apart, so that
    the stamped discs leave no gap.  For points less than a pixel apart
    there is one stamp, at the second point. *)
Theorem drawMaskLine_covers_segment (canvasWidth brushSize x1 y1 x2 y2 : R) :
  let dist := sqrt ((x2 - x1) * (x2 - x1) + (y2 - y1) * (y2 - y1)) in
  let pts := Darkroom.drawMaskLine canvasWidth brushSize x1 y1 x2 y2 in
  (dist < 1 -> pts = [(x2, y2)])
  /\ (1 <= dist -> dist < 2 ^ 31 ->
      exists steps : nat,
        (1 <= steps)%nat
        /\ List.length pts = S steps
        /\ hd_error pts = Some (x1, y1)
        /\ last pts (x1, y1) = (x2, y2)
        /\ (forall i, (i <= steps)%nat ->
              nth i pts (x1, y1)
              = (x1 + (x2 - x1) * (INR i / INR steps),
                 y1 + (y2 - y1) * (INR i / INR steps)))
        /\ dist / INR steps < Darkroom.brushSizePx canvasWidth brushSize).
Proof.
  intros dist pts. subst pts. unfold Darkroom.drawMaskLine. fold dist.
  split.
  - intros Hd. replace (Rltb dist 1) with true
      by (symmetry; now apply Rltb_true).
    reflexivity.
  - intros Hd H31.
    replace (Rltb dist 1) with false by (symmetry; now apply Rltb_false).
    set (bs := Darkroom.brushSizePx canvasWidth brushSize).
    assert (Hbs : 2 <= bs) by apply Rmax_l.
    set (step := bs / 2). assert (Hstep : 1 <= step) by (unfold step; lra).
    assert (Hq : dist / step * step = dist) by (apply div_mul_cancel; lra).
    assert (Hq0 : 0 <= dist / step).
    { apply Rmult_le_pos; [lra | left; apply Rinv_0_lt_compat; lra]. }
    assert (Hq1 : dist / step <= dist).
    { apply Rmult_le_reg_r with step; [lra |]. rewrite Hq. nra. }
    pose proof (Int_part_bounds (dist / step)) as Hb.
    pose proof (Int_part_nonneg _ Hq0) as Hn0.
    assert (Hi31 : (Int_part (dist / step) < 2 ^ 31)%Z).
    { assert (E31 : IZR (2 ^ 31) = 2 ^ 31)
        by (rewrite (pow_IZR 2 31); reflexivity).
      apply lt_IZR. rewrite E31. lra. }
    rewrite (ToInt32_eval _ (Int_part (dist / step)));
      [| split; [now apply (IZR_le 0) | apply Hb] | apply Hb | exact Hi31].
    set (steps := Z.max 1 (Int_part (dist / step))).
    assert (Hs1 : (1 <= steps)%Z) by (unfold steps; lia).
    assert (HsR : INR (Z.to_nat steps) = IZR steps)
      by (rewrite INR_IZR_INZ, Z2Nat.id by lia; reflexivity).
    assert (Hs1R : 1 <= IZR steps) by (now apply IZR_le).
    exists (Z.to_nat steps). rewrite drawMaskLine_loop_points.
    split; [lia |]. split; [now rewrite length_map, length_seq |].
    split; [| split; [| split]].
    + cbn [seq map hd_error]. change (INR 0) with 0.
      do 2 f_equal; lra.
    + rewrite seq_S, map_app. cbn [map]. rewrite last_last.
      cbn [Nat.add]. rewrite HsR. f_equal; field; lra.
    + intros i Hi.
      set (f := fun k : nat => (x1 + INR k * ((x2 - x1) / IZR steps),
                                y1 + INR k * ((y2 - y1) / IZR steps))).
      rewrite (nth_indep _ (x1, y1) (f 0%nat))
        by (rewrite length_map, length_seq; lia).
      rewrite (map_nth f), seq_nth by lia. unfold f. cbn [Nat.add].
      rewrite HsR. f_equal; field; lra.
    + rewrite HsR.
      apply Rmult_lt_reg_r with (IZR steps); [lra |].
      rewrite div_mul_cancel by lra.
      assert (Hcase : IZR steps = 1 /\ dist / step < 1
                      \/ IZR steps = IZR (Int_part (dist / step))
                         /\ 1 <= IZR (Int_part (dist / step))).
      { unfold steps.
        destruct (Z.le_gt_cases 1 (Int_part (dist / step))) as [H | H].
        - right. rewrite Z.max_r by lia. split; [reflexivity | now apply IZR_le].
        - left. rewrite Z.max_l by lia. split; [reflexivity |].
          assert (Int_part (dist / step) = 0%Z) by lia.
          rewrite H0 in Hb. lra. }
      unfold step in *. destruct Hcase as [[E Hlt] | [E Hge]]; rewrite E; nra.
Qed.

Lemma drawMaskLine_covers_segment_witness :
  exists steps : nat,
    (1 <= steps)%nat
    /\ hd_error (Darkroom.drawMaskLine 640 20 0 0 300 400) = Some (0, 0)
    /\ last (Darkroom.drawMaskLine 640 20 0 0 300 400) (0, 0) = (300, 400).
Proof.
  destruct (drawMaskLine_covers_segment 640 20 0 0 300 400) as [_ H].
  assert (Hd : sqrt ((300 - 0) * (300 - 0) + (400 - 0) * (400 - 0)) = 500).
  { replace ((300 - 0) * (300 - 0) + (400 - 0) * (400 - 0)) with (500 * 500)
      by lra.
    apply sqrt_square. lra. }
  destruct H as (steps & H1 & _ & H3 & H4 & _).
  - rewrite Hd. lra.
  - rewrite Hd. lra.
  - exists steps. repeat split; assumption.
Defined.

(** *** Loading a project *)

Lemma update_found_app_last (now : string)
  (f : Darkroom.Exposure -> Darkroom.Exposure) (l : list Darkroom.Exposure)
  (ex : Darkroom.Exposure) :
  Forall (fun e => Darkroom.id e <> now) l -> Darkroom.id ex = now ->
  Darkroom.update_found now f (l ++ [ex]) = l ++ [f ex].
Proof.
  intros Hl Hex. induction Hl as [| a l Ha Hl IH];
    cbn [app Darkroom.update_found].
  - now rewrite Hex, String.eqb_refl.
  - apply String.eqb_neq in Ha. rewrite Ha. now rewrite IH.
Qed.

(** One turn of the loop. *)
Lemma load_exposure_fields (now : string) (s : Darkroom.Editor)
  (exp : Darkroom.Exposure) :
  Darkroom.ed_negativeImage (Darkroom.load_exposure now s exp)
  = Darkroom.ed_negativeImage s
  /\ Darkroom.ed_paperType (Darkroom.load_exposure now s exp)
     = Darkroom.ed_paperType s
  /\ Darkroom.history (Darkroom.load_exposure now s exp) = Darkroom.history s
  /\ Darkroom.redoStack (Darkroom.load_exposure now s exp)
     = Darkroom.redoStack s
  /\ Darkroom.selectedExposureId (Darkroom.load_exposure now s exp) = Some now
  /\ Darkroom.ed_exposures (Darkroom.load_exposure now s exp)
     = Darkroom.update_found now (Darkroom.load_values exp)
         (Darkroom.ed_exposures s
          ++ [Darkroom.mkExposure now (Fin 16) 5 (Darkroom.initialMaskData s)]).
Proof.
  unfold Darkroom.load_exposure. rewrite addExposure_eq.
  repeat split.
Qed.

Lemma initialMaskData_load (now : string) (s : Darkroom.Editor)
  (exp : Darkroom.Exposure) :
  Darkroom.initialMaskData (Darkroom.load_exposure now s exp)
  = Darkroom.initialMaskData s.
Proof.
  unfold Darkroom.initialMaskData.
  now destruct (load_exposure_fields now s exp) as (-> & _).
Qed.

(** The loop under a clock that gives every call a reading of its own,
    none of them an id of the list. *)
Lemma load_exposures_distinct (now : nat -> string)
  (exps : list Darkroom.Exposure) :
  forall (k : nat) (s : Darkroom.Editor),
    NoDup (map now (seq k (List.length exps))) ->
    Forall (fun e => ~ In (Darkroom.id e) (map now (seq k (List.length exps))))
           (Darkroom.ed_exposures s) ->
    let s' := Darkroom.load_exposures now k s exps in
    Darkroom.ed_negativeImage s' = Darkroom.ed_negativeImage s
    /\ Darkroom.ed_paperType s' = Darkroom.ed_paperType s
    /\ Darkroom.history s' = Darkroom.history s
    /\ Darkroom.redoStack s' = Darkroom.redoStack s
    /\ (exps <> [] ->
        Darkroom.selectedExposureId s'
        = Some (now (k + List.length exps - 1)%nat))
    /\ exists tail,
         Darkroom.ed_exposures s' = Darkroom.ed_exposures s ++ tail
         /\ List.length tail = List.length exps
         /\ forall i exp,
              nth_error exps i = Some exp ->
              nth_error tail i
              = Some (Darkroom.load_values exp
                        (Darkroom.mkExposure (now (k + i)%nat) (Fin 16) 5
                           (Darkroom.initialMaskData s))).
Proof.
  induction exps as [| e rest IH]; intros k s Hnd Hids;
    cbn [Darkroom.load_exposures List.length seq map] in *.
  - repeat split; try reflexivity; [congruence |].
    exists []. rewrite app_nil_r. repeat split.
    intros [| i] exp H; discriminate.
  - apply NoDup_cons_iff in Hnd. destruct Hnd as [Hk Hnd].
    destruct (load_exposure_fields (now k) s e)
      as (Hn & Hp & Hh & Hr & Hsel & Hex).
    rewrite update_found_app_last in Hex;
      [| | reflexivity].
    2:{ eapply Forall_impl; [| exact Hids]. cbn beta. intros a Ha Heq.
        apply Ha. left. now symmetry. }
    specialize (IH (S k) (Darkroom.load_exposure (now k) s e) Hnd).
    destruct IH as (Hn' & Hp' & Hh' & Hr' & Hsel' & tail & Ht & Hlen & Hnth).
    { rewrite Hex. apply Forall_app. split.
      - eapply Forall_impl; [| exact Hids]. cbn beta. intros a Ha Hin.
        apply Ha. now right.
      - apply Forall_cons; [| apply Forall_nil]. exact Hk. }
    cbv zeta. rewrite Hn', Hp', Hh', Hr', Hn, Hp, Hh, Hr.
    repeat split; try reflexivity.
    + intros _. destruct rest as [| e' rest'].
      * cbn [Darkroom.load_exposures List.length]. rewrite Hsel.
        do 2 f_equal. lia.
      * rewrite Hsel' by discriminate. do 2 f_equal.
        cbn [List.length]. lia.
    + exists (Darkroom.load_values e
                (Darkroom.mkExposure (now k) (Fin 16) 5
                   (Darkroom.initialMaskData s)) :: tail).
      split; [rewrite Ht, Hex, <- app_assoc; reflexivity |].
      split; [cbn [List.length]; now rewrite Hlen |].
      intros [| i] exp Hi; cbn [nth_error] in *.
      * injection Hi as <-. now rewrite Nat.add_0_r.
      * rewrite (Hnth i exp Hi), initialMaskData_load.
        replace (S k + i)%nat with (k + S i)%nat by lia. reflexivity.
Qed.

(** X22.  [applyProjectData] under a clock that gives every call of
    [addExposure] a reading of its own: the list is replaced by one
    exposure per saved exposure, in the saved order, each under a new id
    (the clock reading, not the saved id) with the saved grade, the
    saved time unless that is 0 or NaN (then the default 16 s stays) and
    the saved mask (without one, the blank mask of a new exposure); the
    last one is selected, a paper name that is not empty is taken over,
    and the undo history is left alone. *)
Theorem applyProjectData_restores (now : nat -> string) (s : Darkroom.Editor)
  (pd : Darkroom.ProjectData) :
  Darkroom.pd_exposures pd <> [] ->
  NoDup (map now (seq 0 (List.length (Darkroom.pd_exposures pd)))) ->
  let s' := Darkroom.applyProjectData now s (Some pd) in
  List.length (Darkroom.ed_exposures s')
  = List.length (Darkroom.pd_exposures pd)
  /\ (forall i exp,
        nth_error (Darkroom.pd_exposures pd) i = Some exp ->
        exists ex,
          nth_error (Darkroom.ed_exposures s') i = Some ex
          /\ Darkroom.id ex = now i
          /\ Darkroom.grade ex = Darkroom.grade exp
          /\ Darkroom.time ex
             = (if Darkroom.truthy (Darkroom.time exp)
                then Darkroom.time exp else Fin 16)
          /\ Darkroom.maskData ex
             = match Darkroom.maskData exp with
               | Some md => Some md
               | None => Darkroom.initialMaskData s
               end)
  /\ Darkroom.selectedExposureId s'
     = Some (now (List.length (Darkroom.pd_exposures pd) - 1)%nat)
  /\ Darkroom.ed_paperType s'
     = (if String.eqb (Darkroom.pd_paperType pd) ""
        then Darkroom.ed_paperType s else Darkroom.pd_paperType pd)
  /\ Darkroom.history s' = Darkroom.history s
  /\ Darkroom.redoStack s' = Darkroom.redoStack s.
Proof.
  intros Hne Hnd s'. subst s'. unfold Darkroom.applyProjectData.
  destruct (Darkroom.pd_exposures pd) as [| e rest] eqn:E; [congruence |].
  rewrite <- E in *. clear E e rest.
  set (s0 := Darkroom.with_exposures
               (if String.eqb (Darkroom.pd_paperType pd) "" then s
                else Darkroom.with_project s (Darkroom.pd_paperType pd)
                       (Darkroom.ed_exposures s)
                       (Darkroom.selectedExposureId s)) []).
  assert (H0 : Darkroom.ed_exposures s0 = []
               /\ Darkroom.ed_negativeImage s0 = Darkroom.ed_negativeImage s
               /\ Darkroom.history s0 = Darkroom.history s
               /\ Darkroom.redoStack s0 = Darkroom.redoStack s
               /\ Darkroom.ed_paperType s0
                  = (if String.eqb (Darkroom.pd_paperType pd) ""
                     then Darkroom.ed_paperType s
                     else Darkroom.pd_paperType pd)).
  { unfold s0. destruct (String.eqb (Darkroom.pd_paperType pd) "");
      repeat split. }
  destruct H0 as (He0 & Hn0 & Hh0 & Hr0 & Hp0).
  destruct (load_exposures_distinct now (Darkroom.pd_exposures pd) 0 s0 Hnd)
    as (Hn & Hp & Hh & Hr & Hsel & tail & Ht & Hlen & Hnth).
  { rewrite He0. apply Forall_nil. }
  rewrite He0 in Ht. cbn [app] in Ht.
  assert (Hi0 : Darkroom.initialMaskData s0 = Darkroom.initialMaskData s)
    by (unfold Darkroom.initialMaskData; now rewrite Hn0).
  rewrite Ht, Hlen, Hp, Hh, Hr, Hp0, Hh0, Hr0, (Hsel Hne).
  repeat split; try reflexivity.
  intros i exp Hi. eexists. split; [apply (Hnth i exp Hi) |].
  rewrite Hi0. cbn. repeat split.
Qed.

Lemma applyProjectData_restores_witness :
  map (fun ex => (Darkroom.time ex, Darkroom.grade ex))
      (Darkroom.ed_exposures
         (Darkroom.applyProjectData ticking_clock example_editor
            (Some saved_project)))
  = [(Fin 8, 3%Z); (Fin 32, 9%Z)]
  /\ List.length
       (Darkroom.ed_exposures
          (Darkroom.applyProjectData ticking_clock example_editor
             (Some saved_project))) = 2%nat.
Proof.
  assert (Hne : Darkroom.pd_exposures saved_project <> []) by discriminate.
  assert (Hnd : NoDup (map ticking_clock
                         (seq 0 (List.length
                                   (Darkroom.pd_exposures saved_project))))).
  { cbn. apply NoDup_cons; [| apply NoDup_cons; [| apply NoDup_nil]].
    - intros [H | []]. discriminate.
    - intros []. }
  pose proof (applyProjectData_restores ticking_clock example_editor
                saved_project Hne Hnd) as (Hlen & _).
  split; [| exact Hlen].
  unfold Darkroom.applyProjectData, saved_project.
  cbn [Darkroom.pd_exposures Darkroom.pd_paperType String.eqb Ascii.eqb
       Bool.eqb Darkroom.load_exposures].
  unfold Darkroom.load_exposure. rewrite !addExposure_eq.
  cbn [Darkroom.with_exposures Darkroom.with_project Darkroom.with_selected
       Darkroom.ed_exposures Darkroom.ed_negativeImage Darkroom.ed_paperType
       Darkroom.selectedExposureId Darkroom.loadingProjectData
       Darkroom.history Darkroom.redoStack app Darkroom.update_found
       ticking_clock Darkroom.id String.eqb Ascii.eqb Bool.eqb map
       Darkroom.load_values Darkroom.time Darkroom.grade Darkroom.truthy].
  unfold Reqb.
  destruct (Req_dec_T 8 0) as [H8 | _]; [lra |].
  destruct (Req_dec_T 32 0) as [H32 | _]; [lra |].
  reflexivity.
Defined.

Lemma update_found_head (now : string)
  (f : Darkroom.Exposure -> Darkroom.Exposure) (e0 : Darkroom.Exposure)
  (l : list Darkroom.Exposure) :
  Darkroom.id e0 = now ->
  Darkroom.update_found now f (e0 :: l) = f e0 :: l.
Proof.
  intros H. cbn [Darkroom.update_found]. now rewrite H, String.eqb_refl.
Qed.

(** The loop under a clock that stands still at [t], once the list
    begins with an exposure of the id [t]: every saved exposure is
    written onto that first exposure, and a blank one is appended. *)
Lemma load_exposures_stuck (now : nat -> string) (t : string)
  (exps : list Darkroom.Exposure) :
  forall (k m : nat) (s : Darkroom.Editor) (e0 : Darkroom.Exposure),
    (forall i, (k <= i < k + List.length exps)%nat -> now i = t) ->
    Darkroom.id e0 = t ->
    Darkroom.ed_exposures s
    = e0 :: repeat (Darkroom.mkExposure t (Fin 16) 5
                      (Darkroom.initialMaskData s)) m ->
    Darkroom.ed_exposures (Darkroom.load_exposures now k s exps)
    = fold_left (fun e exp => Darkroom.load_values exp e) exps e0
      :: repeat (Darkroom.mkExposure t (Fin 16) 5
                   (Darkroom.initialMaskData s)) (m + List.length exps).
Proof.
  induction exps as [| exp rest IH]; intros k m s e0 Hnow He0 Hs;
    cbn [Darkroom.load_exposures List.length fold_left] in *.
  - now rewrite Nat.add_0_r.
  - assert (Hk : now k = t) by (apply Hnow; lia).
    destruct (load_exposure_fields (now k) s exp) as (_ & _ & _ & _ & _ & Hex).
    rewrite Hk, Hs in Hex. cbn [app] in Hex.
    rewrite update_found_head in Hex by exact He0.
    rewrite <- repeat_cons in Hex.
    rewrite (IH (S k) (S m) (Darkroom.load_exposure (now k) s exp)
               (Darkroom.load_values exp e0)).
    + rewrite initialMaskData_load. do 2 f_equal. lia.
    + intros i Hi. apply Hnow. lia.
    + exact He0.
    + rewrite initialMaskData_load, Hk. exact Hex.
Qed.

Lemma fold_load_values_last (exps : list Darkroom.Exposure)
  (last_exp e0 : Darkroom.Exposure) :
  fold_left (fun e exp => Darkroom.load_values exp e) (exps ++ [last_exp]) e0
  = Darkroom.load_values last_exp
      (fold_left (fun e exp => Darkroom.load_values exp e) exps e0).
Proof. now rewrite fold_left_app. Qed.

Lemma fold_load_values_id (exps : list Darkroom.Exposure)
  (e0 : Darkroom.Exposure) :
  Darkroom.id (fold_left (fun e exp => Darkroom.load_values exp e) exps e0)
  = Darkroom.id e0.
Proof.
  revert e0. induction exps as [| exp rest IH]; intros e0; [reflexivity |].
  cbn [fold_left]. now rewrite IH.
Qed.

(** X23.  [applyProjectData] when every call of [addExposure] falls
    into the same millisecond [t], for a project of at least two saved
    exposures: all exposures of the list get the id [t], every saved
    exposure is written onto the first of them, which ends with the
    grade (and the truthy time, and the mask) of the LAST saved
    exposure, and every other exposure of the list stays the blank
    default of 16 s at grade 5: what was saved is not what is loaded. *)
Theorem applyProjectData_same_millisecond (now : nat -> string) (t : string)
  (s : Darkroom.Editor) (paperType : string) (exp1 : Darkroom.Exposure)
  (exps : list Darkroom.Exposure) (last_exp : Darkroom.Exposure) :
  (forall i, (i <= S (List.length exps))%nat -> now i = t) ->
  let saved := exp1 :: exps ++ [last_exp] in
  let s' := Darkroom.applyProjectData now s
              (Some (Darkroom.mkProjectData paperType saved)) in
  exists first,
    Darkroom.ed_exposures s'
    = first :: repeat (Darkroom.mkExposure t (Fin 16) 5
                         (Darkroom.initialMaskData s))
                      (S (List.length exps))
    /\ Darkroom.id first = t
    /\ Darkroom.grade first = Darkroom.grade last_exp
    /\ (Darkroom.truthy (Darkroom.time last_exp) = true ->
        Darkroom.time first = Darkroom.time last_exp)
    /\ (forall md, Darkroom.maskData last_exp = Some md ->
                   Darkroom.maskData first = Some md).
Proof.
  intros Hnow saved s'. subst s' saved. unfold Darkroom.applyProjectData.
  cbn [Darkroom.pd_exposures Darkroom.pd_paperType Darkroom.load_exposures].
  set (s0 := Darkroom.with_exposures
               (if String.eqb paperType "" then s
                else Darkroom.with_project s paperType
                       (Darkroom.ed_exposures s)
                       (Darkroom.selectedExposureId s)) []).
  assert (H0 : Darkroom.ed_exposures s0 = []
               /\ Darkroom.ed_negativeImage s0 = Darkroom.ed_negativeImage s).
  { unfold s0. destruct (String.eqb paperType ""); split; reflexivity. }
  destruct H0 as (He0 & Hn0).
  assert (Hi0 : Darkroom.initialMaskData s0 = Darkroom.initialMaskData s)
    by (unfold Darkroom.initialMaskData; now rewrite Hn0).
  assert (H0t : now 0%nat = t) by (apply Hnow; lia).
  destruct (load_exposure_fields (now 0%nat) s0 exp1)
    as (_ & _ & _ & _ & _ & Hex).
  rewrite He0 in Hex. cbn [app] in Hex.
  rewrite update_found_head in Hex by reflexivity.
  rewrite H0t, Hi0 in Hex.
  set (e1 := Darkroom.load_values exp1
               (Darkroom.mkExposure t (Fin 16) 5 (Darkroom.initialMaskData s)))
    in *.
  rewrite (load_exposures_stuck now t (exps ++ [last_exp]) 1 0
             (Darkroom.load_exposure (now 0%nat) s0 exp1) e1).
  - rewrite initialMaskData_load, Hi0, fold_load_values_last.
    rewrite length_app. cbn [List.length Nat.add].
    replace (List.length exps + 1)%nat with (S (List.length exps)) by lia.
    eexists. split; [reflexivity |].
    cbn [Darkroom.load_values Darkroom.id Darkroom.grade Darkroom.time
         Darkroom.maskData].
    rewrite fold_load_values_id.
    split; [reflexivity |]. split; [reflexivity |].
    split.
    + intros ->. reflexivity.
    + intros md ->. reflexivity.
  - intros i Hi. apply Hnow. rewrite length_app in Hi.
    cbn [List.length] in Hi. lia.
  - reflexivity.
  - rewrite H0t, initialMaskData_load, Hi0. exact Hex.
Qed.

Lemma applyProjectData_same_millisecond_witness :
  exists first,
    Darkroom.ed_exposures
      (Darkroom.applyProjectData stuck_clock example_editor
         (Some (Darkroom.mkProjectData "kodak-polymax"
                  (Darkroom.mkExposure "1730400000000" (Fin 8) 3 None
                   :: [] ++ [Darkroom.mkExposure "1730400000500" (Fin 32) 9
                               None]))))
    = [first;
       Darkroom.mkExposure "1730500000100" (Fin 16) 5
         (Darkroom.initialMaskData example_editor)]
    /\ Darkroom.grade first = 9%Z.
Proof.
  destruct (applyProjectData_same_millisecond stuck_clock "1730500000100"
              example_editor "kodak-polymax"
              (Darkroom.mkExposure "1730400000000" (Fin 8) 3 None) []
              (Darkroom.mkExposure "1730400000500" (Fin 32) 9 None))
    as (first & He & _ & Hg & _).
  - intros i _. reflexivity.
  - exists first. split; [exact He | exact Hg].
Defined.

(** *** Truncated and extended project files *)

(** A read that succeeds on a buffer succeeds alike on every extension
    of the buffer. *)
Lemma slice_prefix (p q : list Z) (offset len : Z) (l : list Z) :
  Darkroom.slice p offset len = Darkroom.Ok l ->
  Darkroom.slice (p ++ q) offset len = Darkroom.Ok l.
Proof.
  intros H. pose proof (slice_Ok _ _ _ _ H) as (Ho & Hl & Hb & _).
  unfold Darkroom.slice in *. rewrite length_app.
  destruct (Z.leb_spec 0 offset); [| lia].
  destruct (Z.leb_spec 0 len); [| lia].
  destruct (Z.leb_spec (offset + len) (Z.of_nat (List.length p))); [| lia].
  destruct (Z.leb_spec (offset + len)
              (Z.of_nat (List.length p + List.length q))); [| lia].
  cbn [andb] in *. injection H as <-. f_equal.
  rewrite skipn_app, firstn_app, length_skipn.
  replace (Z.to_nat len - (List.length p - Z.to_nat offset))%nat with 0%nat
    by lia.
  cbn [firstn]. apply app_nil_r.
Qed.

(** The next read of the hypothesis succeeded: the goal's read of the
    extended buffer gives the same bytes. *)
Ltac same_read H q :=
  match type of H with
  | context [Darkroom.slice ?p ?o ?n] =>
      let E := fresh "E" in
      let l := fresh "l" in
      let B := fresh "B" in
      destruct (Darkroom.slice p o n) as [l | | |] eqn:E;
      cbn [Darkroom.bind] in H; try discriminate H;
      rewrite (slice_prefix p q o n l E); cbn [Darkroom.bind];
      pose proof (slice_Ok _ _ _ _ E) as B
  end.

Section Prefixes.

Variable TextEncoder_encode : string -> list Z.
Variable TextDecoder_decode : list Z -> string.
Variable float64_bits : num -> Z.
Variable float64_of_bits : Z -> num.

Let write_exposure := Darkroom.write_exposure TextEncoder_encode float64_bits.
Let storable_exposure :=
  Darkroom.storable_exposure TextEncoder_encode TextDecoder_decode
    float64_bits float64_of_bits.
Let read_exposure := Darkroom.read_exposure TextDecoder_decode float64_of_bits.
Let read_exposures :=
  Darkroom.read_exposures TextDecoder_decode float64_of_bits.
Let parse_body := Darkroom.parse_body TextDecoder_decode float64_of_bits.

(** An exposure read from a buffer is read alike from every extension,
    and it ends inside the buffer. *)
Lemma read_exposure_prefix (p q : list Z) (offset : Z)
  (e : Darkroom.Exposure) (offset' : Z) :
  read_exposure p offset = Darkroom.Ok (e, offset') ->
  read_exposure (p ++ q) offset = Darkroom.Ok (e, offset')
  /\ (offset' <= Z.of_nat (List.length p))%Z.
Proof.
  unfold read_exposure, Darkroom.read_exposure, Darkroom.getUint32,
    Darkroom.getUint8, Darkroom.getInt32, Darkroom.getFloat64.
  intros H.
  do 5 same_read H q.
  destruct (Darkroom.le_value l3 =? 1)%Z.
  - do 3 same_read H q. injection H as <- <-. split; [reflexivity | lia].
  - injection H as <- <-. split; [reflexivity | lia].
Qed.

Lemma read_exposures_prefix (p q : list Z) (fuel : nat) :
  forall count offset acc l,
    read_exposures fuel p count offset acc = Darkroom.Ok l ->
    read_exposures fuel (p ++ q) count offset acc = Darkroom.Ok l.
Proof.
  unfold read_exposures.
  induction fuel as [| fuel IH]; intros count offset acc l;
    cbn [Darkroom.read_exposures]; destruct (count <=? 0)%Z; auto.
  fold read_exposure.
  destruct (read_exposure p offset) as [[e off'] | | |] eqn:E;
    cbn [Darkroom.bind]; try discriminate.
  destruct (read_exposure_prefix p q offset e off' E) as [-> _].
  cbn [Darkroom.bind fst snd]. apply IH.
Qed.

(** A project parsed from a buffer is parsed alike from every extension
    of the buffer. *)
Lemma parse_body_prefix (p q : list Z) (fuel : nat)
  (pd : Darkroom.ProjectData) :
  parse_body fuel p = Darkroom.Ok pd ->
  parse_body fuel (p ++ q) = Darkroom.Ok pd.
Proof.
  unfold parse_body, Darkroom.parse_body, Darkroom.getUint32,
    Darkroom.getUint8.
  intros H.
  same_read H q. destruct (negb _); [discriminate |].
  same_read H q. destruct (negb _); [discriminate |].
  same_read H q. destruct (negb _); [discriminate |].
  same_read H q. destruct (negb _); [discriminate |].
  same_read H q. destruct (negb _); [discriminate |].
  do 3 same_read H q.
  fold read_exposures in H. fold read_exposures.
  destruct (read_exposures fuel p _ _ _) as [l' | | |] eqn:Eexp;
    cbn [Darkroom.bind] in H; try discriminate.
  rewrite (read_exposures_prefix p q fuel _ _ _ _ Eexp). exact H.
Qed.

(** The exposures are not read from a buffer that ends before the last
    of them does. *)
Lemma read_exposures_truncated (exposures : list Darkroom.Exposure) :
  forall pre p q acc fuel l,
    Forall storable_exposure exposures ->
    p ++ q = pre ++ flat_map write_exposure exposures ->
    q <> [] -> (List.length pre <= List.length p)%nat ->
    read_exposures fuel p (Z.of_nat (List.length exposures))
      (Z.of_nat (List.length pre)) acc <> Darkroom.Ok l.
Proof.
  unfold read_exposures.
  induction exposures as [| e rest IH];
    intros pre p q acc fuel l Hall Hpq Hq Hlen.
  - exfalso. cbn [flat_map] in Hpq. rewrite app_nil_r in Hpq.
    apply (f_equal (@List.length Z)) in Hpq. rewrite length_app in Hpq.
    destruct q; [congruence | cbn [List.length] in Hpq; lia].
  - inversion Hall as [| ? ? He Hrest]; subst.
    destruct fuel as [| fuel]; cbn [Darkroom.read_exposures];
      destruct (Z.leb_spec (Z.of_nat (List.length (e :: rest))) 0) as [Hz | _];
      try (cbn [List.length] in Hz; lia); [discriminate |].
    fold read_exposure.
    destruct (read_exposure p (Z.of_nat (List.length pre)))
      as [[e' off'] | | |] eqn:E; cbn [Darkroom.bind]; try discriminate.
    destruct (read_exposure_prefix p q _ e' off' E) as [E' Hoff].
    rewrite Hpq in E'. cbn [flat_map] in E'.
    unfold read_exposure in E'.
    rewrite (read_exposure_written TextEncoder_encode TextDecoder_decode
               float64_bits float64_of_bits pre _ e He) in E'.
    injection E' as <- <-. cbn [fst snd].
    replace (Z.of_nat (List.length (e :: rest)) - 1)%Z
      with (Z.of_nat (List.length rest)) by (cbn [List.length]; lia).
    apply (IH (pre ++ write_exposure e) p q); try assumption.
    + rewrite Hpq. cbn [flat_map]. now rewrite <- app_assoc.
    + apply Nat2Z.inj_le. exact Hoff.
Qed.

(** The list lengths met while locating a part of the buffer. *)
Ltac part_lengths :=
  repeat rewrite ?length_app, ?length_le_bytes, ?length_map;
  cbn [List.length]; lia.

(** The next read of the hypothesis succeeded on the cut buffer [p]: it
    gave the part [l] that was written after [pre]. *)
Ltac known_read H Hpq q buffer pre l post :=
  match type of H with
  | context [Darkroom.slice ?p ?o ?n] =>
      let E := fresh "E" in
      let l0 := fresh "l" in
      let B := fresh "B" in
      destruct (Darkroom.slice p o n) as [l0 | | |] eqn:E;
      cbn [Darkroom.bind] in H; try discriminate H;
      pose proof (slice_Ok _ _ _ _ E) as B;
      apply (slice_prefix p q) in E; rewrite Hpq in E;
      rewrite (slice_at buffer pre l post) in E;
      [ injection E as <-
      | subst buffer; repeat rewrite <- app_assoc; reflexivity
      | part_lengths
      | part_lengths ]
  end.

(** No project is parsed from a saved buffer that was cut short. *)
Lemma parse_body_truncated (fuel : nat) (paperType : string)
  (exposures : list Darkroom.Exposure) (p q : list Z)
  (pd : Darkroom.ProjectData) :
  Darkroom.storable_project TextEncoder_encode TextDecoder_decode
    float64_bits float64_of_bits paperType exposures ->
  p ++ q
  = Darkroom.project_buffer TextEncoder_encode float64_bits paperType exposures ->
  q <> [] ->
  parse_body fuel p <> Darkroom.Ok pd.
Proof.
  intros (Hlen & Hpt & Hcount & Hall) Hpq Hq H.
  unfold Darkroom.project_buffer in Hpq.
  fold write_exposure in Hpq.
  set (V := Darkroom.le_bytes 4 1) in *.
  set (A := Darkroom.le_bytes 4
              (Z.of_nat (List.length (TextEncoder_encode paperType)))) in *.
  set (B := map (fun b => (b mod 256)%Z) (TextEncoder_encode paperType)) in *.
  set (N := Darkroom.le_bytes 4 (Z.of_nat (List.length exposures))) in *.
  set (X := flat_map write_exposure exposures) in *.
  assert (HA : Darkroom.le_value A = Z.of_nat (List.length B)).
  { unfold A, B. rewrite length_map. apply le_value_small.
    change (256 ^ Z.of_nat 4)%Z with (2 ^ 32)%Z. lia. }
  assert (HN : Darkroom.le_value N = Z.of_nat (List.length exposures)).
  { unfold N. apply le_value_small.
    change (256 ^ Z.of_nat 4)%Z with (2 ^ 32)%Z. lia. }
  assert (HlV : List.length V = 4%nat) by apply length_le_bytes.
  assert (HlA : List.length A = 4%nat) by apply length_le_bytes.
  assert (HlN : List.length N = 4%nat) by apply length_le_bytes.
  set (buffer := [68; 68; 82; 77]%Z ++ V ++ A ++ B ++ N ++ X) in *.
  unfold parse_body, Darkroom.parse_body, Darkroom.getUint8,
    Darkroom.getUint32 in H.
  known_read H Hpq q buffer (@nil Z) [68%Z]
    ([68; 82; 77]%Z ++ V ++ A ++ B ++ N ++ X).
  rewrite le_value_single, Z.eqb_refl in H. cbn [negb] in H.
  known_read H Hpq q buffer [68%Z] [68%Z] ([82; 77]%Z ++ V ++ A ++ B ++ N ++ X).
  rewrite le_value_single, Z.eqb_refl in H. cbn [negb] in H.
  known_read H Hpq q buffer [68; 68]%Z [82%Z] ([77%Z] ++ V ++ A ++ B ++ N ++ X).
  rewrite le_value_single, Z.eqb_refl in H. cbn [negb] in H.
  known_read H Hpq q buffer [68; 68; 82]%Z [77%Z] (V ++ A ++ B ++ N ++ X).
  rewrite le_value_single, Z.eqb_refl in H. cbn [negb] in H.
  known_read H Hpq q buffer [68; 68; 82; 77]%Z V (A ++ B ++ N ++ X).
  change (Darkroom.le_value V) with 1%Z in H.
  rewrite Z.eqb_refl in H. cbn [negb] in H.
  known_read H Hpq q buffer ([68; 68; 82; 77]%Z ++ V) A (B ++ N ++ X).
  rewrite HA in H.
  known_read H Hpq q buffer ([68; 68; 82; 77]%Z ++ V ++ A) B (N ++ X).
  known_read H Hpq q buffer ([68; 68; 82; 77]%Z ++ V ++ A ++ B) N X.
  rewrite HN in H.
  replace (12 + Z.of_nat (List.length B) + 4)%Z
    with (Z.of_nat (List.length ([68; 68; 82; 77]%Z ++ V ++ A ++ B ++ N)))
    in H by part_lengths.
  fold read_exposures in H.
  destruct (read_exposures fuel p _ _ _) as [l' | | |] eqn:Eexp;
    cbn [Darkroom.bind] in H; try discriminate.
  revert Eexp.
  apply (read_exposures_truncated exposures _ p q); try assumption.
  - rewrite Hpq. subst buffer. repeat rewrite <- app_assoc. reflexivity.
  - destruct B6 as (_ & _ & Hb & _). rewrite !length_app in *.
    cbn [List.length] in *. lia.
Qed.

End Prefixes.

(** X24.  A saved project file that was cut short or extended: for
    every project the format can hold, the buffer of [saveProjectData]
    followed by any further bytes is parsed to the same project (the
    parser never looks past the last exposure), and every buffer that
    ends before the saved one does is parsed to [null] (a read past the
    end throws, the exception is caught): a truncated file is never
    taken for a project. *)
Theorem saved_file_cut_or_extended
  (TextEncoder_encode : string -> list Z) (TextDecoder_decode : list Z -> string)
  (float64_bits : num -> Z) (float64_of_bits : Z -> num)
  (s : Darkroom.Simulator) (buffer : list Z) :
  Darkroom.storable_project TextEncoder_encode TextDecoder_decode
    float64_bits float64_of_bits
    (Darkroom.paperType s) (Darkroom.exposures s) ->
  Darkroom.saveProjectData TextEncoder_encode float64_bits true true s
  = Some buffer ->
  (forall extra,
      snd (Darkroom.parseBinaryProjectData TextDecoder_decode float64_of_bits
             s (buffer ++ extra))
      = Some (Darkroom.mkProjectData (Darkroom.paperType s)
                (Darkroom.exposures s)))
  /\ (forall p q,
        p ++ q = buffer -> q <> [] ->
        snd (Darkroom.parseBinaryProjectData TextDecoder_decode
               float64_of_bits s p) = None).
Proof.
  intros Hst Hsave. unfold Darkroom.saveProjectData in Hsave.
  cbn [negb] in Hsave. injection Hsave as <-. split.
  - intros extra. unfold Darkroom.parseBinaryProjectData.
    rewrite (parse_body_prefix TextDecoder_decode float64_of_bits _ extra _
               (Darkroom.mkProjectData (Darkroom.paperType s)
                  (Darkroom.exposures s))); [reflexivity |].
    apply (parse_body_written TextEncoder_encode TextDecoder_decode
             float64_bits float64_of_bits _ _ _ Hst).
    pose proof (flat_map_write_length TextEncoder_encode float64_bits
                  (Darkroom.exposures s)) as Hl.
    unfold Darkroom.project_buffer. repeat rewrite length_app. lia.
  - intros p q Hpq Hq. unfold Darkroom.parseBinaryProjectData.
    destruct (Darkroom.parse_body TextDecoder_decode float64_of_bits
                (S (List.length p)) p) as [pd | | |] eqn:E; try reflexivity.
    exfalso.
    exact (parse_body_truncated TextEncoder_encode TextDecoder_decode
             float64_bits float64_of_bits _ _ _ p q pd Hst Hpq Hq E).
Qed.

Lemma saved_file_cut_or_extended_witness :
  exists buffer,
    Darkroom.saveProjectData bytewise_encode example_float64_bits
      true true example_simulator = Some buffer
    /\ snd (Darkroom.parseBinaryProjectData bytewise_decode
              example_float64_of_bits example_simulator (buffer ++ [7%Z]))
       = Some (Darkroom.mkProjectData
                 (Darkroom.paperType example_simulator)
                 (Darkroom.exposures example_simulator))
    /\ snd (Darkroom.parseBinaryProjectData bytewise_decode
              example_float64_of_bits example_simulator (removelast buffer))
       = None.
Proof.
  eexists. split; [reflexivity |].
  destruct (saved_file_cut_or_extended bytewise_encode bytewise_decode
              example_float64_bits example_float64_of_bits example_simulator
              _ example_project_storable eq_refl) as [Hext Hcut].
  split; [apply Hext |].
  apply (Hcut _ [last (Darkroom.project_buffer bytewise_encode
                         example_float64_bits
                         (Darkroom.paperType example_simulator)
                         (Darkroom.exposures example_simulator)) 0%Z]);
    [| discriminate].
  symmetry. apply app_removelast_last.
  unfold Darkroom.project_buffer. discriminate.
Defined.

(** *** The negative of the two programs *)

(** X25.  The negative of the darkroom module against the one of
    script.js, for a pixel of bytes: the byte [createNegativeImage]
    stores is a byte within 1/2 of 255 - grey, it does not grow when the
    pixel gets brighter, a grey pixel [v v v] gives exactly 255 - v, and
    the transmittance the shader reads from it differs from the
    transmittance script.js prints with by at most 1/510. *)
Theorem negative_transmittances_agree (r g b : Z) :
  is_byte r -> is_byte g -> is_byte b ->
  let n := Darkroom.createNegativeImage_byte r g b in
  is_byte n
  /\ Rabs (IZR n - Script.inverted_of r g b) <= / 2
  /\ Darkroom.trans_texel
       (Darkroom.uploadTransmittanceFromImageData [n; n; n; 255%Z]) 0
     = Fin (IZR n / 255)
  /\ Rabs (IZR n / 255 - Script.trans_of r g b) <= 1 / 510
  /\ 0 <= Script.trans_of r g b <= 1
  /\ (r = g -> g = b -> n = (255 - r)%Z)
  /\ (forall r' g' b',
        is_byte r' -> is_byte g' -> is_byte b' ->
        (r <= r')%Z -> (g <= g')%Z -> (b <= b')%Z ->
        (Darkroom.createNegativeImage_byte r' g' b' <= n)%Z).
Proof.
  intros [Hr0 Hr1] [Hg0 Hg1] [Hb0 Hb1] n.
  pose proof (IZR_le _ _ Hr0) as Hr0'. pose proof (IZR_le _ _ Hr1) as Hr1'.
  pose proof (IZR_le _ _ Hg0) as Hg0'. pose proof (IZR_le _ _ Hg1) as Hg1'.
  pose proof (IZR_le _ _ Hb0) as Hb0'. pose proof (IZR_le _ _ Hb1) as Hb1'.
  change (IZR 255) with 255 in *. change (IZR 0) with 0 in *.
  assert (Hinv : 0 <= Script.inverted_of r g b <= 255)
    by (unfold Script.inverted_of, Script.gray_of; lra).
  assert (Hn : n = ToUint8Clamp (Script.inverted_of r g b)) by reflexivity.
  destruct (ToUint8Clamp_near _ Hinv) as [Hbyte Hnear].
  rewrite <- Hn in Hbyte, Hnear.
  split; [exact Hbyte |]. split; [exact Hnear |].
  split; [reflexivity |].
  split; [| split; [| split]].
  - unfold Script.trans_of.
    replace (IZR n / 255 - Script.inverted_of r g b * (1 / 255))
      with ((IZR n - Script.inverted_of r g b) * / 255) by (field; lra).
    rewrite Rabs_mult, (Rabs_pos_eq (/ 255)) by lra.
    apply Rle_trans with (/ 2 * / 255); [| lra].
    apply Rmult_le_compat_r; [lra | exact Hnear].
  - unfold Script.trans_of. lra.
  - intros -> ->. rewrite Hn.
    replace (Script.inverted_of b b b) with (IZR (255 - b))
      by (rewrite minus_IZR; unfold Script.inverted_of, Script.gray_of; lra).
    apply ToUint8Clamp_byte. split; lia.
  - intros r' g' b' [Hr0a Hr1a] [Hg0a Hg1a] [Hb0a Hb1a] Hr Hg Hb.
    apply IZR_le in Hr0a, Hr1a, Hg0a, Hg1a, Hb0a, Hb1a, Hr, Hg, Hb.
    change (IZR 255) with 255 in *. change (IZR 0) with 0 in *.
    rewrite Hn. unfold Darkroom.createNegativeImage_byte.
    apply ToUint8Clamp_monotone;
      unfold Script.inverted_of, Script.gray_of; lra.
Qed.

Lemma negative_transmittances_agree_witness :
  Darkroom.createNegativeImage_byte 200 200 200 = 55%Z
  /\ Rabs (IZR (Darkroom.createNegativeImage_byte 10 20 30) / 255
           - Script.trans_of 10 20 30) <= 1 / 510.
Proof.
  split.
  - apply (negative_transmittances_agree 200 200 200);
      unfold is_byte; try lia; reflexivity.
  - apply (negative_transmittances_agree 10 20 30); unfold is_byte; lia.
Defined.

(** X26.  The picture [convertToNegative] of script.js puts on the
    canvas is not the negative: the second loop inverts what the first
    loop has inverted, so the byte shown is 255 minus the byte of the
    negative, a byte within 1/2 of the grey of the picture itself (white
    is shown white, black is shown black, a grey pixel [v v v] is shown
    as [v]), while the transmittance kept for printing is that of the
    negative, 1 - grey / 255. *)
Theorem convertToNegative_shows_positive (r g b : Z) :
  is_byte r -> is_byte g -> is_byte b ->
  Script.shown_byte r g b = (255 - Script.stored_inverted r g b)%Z
  /\ is_byte (Script.shown_byte r g b)
  /\ Rabs (IZR (Script.shown_byte r g b) - Script.gray_of r g b) <= / 2
  /\ Script.trans_of r g b = 1 - Script.gray_of r g b / 255
  /\ (r = g -> g = b -> Script.shown_byte r g b = r).
Proof.
  intros [Hr0 Hr1] [Hg0 Hg1] [Hb0 Hb1].
  pose proof (IZR_le _ _ Hr0) as Hr0'. pose proof (IZR_le _ _ Hr1) as Hr1'.
  pose proof (IZR_le _ _ Hg0) as Hg0'. pose proof (IZR_le _ _ Hg1) as Hg1'.
  pose proof (IZR_le _ _ Hb0) as Hb0'. pose proof (IZR_le _ _ Hb1) as Hb1'.
  change (IZR 255) with 255 in *. change (IZR 0) with 0 in *.
  assert (Hinv : 0 <= Script.inverted_of r g b <= 255)
    by (unfold Script.inverted_of, Script.gray_of; lra).
  destruct (ToUint8Clamp_near _ Hinv) as [Hbyte Hnear].
  fold (Script.stored_inverted r g b) in Hbyte, Hnear.
  assert (Hshown : Script.shown_byte r g b
                   = (255 - Script.stored_inverted r g b)%Z).
  { unfold Script.shown_byte. cbv zeta.
    replace (Script.inverted_of (Script.stored_inverted r g b)
               (Script.stored_inverted r g b) (Script.stored_inverted r g b))
      with (IZR (255 - Script.stored_inverted r g b))
      by (rewrite minus_IZR; unfold Script.inverted_of, Script.gray_of; lra).
    apply ToUint8Clamp_byte. split; lia. }
  split; [exact Hshown |]. rewrite Hshown.
  split; [split; lia |].
  split; [| split].
  - rewrite minus_IZR. change (IZR 255) with 255.
    replace (255 - IZR (Script.stored_inverted r g b) - Script.gray_of r g b)
      with (- (IZR (Script.stored_inverted r g b) - Script.inverted_of r g b))
      by (unfold Script.inverted_of; lra).
    now rewrite Rabs_Ropp.
  - unfold Script.trans_of, Script.inverted_of. field.
  - intros -> ->. unfold Script.stored_inverted.
    replace (Script.inverted_of b b b) with (IZR (255 - b))
      by (rewrite minus_IZR; unfold Script.inverted_of, Script.gray_of; lra).
    rewrite ToUint8Clamp_byte by (split; lia). lia.
Qed.

Lemma convertToNegative_shows_positive_witness :
  Script.shown_byte 255 255 255 = 255%Z
  /\ Script.shown_byte 0 0 0 = 0%Z
  /\ Script.trans_of 255 255 255 = 1 - Script.gray_of 255 255 255 / 255.
Proof.
  split; [| split].
  - apply (convertToNegative_shows_positive 255 255 255);
      unfold is_byte; try lia; reflexivity.
  - apply (convertToNegative_shows_positive 0 0 0);
      unfold is_byte; try lia; reflexivity.
  - apply (convertToNegative_shows_positive 255 255 255); unfold is_byte; lia.
Defined.

(** *** Deleting an exposure in script.js *)

Lemma map_remove_at {A B : Type} (f : A -> B) (l : list A) :
  forall i, map f (remove_at i l) = remove_at i (map f l).
Proof.
  induction l as [| a l IH]; intros [| i]; cbn [remove_at map];
    try reflexivity.
  now rewrite IH.
Qed.

Lemma nth_error_remove_at {A : Type} (l : list A) :
  forall i k,
    nth_error (remove_at i l) k
    = if (k <? i)%nat then nth_error l k else nth_error l (S k).
Proof.
  induction l as [| a l IH]; intros i k.
  - destruct i, k; cbn [remove_at nth_error]; now destruct (_ <? _)%nat.
  - destruct i as [| i]; cbn [remove_at]; [reflexivity |].
    destruct k as [| k]; [reflexivity |].
    cbn [nth_error]. rewrite IH.
    change (S k <? S i)%nat with (k <? i)%nat. reflexivity.
Qed.

Lemma script_findIndex_lt (i : string) (l : list Script.Exposure) :
  forall index, Script.findIndex i l = Some index ->
                (index < List.length l)%nat.
Proof.
  induction l as [| ex rest IH]; intros index; cbn [Script.findIndex];
    [discriminate |].
  destruct (String.eqb (Script.id ex) i).
  - intros [= <-]. cbn [List.length]. lia.
  - destruct (Script.findIndex i rest) as [k |]; [| discriminate].
    intros [= <-]. specialize (IH k eq_refl). cbn [List.length]. lia.
Qed.

Lemma nth_error_id_In (l : list Script.Exposure) (k : nat)
  (ex : Script.Exposure) :
  nth_error l k = Some ex -> In (Script.id ex) (map Script.id l).
Proof. intros H. apply in_map. eapply nth_error_In. exact H. Qed.

(** X27.  [deleteExposure] of script.js, for an id of the list: exactly
    the first exposure of that id leaves the list; afterwards the
    selection names an exposure of the list, or is [null] when the list
    is empty.  When the selected exposure is deleted the selection moves
    to the one after it, or to the one before it when it was the last.
    When another exposure is deleted, the selection does not stay where
    it was: it moves to the first exposure of the list. *)
Theorem script_deleteExposure_selection (neg : option (nat * nat))
  (exposures : list Script.Exposure) (selected : option string)
  (exposureId : string) (index : nat) :
  Script.findIndex exposureId exposures = Some index ->
  let r := Script.deleteExposure neg exposures selected exposureId in
  map Script.id (fst r) = remove_at index (map Script.id exposures)
  /\ S (List.length (fst r)) = List.length exposures
  /\ match snd r with
     | Some i => In i (map Script.id (fst r))
     | None => fst r = []
     end
  /\ (selected <> Some exposureId ->
      snd r = option_map Script.id (hd_error (remove_at index exposures)))
  /\ (selected = Some exposureId ->
      forall ex, nth_error exposures (S index) = Some ex ->
                 snd r = Some (Script.id ex))
  /\ (selected = Some exposureId ->
      S index = List.length exposures ->
      forall k ex, index = S k -> nth_error exposures k = Some ex ->
                   snd r = Some (Script.id ex)).
Proof.
  intros Hidx r. subst r. unfold Script.deleteExposure. rewrite Hidx.
  pose proof (script_findIndex_lt _ _ _ Hidx) as Hlt.
  assert (Hlen : S (List.length (remove_at index exposures))
                 = List.length exposures).
  { rewrite remove_at_length by exact Hlt. lia. }
  set (next := match selected with
               | Some sel =>
                   if String.eqb sel exposureId then
                     if (index <? List.length exposures - 1)%nat
                     then option_map Script.id
                            (nth_error exposures (index + 1))
                     else if (0 <? index)%nat
                     then option_map Script.id
                            (nth_error exposures (index - 1))
                     else None
                   else None
               | None => None
               end).
  (* the id taken before the deletion names an exposure that stays *)
  assert (Hnext : forall i, next = Some i ->
                            In i (map Script.id (remove_at index exposures))).
  { intros i. unfold next. destruct selected as [sel |]; [| discriminate].
    destruct (String.eqb sel exposureId); [| discriminate].
    destruct (Nat.ltb_spec index (List.length exposures - 1)).
    - destruct (nth_error exposures (index + 1)) as [ex |] eqn:E;
        [| discriminate].
      intros [= <-]. apply (nth_error_id_In _ index).
      rewrite nth_error_remove_at, Nat.ltb_irrefl.
      now rewrite Nat.add_1_r in E.
    - destruct (Nat.ltb_spec 0 index); [| discriminate].
      destruct (nth_error exposures (index - 1)) as [ex |] eqn:E;
        [| discriminate].
      intros [= <-]. apply (nth_error_id_In _ (index - 1)).
      rewrite nth_error_remove_at.
      destruct (Nat.ltb_spec (index - 1) index); [exact E | lia]. }
  assert (Hfirst : next = None ->
            snd (match remove_at index exposures with
                 | ex :: _ =>
                     (Script.init_mask neg (Script.id ex)
                        (remove_at index exposures), Some (Script.id ex))
                 | [] => (remove_at index exposures, None)
                 end)
            = option_map Script.id (hd_error (remove_at index exposures))).
  { intros _. now destruct (remove_at index exposures). }
  split; [| split; [| split; [| split; [| split]]]].
  - destruct next as [i |].
    + cbn [fst]. rewrite (proj2 (init_mask_length _ _ _)).
      apply map_remove_at.
    + destruct (remove_at index exposures) as [| ex rest] eqn:E; cbn [fst];
        rewrite <- map_remove_at, E; [reflexivity |].
      apply (proj2 (init_mask_length _ _ _)).
  - destruct next as [i |].
    + cbn [fst]. rewrite (proj1 (init_mask_length _ _ _)). exact Hlen.
    + destruct (remove_at index exposures) as [| ex rest]; cbn [fst];
        [exact Hlen |].
      rewrite (proj1 (init_mask_length _ _ _)). exact Hlen.
  - destruct next as [i |] eqn:En.
    + cbn [fst snd]. rewrite (proj2 (init_mask_length _ _ _)).
      now apply Hnext.
    + destruct (remove_at index exposures) as [| ex rest]; cbn [fst snd];
        [reflexivity |].
      rewrite (proj2 (init_mask_length _ _ _)). now left.
  - intros Hsel.
    assert (En : next = None).
    { unfold next. destruct selected as [sel |]; [| reflexivity].
      destruct (String.eqb_spec sel exposureId); [congruence | reflexivity]. }
    rewrite En. now apply Hfirst.
  - intros -> ex Hex.
    assert (En : next = Some (Script.id ex)).
    { unfold next. rewrite String.eqb_refl.
      assert (S index < List.length exposures)%nat
        by (apply nth_error_Some; congruence).
      destruct (Nat.ltb_spec index (List.length exposures - 1)); [| lia].
      now rewrite Nat.add_1_r, Hex. }
    rewrite En. reflexivity.
  - intros -> Hlast k ex -> Hex.
    assert (En : next = Some (Script.id ex)).
    { unfold next. rewrite String.eqb_refl.
      destruct (Nat.ltb_spec (S k) (List.length exposures - 1)); [lia |].
      cbn [Nat.ltb Nat.leb Nat.sub]. now rewrite Nat.sub_0_r, Hex. }
    rewrite En. reflexivity.
Qed.

Lemma script_deleteExposure_selection_witness :
  snd (Script.deleteExposure None script_project (Some "e03"%string) "e02")
  = Some "e01"%string.
Proof.
  assert (Hidx : Script.findIndex "e02" script_project = Some 1%nat)
    by reflexivity.
  assert (Hsel : Some "e03"%string <> Some "e02"%string) by discriminate.
  destruct (script_deleteExposure_selection None script_project
              (Some "e03"%string) "e02" 1 Hidx) as (_ & _ & _ & H & _).
  rewrite (H Hsel). reflexivity.
Defined.

(** *** Dodging in the shader *)

(** One exposure of the shader with more dodge at a pixel adds at most
    as much there. *)
Lemma exposure_extra_R_dodge (paper : Paper) (N : nat) (l : R) (j : nat)
  (ex ex' : Darkroom.Exposure) (t a a' : R) :
  valid_paper paper -> (2 <= N)%nat ->
  Darkroom.grade ex' = Darkroom.grade ex ->
  Darkroom.time ex = Fin t -> Darkroom.time ex' = Fin t ->
  Darkroom.exposure_alpha ex j = Fin a ->
  Darkroom.exposure_alpha ex' j = Fin a' -> a <= a' ->
  Darkroom.exposure_extra_R paper (buildSigmoidLUT N) (Fin l) j ex'
  <= Darkroom.exposure_extra_R paper (buildSigmoidLUT N) (Fin l) j ex.
Proof.
  intros Hv HN Hg Ht Ht' Ha Ha' Haa. pose proof Hv as (HD0 & HD & Hb & _).
  unfold Darkroom.exposure_extra_R.
  destruct (gradeParam paper (Darkroom.grade ex)) as [p |] eqn:Hp.
  - rewrite (exposure_constants_time paper ex p t) by assumption.
    rewrite (exposure_constants_time paper ex' p t)
      by (try assumption; now rewrite Hg).
    pose proof (gradeParam_slope _ _ _ Hv Hp) as Hk.
    rewrite Ha, Ha'.
    assert (Hh : forall e v,
               Darkroom.exposure_alpha e j = Fin v ->
               match Darkroom.maskData e with
               | Some _ => 1%Z
               | None => 0%Z
               end = 1%Z
               \/ (match Darkroom.maskData e with
                   | Some _ => 1%Z
                   | None => 0%Z
                   end = 0%Z /\ v = 0)).
    { intros e v Ev. destruct (exposure_alpha_Fin e j) as (w & Ew & Hw).
      rewrite Ev in Ew. injection Ew as <-.
      destruct (Darkroom.maskData e); [now left | right; split; auto]. }
    rewrite (slot_extra_value _ _ _ _ _ _ a) by (now apply Hh).
    rewrite (slot_extra_value _ _ _ _ _ _ a') by (now apply Hh).
    assert (Hlog : (if Rltb 0 a' then ln (Rmax 1e-6 (1 - a')) / LN10 else 0)
                   <= (if Rltb 0 a then ln (Rmax 1e-6 (1 - a)) / LN10 else 0)).
    { pose proof LN10_pos as H10.
      assert (Hmono : forall u w, 0 < u -> u <= w -> ln u / LN10 <= ln w / LN10).
      { intros u w Hu [Huw | ->]; [| lra].
        apply Rmult_le_compat_r; [left; now apply Rinv_0_lt_compat |].
        left. now apply ln_increasing. }
      assert (Hpos : forall v, 0 < Rmax 1e-6 (1 - v))
        by (intros v; apply Rlt_le_trans with 1e-6; [lra | apply Rmax_l]).
      unfold Rltb.
      destruct (Rlt_dec 0 a') as [H0a' | H0a'];
        destruct (Rlt_dec 0 a) as [H0a | H0a]; try lra.
      - apply Hmono; [apply Hpos |]. apply Rle_max_compat_l. lra.
      - replace 0 with (ln 1 / LN10) by (rewrite ln_1; lra).
        apply Hmono; [apply Hpos |]. apply Rmax_lub; lra. }
    match goal with
    | |- match (_ + _ * Darkroom.fetchSigmoid ?f1 ?f2 ?f3 ?f4 (Fin ?x2) - _)%num
         with _ => _ end
         <= match (_ + _ * Darkroom.fetchSigmoid _ _ _ _ (Fin ?x1) - _)%num
            with _ => _ end =>
        destruct (fetchSigmoid_monotone N x2 x1 HN ltac:(nra))
          as (s2 & s1 & -> & -> & Hs & Hs1)
    end.
    rewrite !nmul_FF, !nadd_FF, !nsub_FF.
    apply Rle_max_compat_l. nra.
  - unfold Darkroom.exposure_constants. rewrite Hg, Hp. lra.
Qed.

(** X28.  Dodging never darkens in the shader: when one of at most
    twelve exposures gets more dodge at a pixel (a larger alpha of its
    mask image there; an exposure without mask image counts as alpha 0)
    and everything else stays, the final density of that pixel stays or
    falls. *)
Theorem render_density_falls_with_dodge (paper : Paper) (N : nat)
  (r8 : list Z) (j : nat) (l1 l2 : list Darkroom.Exposure)
  (ex ex' : Darkroom.Exposure) (t a a' : R) :
  valid_paper paper -> (2 <= N)%nat ->
  (List.length (l1 ++ ex :: l2) <= Darkroom.maxExposures)%nat ->
  Darkroom.grade ex' = Darkroom.grade ex ->
  Darkroom.time ex = Fin t -> Darkroom.time ex' = Fin t ->
  Darkroom.exposure_alpha ex j = Fin a ->
  Darkroom.exposure_alpha ex' j = Fin a' -> a <= a' ->
  match Darkroom.render_density paper (l1 ++ ex :: l2) (buildSigmoidLUT N) r8 j,
        Darkroom.render_density paper (l1 ++ ex' :: l2) (buildSigmoidLUT N) r8 j
  with
  | Some d, Some d' => nle d' d = true
  | None, None => True
  | _, _ => False
  end.
Proof.
  intros Hv HN Hlen Hg Ht Ht' Ha Ha' Haa.
  pose proof Hv as (HD0 & HD & Hb & _).
  assert (Hlen' : (List.length (l1 ++ ex' :: l2) <= Darkroom.maxExposures)%nat)
    by (rewrite length_app in *; cbn [List.length] in *; exact Hlen).
  assert (Hf : firstn Darkroom.maxExposures (l1 ++ ex :: l2) = l1 ++ ex :: l2)
    by (apply firstn_all2; exact Hlen).
  assert (Hf' : firstn Darkroom.maxExposures (l1 ++ ex' :: l2) = l1 ++ ex' :: l2)
    by (apply firstn_all2; exact Hlen').
  assert (Hnone : Darkroom.exposure_constants paper ex <> None
                  <-> Darkroom.exposure_constants paper ex' <> None).
  { unfold Darkroom.exposure_constants. rewrite Hg.
    destruct (gradeParam paper (Darkroom.grade ex)); split; intros H;
      first [discriminate | exact H]. }
  assert (Hall : Forall (fun e => Darkroom.exposure_constants paper e <> None)
                   (l1 ++ ex :: l2)
                 <-> Forall (fun e => Darkroom.exposure_constants paper e <> None)
                       (l1 ++ ex' :: l2)).
  { rewrite !Forall_app, !Forall_cons_iff. tauto. }
  destruct (Forall_dec _ (exposure_constants_dec paper) (l1 ++ ex :: l2))
    as [Hok | Hbad].
  - destruct (render_Some paper (l1 ++ ex :: l2) (buildSigmoidLUT N))
      as (U & HU); [now rewrite Hf |].
    destruct (render_Some paper (l1 ++ ex' :: l2) (buildSigmoidLUT N))
      as (U' & HU'); [rewrite Hf'; now apply Hall |].
    rewrite (render_density_closed _ _ _ r8 j U HU) by lra.
    rewrite (render_density_closed _ _ _ r8 j U' HU') by lra.
    rewrite Hf, Hf'. unfold Darkroom.trans_texel.
    rewrite logTrans_of_texel.
    rewrite nle_Fin. apply Rle_min_compat_r. apply Rplus_le_compat_l.
    rewrite !exposures_extra_sum_app.
    unfold Darkroom.exposures_extra_sum at 2 4. cbn [fold_right].
    fold (Darkroom.exposures_extra_sum paper (buildSigmoidLUT N)
            (Fin (Script.logTrans_of (IZR (nth j r8 0%Z)))) j l2).
    pose proof (exposure_extra_R_dodge paper N
                  (Script.logTrans_of (IZR (nth j r8 0%Z))) j ex ex' t a a'
                  Hv HN Hg Ht Ht' Ha Ha' Haa).
    lra.
  - unfold Darkroom.render_density.
    rewrite render_None, render_None; [exact I | |].
    + rewrite Hf'. intros Hok'. apply Hbad. now apply Hall.
    + now rewrite Hf.
Qed.

Lemma render_density_falls_with_dodge_witness :
  match Darkroom.render_density ilford_multigrade
          ([gpu_low "e01"] ++ gpu_high "e02" :: [])
          (buildSigmoidLUT 4096) r8_white 0,
        Darkroom.render_density ilford_multigrade
          ([gpu_low "e01"]
           ++ Darkroom.mkExposure "e02" (Darkroom.time (gpu_high "e02"))
                (Darkroom.grade (gpu_high "e02"))
                (Some (Darkroom.mkImageData 1 1 [0; 0; 0; 255]%Z)) :: [])
          (buildSigmoidLUT 4096) r8_white 0
  with
  | Some d, Some d' => nle d' d = true
  | None, None => True
  | _, _ => False
  end.
Proof.
  apply (render_density_falls_with_dodge ilford_multigrade 4096 r8_white 0
           [gpu_low "e01"] [] (gpu_high "e02") _ 16000 0 (255 / 255)
           ilford_multigrade_valid);
    try reflexivity; try lia; try lra.
  cbn. unfold Darkroom.maxExposures. lia.
Defined.

(** *** Dodging in the scalar loop *)

(** One exposure of the scalar loop with more dodge at a pixel adds at
    most as much there. *)
Lemma excess_R_dodge (dmin span k e0 lt l m m' : R) (N : nat) (j : nat)
  (mk mk' : option (list R)) :
  (2 <= N)%nat -> (Z.of_nat N < 2 ^ 31)%Z -> 0 <= span -> 0 < k ->
  match mk with
  | Some a => array_get a (Z.of_nat j)
  | None => Fin 0
  end = Fin m ->
  match mk' with
  | Some a => array_get a (Z.of_nat j)
  | None => Fin 0
  end = Fin m' ->
  m <= m' ->
  Script.excess_R (Fin dmin) (Fin span) (buildSigmoidLUT N) (Fin l) j
    (Script.mkPre k (Fin e0) (Fin lt) mk')
  <= Script.excess_R (Fin dmin) (Fin span) (buildSigmoidLUT N) (Fin l) j
       (Script.mkPre k (Fin e0) (Fin lt) mk).
Proof.
  intros HN H31 Hspan Hk Hm Hm' Hmm. unfold Script.excess_R.
  rewrite (Dexcess_of_value dmin span k e0 lt l m _ j mk Hm).
  rewrite (Dexcess_of_value dmin span k e0 lt l m' _ j mk' Hm').
  assert (Hlog : (if Rltb 0 m' then ln (Rmax 1e-6 (1 - m')) * LOG10E else 0)
                 <= (if Rltb 0 m then ln (Rmax 1e-6 (1 - m)) * LOG10E else 0)).
  { pose proof LOG10E_pos as H10.
    assert (Hmono : forall u w, 0 < u -> u <= w ->
                                ln u * LOG10E <= ln w * LOG10E).
    { intros u w Hu [Huw | ->]; [| lra].
      apply Rmult_le_compat_r; [lra |]. left. now apply ln_increasing. }
    assert (Hpos : forall v, 0 < Rmax 1e-6 (1 - v))
      by (intros v; apply Rlt_le_trans with 1e-6; [lra | apply Rmax_l]).
    unfold Rltb.
    destruct (Rlt_dec 0 m') as [H0m' | H0m'];
      destruct (Rlt_dec 0 m) as [H0m | H0m]; try lra.
    - apply Hmono; [apply Hpos |]. apply Rle_max_compat_l. lra.
    - replace 0 with (ln 1 * LOG10E) by (rewrite ln_1; lra).
      apply Hmono; [apply Hpos |]. apply Rmax_lub; lra. }
  match goal with
  | |- match (_ + _ * Script.sigmoid _ (Fin ?x2) - _)%num with _ => _ end
       <= match (_ + _ * Script.sigmoid _ (Fin ?x1) - _)%num with _ => _ end =>
      destruct (sigmoid_monotone N x2 x1 HN H31 ltac:(nra))
        as (s2 & s1 & -> & -> & Hs & Hs1)
  end.
  rewrite !nmul_FF, !nadd_FF, !nsub_FF.
  apply Rle_max_compat_l. nra.
Qed.

(** X29.  Dodging never darkens in the scalar loop of script.js: when
    one exposure of the list gets more dodge at a pixel of the picture
    (a larger value of its mask there; an exposure without mask counts
    as 0) and everything else stays, the final density of that pixel
    stays or falls, for any number of exposures. *)
Theorem pixel_density_falls_with_dodge (paper : Paper) (N : nat)
  (logTrans : list R) (j : nat) (l1 l2 : list Script.Exposure)
  (ex ex' : Script.Exposure) (t l m m' : R) :
  valid_paper paper -> (2 <= N)%nat -> (Z.of_nat N < 2 ^ 31)%Z ->
  array_get logTrans (Z.of_nat j) = Fin l ->
  Script.grade ex' = Script.grade ex ->
  Script.time ex = Fin t -> Script.time ex' = Fin t -> 0 < t ->
  dodge_at ex j = Fin m -> dodge_at ex' j = Fin m' -> m <= m' ->
  match Script.pixel_density paper (buildSigmoidLUT N) logTrans
          (l1 ++ ex :: l2) j,
        Script.pixel_density paper (buildSigmoidLUT N) logTrans
          (l1 ++ ex' :: l2) j with
  | Some d, Some d' => nle d' d = true
  | None, None => True
  | _, _ => False
  end.
Proof.
  intros Hv HN H31 Hl Hg Ht Ht' Hpos Hm Hm' Hmm.
  pose proof Hv as (HD0 & HD & Hb & _).
  pose proof (buildSigmoidLUT_valid N HN H31) as HL.
  assert (Hnone : Script.precompute1 paper ex <> None
                  <-> Script.precompute1 paper ex' <> None).
  { unfold Script.precompute1. rewrite Hg.
    destruct (gradeParam paper (Script.grade ex)); split; intros H;
      first [discriminate | exact H]. }
  destruct (Forall_dec _ (precompute1_dec paper) (l1 ++ ex :: l2))
    as [Hok | Hbad].
  - assert (Hok' : Forall (fun e => Script.precompute1 paper e <> None)
                     (l1 ++ ex' :: l2)).
    { apply Forall_app in Hok. destruct Hok as [H1 H2].
      inversion H2 as [| ? ? Ha Hb2]; subst.
      apply Forall_app. split; [assumption |]. constructor; [| assumption].
      now apply Hnone. }
    rewrite !pixel_density_closed by (try assumption; lra).
    rewrite nle_Fin. apply Rle_min_compat_r. apply Rplus_le_compat_l.
    rewrite !exposures_excess_sum_app.
    unfold Script.exposures_excess_sum at 2 4. cbn [fold_right].
    fold (Script.exposures_excess_sum paper (buildSigmoidLUT N)
            (array_get logTrans (Z.of_nat j)) j l2).
    assert (Hone : Script.exposure_excess_R paper (buildSigmoidLUT N)
                     (array_get logTrans (Z.of_nat j)) j ex'
                   <= Script.exposure_excess_R paper (buildSigmoidLUT N)
                        (array_get logTrans (Z.of_nat j)) j ex); [| lra].
    unfold Script.exposure_excess_R. rewrite Hl.
    destruct (gradeParam paper (Script.grade ex)) as [p |] eqn:Hp.
    + rewrite (precompute1_time paper ex p t) by (try assumption; lra).
      rewrite (precompute1_time paper ex' p t)
        by (try assumption; try lra; now rewrite Hg).
      apply (excess_R_dodge _ _ _ _ _ _ m m'); try assumption; try lra.
      eapply gradeParam_slope; eauto.
    + apply Forall_app in Hok. destruct Hok as [_ H2].
      inversion H2 as [| ? ? Ha _]; subst. exfalso. apply Ha.
      unfold Script.precompute1. now rewrite Hp.
  - unfold Script.pixel_density.
    rewrite (precompute_None _ _ Hbad), precompute_None; [exact I |].
    intros Hok'. apply Hbad.
    apply Forall_app in Hok'. destruct Hok' as [H1 H2].
    inversion H2 as [| ? ? Ha Hb2]; subst.
    apply Forall_app. split; [assumption |]. constructor; [| assumption].
    now apply Hnone.
Qed.

Lemma pixel_density_falls_with_dodge_witness :
  match Script.pixel_density ilford_multigrade (buildSigmoidLUT 2048)
          [Script.logTrans_of 255]
          ([script_low "e01"] ++ script_high "e02" :: []) 0,
        Script.pixel_density ilford_multigrade (buildSigmoidLUT 2048)
          [Script.logTrans_of 255]
          ([script_low "e01"]
           ++ Script.mkExposure "e02" (Fin 16000) 5 (Some [1]) :: []) 0
  with
  | Some d, Some d' => nle d' d = true
  | None, None => True
  | _, _ => False
  end.
Proof.
  apply (pixel_density_falls_with_dodge ilford_multigrade 2048
           [Script.logTrans_of 255] 0 [script_low "e01"] []
           (script_high "e02")
           (Script.mkExposure "e02" (Fin 16000) 5 (Some [1]))
           16000 (Script.logTrans_of 255) 0 1 ilford_multigrade_valid);
    try reflexivity; try lia; lra.
Defined.
